(* ===== verification/_CoqProject ===== *)
-Q . S2P
Prelude.v
WireHeader.v
SimpleWire.v
WireProtocol.v
WireWait.v
MessageWires.v
ResultSetWire.v
ResultSetWires.v
ResultSetReader.v
ResultSetWriter.v
ResultSetEnvelope.v
Connection.v
Text.v
Configuration.v
Grpc.v
Status.v
Session.v
SessionStore.v
WorkerPool.v
IpcListener.v
StreamListener.v
Authentication.v
Metrics.v
DataStore.v
Services.v
Loopback.v
Handshake.v
EndpointConfig.v
Endpoint.v
Request.v
Framing.v
Response.v
WorkerTable.v
RequestService.v
Worker.v
Stream.v
StreamWorker.v
Framework.v
TaskScheduler.v
Wakeup.v
Watcher.v
Base128.v
ValueIo.v
ValueFormat.v
ValueOutput.v
ValueInput.v
ValueWriter.v
