(* ===== verification/Prelude.v ===== *)
(** * A verification development for tateyama

    tateyama is the server framework of the Tsurugi database: it accepts connections from
    clients, on one machine through shared memory (the ipc endpoint) or over TCP (the stream
    endpoint), keeps a session per connection, passes requests to the services of the database,
    returns their responses and result sets, and provides the task scheduler the database runs
    its work on.  This library translates the program's own logic into Rocq functions and step
    relations and proves what makes it correct.  Paths below are relative to src/src/tateyama
    unless they start with include/ or mock/.

    ** How the parts interact

    A client process attaches to the connection queue in shared memory (Connection), is given a
    slot and a session id by the listener thread (IpcListener, over the threads and worker
    objects of WorkerPool), and then exchanges messages with a worker of the server through a
    pair of ring buffers: requests one way, responses the other way (SimpleWire, the wait and
    notify protocol in MessageWires and WireWait, both ends together in WireProtocol, the message
    headers in WireHeader).  Over TCP the same messages travel in frames (Stream) on connections a second
    listener takes (StreamListener).  Both listeners are built from the server's configuration
    (Configuration, EndpointConfig), started and shut down by the endpoints (Endpoint).  The
    worker (Handshake, Worker for shared memory, StreamWorker for TCP) first authenticates the
    client (Authentication), then reads requests (Request), serves some of them itself, passes
    the others to the routing service (Framework) and keeps a table of the ones not answered yet
    (WorkerTable).  Services answer through response objects (Response, Stream), possibly from
    other threads, and send result sets through further wires in shared memory (ResultSetWire,
    ResultSetWires) by way of writers that never block the service (ResultSetWriter,
    ResultSetEnvelope), from which the client reads them (ResultSetReader); rows inside them are
    encoded by the serializer (Base128, ValueIo, ValueFormat, ValueOutput, ValueInput,
    ValueWriter).  Sessions can be listed, shut down and given variables by the session service
    (Session, with the parsing of numbers in Text).  The task scheduler (TaskScheduler, the
    sleeping and waking of its threads in Wakeup, the thread for conditional tasks in Watcher) is
    used by services. The framework sets up, starts and shuts down all components (Framework).
    The status record in shared memory lets other processes see the server and ask it to shut
    down (Status); counts of sessions go to the metrics store (Metrics); administrators ask for
    the outstanding requests (RequestService); the data store keeps the blobs (DataStore), which
    a gRPC server relays to clients (Grpc); smaller services are in Services, and the in-process
    endpoint used by tests in Loopback.

    ** Files

    - Prelude: results of C++ code (return, exception, undefined behaviour), machine integers as
      [Z] with wrap-around, bytes and little-endian numbers, memory as byte lists, sums over
      lists.
    - WireHeader, SimpleWire, WireProtocol, WireWait, MessageWires (endpoint/ipc/wire.h): headers as
      instances of one class; [simple_wire] with its two copying loops at the level of bytes and
      64-bit positions; a system of one writer and one reader with every interleaving of their
      steps, and the same with flags, mutex and condition variables; [peep], [await], time limits, and the response queue of
      bootstrap/server_wires_impl.h.
    - ResultSetWire, ResultSetWires (endpoint/ipc/wire.h): records with length headers that
      become visible when flushed; the set of wires of a result set and its buffers.
    - ResultSetReader (the same, and bootstrap/server_wires_impl.h): the client that searches the
      wires for records and waits for them, under concurrent writers.
    - ResultSetWriter, ResultSetEnvelope (endpoint/ipc/bootstrap/server_wires_impl.h): a writer
      with its annex buffers and transfer thread; counting of writers, the end of the records,
      the garbage collector.
    - Connection (endpoint/ipc/wire.h): the queues of free and requested slots and administrator
      slots, element states, acceptance and rejection.
    - Text, Session (session/, session/resource, session/service): std::stoul and std::to_string,
      session variables, contexts, the container of sessions, the resource bridge and the
      service.
    - Authentication (authentication/resource; endpoint/common/administrators.h,
      session_info_impl.h, alive_timer.h), Handshake (endpoint/common/worker_common.h and
      worker_configuration.h), Request (endpoint/common/request.h), Response
      (endpoint/common/response.h, endpoint/ipc/ipc_response.cpp), WorkerTable (the requests of a
      worker, endpoint/common/worker_common.h, against a class of responses), Worker
      (endpoint/ipc/bootstrap/ipc_worker.cpp), Stream (endpoint/stream/stream.h,
      stream_response.cpp), StreamWorker (endpoint/stream/bootstrap/stream_worker.cpp); both
      workers instantiate the class of WorkerTable with their responses.
    - WorkerPool, IpcListener, StreamListener (endpoint/ipc/bootstrap/ipc_listener.h,
      endpoint/stream/bootstrap/stream_listener.h): slots, worker threads and undertakers.
    - Endpoint (endpoint/ipc/bootstrap/ipc_endpoint.h,
      endpoint/stream/bootstrap/stream_endpoint.h, diagnostic/resource): set-up, start and
      shutdown of an endpoint over a class of listeners, of which both listeners are instances,
      and the callbacks for diagnostics, which are gone over without a lock.
    - Grpc (grpc/): the two threads of the gRPC server, its configuration and the registration of
      the blob relay service.
    - Configuration (include/tateyama/api/configuration.h), EndpointConfig (the constructors of
      endpoint/common/worker_configuration.h and of the listeners).
    - Framing (utils/protobuf_utils.cpp, endpoint/common/endpoint_proto_utils.h):
      varint-delimited headers before the payload.  SessionStore
      (include/tateyama/api/server/session_store.h).
    - Status (status/resource), Metrics (metrics/, endpoint/ipc/metrics,
      endpoint/stream/metrics), RequestService (request/service), DataStore (datastore/,
      blob_relay_privilege/, framework/transactional_kvs_resource.cpp), Services
      (altimeter/service, system/service, authentication/service, debug), Loopback
      (endpoint/loopback, loopback).
    - Framework (framework/server.cpp, routing_service.cpp,
      include/tateyama/framework/repository.h).
    - TaskScheduler, Wakeup, Watcher (include/tateyama/task_scheduler): queues, stealing, sticky
      and initial tasks, placement, conditional tasks; thread_control and its races; the thread
      of the conditional worker; both with the printing of the queues.
    - Base128, ValueIo, ValueFormat, ValueOutput, ValueInput, ValueWriter
      (mock/jogasaki/serializer).

    State is a record with the names of the data members, an operation a function on it with the
    name of the method; a C++ exception or undefined access is a value of [res].  Code with
    threads is a step relation whose steps are the atomic accesses or the critical sections, and
    a property of all executions is an invariant of it.

    ** What is proved

    - Delivery: on a wire, whatever the interleaving, the reader has read a prefix of what was
      written, byte for byte ([wire_delivery_safe]), and all of it in the end
      ([wire_delivery_complete]); no side sleeps on its condition variable in vain, but for the
      reader of a wire that was closed by force, and without alarms all threads come to rest
      ([wire_waits]); result-set wires refine a queue of records
      ([resultset_wire_refines]), and the client of a result set gets the records of all its
      wires, whole and in order, and then the end ([resultset_delivery]); the records of a writer
      reach the wire in order, annexes or not, until the client closes, and nothing after that
      ([writer_stream]), and a released writer completes
      ([released_writer_progress]); the end of the records is signalled once
      ([eor_exactly_once]); the stream endpoint delivers requests however the network cuts them
      ([stream_await_refines]), and what it sends decodes to the messages sent
      ([stream_output_parses]).
    - Sessions: slots are conserved ([connection_slots]); the listeners never give a slot with a
      running worker away and count their sessions ([ipc_listener_slots],
      [stream_listener_sessions]), and end after their workers ([ipc_listener_stops]), so that an
      endpoint leaves nothing behind when it is shut down, and goes wrong only where it meets a
      printing of diagnostics ([endpoint_shutdown]); a handshake
      establishes a session only for a verified user, but for one flaw
      ([handshake_authenticates]); every request is answered exactly once
      ([response_exactly_once]), and when a session ends all its requests have been, but for
      those that a cancellation or a printing of diagnostics erased and, on a stream, answers
      after the client's goodbye ([worker_drains], [stream_worker_drains]); a session the server
      shuts down ends ([server_shutdown_ends]); blobs are available all or none
      ([blobs_all_or_none]) and their paths are told only to who may know them
      ([blob_path_privileged]); headers and payloads are told apart ([request_framing]); a
      session only sees what it may ([service_isolation]), variables keep their types
      ([service_typed]), concurrent shutdown requests agree ([shutdown_requests_agree]).
    - Scheduling: no task is lost or run twice ([scheduler_conservation]), no wake-up is lost,
      but for tasks that a printing of the queues puts back ([no_lost_wakeup]), and stopping ends ([stop_terminates]); conditional tasks are kept until
      they ran, with the same exception ([watcher_keeps_tasks]) and their thread can be stopped ([watcher_stops]).
    - Encoding: the serializer writes the specified format ([value_output_format]) and the reader
      reads it back ([value_stream_roundtrip]).
    - Observation: the status record lists the channels that exist ([status_channels]) and a
      request to shut down wakes the waiting process ([shutdown_request_wakes]); the metrics
      store keeps the last value of each item ([metrics_store_refines]) and the session counts it
      shows are those of the endpoints ([session_counts_shown]); the request service lists the
      oldest requests ([request_list_spec]).
    - Life cycle: components are set up, started and shut down in order ([server_lifecycle]); the
      gRPC server serves after its start and is stopped after its shutdown ([grpc_lifecycle]).
    - Configuration: properties come from the file, else from the default
      ([configuration_lookup]), and a listener is only made from values in range
      ([ipc_listener_configured]).
    - Deviations: theorems named after a fault, such as [released_partial_livelock],
      [unnamed_credential_admits], [abandoned_request_lost], [diagnostics_race],
      [early_conditional_dropped], [rescheduling_blocks_stop], [diagnostics_strand_tasks],
      [unfinished_message_blocks], [client_shutdown_waits], [force_close_unnoticed],
      [diagnostics_lose_request], [start_race], [printing_strands_task] or
      [repeated_request_refused], state what the code does where it
      does not do what it means to.

    ** Bounds and fuel

    Machine integers are kept at their width: positions and counters wrap at 64 bits, lengths at
    32, slots at 16.  Loops that recurse on data (lists of arrivals, components, blobs) need no
    fuel.  [read_loop] of SimpleWire takes the length of the payload as fuel, of which every
    round reads at least one byte; the delivery theorems are about the step relation, which needs
    none; [shutdown_request] of Session is the loop without interference, and its concurrent form
    is proved to terminate; [decode] of Stream uses the number of bytes as fuel, of which every
    message takes at least seven.  The loops of TaskScheduler take the number of workers or of
    queued tasks as fuel, each round using up one.

    ** Parameters

    The shared-memory allocator, protobuf, HTTP, JSON, JWT and gRPC libraries, the file system,
    the blob relay library, the takatori value classes, the concurrent queue of the scheduler,
    and the components run by the framework are parameters; where a theorem relies on their
    documented behaviour it is a named hypothesis or a class with its laws, and a concrete
    instance shows that it can hold.

    ** Not modelled

    What the diagnostics print, thread affinity, the construction of shared memory, altimeter
    events and logging; the mock servers, benchmarks and examples, except for the serializer. *)
From stdpp Require Export base tactics list numbers option relations.
From stdpp Require Export strings.
From Stdlib Require Export ZArith Lia.

#[global] Open Scope Z_scope.

(** * Results of C++ code

    [Ok v] is a normal return, [Throw e] an exception that leaves the function,
    [Undefined] an access the language gives no meaning to (a copy outside its
    buffer, an aborted process). *)

Inductive exn : Type :=
| runtime_error (what : string)
| out_of_range
| invalid_argument (what : string)
| other_exception (what : string).

Inductive res (A : Type) : Type :=
| Ok (a : A)
| Throw (e : exn)
| Undefined.
Arguments Ok {A} _.
Arguments Throw {A} _.
Arguments Undefined {A}.

#[global] Instance res_ret : MRet res := fun A a => Ok a.
#[global] Instance res_bind : MBind res := fun A B f m =>
  match m with Ok a => f a | Throw e => Throw e | Undefined => Undefined end.
#[global] Instance res_fmap : FMap res := fun A B f m =>
  match m with Ok a => Ok (f a) | Throw e => Throw e | Undefined => Undefined end.

Definition is_Ok {A} (r : res A) : Prop := exists a, r = Ok a.

(** [try_catch m h] runs the handler [h] on an exception of [m]. *)
Definition try_catch {A} (m : res A) (h : exn -> res A) : res A :=
  match m with Throw e => h e | r => r end.

(** * Machine integers: an unsigned [w]-bit value is a [Z] in [[0, 2^w)]. *)

Definition wrap (w x : Z) : Z := x mod 2 ^ w.
Abbreviation u8 := (wrap 8).
Abbreviation u16 := (wrap 16).
Abbreviation u32 := (wrap 32).
Abbreviation u64 := (wrap 64).
Definition in_range (w x : Z) : Prop := 0 <= x < 2 ^ w.

Lemma wrap_small w x : in_range w x -> wrap w x = x.
Proof. apply Z.mod_small. Qed.

Lemma wrap_range w x : 0 <= w -> in_range w (wrap w x).
Proof. intros. apply Z.mod_pos_bound. lia. Qed.

(** * Bytes and little-endian integers *)

Abbreviation byte := Z (only parsing).
Definition is_byte (b : byte) : Prop := in_range 8 b.

Definition zlen {A} (l : list A) : Z := Z.of_nat (length l).

Fixpoint le_bytes (n : nat) (x : Z) : list byte :=
  match n with
  | O => []
  | S n => x mod 256 :: le_bytes n (x / 256)
  end.

Fixpoint le_Z (bs : list byte) : Z :=
  match bs with
  | [] => 0
  | b :: bs => b + 256 * le_Z bs
  end.

Lemma length_le_bytes n x : length (le_bytes n x) = n.
Proof. revert x. induction n as [|n IH]; intros x; simpl; [done|by rewrite IH]. Qed.

Lemma le_Z_bytes n x : le_Z (le_bytes n x) = x mod 256 ^ Z.of_nat n.
Proof.
  revert x. induction n as [|n IH]; intros x; simpl.
  - by rewrite Z.mod_1_r.
  - rewrite IH, Nat2Z.inj_succ, Z.pow_succ_r by lia.
    rewrite Z.rem_mul_r by lia. lia.
Qed.

Lemma le_bytes_Z bs : Forall is_byte bs -> le_bytes (length bs) (le_Z bs) = bs.
Proof.
  induction 1 as [|b bs Hb _ IH]; simpl; [done|].
  unfold is_byte, in_range in Hb.
  replace ((b + 256 * le_Z bs) mod 256) with b by (rewrite Z.mul_comm, Z.mod_add, Z.mod_small; lia).
  replace ((b + 256 * le_Z bs) / 256) with (le_Z bs)
    by (rewrite Z.mul_comm, Z.div_add, Z.div_small; lia).
  by rewrite IH.
Qed.

Lemma le_bytes_is_byte n x : Forall is_byte (le_bytes n x).
Proof.
  revert x. induction n as [|n IH]; intros x; simpl; constructor; [|apply IH].
  unfold is_byte, in_range. apply Z.mod_pos_bound. lia.
Qed.

(** * Memory: [memcpy] between a buffer and a byte string

    An access outside the buffer is [Undefined]. *)

Definition load (buf : list byte) (off len : Z) : res (list byte) :=
  if bool_decide (0 <= off /\ 0 <= len /\ off + len <= zlen buf)
  then Ok (take (Z.to_nat len) (drop (Z.to_nat off) buf)) else Undefined.

Definition store (buf : list byte) (off : Z) (bs : list byte) : res (list byte) :=
  if bool_decide (0 <= off /\ off + zlen bs <= zlen buf)
  then Ok (take (Z.to_nat off) buf ++ bs ++ drop (Z.to_nat off + length bs) buf) else Undefined.

(** byte [i] of a buffer, when in range *)
Declare Scope wire_scope.
Notation "l !z i" := (l !! Z.to_nat i) (at level 20) : wire_scope.
#[global] Open Scope wire_scope.

Lemma load_Ok buf off len :
  0 <= off -> 0 <= len -> off + len <= zlen buf ->
  load buf off len = Ok (take (Z.to_nat len) (drop (Z.to_nat off) buf)).
Proof. intros. unfold load. by rewrite bool_decide_true. Qed.

Lemma load_0_Ok buf len :
  0 <= len <= zlen buf -> load buf 0 len = Ok (take (Z.to_nat len) buf).
Proof. intros. rewrite load_Ok by lia. by rewrite drop_0. Qed.

Lemma store_is_Ok buf off bs :
  0 <= off -> off + zlen bs <= zlen buf -> exists buf', store buf off bs = Ok buf'.
Proof. intros. unfold store. rewrite bool_decide_true by done. eauto. Qed.

Lemma store_Ok buf off bs :
  0 <= off -> off + zlen bs <= zlen buf ->
  store buf off bs = Ok (take (Z.to_nat off) buf ++ bs ++ drop (Z.to_nat off + length bs) buf).
Proof. intros. unfold store. by rewrite bool_decide_true. Qed.

Lemma zlen_app {A} (l1 l2 : list A) : zlen (l1 ++ l2) = zlen l1 + zlen l2.
Proof. unfold zlen. rewrite length_app. lia. Qed.
Lemma zlen_nonneg {A} (l : list A) : 0 <= zlen l.
Proof. unfold zlen. lia. Qed.
Lemma zlen_nil {A} : zlen (@nil A) = 0.
Proof. done. Qed.
Lemma zlen_cons {A} (x : A) l : zlen (x :: l) = 1 + zlen l.
Proof. unfold zlen. simpl. lia. Qed.
Lemma zlen_take {A} (l : list A) n : 0 <= n <= zlen l -> zlen (take (Z.to_nat n) l) = n.
Proof. unfold zlen. rewrite length_take. lia. Qed.
Lemma zlen_drop {A} (l : list A) n : 0 <= n <= zlen l -> zlen (drop (Z.to_nat n) l) = zlen l - n.
Proof. unfold zlen. rewrite length_drop. lia. Qed.

(** [store] keeps the length of the buffer and changes exactly its range. *)
Lemma store_lookup buf off bs buf' :
  store buf off bs = Ok buf' ->
  zlen buf' = zlen buf /\
  (forall i, 0 <= i < zlen bs -> buf' !z (off + i) = bs !z i) /\
  (forall j, 0 <= j -> j < off \/ off + zlen bs <= j -> buf' !z j = buf !z j).
Proof.
  unfold store. case_bool_decide as Hb; [|done]. intros [= <-].
  unfold zlen in *. split_and!.
  - rewrite !length_app, length_take, length_drop. lia.
  - intros i Hi. rewrite lookup_app_r by (rewrite length_take; lia).
    rewrite length_take, lookup_app_l by lia. f_equal. lia.
  - intros j Hj [Hlt|Hge].
    + rewrite lookup_app_l by (rewrite length_take; lia). by rewrite lookup_take_lt by lia.
    + rewrite lookup_app_r by (rewrite length_take; lia).
      rewrite length_take, lookup_app_r, lookup_drop by lia. f_equal. lia.
Qed.

Lemma load_lookup buf off len bs :
  load buf off len = Ok bs ->
  zlen bs = len /\ forall i, 0 <= i < len -> bs !z i = buf !z (off + i).
Proof.
  unfold load. case_bool_decide as Hb; [|done]. intros [= <-].
  unfold zlen in *. split.
  - rewrite length_take, length_drop. lia.
  - intros i Hi. rewrite lookup_take_lt by lia. rewrite lookup_drop. f_equal. lia.
Qed.

(** * Sums over lists *)

Definition sum_of {A} (f : A -> nat) (l : list A) : nat := foldr (fun x n => (f x + n)%nat) O l.

Lemma sum_of_cons {A} (f : A -> nat) x l : sum_of f (x :: l) = (f x + sum_of f l)%nat.
Proof. done. Qed.
Lemma sum_of_app {A} (f : A -> nat) l1 l2 : sum_of f (l1 ++ l2) = (sum_of f l1 + sum_of f l2)%nat.
Proof. induction l1 as [|x l1 IH]; [done|]. cbn [app]. rewrite !sum_of_cons, IH. lia. Qed.
Lemma sum_of_insert {A} (f : A -> nat) l k x y :
  l !! k = Some x -> (sum_of f (<[k := y]> l) + f x = sum_of f l + f y)%nat.
Proof.
  revert k. induction l as [|z l IH]; intros [|k] Hk; try done.
  - injection Hk as ->. change (<[0%nat := y]> (x :: l)) with (y :: l). rewrite !sum_of_cons. lia.
  - change (<[S k := y]> (z :: l)) with (z :: <[k := y]> l). rewrite !sum_of_cons. specialize (IH k Hk). lia.
Qed.
Lemma sum_of_elem {A} (f : A -> nat) l k x : l !! k = Some x -> (f x <= sum_of f l)%nat.
Proof. intros Hk. apply list_elem_of_split_length in Hk as (l1 & l2 & -> & _). rewrite sum_of_app, sum_of_cons. lia. Qed.
