(* ===== verification/WireHeader.v ===== *)
(** Headers of the messages on the shared-memory wires
    (src/tateyama/endpoint/ipc/wire.h: [message_header], [response_header],
    [length_header]).

    The wires are templates over their header class; [Header] is what a wire
    relies on: a fixed size, a serialised form of that size which the
    constructor from a buffer reads back, and a payload length. *)
From S2P Require Import Prelude.

Class Header (T : Type) := {
  size : Z;
  get_length : T -> Z;
  get_buffer : T -> list byte;
  of_buffer : list byte -> T;
  default_header : T;
  valid : T -> Prop
}.

Class HeaderOk (T : Type) `{Header T} := {
  size_pos : 0 < size (T := T);
  length_get_buffer : forall h : T, zlen (get_buffer h) = size (T := T);
  get_length_range : forall h : T, valid h -> in_range 32 (get_length h);
  of_get_buffer : forall h : T, valid h -> of_buffer (get_buffer h) = h;
  get_of_buffer : forall bs, Forall is_byte bs -> zlen bs = size (T := T) ->
    valid (of_buffer bs) /\ get_buffer (of_buffer bs) = bs;
}.

(** [std::memcpy(&x, buffer + off, n)] for an [n]-byte unsigned integer [x] *)
Definition read_uint (buffer : list byte) (off n : nat) : Z :=
  le_Z (take n (drop off buffer)).

Lemma read_uint_head n x rest :
  0 <= x < 256 ^ Z.of_nat n -> read_uint (le_bytes n x ++ rest) 0 n = x.
Proof.
  intros Hx. unfold read_uint. rewrite drop_0, take_app_le by (rewrite length_le_bytes; lia).
  rewrite take_ge by (rewrite length_le_bytes; lia). by rewrite le_Z_bytes, Z.mod_small.
Qed.

Lemma read_uint_skip m x n rest :
  (m <= n)%nat -> read_uint (le_bytes m x ++ rest) n = read_uint rest (n - m).
Proof.
  intros Hx. unfold read_uint. by rewrite drop_app_ge, length_le_bytes by (rewrite length_le_bytes; lia).
Qed.

Lemma read_uint_range bs off n :
  Forall is_byte bs -> 0 <= read_uint bs off n < 256 ^ Z.of_nat n.
Proof.
  intros Hbs. unfold read_uint.
  assert (Forall is_byte (take n (drop off bs))) as Hf by (by apply Forall_take, Forall_drop).
  assert (length (take n (drop off bs)) <= n)%nat as Hl by (rewrite length_take; lia).
  revert Hf Hl. generalize (take n (drop off bs)) as l. clear.
  intros l Hf. revert n. induction Hf as [|b l Hb _ IH]; simpl; intros n Hl.
  - lia.
  - destruct n as [|n]; [lia|]. specialize (IH n ltac:(lia)).
    rewrite Nat2Z.inj_succ, Z.pow_succ_r by lia. unfold is_byte, in_range in Hb. lia.
Qed.

Lemma le_bytes_read_uint bs off n :
  Forall is_byte bs -> (off + n <= length bs)%nat ->
  le_bytes n (read_uint bs off n) = take n (drop off bs).
Proof.
  intros Hbs Hn. unfold read_uint.
  pose proof (le_bytes_Z (take n (drop off bs)) ltac:(by apply Forall_take, Forall_drop)) as E.
  by rewrite length_take, length_drop, Nat.min_l in E by lia.
Qed.

(** ** message_header: 2-byte slot index, 4-byte length *)

Record message_header := MessageHeader { mh_idx : Z; mh_length : Z }.

Definition message_header_size : Z := 4 + 2.
Definition terminate_request : Z := 0xffff.
Definition message_header_valid (h : message_header) : Prop :=
  in_range 16 (mh_idx h) /\ in_range 32 (mh_length h).
Definition message_header_get_buffer (h : message_header) : list byte :=
  le_bytes 2 (mh_idx h) ++ le_bytes 4 (mh_length h).
Definition message_header_of_buffer (b : list byte) : message_header :=
  MessageHeader (read_uint b 0 2) (read_uint b 2 4).

#[global] Instance message_header_Header : Header message_header := {
  size := message_header_size;
  get_length := mh_length;
  get_buffer := message_header_get_buffer;
  of_buffer := message_header_of_buffer;
  default_header := MessageHeader 0 0;
  valid := message_header_valid
}.

(** ** response_header: 2-byte slot index, 2-byte type, 4-byte length *)

Record response_header := ResponseHeader { rh_idx : Z; rh_length : Z; rh_type : Z }.

Definition response_header_size : Z := 4 + 2 + 2.
Definition response_header_valid (h : response_header) : Prop :=
  in_range 16 (rh_idx h) /\ in_range 32 (rh_length h) /\ in_range 16 (rh_type h).
Definition response_header_get_buffer (h : response_header) : list byte :=
  le_bytes 2 (rh_idx h) ++ le_bytes 2 (rh_type h) ++ le_bytes 4 (rh_length h).
Definition response_header_of_buffer (b : list byte) : response_header :=
  ResponseHeader (read_uint b 0 2) (read_uint b 4 4) (read_uint b 2 2).

#[global] Instance response_header_Header : Header response_header := {
  size := response_header_size;
  get_length := rh_length;
  get_buffer := response_header_get_buffer;
  of_buffer := response_header_of_buffer;
  default_header := ResponseHeader 0 0 0;
  valid := response_header_valid
}.

(** ** length_header: 4-byte length; the constructor from [std::size_t]
    truncates to 32 bits *)

Record length_header := LengthHeader { lh_length : Z }.

Definition length_header_size : Z := 4.
Definition length_header_of_size_t (length : Z) : length_header := LengthHeader (u32 length).
Definition length_header_valid (h : length_header) : Prop := in_range 32 (lh_length h).
Definition length_header_get_buffer (h : length_header) : list byte := le_bytes 4 (lh_length h).
Definition length_header_of_buffer (b : list byte) : length_header :=
  LengthHeader (read_uint b 0 4).

#[global] Instance length_header_Header : Header length_header := {
  size := length_header_size;
  get_length := lh_length;
  get_buffer := length_header_get_buffer;
  of_buffer := length_header_of_buffer;
  default_header := LengthHeader 0;
  valid := length_header_valid
}.

(** ** The three classes satisfy the interface *)

Ltac read_uints :=
  rewrite ?read_uint_skip by lia; cbn -[read_uint le_bytes Z.pow];
  first [ by apply read_uint_head
        | by rewrite <- (app_nil_r (le_bytes _ _)); apply read_uint_head ].

#[global] Instance message_header_HeaderOk : HeaderOk message_header.
Proof.
  split; cbn -[read_uint le_bytes Z.pow].
  - done.
  - intros h. unfold message_header_get_buffer. by rewrite zlen_app; unfold zlen; rewrite !length_le_bytes.
  - by intros h [_ ?].
  - intros [i l] [Hi Hl]. unfold message_header_of_buffer, message_header_get_buffer.
    cbn -[read_uint le_bytes Z.pow] in *. f_equal; read_uints.
  - intros bs Hbs Hl. split.
    + split; [apply (read_uint_range bs 0 2 Hbs)|apply (read_uint_range bs 2 4 Hbs)].
    + unfold message_header_get_buffer, zlen, message_header_size in *.
      cbn -[read_uint le_bytes]. rewrite !le_bytes_read_uint by (done || lia).
      rewrite drop_0. rewrite (take_ge (drop 2 bs)) by (rewrite length_drop; lia).
      apply take_drop.
Qed.

#[global] Instance response_header_HeaderOk : HeaderOk response_header.
Proof.
  split; cbn -[read_uint le_bytes Z.pow].
  - done.
  - intros h. unfold response_header_get_buffer.
    rewrite !zlen_app; unfold zlen; by rewrite !length_le_bytes.
  - by intros h (_ & ? & _).
  - intros [i l t] (Hi & Hl & Ht). unfold response_header_of_buffer, response_header_get_buffer.
    cbn -[read_uint le_bytes Z.pow] in *. f_equal; read_uints.
  - intros bs Hbs Hl. split.
    + split_and!; [apply (read_uint_range bs 0 2 Hbs)|apply (read_uint_range bs 4 4 Hbs)
        |apply (read_uint_range bs 2 2 Hbs)].
    + unfold response_header_get_buffer, zlen, response_header_size in *.
      cbn -[read_uint le_bytes]. rewrite !le_bytes_read_uint by (done || lia).
      rewrite drop_0. rewrite (take_ge (drop 4 bs)) by (rewrite length_drop; lia).
      replace (drop 4 bs) with (drop 2 (drop 2 bs)) by apply drop_drop. rewrite take_drop. apply take_drop.
Qed.

#[global] Instance length_header_HeaderOk : HeaderOk length_header.
Proof.
  split; cbn -[read_uint le_bytes Z.pow].
  - done.
  - intros h. unfold length_header_get_buffer, zlen. by rewrite length_le_bytes.
  - done.
  - intros [l] Hl. unfold length_header_of_buffer, length_header_get_buffer.
    cbn -[read_uint le_bytes Z.pow] in *. f_equal; read_uints.
  - intros bs Hbs Hl. split.
    + apply (read_uint_range bs 0 4 Hbs).
    + unfold length_header_get_buffer, zlen, length_header_size in *.
      cbn -[read_uint le_bytes]. rewrite le_bytes_read_uint by (done || lia).
      rewrite drop_0. by rewrite take_ge by lia.
Qed.
