(* ===== verification/SimpleWire.v ===== *)
(** One-to-one ring buffer in shared memory (src/tateyama/endpoint/ipc/wire.h,
    [simple_wire<T>]).

    [pushed_] and [poped_] are free-running 64-bit counters; a byte with stream
    position [n] lives at offset [n % capacity_] of the buffer.  The buffer
    itself (the region at [base]) is the field [buffer]; pointers into it are
    offsets from [base].  The wait flags, the mutex and the two condition
    variables are modelled in [Handshake.v]: here a call that has to wait
    returns [Blocked] and leaves the wire as it is. *)
From S2P Require Import Prelude WireHeader.

Record simple_wire (T : Type) := SimpleWire {
  capacity_ : Z;
  pushed_ : Z;
  poped_ : Z;
  header_received_ : T;
  need_dispose_ : Z;
  copy_of_payload_ : option (list byte);
  buffer : list byte
}.
Arguments SimpleWire {T}.
Arguments capacity_ {T}. Arguments pushed_ {T}. Arguments poped_ {T}.
Arguments header_received_ {T}. Arguments need_dispose_ {T}.
Arguments copy_of_payload_ {T}. Arguments buffer {T}.

(** What a string_view returned by [payload] points at. *)
Inductive view :=
| ViewRing (off len : Z)
| ViewCopy (bs : list byte).

(** Result of one round of a copying loop. *)
Inductive progress (A : Type) :=
| Blocked
| Closed
| Next (a : A).
Arguments Blocked {A}. Arguments Closed {A}. Arguments Next {A} _.

Section SimpleWire.
Context {T : Type} `{!Header T}.
Local Abbreviation wire := (simple_wire T).
Implicit Types (w : wire) (bs from : list byte).

Definition set_pushed (n : Z) w : wire :=
  SimpleWire (capacity_ w) n (poped_ w) (header_received_ w) (need_dispose_ w)
    (copy_of_payload_ w) (buffer w).
Definition set_poped (n : Z) w : wire :=
  SimpleWire (capacity_ w) (pushed_ w) n (header_received_ w) (need_dispose_ w)
    (copy_of_payload_ w) (buffer w).
Definition set_buffer (b : list byte) w : wire :=
  SimpleWire (capacity_ w) (pushed_ w) (poped_ w) (header_received_ w) (need_dispose_ w)
    (copy_of_payload_ w) b.
Definition set_header (h : T) w : wire :=
  SimpleWire (capacity_ w) (pushed_ w) (poped_ w) h (need_dispose_ w)
    (copy_of_payload_ w) (buffer w).
Definition set_need_dispose (n : Z) w : wire :=
  SimpleWire (capacity_ w) (pushed_ w) (poped_ w) (header_received_ w) n
    (copy_of_payload_ w) (buffer w).
Definition set_copy (c : option (list byte)) w : wire :=
  SimpleWire (capacity_ w) (pushed_ w) (poped_ w) (header_received_ w) (need_dispose_ w)
    c (buffer w).

(** constructor: the allocated buffer has arbitrary contents *)
Definition new_wire (capacity : Z) (allocated : list byte) : wire :=
  SimpleWire capacity 0 0 default_header 0 None allocated.

Definition stored w : Z := u64 (pushed_ w - poped_ w).
Definition room w : Z := u64 (capacity_ w - stored w).
Definition index w (n : Z) : Z := n mod capacity_ w.
Definition max_payload_length w : Z := u64 (capacity_ w - size (T := T)).
Definition min (a b : Z) : Z := if a >? b then b else a.
Definition max (a b : Z) : Z := if a >? b then a else b.
Definition buffer_address w (n : Z) : Z := index w n.
Definition read_address w (offset : Z) : Z := index w (u64 (poped_ w + offset)).

(** [memcpy] of [length] bytes of [from] to offset [top], wrapping at the end *)
Definition write_in_buffer w (top : Z) from (length : Z) : res wire :=
  if capacity_ w >=? top + length then
    bs ← load from 0 length;
    b ← store (buffer w) top bs;
    Ok (set_buffer b w)
  else
    let first_part := capacity_ w - top in
    bs1 ← load from 0 first_part;
    b1 ← store (buffer w) top bs1;
    bs2 ← load from first_part (length - first_part);
    b2 ← store b1 0 bs2;
    Ok (set_buffer b2 w).

Definition read_from_buffer w (from length : Z) : res (list byte) :=
  if capacity_ w >=? from + length then load (buffer w) from length
  else
    let first_part := capacity_ w - from in
    bs1 ← load (buffer w) from first_part;
    bs2 ← load (buffer w) 0 (length - first_part);
    Ok (bs1 ++ bs2).

Definition copy_header w : res wire :=
  if capacity_ w >=? read_address w 0 + size (T := T) then
    bs ← load (buffer w) (read_address w 0) (size (T := T));
    Ok (set_header (of_buffer bs) w)
  else
    let first_part := capacity_ w - index w (poped_ w) in
    bs1 ← load (buffer w) (read_address w 0) first_part;
    bs2 ← load (buffer w) 0 (size (T := T) - first_part);
    Ok (set_header (of_buffer (bs1 ++ bs2)) w).

(** [write], up to the loop: the wait for room, the header and the first part
    of the payload, published by one [fetch_add].  [Next (w', from', length')]
    is the state in which the loop is entered. *)
Definition write_first w (closed : bool) from (header : T) : res (progress (wire * list byte * Z)) :=
  let length := get_length header + size (T := T) in
  let msg_length := min length (capacity_ w) in
  if (msg_length >? room w) && negb closed then Ok Blocked
  else if closed then Ok Closed
  else
    w1 ← write_in_buffer w (buffer_address w (pushed_ w)) (get_buffer header) (size (T := T));
    w2 ← (if msg_length >? size (T := T)
          then write_in_buffer w1 (buffer_address w1 (u64 (pushed_ w1 + size (T := T)))) from
                 (msg_length - size (T := T))
          else Ok w1);
    Ok (Next (set_pushed (u64 (pushed_ w2 + msg_length)) w2,
              drop (Z.to_nat (msg_length - size (T := T))) from,
              length - msg_length)).

(** one round of the loop of [write] *)
Definition write_chunk w (closed : bool) from (length : Z) : res (progress (wire * list byte * Z)) :=
  let msg_length := min length (capacity_ w) in
  if (msg_length >? room w) && negb closed then Ok Blocked
  else if closed then Ok Closed
  else
    w1 ← write_in_buffer w (buffer_address w (pushed_ w)) from msg_length;
    Ok (Next (set_pushed (u64 (pushed_ w1 + msg_length)) w1,
              drop (Z.to_nat msg_length) from, length - msg_length)).

(** [read], up to the loop: it does not wait, and pops the header together with
    the first part of the payload *)
Definition read_first w : res (list byte * wire * Z) :=
  let length := get_length (header_received_ w) in
  let msg_length := min length (max_payload_length w) in
  bs ← read_from_buffer w (read_address w (size (T := T))) msg_length;
  Ok (bs, set_poped (u64 (poped_ w + (size (T := T) + msg_length))) w, length - msg_length).

(** one round of the loop of [read] *)
Definition read_chunk w (length : Z) : res (progress (list byte * wire * Z)) :=
  let msg_length := min length (capacity_ w) in
  if stored w >=? msg_length then
    bs ← read_from_buffer w (read_address w 0) msg_length;
    Ok (Next (bs, set_poped (u64 (poped_ w + msg_length)) w, length - msg_length))
  else Ok Blocked.

(** the loop of [read] when no round has to wait; [fuel] bounds the rounds *)
Fixpoint read_loop (fuel : nat) w (acc : list byte) (length : Z) : res (progress (list byte * wire)) :=
  if length >? 0 then
    match fuel with
    | O => Ok Blocked
    | S fuel =>
        p ← read_chunk w length;
        match p with
        | Next (bs, w', length') => read_loop fuel w' (acc ++ bs) length'
        | Blocked => Ok Blocked
        | Closed => Ok Closed
        end
    end
  else Ok (Next (acc, w)).

Definition read w : res (progress (list byte * wire)) :=
  '(bs, w', length) ← read_first w;
  read_loop (Z.to_nat length) w' bs length.

Definition payload w : res (progress (view * wire)) :=
  let length := get_length (header_received_ w) in
  if index w (u64 (poped_ w + size (T := T))) <? index w (u64 (u64 (poped_ w + size (T := T)) + length))
  then Ok (Next (ViewRing (read_address w (size (T := T))) length,
                 set_need_dispose (size (T := T) + length) w))
  else
    p ← read w;
    match p with
    | Next (bs, w') => Ok (Next (ViewCopy bs, set_copy (Some bs) w'))
    | Blocked => Ok Blocked
    | Closed => Ok Closed
    end.

(** the bytes a view of the current message denotes *)
Definition view_bytes w (v : view) : res (list byte) :=
  match v with
  | ViewRing off len => load (buffer w) off len
  | ViewCopy bs => Ok bs
  end.

Definition dispose w : wire :=
  let w1 := if need_dispose_ w >? 0
            then set_need_dispose 0 (set_poped (u64 (poped_ w + need_dispose_ w)) w)
            else w in
  set_copy None w1.

Definition read_point w : Z := poped_ w.

End SimpleWire.

(** * Representation: a wire is a queue of bytes

    [holds buf cap a l]: the ring [buf] of [cap] bytes holds the bytes [l] at the
    stream positions [a, a+1, ...]. *)

Definition holds (buf : list byte) (cap a : Z) (l : list byte) : Prop :=
  forall i, 0 <= i < zlen l -> buf !z ((a + i) mod cap) = l !z i.

Lemma holds_nil buf cap a : holds buf cap a [].
Proof. intros i Hi. unfold zlen in Hi. simpl in Hi. lia. Qed.

Lemma lookup_app_z {A} (l1 l2 : list A) i :
  0 <= i -> (l1 ++ l2) !z i = if bool_decide (i < zlen l1) then l1 !z i else l2 !z (i - zlen l1).
Proof.
  intros Hi. unfold zlen. case_bool_decide.
  - by rewrite lookup_app_l by lia.
  - rewrite lookup_app_r by lia. f_equal. lia.
Qed.

Lemma lookup_take_z {A} (l : list A) n i : 0 <= i < n -> take (Z.to_nat n) l !z i = l !z i.
Proof. intros. apply lookup_take_lt. lia. Qed.

Lemma lookup_drop_z {A} (l : list A) n i :
  0 <= n -> 0 <= i -> drop (Z.to_nat n) l !z i = l !z (n + i).
Proof. intros. rewrite lookup_drop. f_equal. lia. Qed.

Lemma holds_app buf cap a l1 l2 :
  holds buf cap a (l1 ++ l2) <-> holds buf cap a l1 /\ holds buf cap (a + zlen l1) l2.
Proof.
  pose proof (zlen_nonneg l1). pose proof (zlen_nonneg l2).
  unfold holds. split.
  - intros H'. split; intros i Hi.
    + rewrite H' by (rewrite zlen_app; lia). rewrite lookup_app_z by lia.
      by rewrite bool_decide_true by lia.
    + specialize (H' (zlen l1 + i) ltac:(rewrite zlen_app; lia)).
      rewrite lookup_app_z in H' by lia. rewrite bool_decide_false in H' by lia.
      rewrite <- Z.add_assoc, H'. f_equal. lia.
  - intros [H1 H2] i Hi. rewrite zlen_app in Hi. rewrite lookup_app_z by lia.
    case_bool_decide; [by apply H1; lia|].
    rewrite <- H2 by lia. do 2 f_equal. f_equal. lia.
Qed.

Lemma mod_add_cases cap x i :
  0 < cap -> 0 <= x < cap -> 0 <= i <= cap ->
  (x + i) mod cap = if bool_decide (x + i < cap) then x + i else x + i - cap.
Proof.
  intros. case_bool_decide.
  - by rewrite Z.mod_small by lia.
  - rewrite <- (Z_mod_plus_full (x + i) (-1) cap). rewrite Z.mod_small; lia.
Qed.

(** the ring does not distinguish positions a full turn apart *)
Lemma holds_turn buf cap a l : 0 < cap -> holds buf cap (a - cap) l <-> holds buf cap a l.
Proof.
  intros Hc. unfold holds. setoid_rewrite <- (Z_mod_plus_full (a - cap + _) 1 cap).
  by replace (a - cap) with (a + - cap) by lia; split; intros H i Hi; specialize (H i Hi);
    replace (a + - cap + i + 1 * cap) with (a + i) in * by lia.
Qed.

Lemma index_shift cap a i : 0 < cap -> (a mod cap + i) mod cap = (a + i) mod cap.
Proof. intros. by rewrite Zplus_mod_idemp_l. Qed.

Create HintDb wire.
Ltac wire_simpl := cbn [capacity_ pushed_ poped_ header_received_ need_dispose_ copy_of_payload_ buffer
                        set_pushed set_poped set_buffer set_header set_need_dispose set_copy] in *.

Section Facts.
Context {T : Type} `{!Header T}.
Local Abbreviation wire := (simple_wire T).
Implicit Types (w : wire) (bs from : list byte).

(** [write_in_buffer] stays inside the buffer and writes exactly the ring
    positions [top .. top+length). *)
Lemma write_in_buffer_spec w top from length :
  0 < capacity_ w -> zlen (buffer w) = capacity_ w ->
  0 <= top < capacity_ w -> 0 <= length <= capacity_ w -> length <= zlen from ->
  exists b, write_in_buffer w top from length = Ok (set_buffer b w) /\
    zlen b = capacity_ w /\
    (forall i, 0 <= i < length -> b !z ((top + i) mod capacity_ w) = from !z i) /\
    (forall i, length <= i < capacity_ w ->
       b !z ((top + i) mod capacity_ w) = buffer w !z ((top + i) mod capacity_ w)).
Proof.
  intros Hc Hb Ht Hl Hf. set (cap := capacity_ w) in *.
  unfold write_in_buffer. fold cap.
  destruct (Z.geb_spec cap (top + length)) as [Hge|Hlt].
  - rewrite load_0_Ok by lia. cbn [mbind res_bind].
    set (src := take _ _). assert (zlen src = length) as Hsrc by (apply zlen_take; lia).
    destruct (store_is_Ok (buffer w) top src) as [b Es]; [lia..|]. rewrite Es.
    apply store_lookup in Es as (E1 & E2 & E3). rewrite Hsrc in E2, E3.
    exists b. split_and!; [done|lia| |].
    + intros i Hi. rewrite Z.mod_small, E2 by lia. by apply lookup_take_z.
    + intros i Hi. rewrite mod_add_cases by lia. case_bool_decide; by apply E3; lia.
  - set (fp := cap - top) in *.
    rewrite load_0_Ok by lia. cbn [mbind res_bind].
    set (s1 := take _ _). assert (zlen s1 = fp) as Hs1 by (apply zlen_take; lia).
    destruct (store_is_Ok (buffer w) top s1) as [b1 Es1]; [lia..|]. rewrite Es1.
    apply store_lookup in Es1 as (E1 & E2 & E3). rewrite Hs1 in E2, E3.
    cbn [mbind res_bind]. rewrite load_Ok by lia. cbn [mbind res_bind].
    set (s2 := take _ (drop _ from)). assert (zlen s2 = length - fp) as Hs2.
    { apply zlen_take. rewrite zlen_drop; lia. }
    destruct (store_is_Ok b1 0 s2) as [b2 Es2]; [lia..|]. rewrite Es2.
    apply store_lookup in Es2 as (F1 & F2 & F3). rewrite Hs2 in F2, F3.
    exists b2. split_and!; [done|lia| |].
    + intros i Hi. rewrite mod_add_cases by lia. case_bool_decide as Hw.
      * rewrite F3, E2 by lia. apply lookup_take_z. lia.
      * replace (top + i - cap) with (0 + (i - fp)) by lia. rewrite F2 by lia.
        unfold s2. rewrite lookup_take_z, lookup_drop_z by lia. do 2 f_equal. lia.
    + intros i Hi. rewrite mod_add_cases by lia. rewrite bool_decide_false by lia.
      rewrite F3, E3 by lia. done.
Qed.

(** Writing [bs] at stream position [b] puts [bs] there and keeps every byte
    string held less than a turn before its end. *)
Lemma write_in_buffer_holds w b from length :
  0 < capacity_ w -> zlen (buffer w) = capacity_ w ->
  0 <= length <= capacity_ w -> length <= zlen from ->
  exists buf, write_in_buffer w (index w b) from length = Ok (set_buffer buf w) /\
    zlen buf = capacity_ w /\
    holds buf (capacity_ w) b (take (Z.to_nat length) from) /\
    (forall a l, a + zlen l <= b -> b + length <= a + capacity_ w ->
       holds (buffer w) (capacity_ w) a l -> holds buf (capacity_ w) a l).
Proof.
  intros Hc Hb Hl Hf.
  pose proof (Z.mod_pos_bound b (capacity_ w) Hc) as Hi.
  destruct (write_in_buffer_spec w (index w b) from length) as (buf & E & Hlen & Hin & Hout); auto.
  exists buf. split_and!; [done|done| |].
  - intros i Hi'. rewrite zlen_take in Hi' by lia. rewrite <- (index_shift (capacity_ w)) by lia.
    unfold index in Hin. rewrite Hin by lia. by rewrite lookup_take_z by lia.
  - intros a l H1 H2 Hh i Hi'. rewrite <- (Hh i Hi').
    (* position [a+i] is [b+j] modulo the capacity, with [length <= j < capacity] *)
    set (j := a + i + capacity_ w - b).
    assert ((a + i) mod capacity_ w = (index w b + j) mod capacity_ w) as ->.
    { unfold index. rewrite index_shift by lia. unfold j.
      replace (b + (a + i + capacity_ w - b)) with (a + i + 1 * capacity_ w) by lia.
      by rewrite Z_mod_plus_full. }
    apply Hout. unfold j. lia.
Qed.

Lemma read_from_buffer_holds w a length l :
  0 < capacity_ w -> zlen (buffer w) = capacity_ w ->
  0 <= length <= zlen l -> length <= capacity_ w ->
  holds (buffer w) (capacity_ w) a l ->
  read_from_buffer w (index w a) length = Ok (take (Z.to_nat length) l).
Proof.
  intros Hc Hb Hl Hcap Hh. unfold read_from_buffer.
  pose proof (Z.mod_pos_bound a (capacity_ w) Hc) as Hi. fold (index w a) in Hi.
  set (x := index w a) in *. set (cap := capacity_ w) in *.
  assert (forall i, 0 <= i < length -> buffer w !z ((x + i) mod cap) = l !z i) as Hx.
  { intros i Hi'. unfold x, index. fold cap. rewrite index_shift by lia. apply Hh. lia. }
  destruct (Z.geb_spec cap (x + length)) as [Hge|Hlt].
  - rewrite load_Ok by lia. f_equal. apply list_eq_same_length with (n := Z.to_nat length).
    + unfold zlen in *. rewrite length_take. lia.
    + unfold zlen in *. rewrite length_take, length_drop. lia.
    + intros i y z Hi' Hy Hz. rewrite lookup_take_lt in Hy, Hz by lia. rewrite lookup_drop in Hy.
      specialize (Hx (Z.of_nat i) ltac:(lia)). rewrite Z.mod_small in Hx by lia.
      rewrite Nat2Z.id in Hx. replace (Z.to_nat (x + Z.of_nat i)) with (Z.to_nat x + i)%nat in Hx by lia.
      congruence.
  - rewrite !load_Ok by lia. cbn. f_equal. rewrite drop_0.
    apply list_eq_same_length with (n := Z.to_nat length).
    + unfold zlen in *. rewrite length_take. lia.
    + unfold zlen in *. rewrite length_app, !length_take, length_drop. lia.
    + intros i y z Hi' Hy Hz. rewrite lookup_take_lt in Hz by lia.
      specialize (Hx (Z.of_nat i) ltac:(lia)). rewrite Nat2Z.id in Hx.
      rewrite mod_add_cases in Hx by lia. unfold zlen in *.
      case_bool_decide.
      * rewrite lookup_app_l in Hy by (rewrite length_take, length_drop; lia).
        rewrite lookup_take_lt, lookup_drop in Hy by lia.
        replace (Z.to_nat (x + Z.of_nat i)) with (Z.to_nat x + i)%nat in Hx by lia. congruence.
      * rewrite lookup_app_r in Hy by (rewrite length_take, length_drop; lia).
        rewrite length_take, length_drop, lookup_take_lt in Hy by lia.
        replace (Z.to_nat (x + Z.of_nat i - cap)) with
          (i - Nat.min (Z.to_nat (cap - x)) (Datatypes.length (buffer w) - Z.to_nat x))%nat in Hx by lia.
        congruence.
Qed.

(** [wire_wf]: what the counters and the buffer always satisfy.
    The counters never decrease and are 64-bit, so a wire carries at most [2^64]
    bytes; the operations below take the corresponding bound as hypothesis. *)
Record wire_wf w : Prop := {
  wf_capacity : size (T := T) <= capacity_ w < 2 ^ 63;
  wf_buffer : zlen (buffer w) = capacity_ w;
  wf_poped : 0 <= poped_ w;
  wf_order : poped_ w <= pushed_ w <= poped_ w + capacity_ w;
  wf_pushed : pushed_ w < 2 ^ 64
}.

(** [repr w c]: the bytes published and not yet popped are [c]. *)
Definition repr w (c : list byte) : Prop :=
  wire_wf w /\ zlen c = pushed_ w - poped_ w /\ holds (buffer w) (capacity_ w) (poped_ w) c.

Context `{!HeaderOk T}.

Lemma repr_new capacity alloc :
  size (T := T) <= capacity < 2 ^ 63 -> zlen alloc = capacity -> repr (new_wire capacity alloc) [].
Proof.
  intros. unfold repr, new_wire. pose proof (size_pos (T := T)).
  split_and!; [split; wire_simpl; lia|done|apply holds_nil].
Qed.

Lemma repr_bounds w c : repr w c -> 0 <= zlen c <= capacity_ w /\ 0 < capacity_ w.
Proof. intros ([] & ? & ?). pose proof (size_pos (T := T)). lia. Qed.

Lemma stored_repr w c : repr w c -> stored w = zlen c.
Proof. intros ([] & E & _). unfold stored. rewrite wrap_small; unfold in_range; lia. Qed.

Lemma room_repr w c : repr w c -> room w = capacity_ w - zlen c.
Proof.
  intros Hr. unfold room. rewrite (stored_repr w c Hr).
  pose proof (repr_bounds _ _ Hr). destruct Hr as ([] & _ & _).
  apply wrap_small. unfold in_range. lia.
Qed.

Lemma min_spec a b : min a b = Z.min a b.
Proof. unfold min. destruct (Z.gtb_spec a b); lia. Qed.

(** Publishing [n] bytes written at the end of the queue appends them to it. *)
Lemma push_repr w c from n :
  repr w c -> 0 <= n <= capacity_ w - zlen c -> n <= zlen from -> pushed_ w + n < 2 ^ 64 ->
  exists b, write_in_buffer w (buffer_address w (pushed_ w)) from n = Ok (set_buffer b w) /\
    repr (set_pushed (pushed_ w + n) (set_buffer b w)) (c ++ take (Z.to_nat n) from).
Proof.
  intros Hr Hn Hf Hp. pose proof (repr_bounds _ _ Hr) as [Hb Hc].
  destruct Hr as (Hwf & Hlen & Hh). pose proof (zlen_nonneg c).
  destruct (write_in_buffer_holds w (pushed_ w) from n) as (b & E & Hbl & Hnew & Hold);
    [lia|apply Hwf|lia|lia|].
  destruct Hwf. exists b. split; [done|]. unfold repr. wire_simpl. split_and!.
  - split; wire_simpl; lia.
  - rewrite zlen_app, zlen_take by lia. lia.
  - apply holds_app. split.
    + apply Hold; [lia|lia|done].
    + by replace (poped_ w + zlen c) with (pushed_ w) by lia.
Qed.

(** the copy itself does not look at [pushed_] *)
Lemma write_in_buffer_set_pushed n w top from length :
  write_in_buffer (set_pushed n w) top from length
  = set_pushed n <$> write_in_buffer w top from length.
Proof.
  unfold write_in_buffer. wire_simpl. destruct (_ >=? _);
    repeat match goal with
    | |- context [load ?b ?o ?l] => destruct (load b o l); cbn
    | |- context [store ?b ?o ?l] => destruct (store b o l); cbn
    end; done.
Qed.

(** Popping [n] published bytes returns them and leaves the rest. *)
Lemma pop_repr w c1 c2 :
  repr w (c1 ++ c2) -> repr (set_poped (u64 (poped_ w + zlen c1)) w) c2.
Proof.
  intros (Hwf & Hlen & Hh). rewrite zlen_app in Hlen. apply holds_app in Hh as [_ Hh].
  pose proof (zlen_nonneg c1). pose proof (zlen_nonneg c2). destruct Hwf.
  rewrite wrap_small by (unfold in_range; lia).
  unfold repr. wire_simpl. split_and!; [split; wire_simpl; lia|lia|done].
Qed.

(** Reading at an offset from the read position returns the queued bytes there. *)
Lemma read_repr w c1 c2 c3 :
  repr w (c1 ++ c2 ++ c3) ->
  read_from_buffer w (read_address w (zlen c1)) (zlen c2) = Ok c2.
Proof.
  intros Hr. pose proof (repr_bounds _ _ Hr) as [Hb Hc]. destruct Hr as (Hwf & Hlen & Hh).
  rewrite !zlen_app in *. apply holds_app in Hh as [_ Hh].
  pose proof (zlen_nonneg c1). pose proof (zlen_nonneg c2). pose proof (zlen_nonneg c3). destruct Hwf.
  unfold read_address. rewrite wrap_small by (unfold in_range; lia).
  rewrite (read_from_buffer_holds w _ _ (c2 ++ c3)); [|lia|done|rewrite zlen_app; lia|lia|done].
  unfold zlen. rewrite Nat2Z.id, take_app_length. done.
Qed.

Lemma repr_set_header w h c : repr w c -> repr (set_header h w) c.
Proof. intros ([] & ? & ?). done. Qed.
Lemma repr_set_copy w o c : repr w c -> repr (set_copy o w) c.
Proof. intros ([] & ? & ?). done. Qed.
Lemma repr_set_need_dispose w n c : repr w c -> repr (set_need_dispose n w) c.
Proof. intros ([] & ? & ?). done. Qed.

End Facts.
#[export] Hint Resolve repr_set_header repr_set_copy repr_set_need_dispose : wire.

(** * The operations on the queue of bytes *)

Section Operations.
Context {T : Type} `{!Header T, !HeaderOk T}.
Local Abbreviation wire := (simple_wire T).
Implicit Types (w : wire) (bs from : list byte) (h : T).

Lemma read_repr_0 w c1 c2 :
  repr w (c1 ++ c2) -> read_from_buffer w (read_address w 0) (zlen c1) = Ok c1.
Proof. exact (read_repr w [] c1 c2). Qed.

Lemma copy_header_holds w h :
  valid h -> size <= capacity_ w -> zlen (buffer w) = capacity_ w -> in_range 64 (poped_ w) ->
  holds (buffer w) (capacity_ w) (poped_ w) (get_buffer h) ->
  copy_header w = Ok (set_header h w).
Proof.
  intros Hv Hs Hb Hp Hh. pose proof (size_pos (T := T)). pose proof (length_get_buffer h) as Hg.
  assert (read_from_buffer w (index w (poped_ w)) size = Ok (get_buffer h)) as E.
  { rewrite (read_from_buffer_holds w _ _ (get_buffer h)) by (done || lia).
    rewrite take_ge; [done|unfold zlen in *; lia]. }
  unfold copy_header, read_from_buffer, read_address in *. rewrite Z.add_0_r, wrap_small by done.
  destruct (_ >=? _).
  - rewrite E. cbn. by rewrite of_get_buffer.
  - destruct (load _ _ (capacity_ w - _)); [|done..]. cbn in *.
    destruct (load _ _ (size - _)); [|done..]. cbn in *. injection E as ->. by rewrite of_get_buffer.
Qed.

Lemma copy_header_repr w h c :
  valid h -> repr w (get_buffer h ++ c) -> copy_header w = Ok (set_header h w).
Proof.
  intros Hv ([] & _ & Hh). apply holds_app in Hh as [Hh _]. pose proof (size_pos (T := T)).
  apply copy_header_holds; try done; unfold in_range; lia.
Qed.

(** a byte string that does not reach the end of the buffer can be read in place *)
Lemma load_holds w a l :
  0 < capacity_ w -> zlen (buffer w) = capacity_ w -> index w a + zlen l <= capacity_ w ->
  holds (buffer w) (capacity_ w) a l -> load (buffer w) (index w a) (zlen l) = Ok l.
Proof.
  intros Hc Hb Hfit Hh. pose proof (Z.mod_pos_bound a (capacity_ w) Hc). fold (index w a) in *.
  pose proof (zlen_nonneg l).
  pose proof (read_from_buffer_holds w a (zlen l) l) as E. unfold read_from_buffer in E.
  replace (capacity_ w >=? index w a + zlen l) with true in E by lia.
  rewrite E by (done || lia). f_equal. apply take_ge. unfold zlen. lia.
Qed.

Lemma write_in_buffer_pushed w top from length w' :
  write_in_buffer w top from length = Ok w' -> pushed_ w' = pushed_ w.
Proof.
  unfold write_in_buffer. destruct (_ >=? _);
    repeat match goal with
    | |- context [load ?b ?o ?l] => destruct (load b o l); cbn; [|done..]
    | |- context [store ?b ?o ?l] => destruct (store b o l); cbn; [|done..]
    end; by intros [= <-].
Qed.

(** What a writer leaves behind: [n] more bytes published, nothing else changed. *)
Definition pushed_by w w' (n : Z) : Prop :=
  exists b, w' = set_pushed (pushed_ w + n) (set_buffer b w).

Lemma take_header h from n :
  size <= n -> take (Z.to_nat n) (get_buffer h ++ from)
               = get_buffer h ++ take (Z.to_nat (n - size)) from.
Proof.
  intros Hn. pose proof (length_get_buffer h) as Hg. pose proof (size_pos (T := T)). unfold zlen in Hg.
  rewrite take_app, (take_ge (get_buffer h)) by lia. do 2 f_equal. lia.
Qed.

(** Header and first part of the payload: two copies, one publication. *)
Lemma push_header_repr w c h from n :
  repr w c -> size <= n <= capacity_ w - zlen c -> n - size <= zlen from ->
  pushed_ w + n < 2 ^ 64 ->
  exists b, (w1 ← write_in_buffer w (buffer_address w (pushed_ w)) (get_buffer h) size;
             (if n >? size
              then write_in_buffer w1 (buffer_address w1 (u64 (pushed_ w1 + size))) from (n - size)
              else Ok w1)) = Ok (set_buffer b w) /\
    repr (set_pushed (pushed_ w + n) (set_buffer b w))
         (c ++ take (Z.to_nat n) (get_buffer h ++ from)).
Proof.
  intros Hr Hn Hf Hp. pose proof (size_pos (T := T)) as Hs. pose proof (length_get_buffer h) as Hg.
  pose proof Hr as ([Hcap Hbuf Hpop Hord Hpush] & _ & _). pose proof (zlen_nonneg c).
  destruct (push_repr w c (get_buffer h) size) as (b1 & E1 & R1); [done|lia|lia|lia|].
  rewrite E1. cbn [mbind res_bind]. wire_simpl.
  rewrite (take_ge (get_buffer h)) in R1 by (unfold zlen in *; lia).
  rewrite (wrap_small _ (pushed_ w + size)) by (unfold in_range; lia).
  rewrite take_header, app_assoc by lia.
  destruct (Z.gtb_spec n size) as [Hgt|Hle].
  - destruct (push_repr _ _ from (n - size) R1) as (b2 & E2 & R2); wire_simpl;
      [rewrite zlen_app; lia|lia|lia|].
    exists b2. replace (pushed_ w + size + (n - size)) with (pushed_ w + n) in R2 by lia.
    split; [|done]. rewrite (write_in_buffer_set_pushed (pushed_ w + size) (set_buffer b1 w)) in E2.
    unfold buffer_address, index in *. wire_simpl.
    destruct (write_in_buffer _ _ from _) as [w2| |] eqn:E3; [|done..].
    apply write_in_buffer_pushed in E3. unfold set_pushed, set_buffer in *.
    destruct w2, w; cbn in *. congruence.
  - assert (n = size) as -> by lia. exists b1. rewrite Z.sub_diag, app_nil_r. done.
Qed.

Lemma write_first_repr w c h from :
  valid h -> zlen from = get_length h -> repr w c ->
  let n := Z.min (get_length h + size) (capacity_ w) in
  n <= capacity_ w - zlen c -> pushed_ w + n < 2 ^ 64 ->
  exists w', write_first w false from h
      = Ok (Next (w', drop (Z.to_nat (n - size)) from, get_length h + size - n)) /\
    pushed_by w w' n /\ repr w' (c ++ take (Z.to_nat n) (get_buffer h ++ from)).
Proof.
  intros Hv Hf Hr n Hn Hp. pose proof (repr_bounds _ _ Hr) as [Hb Hc].
  pose proof (get_length_range h Hv) as Hl. unfold in_range in Hl.
  pose proof Hr as ([Hcap Hbuf Hpop Hord Hpush] & _ & _). pose proof (size_pos (T := T)).
  unfold write_first. rewrite min_spec, (room_repr w c Hr). fold n.
  replace (n >? capacity_ w - zlen c) with false by lia. cbn [andb].
  destruct (push_header_repr w c h from n) as (b & E & R); [done|lia|lia|lia|].
  destruct (write_in_buffer w _ _ _) as [w1| |]; [|done..]. cbn [mbind res_bind] in *.
  rewrite E. cbn [mbind res_bind]. wire_simpl. rewrite wrap_small by (unfold in_range; lia).
  eexists. split; [done|]. split; [|done]. by eexists.
Qed.

Lemma write_chunk_repr w c from :
  repr w c -> let n := Z.min (zlen from) (capacity_ w) in
  n <= capacity_ w - zlen c -> pushed_ w + n < 2 ^ 64 ->
  exists w', write_chunk w false from (zlen from)
      = Ok (Next (w', drop (Z.to_nat n) from, zlen from - n)) /\
    pushed_by w w' n /\ repr w' (c ++ take (Z.to_nat n) from).
Proof.
  intros Hr n Hn Hp. pose proof (repr_bounds _ _ Hr) as [Hb Hc]. pose proof (zlen_nonneg from).
  pose proof Hr as ([] & _ & _).
  unfold write_chunk. rewrite min_spec, (room_repr w c Hr). fold n.
  replace (n >? capacity_ w - zlen c) with false by lia. cbn [andb].
  destruct (push_repr w c from n) as (b & E & R); [done|lia|lia|lia|].
  rewrite E. cbn [mbind res_bind]. wire_simpl. rewrite wrap_small by (unfold in_range; lia).
  eexists. split; [done|]. split; [|done]. by eexists.
Qed.

(** A round waits exactly when its part does not fit. *)
Lemma write_chunk_blocked w c from length :
  repr w c -> write_chunk w false from length = Ok Blocked <->
  capacity_ w - zlen c < Z.min length (capacity_ w).
Proof.
  intros Hr. unfold write_chunk. rewrite min_spec, (room_repr w c Hr).
  destruct (Z.gtb_spec (Z.min length (capacity_ w)) (capacity_ w - zlen c)); cbn; [done|].
  split; [|lia]. destruct (write_in_buffer _ _ _ _); cbn; congruence.
Qed.

Lemma write_first_blocked w c h from :
  repr w c -> write_first w false from h = Ok Blocked <->
  capacity_ w - zlen c < Z.min (get_length h + size) (capacity_ w).
Proof.
  intros Hr. unfold write_first. rewrite min_spec, (room_repr w c Hr).
  destruct (Z.gtb_spec (Z.min (get_length h + size) (capacity_ w)) (capacity_ w - zlen c)); cbn; [done|].
  split; [|lia]. destruct (write_in_buffer _ _ _ _); cbn; [|congruence..].
  destruct (_ >? _); cbn; [|congruence]. destruct (write_in_buffer _ _ _ _); cbn; congruence.
Qed.

(** [read] pops the header and the part of the payload published with it. *)
Lemma read_first_repr w h c1 c2 :
  valid h -> header_received_ w = h ->
  zlen c1 = Z.min (get_length h) (capacity_ w - size) ->
  repr w (get_buffer h ++ c1 ++ c2) ->
  exists w', read_first w = Ok (c1, w', get_length h - zlen c1) /\
    w' = set_poped (poped_ w') w /\ poped_ w' = poped_ w + (size + zlen c1) /\ repr w' c2.
Proof.
  intros Hv Hh Hl Hr. unfold read_first. rewrite Hh, min_spec.
  pose proof Hr as ([Hcap Hbuf Hpop Hord Hpush] & Hlen & _).
  pose proof (size_pos (T := T)). pose proof (get_length_range h Hv) as Hgl. unfold in_range in Hgl.
  pose proof (zlen_nonneg c2).
  rewrite !zlen_app, length_get_buffer in Hlen.
  unfold max_payload_length. rewrite (wrap_small _ (capacity_ w - size)) by (unfold in_range; lia).
  rewrite <- Hl. pose proof (read_repr w _ c1 c2 Hr) as E. rewrite length_get_buffer in E.
  rewrite E. cbn. eexists. split; [done|]. wire_simpl.
  rewrite app_assoc in Hr. apply pop_repr in Hr. rewrite zlen_app, length_get_buffer in Hr.
  by rewrite wrap_small in Hr |- * by (unfold in_range; lia).
Qed.

Lemma read_chunk_repr w length c1 c2 :
  zlen c1 = Z.min length (capacity_ w) -> repr w (c1 ++ c2) ->
  exists w', read_chunk w length = Ok (Next (c1, w', length - zlen c1)) /\
    w' = set_poped (poped_ w') w /\ poped_ w' = poped_ w + zlen c1 /\ repr w' c2.
Proof.
  intros Hl Hr. unfold read_chunk. rewrite min_spec, <- Hl, (stored_repr _ _ Hr), zlen_app.
  pose proof (zlen_nonneg c2). pose proof (zlen_nonneg c1). replace (zlen c1 + zlen c2 >=? zlen c1) with true by lia.
  rewrite (read_repr_0 _ _ _ Hr). cbn. eexists. split; [done|]. wire_simpl.
  pose proof Hr as ([] & Hlen & _). rewrite zlen_app in Hlen.
  apply pop_repr in Hr. by rewrite wrap_small in Hr |- * by (unfold in_range; lia).
Qed.

Lemma read_chunk_blocked w c length :
  repr w c -> zlen c < Z.min length (capacity_ w) -> read_chunk w length = Ok Blocked.
Proof.
  intros Hr Hlt. unfold read_chunk. rewrite min_spec, (stored_repr _ _ Hr).
  by replace (zlen c >=? Z.min length (capacity_ w)) with false by lia.
Qed.

(** ** Deciding [repr] on a concrete wire *)

Definition content w : list byte :=
  map (fun i => default 0 (buffer w !z ((poped_ w + i) mod capacity_ w))) (seqZ 0 (pushed_ w - poped_ w)).

Definition wire_wfb w : bool :=
  (size <=? capacity_ w) && (capacity_ w <? 2 ^ 63) && (zlen (buffer w) =? capacity_ w) &&
  (0 <=? poped_ w) && (poped_ w <=? pushed_ w) && (pushed_ w <=? poped_ w + capacity_ w) &&
  (pushed_ w <? 2 ^ 64).

Lemma repr_compute w c : wire_wfb w = true -> content w = c -> repr w c.
Proof.
  intros Hw <-. pose proof (size_pos (T := T)) as Hs. unfold wire_wfb in Hw.
  assert (wire_wf w) as Hwf by (split; lia). destruct Hwf as [Hc Hb Hp Ho Hm].
  split; [by split|]. unfold content. split.
  - unfold zlen. rewrite length_map, length_seqZ. lia.
  - intros i Hi. unfold zlen in Hi. rewrite length_map, length_seqZ in Hi.
    pose proof (Z.mod_pos_bound (poped_ w + i) (capacity_ w) ltac:(lia)).
    rewrite list_lookup_fmap, (lookup_seqZ_lt 0 _ (Z.to_nat i)) by lia. cbn.
    replace (0 + Z.of_nat (Z.to_nat i)) with i by lia.
    destruct (lookup_lt_is_Some_2 (buffer w) (Z.to_nat ((poped_ w + i) mod capacity_ w))) as [x Hx];
      [unfold zlen in *; lia|]. by rewrite Hx.
Qed.

(** * Whole messages that fit in the ring *)

Lemma read_whole_repr w h p rest :
  valid h -> header_received_ w = h -> zlen p = get_length h -> get_length h + size <= capacity_ w ->
  repr w (get_buffer h ++ p ++ rest) ->
  exists w', read w = Ok (Next (p, w')) /\ w' = set_poped (poped_ w') w /\ repr w' rest.
Proof.
  intros Hv Hh Hp Hfit Hr.
  destruct (read_first_repr w h p rest) as (w' & E & Ew & _ & R); [done|done|lia|done|].
  exists w'. unfold read. rewrite E. cbn [mbind res_bind]. rewrite Hp, Z.sub_diag. done.
Qed.

(** [payload] on a message that fits in the ring hands out exactly its payload,
    as a view into the ring when it does not wrap around and as a copy otherwise,
    and [dispose] then pops exactly that message. *)
Theorem payload_repr w h p rest :
  valid h -> header_received_ w = h -> zlen p = get_length h -> get_length h + size <= capacity_ w ->
  need_dispose_ w = 0 -> repr w (get_buffer h ++ p ++ rest) ->
  exists v w', payload w = Ok (Next (v, w')) /\ view_bytes w' v = Ok p /\ repr (dispose w') rest.
Proof.
  intros Hv Hh Hp Hfit Hnd Hr. pose proof (size_pos (T := T)) as Hs.
  pose proof (get_length_range h Hv) as Hgl. unfold in_range in Hgl.
  pose proof Hr as ([Hcap Hbuf Hpop Hord Hpush] & Hlen & _).
  rewrite !zlen_app, length_get_buffer in Hlen. pose proof (zlen_nonneg rest).
  unfold payload. rewrite Hh.
  rewrite (wrap_small 64 (poped_ w + size)), wrap_small by (unfold in_range; lia).
  pose proof (Z.mod_pos_bound (poped_ w + size) (capacity_ w) ltac:(lia)) as Hx.
  destruct (Z.ltb_spec (index w (poped_ w + size)) (index w (poped_ w + size + get_length h))) as [Hlt|Hge].
  - pose proof (read_repr w _ p rest Hr) as E. rewrite length_get_buffer in E.
    unfold read_address in *. rewrite wrap_small in E |- * by (unfold in_range; lia).
    eexists _, _. split; [done|]. unfold index in *.
    rewrite <- (index_shift (capacity_ w) (poped_ w + size)) in Hlt by lia.
    rewrite (mod_add_cases _ ((poped_ w + size) mod capacity_ w) (get_length h)) in Hlt by lia.
    case_bool_decide; [|lia]. split.
    + cbn [view_bytes]. unfold read_from_buffer in E.
      rewrite Hp in E. destruct (Z.geb_spec (capacity_ w) ((poped_ w + size) mod capacity_ w + get_length h));
        [done|lia].
    + unfold dispose. wire_simpl. replace (size + get_length h >? 0) with true by lia.
      apply repr_set_copy, repr_set_need_dispose.
      rewrite app_assoc in Hr. apply pop_repr in Hr. rewrite zlen_app, length_get_buffer, Hp in Hr.
      destruct Hr as ([] & ? & ?). split; [by split|done].
  - destruct (read_whole_repr w h p rest) as (w' & E & Ew & R); [done..|]. rewrite E. cbn.
    eexists _, _. split; [done|]. split; [done|]. unfold dispose. rewrite Ew in *. wire_simpl.
    rewrite Hnd. cbn. by apply repr_set_copy, repr_set_copy.
Qed.

(** A payload longer than the ring that happens to pass the wrap-around test of
    [payload] is handed out as a view that runs over the end of the buffer. *)
Theorem payload_overrun w h c :
  repr w c -> header_received_ w = h -> capacity_ w < get_length h ->
  index w (u64 (poped_ w + size)) < index w (u64 (u64 (poped_ w + size) + get_length h)) ->
  exists v w', payload w = Ok (Next (v, w')) /\ view_bytes w' v = Undefined.
Proof.
  intros Hr Hh Hlong Hidx. unfold payload. rewrite Hh. rewrite (proj2 (Z.ltb_lt _ _) Hidx).
  eexists _, _. split; [done|]. cbn [view_bytes]. wire_simpl. unfold load, read_address, index.
  destruct (repr_bounds _ _ Hr) as [_ Hc]. destruct Hr as ([] & _).
  pose proof (Z.mod_pos_bound (u64 (poped_ w + size)) _ Hc).
  by rewrite bool_decide_false by lia.
Qed.

End Operations.

(** ** Concrete wires *)

(** a 16-byte ring whose counters stand at 13: the message at the head wraps around *)
Definition demo_wrap : simple_wire message_header :=
  SimpleWire 16 26 13 (MessageHeader 3 4) 0 None
    ([0; 0; 0; 71; 72; 73; 74; 90; 91; 92; 0; 0; 0; 3; 0; 4] : list byte).

Lemma payload_repr_witness :
  exists v w', payload demo_wrap = Ok (Next (v, w')) /\ view_bytes w' v = Ok [71; 72; 73; 74] /\
    repr (dispose w') [90; 91; 92].
Proof.
  refine (payload_repr demo_wrap (MessageHeader 3 4) [71; 72; 73; 74] [90; 91; 92] _ _ _ _ _ _);
    try reflexivity.
  - done.
  - done.
  - apply repr_compute; reflexivity.
Defined.

(** the first part of a 20-byte request on a 16-byte ring *)
Definition demo_long : simple_wire message_header :=
  SimpleWire 16 16 0 (MessageHeader 3 20) 0 None
    ([3; 0; 20; 0; 0; 0; 1; 2; 3; 4; 5; 6; 7; 8; 9; 10] : list byte).

Lemma payload_overrun_witness :
  exists v w', payload demo_long = Ok (Next (v, w')) /\ view_bytes w' v = Undefined.
Proof.
  refine (payload_overrun demo_long (MessageHeader 3 20)
            [3; 0; 20; 0; 0; 0; 1; 2; 3; 4; 5; 6; 7; 8; 9; 10] _ _ _ _).
  - apply repr_compute; reflexivity.
  - reflexivity.
  - reflexivity.
  - reflexivity.
Defined.
