(* ===== verification/WireProtocol.v ===== *)
(** A writer and a reader on one wire, interleaved.

    The writer calls [simple_wire::write] for one message after another; the
    reader peeps the header and calls [simple_wire::read]
    (src/tateyama/endpoint/ipc/wire.h, used through [wire_container_impl] and
    [response_wire_container_impl] of bootstrap/server_wires_impl.h).  A step is
    one round of one of the two copying loops, that is, everything between two
    accesses to the shared counters; [close] may happen at any time. *)
From S2P Require Import Prelude WireHeader SimpleWire.

Section Protocol.
Context {T : Type} `{!Header T}.
Local Abbreviation wire := (simple_wire T).
Local Abbreviation message := (T * list byte)%type.

(** where the writer is in [write] *)
Inductive writer :=
| W_idle
| W_loop (from : list byte) (length : Z)
| W_stopped.

(** where the reader is: waiting for a header, header received, in the loop of [read] *)
Inductive reader :=
| R_idle
| R_ready
| R_loop (top : list byte) (length : Z).

Record system := System {
  the_wire : wire;
  closed_ : bool;
  writer_ : writer;
  to_send : list message;
  reader_ : reader;
  received : list message
}.

Definition writer_next (s : system) (q : list message) (p : progress (wire * list byte * Z)) : option system :=
  match p with
  | Blocked => None
  | Closed => Some (System (the_wire s) (closed_ s) W_stopped [] (reader_ s) (received s))
  | Next (w', from', length') =>
      Some (System w' (closed_ s) (if length' >? 0 then W_loop from' length' else W_idle) q
              (reader_ s) (received s))
  end.

Definition writer_step (s : system) : res (option system) :=
  match writer_ s with
  | W_idle =>
      match to_send s with
      | [] => Ok None
      | (h, p) :: q => writer_next s q <$> write_first (the_wire s) (closed_ s) p h
      end
  | W_loop from length =>
      writer_next s (to_send s) <$> write_chunk (the_wire s) (closed_ s) from length
  | W_stopped => Ok None
  end.

Definition reader_next (s : system) (top : list byte) (w' : wire) (length' : Z) : system :=
  if length' >? 0
  then System w' (closed_ s) (writer_ s) (to_send s) (R_loop top length') (received s)
  else System w' (closed_ s) (writer_ s) (to_send s) R_idle
         (received s ++ [(header_received_ w', top)]).

Definition reader_step (s : system) : res (option system) :=
  match reader_ s with
  | R_idle =>
      if stored (the_wire s) >=? size (T := T) then
        w' ← copy_header (the_wire s);
        Ok (Some (System w' (closed_ s) (writer_ s) (to_send s) R_ready (received s)))
      else Ok None
  | R_ready =>
      '(bs, w', length') ← read_first (the_wire s);
      Ok (Some (reader_next s bs w' length'))
  | R_loop top length =>
      p ← read_chunk (the_wire s) length;
      match p with
      | Next (bs, w', length') => Ok (Some (reader_next s (top ++ bs) w' length'))
      | Blocked | Closed => Ok None
      end
  end.

Definition close_step (s : system) : system :=
  System (the_wire s) true (writer_ s) (to_send s) (reader_ s) (received s).

Inductive step : system -> system -> Prop :=
| step_writer s s' : writer_step s = Ok (Some s') -> step s s'
| step_reader s s' : reader_step s = Ok (Some s') -> step s s'
| step_close s : closed_ s = false -> step s (close_step s).

Definition initial (w : wire) (msgs : list message) : system :=
  System w false W_idle msgs R_idle [].

Definition message_ok (m : message) : Prop := valid m.1 /\ zlen m.2 = get_length m.1.

(** ** What travels on the wire

    A message is its header followed by its payload, cut into parts of at most
    [cap] bytes; [write] publishes and [read] pops one part at a time. *)
Definition full (m : message) : list byte := get_buffer m.1 ++ m.2.

Fixpoint chunks_fuel (fuel : nat) (cap : Z) (l : list byte) : list (list byte) :=
  match fuel, l with
  | S fuel, _ :: _ => take (Z.to_nat cap) l :: chunks_fuel fuel cap (drop (Z.to_nat cap) l)
  | _, _ => []
  end.
Definition chunks (cap : Z) (l : list byte) : list (list byte) := chunks_fuel (length l) cap l.
Definition all_chunks (cap : Z) (msgs : list message) : list (list byte) :=
  concat (map (fun m => chunks cap (full m)) msgs).

Lemma chunks_fuel_enough cap f l :
  0 < cap -> (length l <= f)%nat -> chunks_fuel f cap l = chunks cap l.
Proof.
  intros Hc. unfold chunks. revert l. induction f as [f IH] using lt_wf_ind. intros l Hl.
  destruct l as [|x l]; [by destruct f|]. destruct f as [|f]; simpl in *; [lia|].
  destruct (Z.to_nat cap) as [|k] eqn:Ek; [lia|]. simpl. f_equal.
  pose proof (length_drop l k). rewrite (IH f), (IH (length l)) by lia. done.
Qed.

Lemma chunks_cons cap l :
  0 < cap -> l <> [] -> chunks cap l = take (Z.to_nat cap) l :: chunks cap (drop (Z.to_nat cap) l).
Proof.
  intros Hc Hl. unfold chunks at 1. destruct l as [|x l]; [done|]. cbn [length chunks_fuel].
  f_equal. apply chunks_fuel_enough; [done|]. rewrite length_drop. simpl. lia.
Qed.

Lemma chunks_nil cap : chunks cap [] = [].
Proof. done. Qed.

End Protocol.
Arguments writer : clear implicits.
Arguments system : clear implicits.

Section Invariant.
Context {T : Type} `{!Header T, !HeaderOk T}.
Local Abbreviation wire := (simple_wire T).
Local Abbreviation message := (T * list byte)%type.
Local Abbreviation system := (system T).
Implicit Types (s : system) (m : message).

Lemma full_nonempty m : full m <> [].
Proof.
  pose proof (length_get_buffer (T := T) m.1) as H. pose proof (size_pos (T := T)).
  unfold full. destruct (get_buffer m.1); [unfold zlen in H; simpl in H; lia|done].
Qed.

Lemma zlen_full m : zlen (full m) = size (T := T) + zlen m.2.
Proof. unfold full. by rewrite zlen_app, length_get_buffer. Qed.

Lemma zlen_pos {A} (l : list A) : l <> [] <-> 0 < zlen l.
Proof. unfold zlen. destruct l; simpl; split; try done; try lia. Qed.

Lemma all_chunks_cons cap m ms :
  all_chunks cap (m :: ms) = chunks cap (full m) ++ all_chunks cap ms.
Proof. done. Qed.

(** the parts still to be written *)
Definition future (cap : Z) s : list (list byte) :=
  match writer_ s with
  | W_idle => all_chunks cap (to_send s)
  | W_loop from _ => chunks cap from ++ all_chunks cap (to_send s)
  | W_stopped => []
  end.

Definition writer_ok s : Prop :=
  Forall message_ok (to_send s) /\
  match writer_ s with
  | W_loop from length => length = zlen from /\ 0 < length
  | _ => True
  end.

(** the parts the reader expects, given the messages not yet delivered *)
Definition expected (cap : Z) s (todo : list message) : option (list (list byte)) :=
  match reader_ s, todo with
  | R_idle, _ => Some (all_chunks cap todo)
  | R_ready, _ :: _ => Some (all_chunks cap todo)
  | R_loop top _, (h, p) :: todo =>
      Some (chunks cap (drop (length top) p) ++ all_chunks cap todo)
  | _, _ => None
  end.

Definition reader_ok s (todo : list message) (pend : list (list byte)) : Prop :=
  Forall message_ok todo /\
  match reader_ s with
  | R_idle => True
  | R_ready => pend <> [] /\ exists h p todo', todo = (h, p) :: todo' /\
                 header_received_ (the_wire s) = h
  | R_loop top length => exists h p rest todo', todo = (h, p) :: todo' /\
      header_received_ (the_wire s) = h /\ p = top ++ rest /\ length = zlen rest /\ 0 < length
  end.

(** [pend] are the parts on the wire; what the reader expects is what is on the
    wire followed by what the writer will write (when it was not stopped: after
    a close the tail [lost] never comes). *)
Record inv_at (cap : Z) (msgs : list message) s (pend lost : list (list byte)) (todo : list message)
  : Prop := {
  inv_repr : repr (the_wire s) (concat pend);
  inv_cap : capacity_ (the_wire s) = cap;
  inv_bytes : pushed_ (the_wire s) + zlen (concat (future cap s)) < 2 ^ 64;
  inv_msgs : msgs = received s ++ todo;
  inv_writer : writer_ok s;
  inv_reader : reader_ok s todo pend;
  inv_expected : expected cap s todo = Some (pend ++ future cap s ++ lost);
  inv_no_loss : writer_ s <> W_stopped -> lost = [];
  inv_stopped : writer_ s = W_stopped -> closed_ s = true
}.
Definition inv cap msgs s : Prop := exists pend lost todo, inv_at cap msgs s pend lost todo.

(** *** One step of the writer *)

Definition same_reader s s' : Prop :=
  reader_ s' = reader_ s /\ received s' = received s /\ closed_ s' = closed_ s /\
  header_received_ (the_wire s') = header_received_ (the_wire s) /\
  capacity_ (the_wire s') = capacity_ (the_wire s).

Lemma take_min {A} (l : list A) cap : 0 <= cap -> take (Z.to_nat (Z.min (zlen l) cap)) l = take (Z.to_nat cap) l.
Proof.
  intros. destruct (Z.min_spec (zlen l) cap) as [[? ->]|[? ->]]; [|done].
  rewrite !take_ge; [done|unfold zlen in *; lia..].
Qed.
Lemma drop_min {A} (l : list A) cap : 0 <= cap -> drop (Z.to_nat (Z.min (zlen l) cap)) l = drop (Z.to_nat cap) l.
Proof.
  intros. destruct (Z.min_spec (zlen l) cap) as [[? ->]|[? ->]]; [|done].
  rewrite !drop_ge; [done|unfold zlen in *; lia..].
Qed.
Lemma zlen_take_min {A} (l : list A) cap : 0 <= cap -> zlen (take (Z.to_nat cap) l) = Z.min (zlen l) cap.
Proof. intros. unfold zlen. rewrite length_take. lia. Qed.
Lemma zlen_drop_min {A} (l : list A) n : 0 <= n -> zlen (drop (Z.to_nat n) l) = zlen l - Z.min (zlen l) n.
Proof. intros. unfold zlen. rewrite length_drop. lia. Qed.

Lemma drop_header h (p : list byte) n :
  size (T := T) <= n -> drop (Z.to_nat (n - size (T := T))) p = drop (Z.to_nat n) (get_buffer (T := T) h ++ p).
Proof.
  intros Hn. pose proof (length_get_buffer h) as Hg. pose proof (size_pos (T := T)). unfold zlen in Hg.
  rewrite drop_app_ge by lia. f_equal. lia.
Qed.

(** Both forms of the copying round write the first part of the bytes [l] that
    remain, or wait. *)
Definition writes_part (cap : Z) (w : wire) c (l : list byte) (r : res (progress (wire * list byte * Z))) : Prop :=
  let ch := take (Z.to_nat cap) l in
  let l' := drop (Z.to_nat cap) l in
  if bool_decide (zlen ch <= cap - zlen c)
  then exists w', r = Ok (Next (w', l', zlen l')) /\ repr w' (c ++ ch) /\ pushed_by w w' (zlen ch)
  else r = Ok Blocked.

Lemma write_first_part w c h p :
  message_ok (h, p) -> repr w c ->
  pushed_ w + zlen (take (Z.to_nat (capacity_ w)) (full (h, p))) < 2 ^ 64 ->
  writes_part (capacity_ w) w c (full (h, p)) (write_first w false p h).
Proof.
  intros [Hv Hl] Hr Hp. cbn in Hv, Hl. destruct (repr_bounds _ _ Hr) as [Hb Hc].
  pose proof Hr as ([Hcap _ _ _ _] & _). pose proof (size_pos (T := T)) as Hs.
  pose proof (get_length_range h Hv) as Hg. unfold in_range in Hg.
  pose proof (zlen_full (h, p)) as Hf. cbn in Hf. rewrite Hl in Hf.
  unfold writes_part. rewrite zlen_take_min, zlen_drop_min in * by lia.
  rewrite <- (take_min (full (h, p))), <- (drop_min (full (h, p))) by lia.
  rewrite Hf, (Z.add_comm size) in *. unfold full in *. cbn [fst snd] in *.
  case_bool_decide as Hfit.
  - destruct (write_first_repr w c h p) as (w' & -> & Hw & R); [done..|lia|lia|].
    exists w'. rewrite (drop_header h) by lia. done.
  - apply (write_first_blocked w c h p Hr). lia.
Qed.

Lemma write_chunk_part w c from :
  0 < zlen from -> repr w c ->
  pushed_ w + zlen (take (Z.to_nat (capacity_ w)) from) < 2 ^ 64 ->
  writes_part (capacity_ w) w c from (write_chunk w false from (zlen from)).
Proof.
  intros Hl Hr Hp. destruct (repr_bounds _ _ Hr) as [Hb Hc].
  unfold writes_part. rewrite zlen_take_min, zlen_drop_min in * by lia.
  rewrite <- (take_min from), <- (drop_min from) by lia.
  case_bool_decide as Hfit.
  - destruct (write_chunk_repr w c from) as (w' & -> & Hw & R); [done..|lia|lia|]. by exists w'.
  - apply (write_chunk_blocked w c from _ Hr). lia.
Qed.

Definition writer_moves (cap : Z) s c ch fut (r : res (option system)) : Prop :=
  if bool_decide (zlen ch <= cap - zlen c)
  then exists s', r = Ok (Some s') /\ repr (the_wire s') (c ++ ch) /\
         future cap s' = fut /\ writer_ok s' /\ writer_ s' <> W_stopped /\ same_reader s s' /\
         pushed_ (the_wire s') = pushed_ (the_wire s) + zlen ch
  else r = Ok None.

Lemma writer_next_part cap s c l q r :
  0 < cap -> Forall message_ok q -> writes_part cap (the_wire s) c l r ->
  writer_moves cap s c (take (Z.to_nat cap) l) (chunks cap (drop (Z.to_nat cap) l) ++ all_chunks cap q)
    (writer_next s q <$> r).
Proof.
  intros Hc Hq Hw. unfold writes_part, writer_moves in *. case_bool_decide; [|by rewrite Hw].
  destruct Hw as (w' & -> & R & b & Eb). eexists. split; [done|]. cbn. split_and!; [done|..].
  - unfold future. cbn. destruct (Z.gtb_spec (zlen (drop (Z.to_nat cap) l)) 0); [done|].
    destruct (drop (Z.to_nat cap) l) as [|x k]; [done|]. rewrite zlen_cons in *. pose proof (zlen_nonneg k). lia.
  - split; [done|]. cbn. destruct (Z.gtb_spec (zlen (drop (Z.to_nat cap) l)) 0); [done|done].
  - by destruct (_ >? _).
  - by rewrite Eb.
  - by rewrite Eb.
Qed.

Lemma writer_step_next cap s c ch fut :
  writer_ok s -> repr (the_wire s) c -> capacity_ (the_wire s) = cap -> closed_ s = false ->
  future cap s = ch :: fut -> pushed_ (the_wire s) + zlen ch < 2 ^ 64 ->
  writer_moves cap s c ch fut (writer_step s).
Proof.
  intros [Hq Hw] Hr Hcap Hcl Hfut Hp. destruct (repr_bounds _ _ Hr) as [_ Hc]. rewrite Hcap in Hc.
  unfold writer_step, future in *. rewrite Hcl. destruct (writer_ s) as [|from n|] eqn:Ew; [| |done].
  - destruct (to_send s) as [|[h p] q]; [done|]. apply Forall_cons in Hq as [Hm Hq].
    rewrite all_chunks_cons, chunks_cons in Hfut by (done || apply full_nonempty). injection Hfut as <- <-.
    apply writer_next_part; [done..|]. rewrite <- Hcap in *. by apply write_first_part.
  - destruct Hw as [-> Hn]. rewrite chunks_cons in Hfut by (done || by apply zlen_pos).
    injection Hfut as <- <-. apply writer_next_part; [done..|]. rewrite <- Hcap in *. by apply write_chunk_part.
Qed.

Lemma writer_step_done cap s :
  0 < cap -> writer_ok s -> future cap s = [] -> writer_step s = Ok None.
Proof.
  intros Hc [Hq Hw] Hf. unfold writer_step, future in *. destruct (writer_ s) as [|from n|]; [| |done].
  - destruct (to_send s) as [|m q]; [done|].
    rewrite all_chunks_cons, chunks_cons in Hf by (done || apply full_nonempty). done.
  - destruct Hw as [-> Hn]. rewrite chunks_cons in Hf by (done || by apply zlen_pos). done.
Qed.

(** A closed wire stops the writer at its next round. *)
Lemma writer_step_closed s s' :
  closed_ s = true -> writer_step s = Ok (Some s') ->
  s' = System (the_wire s) true W_stopped [] (reader_ s) (received s) /\ writer_ s <> W_stopped.
Proof.
  intros Hcl. unfold writer_step, write_first, write_chunk. rewrite Hcl.
  destruct (writer_ s); [destruct (to_send s) as [|[h p] q]; [done|] | |done];
    rewrite andb_false_r; cbn; rewrite Hcl; by intros [= <-].
Qed.

(** *** One step of the reader *)

Definition same_writer s s' : Prop :=
  writer_ s' = writer_ s /\ to_send s' = to_send s /\ closed_ s' = closed_ s /\
  pushed_ (the_wire s') = pushed_ (the_wire s) /\ capacity_ (the_wire s') = capacity_ (the_wire s).

Definition idle s : Z := match reader_ s with R_idle => 1 | _ => 0 end.

(** [rest] is what will come after the parts [pend] on the wire. *)
Definition reader_moves (cap : Z) s (todo : list message) (pend rest : list (list byte)) s' : Prop :=
  exists pend' todo', repr (the_wire s') (concat pend') /\
    received s ++ todo = received s' ++ todo' /\
    expected cap s' todo' = Some (pend' ++ rest) /\ reader_ok s' todo' pend' /\ same_writer s s' /\
    2 * zlen (concat pend') + idle s' < 2 * zlen (concat pend) + idle s.

(** end of a round: go on with the rest [l] of the payload, or deliver *)
Lemma reader_next_moves cap s h top l todo' w' pend pend' rest :
  message_ok (h, top ++ l) -> Forall message_ok todo' -> header_received_ w' = h ->
  repr w' (concat pend') -> chunks cap l ++ all_chunks cap todo' = pend' ++ rest ->
  pushed_ w' = pushed_ (the_wire s) -> capacity_ w' = capacity_ (the_wire s) ->
  2 * zlen (concat pend') + 1 < 2 * zlen (concat pend) + idle s ->
  reader_moves cap s ((h, top ++ l) :: todo') pend rest (reader_next s top w' (zlen l)).
Proof.
  intros Hm Ht Hh Hr Hch Hp Hc Hlt. unfold reader_moves, reader_next.
  destruct (Z.gtb_spec (zlen l) 0) as [Hpos|Hz].
  - exists pend', ((h, top ++ l) :: todo'). unfold expected, reader_ok, same_writer. cbn -[idle Z.mul].
    rewrite drop_app_length, Hch. split_and!; try done; [by constructor| |unfold idle at 1; cbn -[idle Z.mul]; lia].
    + exists h, (top ++ l), l, todo'. split_and!; try done; lia.
  - destruct l as [|x l]; [|rewrite zlen_cons in Hz; pose proof (zlen_nonneg l); lia].
    exists pend', todo'. unfold expected, reader_ok, same_writer. cbn -[idle Z.mul]. rewrite app_nil_r, Hh.
    split_and!; try done; [by rewrite <- app_assoc|by f_equal].
Qed.

Lemma concat_cons_pos {A} (ch : list A) pend :
  ch <> [] -> 2 * zlen (concat pend) + 1 < 2 * zlen (concat (ch :: pend)).
Proof. intros Hc%zlen_pos. cbn. rewrite zlen_app. lia. Qed.

Lemma first_chunk cap h (p : list byte) :
  size (T := T) <= cap ->
  take (Z.to_nat cap) (full (h, p)) = get_buffer (T := T) h ++ take (Z.to_nat (cap - size (T := T))) p.
Proof. apply take_header. Qed.

(** one lemma per place the reader can be in; [ch] is the first part on the wire *)
Section ReaderStep.
Variables (cap : Z) (s : system) (ch : list byte) (pend rest : list (list byte)).
Hypotheses (Hr : repr (the_wire s) (ch ++ concat pend)) (Hcap : capacity_ (the_wire s) = cap).
Local Abbreviation moves todo s' := (reader_moves cap s todo (ch :: pend) rest s').

Lemma cap_bounds : 0 < size (T := T) /\ size (T := T) <= cap < 2 ^ 63.
Proof using Hr Hcap HeaderOk0.
  pose proof (size_pos (T := T)). destruct Hr as ([Hcs _ _ _ _] & _). by rewrite Hcap in Hcs.
Qed.

Lemma first_chunk_of_message h p todo :
  all_chunks cap ((h, p) :: todo) = ch :: pend ++ rest ->
  ch = get_buffer h ++ take (Z.to_nat (cap - size (T := T))) p /\
  chunks cap (drop (Z.to_nat (cap - size (T := T))) p) ++ all_chunks cap todo = pend ++ rest.
Proof using Hr Hcap HeaderOk0.
  destruct cap_bounds. rewrite all_chunks_cons, chunks_cons by (lia || apply full_nonempty).
  intros [= <- <-]. rewrite first_chunk, (drop_header h) by lia. done.
Qed.

Lemma reader_idle_next todo :
  reader_ s = R_idle -> Forall message_ok todo -> all_chunks cap todo = ch :: pend ++ rest ->
  exists s', reader_step s = Ok (Some s') /\ moves todo s'.
Proof using Hr Hcap HeaderOk0.
  intros Er Hms Hex. destruct cap_bounds. destruct todo as [|[h p] todo]; [done|].
  destruct (first_chunk_of_message h p todo Hex) as [Hch _].
  pose proof Hms as [[Hv Hl] _]%Forall_cons. rewrite Hch, <- app_assoc in Hr.
  set (c1 := take _ p) in *. pose proof (zlen_nonneg (c1 ++ concat pend)).
  unfold reader_step. rewrite Er, (stored_repr _ _ Hr), zlen_app, length_get_buffer.
  replace (_ >=? _) with true by lia.
  rewrite (copy_header_repr _ h _ Hv Hr). cbn. eexists. split; [done|].
  exists (ch :: pend), ((h, p) :: todo). unfold expected, reader_ok, same_writer, idle. cbn -[all_chunks]. rewrite Er.
  split_and!; try done; [|by rewrite Hex|by eauto 6|lia].
  rewrite Hch, <- app_assoc. by apply repr_set_header.
Qed.

Lemma reader_ready_next h p todo :
  reader_ s = R_ready -> header_received_ (the_wire s) = h -> Forall message_ok ((h, p) :: todo) ->
  all_chunks cap ((h, p) :: todo) = ch :: pend ++ rest ->
  exists s', reader_step s = Ok (Some s') /\ moves ((h, p) :: todo) s'.
Proof using Hr Hcap HeaderOk0.
  intros Er Hh Hms Hex. destruct cap_bounds. destruct (first_chunk_of_message h p todo Hex) as [Hch Hrest].
  apply Forall_cons in Hms as [[Hv Hl] Hms]. cbn in Hv, Hl.
  pose proof (get_length_range h Hv) as Hg. unfold in_range in Hg.
  set (c1 := take (Z.to_nat (cap - size)) p) in *. set (l := drop (Z.to_nat (cap - size)) p) in *.
  assert (p = c1 ++ l) as Hp by (symmetry; apply take_drop).
  assert (zlen p = zlen c1 + zlen l) as Hz by (by rewrite Hp at 1; rewrite zlen_app).
  destruct (read_first_repr (the_wire s) h c1 (concat pend)) as (w' & E & Ew & _ & R); [done|done| | |].
  { unfold c1. rewrite zlen_take_min, Hl, Hcap by lia. done. }
  { by rewrite app_assoc, <- Hch. }
  unfold reader_step. rewrite Er, E. cbn. replace (get_length h - zlen c1) with (zlen l) by lia.
  eexists. split; [done|]. rewrite Hp.
  apply reader_next_moves with (pend' := pend); try done; [by rewrite <- Hp|by rewrite Ew..|].
  unfold idle. rewrite Er, Z.add_0_r. apply concat_cons_pos, zlen_pos.
  rewrite Hch, zlen_app, length_get_buffer. pose proof (zlen_nonneg c1). lia.
Qed.

Lemma reader_loop_next h top l todo :
  reader_ s = R_loop top (zlen l) -> 0 < zlen l -> header_received_ (the_wire s) = h ->
  Forall message_ok ((h, top ++ l) :: todo) ->
  chunks cap l ++ all_chunks cap todo = ch :: pend ++ rest ->
  exists s', reader_step s = Ok (Some s') /\ moves ((h, top ++ l) :: todo) s'.
Proof using Hr Hcap HeaderOk0.
  intros Er Hn Hh Hms Hex. destruct cap_bounds. apply Forall_cons in Hms as [Hm Hms].
  rewrite chunks_cons in Hex by (lia || by apply zlen_pos). injection Hex as Hch Hex.
  destruct (read_chunk_repr (the_wire s) (zlen l) ch (concat pend)) as (w' & E & Ew & _ & R); [|done|].
  { rewrite <- Hch, zlen_take_min, Hcap by lia. done. }
  unfold reader_step. rewrite Er, E. cbn. set (l' := drop (Z.to_nat cap) l) in *.
  assert (l = ch ++ l') as Hl by (rewrite <- Hch; symmetry; apply take_drop).
  replace (zlen l - zlen ch) with (zlen l') by (rewrite Hl at 1; rewrite zlen_app; lia).
  eexists. split; [done|]. rewrite Hl, app_assoc in Hm |- *.
  apply reader_next_moves with (pend' := pend); try done; [by rewrite Ew..|].
  unfold idle. rewrite Er, Z.add_0_r. apply concat_cons_pos, zlen_pos.
  rewrite <- Hch, zlen_take_min by lia. lia.
Qed.

End ReaderStep.

Lemma reader_step_next cap s todo ch pend rest :
  repr (the_wire s) (concat (ch :: pend)) -> capacity_ (the_wire s) = cap ->
  reader_ok s todo (ch :: pend) -> expected cap s todo = Some ((ch :: pend) ++ rest) ->
  exists s', reader_step s = Ok (Some s') /\ reader_moves cap s todo (ch :: pend) rest s'.
Proof.
  intros Hr Hcap [Hms Hro] Hex. unfold expected in Hex. destruct (reader_ s) as [| |top n] eqn:Er.
  - injection Hex as Hex. by apply reader_idle_next.
  - destruct Hro as [_ (h & p & todo' & -> & Hh)]. injection Hex as Hex. by apply reader_ready_next.
  - destruct Hro as (h & p & l & todo' & -> & Hh & -> & -> & Hn). injection Hex as Hex.
    rewrite drop_app_length in Hex. by apply reader_loop_next.
Qed.

Lemma reader_step_none cap s todo :
  repr (the_wire s) [] -> capacity_ (the_wire s) = cap -> reader_ok s todo [] ->
  reader_step s = Ok None.
Proof.
  intros Hr Hcap [_ Hro]. pose proof (size_pos (T := T)). destruct (repr_bounds _ _ Hr) as [_ Hc].
  unfold reader_step. destruct (reader_ s).
  - rewrite (stored_repr _ _ Hr). change (zlen []) with 0. by replace (0 >=? size) with false by lia.
  - by destruct Hro.
  - destruct Hro as (h & p & l & todo' & _ & _ & _ & -> & Hn).
    rewrite (read_chunk_blocked _ [] _ Hr); [done|]. change (zlen []) with 0. lia.
Qed.

(** *** The invariant holds initially and is preserved *)

Lemma concat_chunks cap l : 0 < cap -> concat (chunks cap l) = l.
Proof.
  intros Hc. induction l as [l IH] using (induction_ltof1 _ length); unfold ltof in IH.
  destruct l as [|x l]; [done|]. rewrite chunks_cons by done. cbn [concat].
  rewrite IH, take_drop; [done|]. rewrite length_drop. simpl. lia.
Qed.

Lemma concat_all_chunks cap msgs : 0 < cap -> concat (all_chunks cap msgs) = concat (map full msgs).
Proof.
  intros Hc. induction msgs as [|m ms IH]; [done|].
  rewrite all_chunks_cons, concat_app, concat_chunks by done. cbn. by rewrite IH.
Qed.

Lemma future_same cap s s' : same_writer s s' -> future cap s' = future cap s.
Proof. intros (E1 & E2 & _). unfold future. by rewrite E1, E2. Qed.
Lemma writer_ok_same s s' : same_writer s s' -> writer_ok s -> writer_ok s'.
Proof. intros (E1 & E2 & _). unfold writer_ok. by rewrite E1, E2. Qed.

Lemma inv_initial w msgs :
  repr w [] -> Forall message_ok msgs -> pushed_ w + zlen (concat (map full msgs)) < 2 ^ 64 ->
  inv (capacity_ w) msgs (initial w msgs).
Proof.
  intros Hr Hm Hb. destruct (repr_bounds _ _ Hr) as [_ Hc].
  exists [], [], msgs. unfold future. split; cbn [initial writer_ to_send the_wire]; try done.
  - unfold future. cbn [initial writer_ to_send]. by rewrite concat_all_chunks.
  - unfold expected, future. cbn [initial reader_ writer_ to_send app]. by rewrite app_nil_r.
Qed.

Definition part_ok (cap : Z) (c : list byte) : Prop := 0 < zlen c <= cap.

Lemma chunks_ok cap l : 0 < cap -> Forall (part_ok cap) (chunks cap l).
Proof.
  intros Hc. induction l as [l IH] using (induction_ltof1 _ length); unfold ltof in IH.
  destruct l as [|x l]; [by constructor|]. rewrite chunks_cons by done. constructor.
  - unfold part_ok. rewrite zlen_take_min, zlen_cons by lia. pose proof (zlen_nonneg l). lia.
  - apply IH. rewrite length_drop. simpl. lia.
Qed.

Lemma all_chunks_ok cap (ms : list message) : 0 < cap -> Forall (part_ok cap) (all_chunks cap ms).
Proof.
  intros Hc. induction ms as [|m ms IH]; [by constructor|]. rewrite all_chunks_cons.
  apply Forall_app. auto using chunks_ok.
Qed.

Lemma future_head_ok cap s ch fut : 0 < cap -> future cap s = ch :: fut -> part_ok cap ch.
Proof.
  intros Hc Hf. assert (Forall (part_ok cap) (future cap s)) as HF.
  { unfold future. destruct (writer_ s); [|apply Forall_app|by constructor]; auto using chunks_ok, all_chunks_ok. }
  rewrite Hf in HF. by apply Forall_cons in HF as [? _].
Qed.

Definition to_write (s : system) : Z :=
  match writer_ s with
  | W_idle => zlen (concat (map full (to_send s)))
  | W_loop from _ => zlen from + zlen (concat (map full (to_send s)))
  | W_stopped => 0
  end.
Definition measure (s : system) : Z :=
  3 * to_write s + 2 * stored (the_wire s) + idle s
  + (if closed_ s then 0 else 1) + (match writer_ s with W_stopped => 0 | _ => 1 end).

Lemma to_write_future cap s : 0 < cap -> to_write s = zlen (concat (future cap s)).
Proof.
  intros Hc. unfold to_write, future. destruct (writer_ s); [|rewrite concat_app, zlen_app|done];
    by rewrite ?concat_chunks, ?concat_all_chunks.
Qed.

Lemma stopped_bit s :
  writer_ s <> W_stopped -> (match writer_ s with W_stopped => 0 | _ => 1 end) = 1.
Proof. by destruct (writer_ s). Qed.

Lemma inv_step_writer cap msgs s s' :
  inv cap msgs s -> writer_step s = Ok (Some s') -> inv cap msgs s' /\ measure s' < measure s.
Proof.
  intros (pend & lost & todo & [Hr Hcap Hb Hm Hw Hro Hex Hnl Hstp]) Hst.
  destruct (repr_bounds _ _ Hr) as [_ Hc]. rewrite Hcap in Hc.
  destruct (closed_ s) eqn:Ecl.
  - destruct (writer_step_closed s s' Ecl Hst) as [-> Hns]. split.
    + exists pend, (future cap s ++ lost), todo. split; try done.
      * pose proof (zlen_nonneg (concat (future cap s))). unfold future at 1. cbn. change (zlen []) with 0. lia.
    + unfold measure, idle. cbn -[Z.mul]. rewrite (stopped_bit s Hns), (to_write_future cap s Hc), Ecl.
      pose proof (zlen_nonneg (concat (future cap s))). unfold to_write. cbn -[Z.mul]. lia.
  - destruct (future cap s) as [|ch fut] eqn:Ef.
    { rewrite (writer_step_done cap s Hc Hw Ef) in Hst. done. }
    cbn in Hb. rewrite zlen_app in Hb. pose proof (zlen_nonneg (concat fut)).
    pose proof (writer_step_next cap s (concat pend) ch fut Hw Hr Hcap Ecl Ef ltac:(lia)) as Hn.
    unfold writer_moves in Hn. case_bool_decide; [|congruence].
    destruct Hn as (s1 & E & R & F & W & Ns & (S1 & S2 & S3 & S4 & S5) & P).
    rewrite E in Hst. injection Hst as <-.
    assert (writer_ s <> W_stopped) as Hns by (intros Es; unfold future in Ef; by rewrite Es in Ef).
    split.
    + exists (pend ++ [ch]), lost, todo. split.
      * by rewrite concat_app, concat_cons, app_nil_r.
      * congruence.
      * rewrite F, P. lia.
      * congruence.
      * done.
      * unfold reader_ok in *. rewrite S1, S4. destruct (reader_ s); [done| |done].
        destruct Hro as (? & _ & ?). split_and!; [done|by destruct pend|done].
      * unfold expected in *. rewrite S1, F, <- app_assoc. exact Hex.
      * intros _. by apply Hnl.
      * intros ?. done.
    + unfold measure, idle. rewrite S1, S3, (stored_repr _ _ R), (stored_repr _ _ Hr), zlen_app,
        (stopped_bit s Hns), (stopped_bit s1 Ns), !(to_write_future cap) by done.
      rewrite F, Ef, concat_cons, zlen_app. destruct (future_head_ok cap s ch fut Hc Ef). lia.
Qed.

Lemma inv_step_reader cap msgs s s' :
  inv cap msgs s -> reader_step s = Ok (Some s') -> inv cap msgs s' /\ measure s' < measure s.
Proof.
  intros (pend & lost & todo & [Hr Hcap Hb Hm Hw Hro Hex Hnl Hstp]) Hst.
  destruct (repr_bounds _ _ Hr) as [_ Hc]. rewrite Hcap in Hc.
  destruct pend as [|ch pend]; [by rewrite (reader_step_none cap s todo) in Hst|].
  destruct (reader_step_next cap s todo ch pend (future cap s ++ lost)) as (s1 & E & Hmv); [done..|].
  rewrite E in Hst. injection Hst as <-. destruct Hmv as (pend' & todo' & R & Ht & Ex & Ro & Sw & Hlt).
  pose proof Sw as (S1 & S2 & S3 & S4 & S5). split.
  - exists pend', lost, todo'. split; try done.
    + congruence.
    + by rewrite S4, (future_same cap s s1 Sw).
    + congruence.
    + by apply (writer_ok_same s).
    + by rewrite (future_same cap s s1 Sw).
    + by rewrite S1.
    + by rewrite S1, S3.
  - unfold measure. rewrite (stored_repr _ _ R), (stored_repr _ _ Hr), !(to_write_future cap),
      (future_same cap s s1 Sw), S1, S3 by done. lia.
Qed.

Lemma inv_step cap msgs s s' :
  inv cap msgs s -> step s s' -> inv cap msgs s' /\ measure s' < measure s.
Proof.
  intros Hi Hst. destruct Hst as [s s' E|s s' E|s E];
    [by apply inv_step_writer|by apply inv_step_reader|]. split.
  - destruct Hi as (pend & lost & todo & []). by exists pend, lost, todo.
  - unfold measure. rewrite E. cbn -[Z.mul]. unfold idle, to_write. cbn -[Z.mul]. lia.
Qed.

Lemma measure_nonneg cap msgs s : inv cap msgs s -> 0 <= measure s.
Proof.
  intros (pend & lost & todo & [Hr Hcap _ _ _ _ _ _ _]). destruct (repr_bounds _ _ Hr) as [_ Hc].
  unfold measure, idle. rewrite (to_write_future _ s Hc), (stored_repr _ _ Hr).
  pose proof (zlen_nonneg (concat (future (capacity_ (the_wire s)) s))). pose proof (zlen_nonneg (concat pend)).
  destruct (reader_ s), (closed_ s), (writer_ s); lia.
Qed.

Lemma inv_rtc cap msgs s s' : inv cap msgs s -> rtc step s s' -> inv cap msgs s'.
Proof. intros Hi. induction 1 as [|s s1 s' Hst _ IH]; [done|]. apply IH. by eapply inv_step. Qed.

Lemma inv_safe cap msgs s :
  inv cap msgs s ->
  (exists o, writer_step s = Ok o) /\ (exists o, reader_step s = Ok o) /\
  exists todo, msgs = received s ++ todo.
Proof.
  intros (pend & lost & todo & [Hr Hcap Hb Hm Hw Hro Hex Hnl Hst]).
  destruct (repr_bounds _ _ Hr) as [_ Hc]. rewrite Hcap in Hc. split_and!; [| |by eauto].
  - destruct (future cap s) as [|ch fut] eqn:Ef; [rewrite (writer_step_done cap s); eauto|].
    destruct (closed_ s) eqn:Ecl.
    + unfold writer_step, write_first, write_chunk. rewrite Ecl.
      destruct (writer_ s); [destruct (to_send s) as [|[h p] q]| |]; rewrite ?andb_false_r; by eexists.
    + cbn in Hb. rewrite zlen_app in Hb. pose proof (zlen_nonneg (concat fut)).
      pose proof (writer_step_next cap s (concat pend) ch fut Hw Hr Hcap Ecl Ef ltac:(lia)) as Hn.
      unfold writer_moves in Hn. case_bool_decide; [destruct Hn as (s' & -> & _)|rewrite Hn]; eauto.
  - destruct pend as [|ch pend]; [rewrite (reader_step_none cap s todo); eauto|].
    destruct (reader_step_next cap s todo ch pend (future cap s ++ lost)) as (s1 & -> & _); eauto.
Qed.

(** If neither side can move on an open wire, everything was delivered. *)
Lemma inv_stuck cap msgs s :
  inv cap msgs s -> closed_ s = false ->
  writer_step s = Ok None -> reader_step s = Ok None -> received s = msgs.
Proof.
  intros (pend & lost & todo & [Hr Hcap Hb Hm Hw Hro Hex Hnl Hst]) Hcl Hws Hrs.
  assert (writer_ s <> W_stopped) as Hns by (intros E; apply Hst in E; congruence).
  destruct (repr_bounds _ _ Hr) as [_ Hc]. rewrite Hcap in Hc. rewrite (Hnl Hns), app_nil_r in Hex.
  destruct pend as [|ch pend].
  2:{ destruct (reader_step_next cap s todo ch pend (future cap s)) as (s1 & E & _); [done..|congruence]. }
  destruct (future cap s) as [|ch fut] eqn:Ef.
  - destruct todo as [|[h p] todo]; [by rewrite app_nil_r in Hm|]. exfalso.
    unfold expected, reader_ok in *. destruct (reader_ s) as [| |top n].
    + rewrite all_chunks_cons, chunks_cons in Hex by (done || apply full_nonempty). done.
    + by destruct Hro as [_ [? _]].
    + destruct Hro as [_ (h' & p' & l & todo' & [= <- <- <-] & _ & -> & -> & Hn)].
      rewrite drop_app_length, chunks_cons in Hex by (done || by apply zlen_pos). done.
  - cbn in Hb. rewrite zlen_app in Hb. pose proof (zlen_nonneg (concat fut)).
    pose proof (writer_step_next cap s (concat []) ch fut Hw Hr Hcap Hcl Ef ltac:(lia)) as Hn.
    unfold writer_moves in Hn. rewrite bool_decide_true in Hn.
    + destruct Hn as (s' & E & _). congruence.
    + change (zlen (concat [])) with 0. destruct (future_head_ok cap s ch fut Hc Ef). lia.
Qed.

Lemma measure_initial w msgs :
  repr w [] -> measure (initial w msgs) = 3 * zlen (concat (map full msgs)) + 3.
Proof.
  intros Hr. unfold measure, initial, to_write, idle. cbn -[Z.mul].
  rewrite (stored_repr _ _ Hr). change (zlen []) with 0. lia.
Qed.

Lemma inv_nsteps cap msgs n s s' :
  inv cap msgs s -> nsteps step n s s' -> inv cap msgs s' /\ Z.of_nat n <= measure s - measure s'.
Proof.
  intros Hi Hn. revert Hi. induction Hn as [s|n s s1 s' Hst _ IH]; intros Hi; [split; [done|lia]|].
  destruct (inv_step _ _ _ _ Hi Hst) as [Hi1 Hm]. destruct (IH Hi1). split; [done|lia].
Qed.

(** C1: a writer that sends [msgs] over an empty wire and a reader that receives
    them, interleaved in any way and with a close at any time, never touch memory
    outside the ring and never fail; what the reader has received is at every
    moment a prefix of what was sent, each message with its header and its
    payload unchanged. *)
Theorem wire_delivery_safe w msgs s :
  repr w [] -> Forall message_ok msgs -> pushed_ w + zlen (concat (map full msgs)) < 2 ^ 64 ->
  rtc step (initial w msgs) s ->
  (exists o, writer_step s = Ok o) /\ (exists o, reader_step s = Ok o) /\
  exists todo, msgs = received s ++ todo.
Proof. intros Hr Hm Hb Hst. eapply inv_safe, inv_rtc, Hst. by apply inv_initial. Qed.

(** C2: every run ends: it has at most [3 * bytes + 3] steps, and when neither
    side can move on a wire that was not closed, every message was delivered (the
    two waits of [write] and [read] cannot deadlock, whatever the sizes of the
    messages and of the ring). *)
Theorem wire_delivery_complete w msgs n s :
  repr w [] -> Forall message_ok msgs -> pushed_ w + zlen (concat (map full msgs)) < 2 ^ 64 ->
  nsteps step n (initial w msgs) s ->
  Z.of_nat n <= 3 * zlen (concat (map full msgs)) + 3 /\
  (closed_ s = false -> writer_step s = Ok None -> reader_step s = Ok None -> received s = msgs).
Proof.
  intros Hr Hm Hb Hst. pose proof (inv_initial w msgs Hr Hm Hb) as Hi.
  destruct (inv_nsteps _ _ _ _ _ Hi Hst) as [Hi' Hn]. pose proof (measure_nonneg _ _ _ Hi').
  rewrite measure_initial in Hn by done. split; [lia|]. intros. by eapply inv_stuck.
Qed.

End Invariant.

(** ** A concrete run: a 16-byte ring, one short and one long message *)

Definition demo_wire : simple_wire message_header := new_wire 16 (replicate 16 0).
Definition demo_msgs : list (message_header * list byte) :=
  [(MessageHeader 1 3, [7; 8; 9]); (MessageHeader 2 20, seqZ 100 20)].

Fixpoint run (sched : list bool) (s : system message_header) : option (system message_header) :=
  match sched with
  | [] => Some s
  | b :: sched =>
      match (if b then writer_step s else reader_step s) with
      | Ok (Some s') => run sched s'
      | Ok None => run sched s
      | _ => None
      end
  end.

Lemma run_rtc sched s s' : run sched s = Some s' -> rtc step s s'.
Proof.
  revert s. induction sched as [|b sched IH]; cbn; intros s; [intros [= ->]; done|].
  destruct b; [destruct (writer_step s) as [[s1|]| |] eqn:E|destruct (reader_step s) as [[s1|]| |] eqn:E];
    try done; intros Hr%IH; try done; eapply rtc_l; try done; by constructor.
Qed.

Definition demo_schedule : list bool := [true; true; false; false; true; false; true; false; false; true; false].
Definition demo_final : system message_header :=
  match run demo_schedule (initial demo_wire demo_msgs) with
  | Some s => s | None => initial demo_wire demo_msgs end.

Example demo_received : received demo_final = demo_msgs.
Proof. vm_compute. reflexivity. Qed.

Lemma wire_delivery_safe_witness :
  exists todo, demo_msgs = received demo_final ++ todo.
Proof.
  refine (proj2 (proj2 (wire_delivery_safe demo_wire demo_msgs demo_final _ _ _ _))).
  - apply repr_new; [split; [apply (Z.leb_le 6 16)|]; done|done].
  - repeat constructor; done.
  - vm_compute. done.
  - apply (run_rtc demo_schedule). vm_compute. reflexivity.
Defined.

Lemma run_nsteps sched s s' : run sched s = Some s' -> exists n, nsteps step n s s'.
Proof. intros H%run_rtc. by apply rtc_nsteps. Qed.

Lemma wire_delivery_complete_witness :
  exists n, nsteps step n (initial demo_wire demo_msgs) demo_final /\ received demo_final = demo_msgs.
Proof.
  destruct (run_nsteps demo_schedule (initial demo_wire demo_msgs) demo_final) as [n Hn].
  { vm_compute. reflexivity. }
  exists n. split; [exact Hn|].
  refine (proj2 (wire_delivery_complete demo_wire demo_msgs n demo_final _ _ _ Hn) _ _ _).
  - apply repr_new; [split; [apply (Z.leb_le 6 16)|]; done|done].
  - repeat constructor; done.
  - vm_compute. done.
  - vm_compute. reflexivity.
  - vm_compute. reflexivity.
  - vm_compute. reflexivity.
Defined.
