(* ===== verification/WireWait.v ===== *)
(** How the two sides of a wire wait for each other
    (src/tateyama/endpoint/ipc/wire.h: [wait_to_write], the waits of [read], [peep] and
    [await], and every [notify_one] on [c_full_] and [c_empty_]).

    WireProtocol lets a side that has to wait stand still until it can go on.  In the code it
    takes [m_mutex_], raises its flag ([wait_for_write_] or [wait_for_read_]), tests what it
    waits for, and sleeps on a condition variable; the other side updates the counters, reads
    the flag without the mutex, and takes the mutex only to notify when the flag is raised.
    Other threads close the wire or raise an alarm in the same way.  Here every access to a flag
    and every critical section is a step; the copying rounds are those of WireProtocol. *)
From S2P Require Import Prelude WireHeader SimpleWire WireProtocol.

Module WireWait.
Section WireWait.
Context {T : Type} `{!Header T}.
Local Abbreviation wire := (simple_wire T).
Local Abbreviation message := (T * list byte)%type.
Local Abbreviation system := (system T).
(** the response wire, whose [await] also returns when the wire is closed; else the request wire *)
Context (response : bool).

(** where a side is: at its next round; in [peep] or [await], with the alarms it read; about to
    take the mutex; in the predicate of the wait ([last]: the time is over); asleep, and whether
    it was notified; about to lower its flag; about to copy; about to read the other side's
    flag; about to notify the other side *)
Inductive phase : Type :=
| Run
| Peeked (termination notification : bool)
| Want
| Check (last : bool)
| Sleep (notified : bool)
| Leave
| Go
| Test
| Notify.

(** a side with its flag; [tests] and [posts] count the other threads that are about to read
    this flag and to notify this side *)
Record side : Type := Side { ph : phase; flag : bool; tests : nat; posts : nat }.

Record t : Type := Make {
  sys : system;
  wr : side;                       (* [wait_for_write_], [c_full_] *)
  rd : side;                       (* [wait_for_read_], [c_empty_] *)
  termination_requested_ : bool;   (* of the request wire *)
  notification_ : bool;            (* [onetime_notification_], or [shutdown_] of the response wire *)
  told_ : bool                     (* ghost: [close] was called, not only [force_close] *)
}.

Definition initial (w : wire) (msgs : list message) : t :=
  Make (WireProtocol.initial w msgs) (Side Run false 0 0) (Side Run false 0 0) false false false.

Definition with_sys (x : system) (s : t) : t := Make x (wr s) (rd s) (termination_requested_ s) (notification_ s) (told_ s).
Definition with_wr (d : side) (s : t) : t := Make (sys s) d (rd s) (termination_requested_ s) (notification_ s) (told_ s).
Definition with_rd (d : side) (s : t) : t := Make (sys s) (wr s) d (termination_requested_ s) (notification_ s) (told_ s).
Definition goto (p : phase) (d : side) : side := Side p (flag d) (tests d) (posts d).

(** [m_mutex_] is held in the predicate and until the flag is lowered *)
Definition holds (p : phase) : bool := match p with Check _ | Leave => true | _ => false end.
Definition free (s : t) : bool := negb (holds (ph (wr s))) && negb (holds (ph (rd s))).

(** ** What the sides wait for *)

(** the bytes of the next round of [write], when there is one *)
Definition write_length (x : system) : option Z :=
  match writer_ x with
  | W_idle => match to_send x with (h, _) :: _ => Some (min (get_length h + size (T := T)) (capacity_ (the_wire x))) | [] => None end
  | W_loop _ length => Some (min length (capacity_ (the_wire x)))
  | W_stopped => None
  end.
Definition can_write (x : system) : bool :=
  match write_length x with Some n => (n <=? room (the_wire x)) || closed_ x | None => false end.

Definition has_data (x : system) : bool :=
  match reader_ x with
  | R_idle => stored (the_wire x) >=? size (T := T)
  | R_ready => true
  | R_loop _ length => stored (the_wire x) >=? min length (capacity_ (the_wire x))
  end.
Definition in_loop (x : system) : bool := match reader_ x with R_loop _ _ => true | _ => false end.
(** the loop of [read] does not look at the alarms *)
Definition alarmed (s : t) : bool := negb (in_loop (sys s)) && (termination_requested_ s || notification_ s).
Definition can_read (s : t) : bool :=
  has_data (sys s) || alarmed s || (negb (in_loop (sys s)) && response && closed_ (sys s)).

(** ** The wait, common to both sides *)

Definition wait_step (free ready : bool) (resume : phase) (d : side) : option side :=
  match ph d with
  | Want => if free then Some (Side (Check false) true (tests d) (posts d)) else None
  | Check last =>
      if ready then Some (goto Leave d)
      else if last then Some (Side Run false (tests d) (posts d)) else Some (goto (Sleep false) d)
  | Sleep true => if free then Some (goto (Check false) d) else None
  | Leave => Some (Side resume false (tests d) (posts d))
  | _ => None
  end.
Definition wake (d : side) : side := match ph d with Sleep _ => goto (Sleep true) d | _ => d end.

(** ** The writer *)

Definition copy_out (s : t) : res (option t) :=
  o ← writer_step (sys s);
  Ok (match o with
      | Some x => Some (with_sys x (with_wr (goto (match writer_ x with W_stopped => Run | _ => Test end) (wr s)) s))
      | None => None
      end).

Definition writer_act (s : t) : res (option t) :=
  match ph (wr s) with
  | Run =>
      Ok (match write_length (sys s) with
          | None => None
          | Some n =>
              Some (with_wr (goto (if (n >? room (the_wire (sys s))) && negb (closed_ (sys s)) then Want else Go) (wr s)) s)
          end)
  | Go => copy_out s
  | Test => Ok (Some (with_wr (goto (if flag (rd s) then Notify else Run) (wr s)) s))
  | Notify => Ok (if free s then Some (with_rd (wake (rd s)) (with_wr (goto Run (wr s)) s)) else None)
  | _ => Ok ((fun d => with_wr d s) <$> wait_step (free s) (can_write (sys s)) Go (wr s))
  end.

(** ** The reader *)

Definition copy_in (next : phase) (s : t) : res (option t) :=
  o ← reader_step (sys s);
  Ok (match o with Some x => Some (with_sys x (with_rd (goto next (rd s)) s)) | None => None end).

(** [peep] and [await] read the alarms before they look for a header; a termination is returned
    once, a notification is an exception ([peep]) or an empty header ([await], which is not
    stored here: nobody reads after it).  [read] always takes the mutex before a further round *)
Definition reader_act (s : t) : res (option t) :=
  match ph (rd s) with
  | Run =>
      match reader_ (sys s) with
      | R_idle => Ok (Some (with_rd (goto (Peeked (termination_requested_ s) (notification_ s || (response && closed_ (sys s)))) (rd s)) s))
      | R_ready => copy_in Test s
      | R_loop _ _ => Ok (Some (with_rd (goto Want (rd s)) s))
      end
  | Peeked termination notification =>
      if stored (the_wire (sys s)) >=? size (T := T) then copy_in Run s
      else Ok (Some (if termination then Make (sys s) (wr s) (goto Run (rd s)) false (notification_ s) (told_ s)
                     else with_rd (goto (if notification then Run else Want) (rd s)) s))
  | Go => copy_in Test s
  | Test => Ok (Some (with_rd (goto (if flag (wr s) then Notify else Run) (rd s)) s))
  | Notify => Ok (if free s then Some (with_wr (wake (wr s)) (with_rd (goto Run (rd s)) s)) else None)
  | _ => Ok ((fun d => with_rd d s) <$> wait_step (free s) (can_read s) (if in_loop (sys s) then Go else Run) (rd s))
  end.

(** ** The other threads *)

Definition add_test (d : side) : side := Side (ph d) (flag d) (S (tests d)) (posts d).
Definition test_step (d : side) : option side :=
  match tests d with O => None | S n => Some (Side (ph d) (flag d) n (if flag d then S (posts d) else posts d)) end.
Definition post_step (free : bool) (d : side) : option side :=
  match posts d with O => None | S n => if free then Some (wake (Side (ph d) (flag d) (tests d) n)) else None end.

(** [close]; that of the response wire wakes both sides, [force_close] the writer only *)
Definition close (s : t) : t :=
  Make (close_step (sys s)) (add_test (wr s)) (if response then add_test (rd s) else rd s) (termination_requested_ s) (notification_ s) true.
Definition force_close (s : t) : t := with_sys (close_step (sys s)) (with_wr (add_test (wr s)) s).
(** [notify] of the request wire, [notify_shutdown] of the response wire *)
Definition notify (s : t) : t := Make (sys s) (wr s) (add_test (rd s)) (termination_requested_ s) true (told_ s).
Definition terminate (s : t) : t := Make (sys s) (wr s) (add_test (rd s)) true (notification_ s) (told_ s).

Inductive label : Type :=
| Writer | Reader
| Test_full | Post_full | Test_empty | Post_empty
| Close | Force_close | Raise | Terminate
(* a wake-up of the condition variable without cause; the end of the time of [peep] or [await] *)
| Spurious_full | Spurious_empty | Timeout.

Definition rouse (last : bool) (d : side) : option side := match ph d with Sleep _ => Some (goto (Check last) d) | _ => None end.

Definition step (l : label) (s : t) : res (option t) :=
  match l with
  | Writer => writer_act s
  | Reader => reader_act s
  | Test_full => Ok ((fun d => with_wr d s) <$> test_step (wr s))
  | Post_full => Ok ((fun d => with_wr d s) <$> post_step (free s) (wr s))
  | Test_empty => Ok ((fun d => with_rd d s) <$> test_step (rd s))
  | Post_empty => Ok ((fun d => with_rd d s) <$> post_step (free s) (rd s))
  | Close => Ok (Some (close s))
  | Force_close => Ok (if response then Some (force_close s) else None)
  | Raise => Ok (Some (notify s))
  | Terminate => Ok (if response then None else Some (terminate s))
  | Spurious_full => Ok (if free s then (fun d => with_wr d s) <$> rouse false (wr s) else None)
  | Spurious_empty => Ok (if free s then (fun d => with_rd d s) <$> rouse false (rd s) else None)
  | Timeout => Ok (if free s && negb (in_loop (sys s)) then (fun d => with_rd d s) <$> rouse true (rd s) else None)
  end.

Inductive reachable (s0 : t) : t -> Prop :=
| reach_initial : reachable s0 s0
| reach_step s l s' : reachable s0 s -> step l s = Ok (Some s') -> reachable s0 s'.

(** the threads at work: all steps but those that come from outside *)
Definition at_work (l : label) : bool :=
  match l with Writer | Reader | Test_full | Post_full | Test_empty | Post_empty => true | _ => false end.

(** * Nobody sleeps in vain *)

Context `{!HeaderOk T}.

(** ** The copying rounds *)

Lemma gt_flip a b : (a >? b) = negb (a <=? b).
Proof. destruct (Z.gtb_spec a b), (Z.leb_spec a b); lia || done. Qed.

Lemma write_first_waits w c from (h : T) :
  write_first w c from h = Ok Blocked -> (min (get_length h + size (T := T)) (capacity_ w) <=? room w) || c = false.
Proof.
  unfold write_first. rewrite gt_flip. destruct (_ <=? room w), c; cbn; try done.
  destruct (write_in_buffer _ _ _ _) as [w1| |]; try done. cbn. destruct (_ >? _); [|done]. by destruct (write_in_buffer _ _ _ _).
Qed.
Lemma write_chunk_waits (w : wire) c from n :
  write_chunk w c from n = Ok Blocked -> (min n (capacity_ w) <=? room w) || c = false.
Proof.
  unfold write_chunk. rewrite gt_flip. destruct (_ <=? room w), c; cbn; try done. by destruct (write_in_buffer _ _ _ _).
Qed.

(** a writer that finds what it waits for does not have to wait *)
Lemma can_write_step x : can_write x = true -> writer_step x <> Ok None.
Proof.
  unfold can_write, write_length, writer_step. destruct (writer_ x) as [|from n|]; [destruct (to_send x) as [|[h p] q]; [done|]| |done].
  - intros Hc E. destruct (write_first (the_wire x) (closed_ x) p h) as [[| |[[? ?] ?]]| |] eqn:Ew; try done.
    apply write_first_waits in Ew. congruence.
  - intros Hc E. destruct (write_chunk (the_wire x) (closed_ x) from n) as [[| |[[? ?] ?]]| |] eqn:Ew; try done.
    apply write_chunk_waits in Ew. congruence.
Qed.
Lemma cannot_write_step x : can_write x = false -> writer_step x = Ok None.
Proof.
  unfold can_write, write_length, writer_step, write_first, write_chunk.
  destruct (writer_ x) as [|from n|]; [destruct (to_send x) as [|[h p] q]; [done|]| |done];
    rewrite gt_flip; destruct (_ <=? room _), (closed_ x); done.
Qed.
Lemma has_data_step x : has_data x = true -> reader_step x <> Ok None.
Proof.
  unfold has_data, reader_step. destruct (reader_ x) as [| |top n]; intros Hd.
  - rewrite Hd. by destruct (copy_header _).
  - by destruct (read_first _) as [[[? ?] ?]| |].
  - unfold read_chunk. rewrite Hd. by destruct (read_from_buffer _ _ _).
Qed.
Lemma no_data_step x : has_data x = false -> reader_step x = Ok None.
Proof. unfold has_data, reader_step, read_chunk. destruct (reader_ x); [intros ->; done|done|intros ->; done]. Qed.

Lemma writer_step_frame x x' :
  writer_step x = Ok (Some x') ->
  reader_ x' = reader_ x /\ closed_ x' = closed_ x /\ write_length x <> None /\ (writer_ x' = W_stopped -> the_wire x' = the_wire x).
Proof.
  unfold writer_step, write_length.
  destruct (writer_ x) as [|from n|]; [destruct (to_send x) as [|[h p] q]; [done|]| |done];
    [destruct (write_first _ _ _ _) as [[| |[[w' f'] l']]| |]|destruct (write_chunk _ _ _ _) as [[| |[[w' f'] l']]| |]];
    try done; intros [= <-]; cbn; split_and!; try done; by destruct (l' >? 0).
Qed.
(** finding a header changes no counter *)
Lemma peep_frame x x' : reader_ x = R_idle -> reader_step x = Ok (Some x') ->
  room (the_wire x') = room (the_wire x) /\ capacity_ (the_wire x') = capacity_ (the_wire x) /\ reader_ x' = R_ready.
Proof.
  intros Er. unfold reader_step. rewrite Er. destruct (_ >=? _); [|done].
  destruct (copy_header (the_wire x)) as [w'| |] eqn:Ec; try done. intros [= <-]. cbn. unfold copy_header in Ec.
  destruct (capacity_ (the_wire x) >=? _).
  - destruct (load (buffer (the_wire x)) _ _); try done. by injection Ec as <-.
  - destruct (load _ (read_address _ _) _); try done. cbn in Ec. destruct (load _ 0 _); try done. by injection Ec as <-.
Qed.

(** the writer leaves at least what was stored, the reader at least the room there was *)
Lemma writer_step_stored cap msgs x x' :
  WireProtocol.inv cap msgs x -> writer_step x = Ok (Some x') ->
  stored (the_wire x) <= stored (the_wire x') /\ capacity_ (the_wire x') = capacity_ (the_wire x).
Proof.
  intros Hi Hs. pose proof Hi as (pend & lost & todo & [Hr Hcap Hb _ Hw _ _ _ _]). destruct (repr_bounds _ _ Hr) as [_ Hc]. rewrite Hcap in Hc.
  destruct (closed_ x) eqn:Ecl; [by destruct (writer_step_closed x x' Ecl Hs) as [-> _]|].
  destruct (future cap x) as [|ch fut] eqn:Ef; [by rewrite (writer_step_done cap x Hc Hw Ef) in Hs|].
  cbn in Hb. rewrite zlen_app in Hb. pose proof (zlen_nonneg (concat fut)).
  pose proof (writer_step_next cap x (concat pend) ch fut Hw Hr Hcap Ecl Ef ltac:(lia)) as Hn.
  unfold writer_moves in Hn. case_bool_decide; [|congruence]. destruct Hn as (x1 & E & R & _ & _ & _ & (_ & _ & _ & _ & S5) & _).
  rewrite E in Hs. injection Hs as <-. rewrite (stored_repr _ _ R), (stored_repr _ _ Hr), zlen_app. pose proof (zlen_nonneg ch). split; [lia|done].
Qed.
Lemma reader_step_room cap msgs x x' :
  WireProtocol.inv cap msgs x -> reader_step x = Ok (Some x') ->
  room (the_wire x) <= room (the_wire x') /\ same_writer x x'.
Proof.
  intros Hi Hs. pose proof Hi as (pend & lost & todo & [Hr Hcap _ _ _ Hro Hex _ _]).
  destruct pend as [|ch pend]; [by rewrite (reader_step_none cap x todo) in Hs|].
  destruct (reader_step_next cap x todo ch pend (future cap x ++ lost)) as (x1 & E & Hmv); [done..|].
  rewrite E in Hs. injection Hs as <-. destruct Hmv as (pend' & todo' & R & _ & _ & _ & Sw & Hlt). split; [|done].
  pose proof Sw as (_ & _ & _ & _ & S5). rewrite (room_repr _ _ R), (room_repr _ _ Hr), S5. unfold idle in Hlt.
  destruct (reader_ x), (reader_ x1); lia.
Qed.

Lemma can_write_kept cap msgs x x' :
  WireProtocol.inv cap msgs x -> reader_step x = Ok (Some x') ->
  write_length x' = write_length x /\ (can_write x = true -> can_write x' = true).
Proof.
  intros Hi Hs. destruct (reader_step_room cap msgs x x' Hi Hs) as [Hm (S1 & S2 & S3 & S4 & S5)].
  assert (write_length x' = write_length x) as El by (unfold write_length; by rewrite S1, S2, S5).
  split; [done|]. unfold can_write. rewrite El, S3. destruct (write_length x) as [n|]; [|done].
  destruct (Z.leb_spec n (room (the_wire x))), (Z.leb_spec n (room (the_wire x'))), (closed_ x); cbn; done || lia.
Qed.
Lemma can_write_peep x x' : reader_ x = R_idle -> same_writer x x' -> reader_step x = Ok (Some x') -> can_write x' = can_write x.
Proof.
  intros Er (S1 & S2 & S3 & S4 & S5) Hs. destruct (peep_frame x x' Er Hs) as (Hm & Hc & _).
  unfold can_write, write_length. by rewrite S1, S2, S3, Hm, Hc.
Qed.
Lemma has_data_kept cap msgs x x' :
  WireProtocol.inv cap msgs x -> writer_step x = Ok (Some x') -> has_data x = true -> has_data x' = true.
Proof.
  intros Hi Hs. destruct (writer_step_stored cap msgs x x' Hi Hs) as [Hm Hc]. destruct (writer_step_frame x x' Hs) as (Hr & _).
  unfold has_data. rewrite Hr, Hc. destruct (reader_ x) as [| |top n]; rewrite ?Z.geb_le; lia.
Qed.

(** ** The flags and the notifications *)

Definition waiting (p : phase) : bool := match p with Check _ | Sleep _ | Leave => true | _ => false end.
Definition signals (p : phase) : Prop := p = Test \/ p = Notify.

(** the flag is up during the wait; a side that sleeps although it is ready will be notified *)
Definition side_inv (ready : bool) (other : phase) (d : side) : Prop :=
  flag d = waiting (ph d) /\
  (ph d = Sleep false -> ready = true -> signals other \/ (0 < tests d + posts d)%nat).

Lemma side_wait ready ready' free resume other d d' :
  (ready' = true -> ready = true) -> waiting resume = false ->
  side_inv ready' other d -> wait_step free ready resume d = Some d' -> side_inv ready' other d'.
Proof.
  intros Hr Hres [Hf Hs]. unfold wait_step, side_inv. destruct d as [p f ts ps]. cbn in *.
  destruct p as [| | |[]|[]| | | |], free, ready; try done; intros [= <-]; cbn; split; try done; intros -> || intros _ E; naive_solver.
Qed.
Lemma side_awake ready ready' other other' d : ph d <> Sleep false -> side_inv ready other d -> side_inv ready' other' d.
Proof. intros Hp [Hf _]. by split. Qed.
Lemma side_woken ready ready' other other' d : side_inv ready other d -> side_inv ready' other' (wake d).
Proof. intros [Hf _]. unfold wake, side_inv. by destruct d as [[| | | |[]| | | |] f ts ps]. Qed.
Lemma side_signalled ready ready' other other' d : signals other' -> side_inv ready other d -> side_inv ready' other' d.
Proof. intros Ho [Hf _]. split; [done|]. by left. Qed.
(** the other side reads the flag *)
Lemma side_tested ready other d : side_inv ready other d -> side_inv ready (if flag d then Notify else Run) d.
Proof. intros [Hf Hs]. split; [done|]. intros Hp _. rewrite Hf, Hp. cbn. left. by right. Qed.
Lemma side_moved ready ready' other other' d :
  (ready' = true -> ready = true) -> (signals other -> signals other') -> side_inv ready other d -> side_inv ready' other' d.
Proof. intros Hr Ho [Hf Hs]. split; [done|]. intros Hp Hy. destruct (Hs Hp (Hr Hy)); auto. Qed.
Lemma side_add ready ready' other d : side_inv ready other d -> side_inv ready' other (add_test d).
Proof. intros [Hf _]. split; [done|]. intros _ _. right. cbn. lia. Qed.
Lemma side_test ready other d d' : side_inv ready other d -> test_step d = Some d' -> side_inv ready other d'.
Proof.
  intros [Hf Hs]. unfold test_step, side_inv. destruct d as [p f [|n] ps]; [done|]. cbn in *. intros [= <-]. cbn. split; [done|].
  intros -> Hr. rewrite Hf. cbn. right. lia.
Qed.
Lemma side_post ready other free d d' : side_inv ready other d -> post_step free d = Some d' -> side_inv ready other d'.
Proof.
  intros [Hf Hs]. unfold post_step. destruct d as [p f ts [|n]]; [done|]. destruct free; [|done]. intros [= <-]. cbn in *.
  unfold wake, side_inv. cbn. destruct p as [| | | |[]| | | |]; done.
Qed.
Lemma side_rouse ready other last d d' : side_inv ready other d -> rouse last d = Some d' -> side_inv ready other d'.
Proof. intros [Hf _]. unfold rouse, side_inv. destruct d as [[] f ts ps]; try done. by intros [= <-]. Qed.
Lemma side_goto ready other p d : waiting p = waiting (ph d) -> p <> Sleep false -> side_inv ready other d -> side_inv ready other (goto p d).
Proof. intros Hp Hn [Hf _]. split; cbn; [congruence|done]. Qed.

(** ** The invariant *)

(** what the reader is told of: all it waits for but a wire closed by [force_close] alone *)
Definition readable (s : t) : bool :=
  has_data (sys s) || alarmed s || (negb (in_loop (sys s)) && response && told_ s).
(** the wire was closed by [force_close], never by [close], and the reader waits for nothing
    else that has happened *)
Definition force_closed (s : t) : Prop :=
  response = true /\ closed_ (sys s) = true /\ told_ s = false /\ has_data (sys s) = false /\ alarmed s = false.

Definition writer_at (x : system) (p : phase) : Prop :=
  match p with
  | Want | Sleep _ | Check false => write_length x <> None
  | Leave | Go => can_write x = true
  | Peeked _ _ | Check true => False
  | Run | Test | Notify => True
  end.
Definition reader_at (x : system) (p : phase) : Prop :=
  match p with
  | Peeked _ _ => reader_ x = R_idle
  | Want | Check _ | Sleep _ => reader_ x <> R_ready
  | Leave => reader_ x <> R_ready /\ (in_loop x = true -> has_data x = true)
  | Go => in_loop x = true /\ has_data x = true
  | Run | Test | Notify => True
  end.

Record wait_inv (cap : Z) (msgs : list message) (s : t) : Prop := {
  i_sys : WireProtocol.inv cap msgs (sys s);
  i_write : side_inv (can_write (sys s)) (ph (rd s)) (wr s);
  i_read : side_inv (readable s) (ph (wr s)) (rd s);
  i_writer : writer_at (sys s) (ph (wr s));
  i_reader : reader_at (sys s) (ph (rd s));
  i_told : told_ s = true -> closed_ (sys s) = true
}.

Lemma can_write_length x : can_write x = true -> write_length x <> None.
Proof. unfold can_write. by destruct (write_length x). Qed.

Section Steps.
Variables (cap : Z) (msgs : list message).
Local Abbreviation inv := (wait_inv cap msgs).

(** the writer copies *)
Lemma wait_copy_out s s' : inv s -> ph (wr s) = Go -> copy_out s = Ok (Some s') -> inv s'.
Proof.
  intros [Hi Hw Hr Hwa Hra Ht] Ep. unfold copy_out. destruct (writer_step (sys s)) as [[x|]| |] eqn:E; try done. cbn. intros [= <-].
  destruct (writer_step_frame _ _ E) as (Er & Ec & _ & Est).
  assert (ph (wr s) <> Sleep false) as Hns by (by rewrite Ep).
  destruct Hw as [Hf _]. rewrite Ep in Hf. split; cbn.
  - by eapply inv_step_writer.
  - split; cbn; [by rewrite Hf; destruct (writer_ x)|by destruct (writer_ x)].
  - destruct (writer_ x) eqn:Ew; [by eapply side_signalled; [left|]..|].
    eapply (side_moved (readable s) _ (ph (wr s))); [|by rewrite Ep; intros []|done].
    unfold readable, alarmed, has_data, in_loop. cbn. by rewrite Er, (Est eq_refl).
  - by destruct (writer_ x).
  - unfold reader_at, in_loop in *. rewrite Er. destruct (ph (rd s)); try done.
    + destruct Hra as [? Hh]. split; [done|]. intros Hl. eapply has_data_kept; [done..|by apply Hh].
    + destruct Hra as [? Hh]. split; [done|]. by eapply has_data_kept.
  - by rewrite Ec.
Qed.

(** the reader pops, or finds a header *)
Lemma wait_copy_in s s' next : inv s -> waiting (ph (rd s)) = false ->
  (next = Test \/ (next = Run /\ reader_ (sys s) = R_idle /\ ~ signals (ph (rd s)))) ->
  copy_in next s = Ok (Some s') -> inv s'.
Proof.
  intros [Hi Hw Hr Hwa Hra Ht] Ep Hn. unfold copy_in. destruct (reader_step (sys s)) as [[x|]| |] eqn:E; try done. cbn. intros [= <-].
  destruct (can_write_kept cap msgs _ _ Hi E) as [El Hk]. destruct (reader_step_room cap msgs _ _ Hi E) as [_ Sw].
  destruct Hr as [Hf _]. split; cbn.
  - by eapply inv_step_reader.
  - destruct Hn as [->|(-> & Ei & Hns)]; [by eapply side_signalled; [left|]|].
    eapply (side_moved (can_write (sys s)) _ (ph (rd s))); [by rewrite (can_write_peep (sys s) x)|by intros|done].
  - split; cbn; [|by destruct Hn as [->|[-> _]]]. rewrite Hf, Ep. by destruct Hn as [->|[-> _]].
  - unfold writer_at in *. rewrite El. destruct (ph (wr s)) as [| | |[]| | | | |]; auto.
  - by destruct Hn as [->|[-> _]].
  - by destruct Sw as (_ & _ & -> & _).
Qed.

Lemma inv_wr s d : inv s -> (signals (ph (wr s)) -> signals (ph d)) ->
  side_inv (can_write (sys s)) (ph (rd s)) d -> writer_at (sys s) (ph d) -> inv (with_wr d s).
Proof. intros [Hi Hw Hr Hwa Hra Ht] Hn Hd Ha. split; try done. by eapply (side_moved (readable s) _ (ph (wr s))). Qed.
Lemma inv_rd s d : inv s -> (signals (ph (rd s)) -> signals (ph d)) ->
  side_inv (readable s) (ph (wr s)) d -> reader_at (sys s) (ph d) -> inv (with_rd d s).
Proof. intros [Hi Hw Hr Hwa Hra Ht] Hn Hd Ha. split; try done. by eapply (side_moved (can_write (sys s)) _ (ph (rd s))). Qed.

(** a step of a wait keeps the position proper *)
Lemma writer_at_wait x free d d' :
  writer_at x (ph d) -> wait_step free (can_write x) Go d = Some d' -> writer_at x (ph d') /\ ~ signals (ph d).
Proof.
  unfold wait_step. destruct d as [p f ts ps]. cbn. destruct p as [| | |last|n| | | |]; try done; intros Ha.
  - destruct free; [|done]. intros [= <-]. by split; [|intros []].
  - destruct last; [done|]. destruct (can_write x) eqn:Ec; intros [= <-]; by split; [|intros []].
  - destruct n, free; try done. intros [= <-]. by split; [|intros []].
  - intros [= <-]. by split; [|intros []].
Qed.
Lemma reader_at_wait s free d d' :
  reader_at (sys s) (ph d) -> wait_step free (can_read s) (if in_loop (sys s) then Go else Run) d = Some d' ->
  reader_at (sys s) (ph d') /\ ~ signals (ph d).
Proof.
  unfold wait_step. destruct d as [p f ts ps]. cbn. destruct p as [| | |last|n| | | |]; try done; intros Ha.
  - destruct free; [|done]. intros [= <-]. by split; [|intros []].
  - destruct (can_read s) eqn:Ec; [|by destruct last; intros [= <-]; (split; [|intros []])].
    intros [= <-]. split; [|by intros []]. cbn. split; [done|]. intros Hl. unfold can_read, alarmed in Ec. rewrite Hl in Ec.
    by rewrite !orb_false_r in Ec.
  - destruct n, free; try done. intros [= <-]. by split; [|intros []].
  - intros [= <-]. split; [|by intros []]. cbn. destruct Ha as [Ha Hd]. destruct (in_loop (sys s)) eqn:El; cbn; auto.
Qed.
Lemma resumes_awake x : waiting (if in_loop x then Go else Run) = false.
Proof. by destruct (in_loop x). Qed.
Lemma readable_can_read s : (told_ s = true -> closed_ (sys s) = true) -> readable s = true -> can_read s = true.
Proof. intros Ht. unfold can_read, readable. destruct (told_ s); [by rewrite Ht|]. by rewrite !andb_false_r, !orb_false_r; intros ->. Qed.
(** the reader is told of all that ends its wait, but for [force_close] *)
Lemma can_read_readable s : can_read s = true -> readable s = true \/ force_closed s.
Proof.
  unfold can_read, readable, force_closed. destruct (has_data _), (alarmed s), (in_loop _), response, (told_ s), (closed_ _); cbn; auto 10.
Qed.

Lemma wait_writer s s' : inv s -> writer_act s = Ok (Some s') -> inv s'.
Proof.
  intros Hi E. pose proof Hi as [_ Hw Hr Hwa Hra Ht]. unfold writer_act in E.
  destruct (ph (wr s)) as [| | |last|n| | | |] eqn:Ep; try done.
  2-5: destruct (wait_step _ _ _ _) as [d|] eqn:Ed; [|done]; injection E as <-; rewrite <- Ep in Hwa;
      destruct (writer_at_wait _ _ _ _ Hwa Ed) as [Ha Hn]; apply inv_wr; [done|done| |done]; by eapply side_wait; [..|exact Ed].
  - destruct (write_length (sys s)) as [n|] eqn:El; [|done]. injection E as <-. apply inv_wr; [done|by rewrite Ep; intros []|..].
    + apply side_goto; [rewrite Ep|..|done]; by destruct (_ && _).
    + cbn. destruct (_ && _) eqn:Eb; cbn; [congruence|]. unfold can_write. rewrite El. rewrite gt_flip in Eb.
      destruct (_ <=? _), (closed_ _); done.
  - by eapply wait_copy_out.
  - injection E as <-. split; cbn; try done; try apply Hi.
    + apply side_goto; [rewrite Ep|..|done]; by destruct (flag (rd s)).
    + by eapply side_tested.
    + by destruct (flag (rd s)).
  - destruct (free s); [|done]. injection E as <-. split; cbn; try done; try apply Hi.
    + eapply side_awake; [done|]. by apply side_goto; [rewrite Ep|..].
    + by eapply side_woken.
    + unfold wake. by destruct (ph (rd s)) eqn:Er; cbn; rewrite ?Er.
Qed.

Lemma wait_peeked s tm nt s' : inv s -> ph (rd s) = Peeked tm nt -> reader_act s = Ok (Some s') -> inv s'.
Proof.
  intros Hi Ep E. pose proof Hi as [_ Hw Hr Hwa Hra Ht]. unfold reader_act in E. rewrite Ep in E, Hra. destruct (_ >=? _).
  - eapply wait_copy_in; [done|by rewrite Ep| |exact E]. right. split_and!; [done|done|rewrite Ep; by intros []].
  - injection E as <-. destruct tm.
    + split; cbn; try done; try apply Hi.
      * eapply (side_moved (can_write (sys s)) _ (ph (rd s))); [done|rewrite Ep; by intros []|done].
      * eapply side_awake; [done|]. by apply side_goto; [rewrite Ep|..].
    + apply inv_rd; [done|rewrite Ep; by intros []|apply side_goto; [rewrite Ep|..|done]; by destruct nt|].
      destruct nt; cbn; [done|by rewrite Hra].
Qed.

Lemma wait_reader s s' : inv s -> reader_act s = Ok (Some s') -> inv s'.
Proof.
  intros Hi E. pose proof Hi as [_ Hw Hr Hwa Hra Ht]. destruct (ph (rd s)) as [|tm nt| |last|n| | | |] eqn:Ep; [|by eapply wait_peeked|..];
    unfold reader_act in E; rewrite Ep in E.
  2-5: destruct (wait_step _ _ _ _) as [d|] eqn:Ed; [|done]; injection E as <-; rewrite <- Ep in Hra;
      destruct (reader_at_wait _ _ _ _ Hra Ed) as [Ha Hn]; apply inv_rd; [done|done| |done];
      by eapply side_wait; [by apply readable_can_read|apply (resumes_awake (sys s))| |exact Ed].
  - destruct (reader_ (sys s)) eqn:Er.
    + injection E as <-. apply inv_rd; [done|rewrite Ep; by intros []|by apply side_goto; [rewrite Ep|..]|done].
    + eapply wait_copy_in; [done|by rewrite Ep|by left|exact E].
    + injection E as <-. apply inv_rd; [done|rewrite Ep; by intros []|by apply side_goto; [rewrite Ep|..]|]. cbn. by rewrite Er.
  - eapply wait_copy_in; [done|by rewrite Ep|by left|exact E].
  - injection E as <-. split; cbn; try done; try apply Hi.
    + by eapply side_tested.
    + apply side_goto; [rewrite Ep|..|done]; by destruct (flag (wr s)).
    + by destruct (flag (wr s)).
  - destruct (free s); [|done]. injection E as <-. split; cbn; try done; try apply Hi.
    + by eapply side_woken.
    + eapply side_awake; [done|]. by apply side_goto; [rewrite Ep|..].
    + unfold wake. by destruct (ph (wr s)) eqn:Er; cbn; rewrite ?Er.
Qed.

(** *** The other threads *)

Lemma post_phase free d d' : post_step free d = Some d' -> d' = wake (Side (ph d) (flag d) (tests d) (pred (posts d))).
Proof. unfold post_step. destruct (posts d); [done|]. destruct free; [|done]. by intros [= <-]. Qed.
Lemma wake_phase d : (forall x, writer_at x (ph d) -> writer_at x (ph (wake d))) /\ (forall x, reader_at x (ph d) -> reader_at x (ph (wake d))) /\
  (signals (ph d) -> signals (ph (wake d))).
Proof. unfold wake. destruct d as [p f ts ps]. cbn. destruct p; cbn; split_and!; try done; by intros []. Qed.
Lemma test_phase d d' : test_step d = Some d' -> ph d' = ph d.
Proof. unfold test_step. destruct (tests d); [done|]. by intros [= <-]. Qed.
Lemma rouse_phase last d d' : rouse last d = Some d' -> (exists n, ph d = Sleep n) /\ ph d' = Check last.
Proof. unfold rouse. destruct (ph d); try done. intros [= <-]. eauto. Qed.

Lemma closed_inv x : WireProtocol.inv cap msgs x -> WireProtocol.inv cap msgs (close_step x).
Proof. intros (pend & lost & todo & []). by exists pend, lost, todo. Qed.
Lemma closed_writes x : (can_write x = true -> can_write (close_step x) = true) /\ write_length (close_step x) = write_length x.
Proof.
  split; [|done]. unfold can_write. change (write_length (close_step x)) with (write_length x). destruct (write_length x); [|done].
  cbn. by rewrite orb_true_r.
Qed.
Lemma inv_closed s d told : inv s -> (d = rd s /\ (response = false \/ told = told_ s) \/ d = add_test (rd s)) ->
  inv (Make (close_step (sys s)) (add_test (wr s)) d (termination_requested_ s) (notification_ s) told).
Proof.
  intros [Hi Hw Hr Hwa Hra Ht] Hd. assert (ph d = ph (rd s)) as Ep by (by destruct Hd as [[-> _] | ->]). split; cbn; [| | | | |done].
  - by apply closed_inv.
  - rewrite Ep. by eapply side_add.
  - destruct Hd as [[-> Hd] | ->]; [|by eapply side_add]. eapply side_moved; [|done..].
    unfold readable. cbn. by destruct Hd as [-> | ->]; rewrite ?andb_false_r.
  - destruct (closed_writes (sys s)) as [Hc Hl]. unfold writer_at in *. rewrite Hl. destruct (ph (wr s)) as [| | |[]| | | | |]; auto.
  - by rewrite Ep.
Qed.
Lemma inv_raised s tm nt : inv s -> inv (Make (sys s) (wr s) (add_test (rd s)) tm nt (told_ s)).
Proof. intros [Hi Hw Hr Hwa Hra Ht]. split; cbn; try done. by eapply side_add. Qed.

Lemma wait_step_inv s l s' : inv s -> step l s = Ok (Some s') -> inv s'.
Proof.
  intros Hi E. pose proof Hi as [_ Hw Hr Hwa Hra Ht]. destruct l; cbn in E.
  - by apply wait_writer in E.
  - by apply wait_reader in E.
  - destruct (test_step (wr s)) as [d|] eqn:Ed; [|done]. injection E as <-. pose proof (test_phase _ _ Ed) as Ep.
    apply inv_wr; rewrite ?Ep; try done. by eapply side_test.
  - destruct (post_step _ _) as [d|] eqn:Ed; [|done]. injection E as <-. pose proof (side_post _ _ _ _ _ Hw Ed).
    apply post_phase in Ed as ->. destruct (wake_phase (Side (ph (wr s)) (flag (wr s)) (tests (wr s)) (pred (posts (wr s))))) as (W1 & _ & W3).
    apply inv_wr; auto.
  - destruct (test_step (rd s)) as [d|] eqn:Ed; [|done]. injection E as <-. pose proof (test_phase _ _ Ed) as Ep.
    apply inv_rd; rewrite ?Ep; try done. by eapply side_test.
  - destruct (post_step _ _) as [d|] eqn:Ed; [|done]. injection E as <-. pose proof (side_post _ _ _ _ _ Hr Ed).
    apply post_phase in Ed as ->. destruct (wake_phase (Side (ph (rd s)) (flag (rd s)) (tests (rd s)) (pred (posts (rd s))))) as (_ & W2 & W3).
    apply inv_rd; auto.
  - injection E as <-. apply inv_closed; [done|]. destruct response; auto.
  - destruct response; [|done]. injection E as <-. apply (inv_closed s (rd s) (told_ s)); auto.
  - injection E as <-. by apply inv_raised.
  - destruct response; [done|]. injection E as <-. by apply inv_raised.
  - destruct (free s); [|done]. destruct (rouse _ _) as [d|] eqn:Ed; [|done]. injection E as <-.
    destruct (rouse_phase _ _ _ Ed) as [[n Es] Ep]. apply inv_wr; [done|rewrite Es; by intros []|by eapply side_rouse|].
    rewrite Ep. by rewrite Es in Hwa.
  - destruct (free s); [|done]. destruct (rouse _ _) as [d|] eqn:Ed; [|done]. injection E as <-.
    destruct (rouse_phase _ _ _ Ed) as [[n Es] Ep]. apply inv_rd; [done|rewrite Es; by intros []|by eapply side_rouse|].
    rewrite Ep. by rewrite Es in Hra.
  - destruct (free s && _); [|done]. destruct (rouse _ _) as [d|] eqn:Ed; [|done]. injection E as <-.
    destruct (rouse_phase _ _ _ Ed) as [[n Es] Ep]. apply inv_rd; [done|rewrite Es; by intros []|by eapply side_rouse|].
    rewrite Ep. by rewrite Es in Hra.
Qed.

(** ** Threads at work come to rest *)

(** when no thread at work can go on, nobody holds the mutex *)
Definition at_rest (s : t) : Prop := forall l, at_work l = true -> step l s = Ok None.

Lemma rest_phases s : inv s -> at_rest s ->
  (ph (wr s) = Sleep false \/ (ph (wr s) = Run /\ write_length (sys s) = None)) /\ ph (rd s) = Sleep false /\
  tests (wr s) = 0%nat /\ tests (rd s) = 0%nat /\ posts (wr s) = 0%nat /\ posts (rd s) = 0%nat.
Proof.
  intros [Hi Hw Hr Hwa Hra Ht] Hn. destruct (inv_safe _ _ _ Hi) as ((ow & Eow) & (orr & Eor) & _).
  pose proof (Hn Writer eq_refl) as Nw. pose proof (Hn Reader eq_refl) as Nr.
  pose proof (Hn Test_full eq_refl) as N1. pose proof (Hn Test_empty eq_refl) as N2.
  pose proof (Hn Post_full eq_refl) as N3. pose proof (Hn Post_empty eq_refl) as N4. clear Hn.
  cbn [step] in *. unfold writer_act, reader_act, copy_out, copy_in in *. rewrite Eow in Nw. rewrite Eor in Nr.
  assert (holds (ph (wr s)) = false /\ holds (ph (rd s)) = false) as [F1 F2].
  { split; [destruct (ph (wr s)) as [| | |[]| | | | |] eqn:Ep|destruct (ph (rd s)) as [| | |[]| | | | |] eqn:Ep]; try done;
      revert Nw Nr; unfold wait_step; rewrite ?Ep; intros; repeat case_match; done. }
  assert (free s = true) as Ef by (unfold free; by rewrite F1, F2). rewrite Ef in *. unfold test_step, post_step in *.
  assert (has_data (sys s) = true -> is_Some orr) as Hd.
  { intros Hh%has_data_step. destruct orr; [eauto|congruence]. }
  assert (can_write (sys s) = true -> is_Some ow) as Hc.
  { intros Hh%can_write_step. destruct ow; [eauto|congruence]. }
  split_and!; [| |by destruct (tests (wr s))|by destruct (tests (rd s))|by destruct (posts (wr s))|by destruct (posts (rd s))].
  - clear Nr. unfold wait_step in Nw. destruct (ph (wr s)) as [| | |[]|[]| | | |] eqn:Ep; try done; auto; cbn in *.
    + right. by destruct (write_length (sys s)).
    + by destruct (Hc Hwa) as [x ->].
  - clear Nw. unfold wait_step in Nr. destruct (ph (rd s)) as [|tm nt| |[]|[]| | | |] eqn:Ep; try done; cbn in *.
    + destruct (reader_ (sys s)) eqn:Er; try done. destruct Hd as [x ->]; [by unfold has_data; rewrite Er|done].
    + destruct (_ >=? _) eqn:Eg; [|by destruct tm]. destruct Hd as [x ->]; [by unfold has_data; rewrite Hra|done].
    + destruct Hra as [_ Hh]. by destruct (Hd Hh) as [x ->].
Qed.

Lemma rest_delivered s : inv s -> at_rest s -> closed_ (sys s) = false -> received (sys s) = msgs.
Proof.
  intros Hi Hn Hcl. destruct (rest_phases s Hi Hn) as (Pw & Pr & T1 & T2 & P1 & P2). pose proof Hi as [Hy Hw Hr _ _ _].
  eapply inv_stuck; [exact Hy|done|..].
  - apply cannot_write_step. destruct (can_write (sys s)) eqn:Ec; [|done]. destruct Pw as [Pw|[_ El]]; [|by apply can_write_length in Ec].
    destruct (proj2 Hw Pw eq_refl) as [[?|?]|?]; [congruence..|lia].
  - apply no_data_step. destruct (has_data (sys s)) eqn:Ec; [|done].
    destruct (proj2 Hr Pr) as [[E|E]|?]; [unfold readable; by rewrite Ec| | |lia]; destruct Pw as [Pw|[Pw _]]; congruence.
Qed.

(** the steps a side has before it sleeps, copies or is done *)
Definition rank (ready in_loop : bool) (p : phase) : Z :=
  match p with
  | Run => if ready then (if in_loop then 8 else 3) else 11
  | Peeked termination notification => if termination || notification then 12 else if ready then 2 else 10
  | Want => if ready then 7 else 9
  | Check last => if ready then 6 else if last then 12 else 8
  | Sleep notified => if notified then (if ready then 7 else 9) else 0
  | Leave => if ready then 5 else 12
  | Go => 2
  | Test => 26
  | Notify => 25
  end.
Definition pending (d : side) : Z := 12 * Z.of_nat (tests d) + 11 * Z.of_nat (posts d).
Definition work (s : t) : Z :=
  40 * measure (sys s) + rank (can_write (sys s)) false (ph (wr s)) + rank (has_data (sys s)) (in_loop (sys s)) (ph (rd s)) +
  pending (wr s) + pending (rd s).

(** no alarm was raised *)
Definition calm (s : t) : Prop :=
  termination_requested_ s = false /\ notification_ s = false /\ response && closed_ (sys s) = false.

Lemma calm_can_read s : calm s -> can_read s = has_data (sys s).
Proof. intros (E1 & E2 & E3). unfold can_read, alarmed. by rewrite E1, E2, <- andb_assoc, E3, !andb_false_r, !orb_false_r. Qed.

Lemma rank_bounds r i p : 0 <= rank r i p <= 26.
Proof. destruct p as [|[] []| |[]|[]| | | |], r, i; cbn; lia. Qed.
Lemma rank_flip r i r' i' p : rank r' i' p <= rank r i p + 12.
Proof. destruct p as [|[] []| |[]|[]| | | |], r, i, r', i'; cbn; lia. Qed.
Lemma rank_wake r i d : rank r i (ph (wake d)) <= rank r i (ph d) + 10.
Proof. unfold wake. destruct d as [[| | | |[]| | | |] f ts ps], r, i; cbn; lia. Qed.
Lemma pending_goto p d : pending (goto p d) = pending d.
Proof. done. Qed.
Lemma pending_wake d : pending (wake d) = pending d.
Proof. unfold wake. by destruct (ph d). Qed.
Lemma rank_wait r i free resume d d' :
  (resume = Go \/ (resume = Run /\ i = false)) -> wait_step free r resume d = Some d' ->
  rank r i (ph d') < rank r i (ph d) /\ pending d' = pending d.
Proof.
  intros Hr. unfold wait_step. destruct d as [p f ts ps]. cbn.
  destruct p as [| | |[]|[]| | | |], free, r; try done; intros [= <-]; (split; [|done]); cbn; try lia; destruct Hr as [->|[-> ->]]; cbn; lia.
Qed.

Lemma work_nonneg s : inv s -> 0 <= work s.
Proof.
  intros [Hi _ _ _ _ _]. unfold work, pending. pose proof (measure_nonneg _ _ _ Hi).
  pose proof (rank_bounds (can_write (sys s)) false (ph (wr s))). pose proof (rank_bounds (has_data (sys s)) (in_loop (sys s)) (ph (rd s))). lia.
Qed.

Lemma work_writer s s' : inv s -> calm s -> writer_act s = Ok (Some s') -> work s' < work s.
Proof.
  intros Hi Hc E. pose proof Hi as [Hy _ _ Hwa _ _]. unfold writer_act in E. unfold work.
  destruct (ph (wr s)) as [| | |last|n| | | |] eqn:Ep; try done.
  2-5: destruct (wait_step _ _ _ _) as [d|] eqn:Ed; [|done]; injection E as <-;
      destruct (rank_wait _ false _ _ _ _ (or_introl eq_refl) Ed) as [Hk Hp]; rewrite Ep in Hk; cbn [sys with_wr wr rd]; lia.
  - destruct (write_length (sys s)) as [n|] eqn:El; [|done]. injection E as <-. cbn [sys with_wr wr rd]. rewrite pending_goto.
    unfold can_write. rewrite El, gt_flip. destruct (_ <=? _), (closed_ _); cbn [goto ph rank andb orb negb]; lia.
  - unfold copy_out in E. destruct (writer_step (sys s)) as [[x|]| |] eqn:Ew; try done. injection E as <-.
    destruct (inv_step_writer _ _ _ _ Hy Ew) as [_ Hm]. cbn [sys with_sys with_wr wr rd]. rewrite pending_goto.
    pose proof (rank_flip (has_data (sys s)) (in_loop (sys s)) (has_data x) (in_loop x) (ph (rd s))).
    destruct (writer_ x); cbn [goto ph rank]; destruct (can_write x); lia.
  - injection E as <-. cbn [sys with_wr wr rd]. rewrite pending_goto. destruct (flag (rd s)), (can_write (sys s)); cbn [goto ph rank]; lia.
  - destruct (free s); [|done]. injection E as <-. cbn [sys with_rd with_wr wr rd]. rewrite pending_wake, pending_goto.
    pose proof (rank_wake (has_data (sys s)) (in_loop (sys s)) (rd s)). cbn [goto ph rank].
    destruct (can_write (sys s)); lia.
Qed.

Lemma work_copy_in s s' next : inv s -> next = Test \/ next = Run -> copy_in next s = Ok (Some s') -> work s' < work s.
Proof.
  intros [Hy _ _ _ _ _] Hn E. unfold copy_in in E. destruct (reader_step (sys s)) as [[x|]| |] eqn:Ew; try done. injection E as <-.
  destruct (inv_step_reader _ _ _ _ Hy Ew) as [_ Hm]. unfold work. cbn [sys with_sys with_rd wr rd]. rewrite pending_goto.
  pose proof (rank_flip (can_write (sys s)) false (can_write x) false (ph (wr s))).
  pose proof (rank_bounds (has_data x) (in_loop x) next). pose proof (rank_bounds (has_data (sys s)) (in_loop (sys s)) (ph (rd s))).
  destruct Hn as [-> | ->]; cbn [goto ph]; lia.
Qed.

Lemma resume_cases (b : bool) : (if b then Go else Run) = Go \/ ((if b then Go else Run) = Run /\ b = false).
Proof. destruct b; auto. Qed.

Lemma work_reader s s' : inv s -> calm s -> reader_act s = Ok (Some s') -> work s' < work s.
Proof.
  intros Hi Hc E. pose proof Hi as [_ _ _ _ Hra _]. pose proof (calm_can_read s Hc) as Er. unfold reader_act in E.
  destruct (ph (rd s)) as [|tm nt| |last|n| | | |] eqn:Ep.
  3-6: rewrite Er in E; destruct (wait_step _ _ _ _) as [d|] eqn:Ed; [|done]; injection E as <-; unfold work;
      destruct (rank_wait _ (in_loop (sys s)) _ _ _ _ (resume_cases (in_loop (sys s))) Ed) as [Hk Hp];
      rewrite Ep in *; cbn [sys with_rd wr rd]; lia.
  - destruct (reader_ (sys s)) eqn:Ex; [|by eapply work_copy_in; [|left|]|]; injection E as <-; unfold work; cbn [sys with_rd wr rd];
      rewrite pending_goto, Ep.
    + destruct Hc as (-> & -> & ->). unfold in_loop. rewrite Ex. cbn [goto ph rank orb]. destruct (has_data (sys s)); lia.
    + unfold in_loop. rewrite Ex. cbn [goto ph rank]. destruct (has_data (sys s)); lia.
  - destruct (_ >=? _) eqn:Eg; [by eapply work_copy_in; [|right|]|]. cbn in Hra.
    assert (has_data (sys s) = false) as Hd by (unfold has_data; by rewrite Hra).
    injection E as <-. unfold work. destruct tm; cbn [sys wr rd with_rd]; rewrite pending_goto, Ep, Hd; cbn [goto ph rank orb]; [lia|].
    destruct nt; cbn [rank]; lia.
  - by eapply work_copy_in; [|left|].
  - injection E as <-. unfold work. cbn [sys with_rd wr rd]. rewrite pending_goto, Ep.
    destruct (flag (wr s)), (has_data (sys s)), (in_loop (sys s)); cbn [goto ph rank]; lia.
  - destruct (free s); [|done]. injection E as <-. unfold work. cbn [sys with_rd with_wr wr rd]. rewrite pending_wake, pending_goto, Ep.
    pose proof (rank_wake (can_write (sys s)) false (wr s)). cbn [goto ph rank]. destruct (has_data (sys s)), (in_loop (sys s)); lia.
Qed.

Lemma pending_test d d' : test_step d = Some d' -> pending d' < pending d.
Proof. unfold test_step, pending. destruct (tests d); [done|]. intros [= <-]. cbn [tests posts]. destruct (flag d); lia. Qed.
Lemma pending_post r i free d d' : post_step free d = Some d' -> rank r i (ph d') + pending d' < rank r i (ph d) + pending d.
Proof.
  unfold post_step. destruct (posts d) as [|n] eqn:En; [done|]. destruct free; [|done]. intros [= <-].
  pose proof (rank_wake r i (Side (ph d) (flag d) (tests d) n)) as Hk. rewrite pending_wake. unfold pending. cbn [ph tests posts] in *.
  rewrite En. lia.
Qed.

Lemma work_step s l s' : inv s -> calm s -> at_work l = true -> step l s = Ok (Some s') -> work s' < work s.
Proof.
  intros Hi Hc Hl E. destruct l; try done; cbn [step] in E.
  - by apply work_writer.
  - by apply work_reader.
  - destruct (test_step (wr s)) as [d|] eqn:Ed; [|done]. injection E as <-. pose proof (pending_test _ _ Ed).
    apply test_phase in Ed. unfold work. cbn [sys with_wr wr rd]. rewrite Ed. lia.
  - destruct (post_step _ _) as [d|] eqn:Ed; [|done]. injection E as <-.
    pose proof (pending_post (can_write (sys s)) false _ _ _ Ed). unfold work. cbn [sys with_wr wr rd]. lia.
  - destruct (test_step (rd s)) as [d|] eqn:Ed; [|done]. injection E as <-. pose proof (pending_test _ _ Ed).
    apply test_phase in Ed. unfold work. cbn [sys with_rd wr rd]. rewrite Ed. lia.
  - destruct (post_step _ _) as [d|] eqn:Ed; [|done]. injection E as <-.
    pose proof (pending_post (has_data (sys s)) (in_loop (sys s)) _ _ _ Ed). unfold work. cbn [sys with_rd wr rd]. lia.
Qed.

(** ** The waits implement the blocking of WireProtocol *)

Lemma step_sys s l s' : step l s = Ok (Some s') ->
  (sys s' = sys s \/ writer_step (sys s) = Ok (Some (sys s')) \/ reader_step (sys s) = Ok (Some (sys s')) \/
   (sys s' = close_step (sys s) /\ at_work l = false)) /\
  (at_work l = true -> notification_ s' = notification_ s /\ (termination_requested_ s = false -> termination_requested_ s' = false)).
Proof.
  intros E. destruct l; cbn [step] in E.
  3,5: destruct (test_step _); [injection E as <-; split; auto|done].
  3,4: destruct (post_step _ _); [injection E as <-; split; auto|done].
  3,5: injection E as <-; split; auto; done.
  3,4: destruct response; [try done; injection E as <-; split; auto; done|try done; injection E as <-; split; auto; done].
  3-5: destruct (_ : bool) in E; [|done]; destruct (rouse _ _); [injection E as <-; split; auto|done].
  - unfold writer_act, copy_out in E. destruct (ph (wr s)); try (destruct (wait_step _ _ _ _); [injection E as <-; split; auto|done]).
    + destruct (write_length _); [injection E as <-; split; auto|done].
    + destruct (writer_step (sys s)) as [[x|]| |]; try done. injection E as <-. split; auto.
    + injection E as <-. split; auto.
    + destruct (free s); [injection E as <-; split; auto|done].
  - unfold reader_act, copy_in in E. destruct (ph (rd s)); try (destruct (wait_step _ _ _ _); [injection E as <-; split; auto|done]).
    + destruct (reader_ (sys s)); [injection E as <-; split; auto| |injection E as <-; split; auto].
      destruct (reader_step (sys s)) as [[x|]| |]; try done. injection E as <-. split; auto.
    + destruct (_ >=? _); [destruct (reader_step (sys s)) as [[x|]| |]; try done; injection E as <-; split; auto|].
      injection E as <-. destruct termination; split; auto.
    + destruct (reader_step (sys s)) as [[x|]| |]; try done. injection E as <-. split; auto.
    + injection E as <-. split; auto.
    + destruct (free s); [injection E as <-; split; auto|done].
Qed.

Lemma step_simulates s l s' : step l s = Ok (Some s') -> rtc WireProtocol.step (sys s) (sys s').
Proof.
  intros [[->|[?|[?|[-> _]]]] _]%step_sys; [done|by apply rtc_once, step_writer|by apply rtc_once, step_reader|].
  destruct (closed_ (sys s)) eqn:Ec; [|by apply rtc_once, step_close].
  assert (close_step (sys s) = sys s) as ->; [|done]. destruct (sys s); cbn in *; by subst.
Qed.

Lemma at_work_calm s l s' : inv s -> calm s -> at_work l = true -> step l s = Ok (Some s') -> calm s'.
Proof.
  intros Hi (E1 & E2 & E3) Hl [Hs Ha]%step_sys. destruct (Ha Hl) as [En Ht].
  assert (closed_ (sys s') = closed_ (sys s)) as Ec; [|by split_and!; [apply Ht|rewrite En|rewrite Ec]].
  destruct Hs as [->|[H|[H|[_ H]]]]; [done|by destruct (writer_step_frame _ _ H) as (_ & ? & _)| |congruence].
  by destruct (reader_step_room cap msgs _ _ (i_sys _ _ _ Hi) H) as [_ (_ & _ & ? & _)].
Qed.
End Steps.

Lemma wait_inv_initial w msgs :
  repr w [] -> Forall message_ok msgs -> pushed_ w + zlen (concat (map full msgs)) < 2 ^ 64 ->
  wait_inv (capacity_ w) msgs (initial w msgs).
Proof. intros. split; try done. by apply inv_initial. Qed.
Lemma wait_inv_reachable cap msgs s0 s : wait_inv cap msgs s0 -> reachable s0 s -> wait_inv cap msgs s.
Proof. intros H0. induction 1; [done|by eapply wait_step_inv]. Qed.

(** C3: the waits on a wire work.  Whatever the interleaving of a writer, a reader and threads
    that close the wire, notify or terminate the reader, and whatever the wake-ups and
    timeouts: (1) the copying rounds are an execution of WireProtocol, so that what is
    delivered is right; (2) a side that sleeps although it can go on (there is room or the wire
    is closed; there is data, an alarm, or the response wire is closed) will be notified: the
    other side, or one of the other threads, is about to do so.  The one exception is a reader
    of a response wire that was closed by [force_close] and never by [close], without data and
    without an alarm ([force_closed]): [force_close] does not notify it, and it sleeps until
    its time is over; (3) when no thread can take a step on a wire that was not closed,
    everything was delivered; and (4) as long as no alarm was raised and the reader's wire was
    not closed under it ([calm]), the threads take only finitely many steps until all are at
    rest, wake-ups without cause and timeouts apart. *)
Theorem wire_waits w msgs s :
  repr w [] -> Forall message_ok msgs -> pushed_ w + zlen (concat (map full msgs)) < 2 ^ 64 ->
  reachable (initial w msgs) s ->
  rtc WireProtocol.step (WireProtocol.initial w msgs) (sys s) /\
  ((ph (wr s) = Sleep false -> can_write (sys s) = true -> signals (ph (rd s)) \/ (0 < tests (wr s) + posts (wr s))%nat) /\
   (ph (rd s) = Sleep false -> can_read s = true ->
    signals (ph (wr s)) \/ (0 < tests (rd s) + posts (rd s))%nat \/ force_closed s)) /\
  (at_rest s -> closed_ (sys s) = false -> received (sys s) = msgs) /\
  (calm s -> forall l s', at_work l = true -> step l s = Ok (Some s') -> calm s' /\ 0 <= work s' < work s).
Proof.
  intros H1 H2 H3 Hr. pose proof (wait_inv_initial w msgs H1 H2 H3) as H0.
  pose proof (wait_inv_reachable _ _ _ _ H0 Hr) as Hi. split_and!.
  - clear Hi H0 H1 H2 H3. induction Hr as [|s l s' _ IH E]; [done|]. etrans; [exact IH|by eapply step_simulates].
  - apply Hi.
  - intros Hp [Hy|Hy]%can_read_readable; [|by right; right]. destruct (proj2 (i_read _ _ _ Hi) Hp Hy); auto.
  - intros Hn Hc. by eapply rest_delivered.
  - intros Hc l s' Hl E. split_and!; [by eapply at_work_calm|eapply work_nonneg, wait_step_inv; done|by eapply work_step].
Qed.

(** ** What a wait does not promise *)

(** the reader is in the loop of [read], and the rest of the message is not there *)
Definition lacks_rest (top : list byte) (n : Z) (s : t) : Prop :=
  reader_ (sys s) = R_loop top n /\ has_data (sys s) = false /\
  match ph (rd s) with Peeked _ _ | Leave | Go => False | _ => True end.

Lemma lacks_rest_step top n s l s' : lacks_rest top n s -> l <> Writer -> step l s = Ok (Some s') -> lacks_rest top n s'.
Proof.
  intros (Hr & Hd & Hp) Hl E. assert (in_loop (sys s) = true) as El by (unfold in_loop; by rewrite Hr).
  assert (can_read s = false) as Hc by (unfold can_read, alarmed; by rewrite El, Hd).
  unfold lacks_rest. destruct l; try done; cbn [step] in E.
  - unfold reader_act, copy_in, wait_step in E. rewrite (no_data_step _ Hd), Hr, Hc in E.
    destruct (ph (rd s)) as [| | |last|[]| | | |]; try done; repeat case_match; simplify_eq; by split_and!.
  - destruct (test_step _); [injection E as <-; by split_and!|done].
  - destruct (post_step _ _); [injection E as <-; by split_and!|done].
  - destruct (test_step _) as [d|] eqn:Ed; [|done]. injection E as <-. cbn. rewrite (test_phase _ _ Ed). by split_and!.
  - destruct (post_step _ _) as [d|] eqn:Ed; [|done]. injection E as <-. apply post_phase in Ed as ->. cbn. unfold wake. cbn.
    destruct (ph (rd s)); by split_and!.
  - injection E as <-. unfold close. cbn. clear Hc. by destruct response; split_and!.
  - destruct response; [|done]. injection E as <-. by split_and!.
  - injection E as <-. by split_and!.
  - destruct response; [done|]. injection E as <-. by split_and!.
  - destruct (free s); [|done]. destruct (rouse _ _); [injection E as <-; by split_and!|done].
  - destruct (free s); [|done]. destruct (rouse _ _) as [d|] eqn:Ed; [|done]. injection E as <-. cbn. rewrite (proj2 (rouse_phase _ _ _ Ed)).
    by split_and!.
  - by rewrite El, andb_false_r in E.
Qed.

(** The reader of a message longer than the ring waits in [read] for the rest, without a time
    limit and without looking at the alarms: when the writer takes no further step (a client
    that died while it wrote a request), neither closing the wire nor [notify] nor [terminate]
    ends the call. *)
Theorem unfinished_message_blocks top n s s' :
  lacks_rest top n s -> rtc (fun a b => exists l, l <> Writer /\ step l a = Ok (Some b)) s s' -> lacks_rest top n s'.
Proof. intros H0. induction 1 as [|s s1 s' (l & Hl & E) _ IH]; [done|]. apply IH. by eapply lacks_rest_step. Qed.

End WireWait.
End WireWait.

(** The messages of WireProtocol's run, with the waits, on the request wire. *)
Module WireWaitDemo.
Import WireWait.

Fixpoint exec (ls : list label) (s : t (T := message_header)) : option t :=
  match ls with
  | [] => Some s
  | l :: ls => match step false l s with Ok (Some s') => exec ls s' | Ok None => exec ls s | _ => None end
  end.
Lemma exec_reachable_wait ls s0 s s' : reachable false s0 s -> exec ls s = Some s' -> reachable false s0 s'.
Proof.
  revert s. induction ls as [|l ls IH]; intros s Hr; cbn; [by intros [= <-]|].
  destruct (step false l s) as [[s1|]| |] eqn:E; try done; [|by apply IH]. apply IH. by eapply reach_step.
Qed.

Definition s0 : t := initial demo_wire demo_msgs.
(** the writer runs ahead until it sleeps, then both sides in turn *)
Definition trace : list label := replicate 12 Writer ++ concat (replicate 60 [Reader; Writer]).
Definition rest : t := default s0 (exec trace s0).

Lemma rest_at_rest : at_rest false rest.
Proof. intros l Hl. destruct l; try done; vm_compute; reflexivity. Qed.
Lemma rest_reachable : reachable false s0 rest.
Proof. refine (exec_reachable_wait trace s0 s0 rest _ _); [constructor|vm_compute; reflexivity]. Qed.

Lemma wire_waits_witness : received (sys rest) = demo_msgs.
Proof.
  refine (proj1 (proj2 (proj2 (wire_waits false demo_wire demo_msgs rest _ _ _ rest_reachable))) rest_at_rest _).
  - apply repr_new; [split; [apply (Z.leb_le 6 16)|]; done|done].
  - repeat constructor; done.
  - vm_compute. done.
  - vm_compute. reflexivity.
Defined.

(** the writer sleeps in [wait_to_write], and the reader is about to see its flag *)
Example writer_asleep :
  match exec (replicate 8 Writer ++ replicate 3 Reader) s0 with
  | Some s => ph (wr s) = Sleep false /\ wr s = Side (Sleep false) true 0 0 /\ ph (rd s) = Test
  | None => False
  end.
Proof. vm_compute. auto. Qed.

(** the reader waits for the rest of the second message *)
Example reader_lacks_rest :
  match exec (replicate 8 Writer ++ replicate 14 Reader ++ replicate 6 Writer ++ replicate 16 Reader) s0 with
  | Some s => exists top n, lacks_rest top n s
  | None => False
  end.
Proof. vm_compute. do 2 eexists. split_and!; reflexivity || exact I. Qed.
(** ** The response wire *)

Fixpoint exec_response (ls : list label) (s : t (T := response_header)) : option t :=
  match ls with
  | [] => Some s
  | l :: ls => match step true l s with Ok (Some s') => exec_response ls s' | Ok None => exec_response ls s | _ => None end
  end.
Definition waiting_client : t := initial (T := response_header) (new_wire 16 (replicate 16 0)) [].

(** [force_close] leaves a client that sleeps in [await] where it is: its predicate holds, no
    thread has anything left to do, and only the end of its time lets it go on. *)
Lemma force_close_unnoticed :
  exists s, exec_response (replicate 4 Reader ++ [Force_close; Test_full]) waiting_client = Some s /\
    rd s = Side (Sleep false) true 0 0 /\ can_read true s = true /\ force_closed true s /\ at_rest true s.
Proof.
  eexists. split; [vm_compute; reflexivity|]. unfold force_closed. split_and!; [vm_compute; reflexivity..|].
  intros []; done || (intros _; vm_compute; reflexivity).
Qed.

(** [close] lets it go on: it is notified and returns *)
Example close_noticed :
  match exec_response (replicate 4 Reader ++ [Close; Test_full; Test_empty; Post_empty; Reader; Reader]) waiting_client with
  | Some s => ph (rd s) = Leave /\ told_ s = true
  | None => False
  end.
Proof. vm_compute. auto. Qed.
End WireWaitDemo.
