(* ===== verification/MessageWires.v ===== *)
(** Request and response wires (src/tateyama/endpoint/ipc/wire.h,
    [unidirectional_message_wire] and [unidirectional_response_wire]), the rounding
    of their timeouts, and the server's response queue in front of the response
    wire (bootstrap/server_wires_impl.h, [response_wire_container_impl]). *)
From S2P Require Import Prelude WireHeader SimpleWire.

(** * Timeouts, in microseconds; signed 64-bit *)

Definition MAX_TIMEOUT : Z := 10 * 365 * 24 * 3600 * 1000 * 1000.
Definition u_cap (timeout : Z) : Z := if timeout >? MAX_TIMEOUT then MAX_TIMEOUT else timeout.
Definition u_round (timeout : Z) : Z :=
  if timeout =? 0 then timeout else (Z.quot (timeout - 500) 1000 + 1) * 1000.
Definition n_cap (timeout : Z) : Z :=
  if timeout >? MAX_TIMEOUT * 1000 then MAX_TIMEOUT * 1000 else timeout.

(** * Request wire *)

Module Request.

Record t := Wire {
  base_ : simple_wire message_header;
  termination_requested_ : bool;
  onetime_notification_ : bool;
  closed_ : bool
}.

Definition with_base (b : simple_wire message_header) (w : t) : t :=
  Wire b (termination_requested_ w) (onetime_notification_ w) (closed_ w).

Definition notify (w : t) : t := Wire (base_ w) (termination_requested_ w) true (closed_ w).
Definition close (w : t) : t := Wire (base_ w) (termination_requested_ w) (onetime_notification_ w) true.
Definition terminate (w : t) : t := Wire (base_ w) true (onetime_notification_ w) (closed_ w).
Definition clear_termination (w : t) : t := Wire (base_ w) false (onetime_notification_ w) (closed_ w).

(** one pass through the loop of [peep]; [None]: the call waits *)
Definition peep_round (w : t) : res (option (message_header * t)) :=
  let termination_requested := termination_requested_ w in
  let onetime_notification := onetime_notification_ w in
  if stored (base_ w) >=? message_header_size then
    b ← copy_header (base_ w);
    Ok (Some (header_received_ b, with_base b w))
  else if termination_requested then
    Ok (Some (MessageHeader terminate_request 0, clear_termination w))
  else if onetime_notification then
    Throw (runtime_error "received shutdown request from outside the communication partner")
  else Ok None.

(** what other threads and the client do to the wire while [peep] waits *)
Inductive event :=
| E_write (from : list byte) (h : message_header)
| E_notify
| E_terminate
| E_close.

Definition apply_event (e : event) (w : t) : res t :=
  match e with
  | E_write from h =>
      p ← write_first (base_ w) (closed_ w) from h;
      Ok (match p with Next (b, _, _) => with_base b w | Blocked | Closed => w end)
  | E_notify => Ok (notify w)
  | E_terminate => Ok (terminate w)
  | E_close => Ok (close w)
  end.

(** [peep] with the events that happen during its waits; when no event comes the
    wait times out *)
Fixpoint peep (w : t) (env : list event) : res (message_header * t) :=
  r ← peep_round w;
  match r with
  | Some x => Ok x
  | None =>
      match env with
      | [] => Throw (runtime_error "request has not been received within the specified time")
      | e :: env => w' ← apply_event e w; peep w' env
      end
  end.

End Request.

(** * Response wire *)

Module Response.

Record t := Wire {
  base_ : simple_wire response_header;
  closed_ : bool;
  shutdown_ : bool
}.

Definition with_base (b : simple_wire response_header) (w : t) : t := Wire b (closed_ w) (shutdown_ w).
Definition close (w : t) : t := Wire (base_ w) true (shutdown_ w).
Definition notify_shutdown (w : t) : t := Wire (base_ w) (closed_ w) true.
Definition force_close (w : t) : t := Wire (base_ w) true (shutdown_ w).
Definition check_shutdown (w : t) : bool := shutdown_ w.
Definition get_length (w : t) : Z := rh_length (header_received_ (base_ w)).
Definition get_idx (w : t) : Z := rh_idx (header_received_ (base_ w)).
Definition get_type (w : t) : Z := rh_type (header_received_ (base_ w)).

Definition is_writable (w : t) (header : response_header) : bool :=
  room (base_ w) >=? rh_length header.

Definition await_round (w : t) : res (option (response_header * t)) :=
  let closed_shutdown := closed_ w || shutdown_ w in
  if stored (base_ w) >=? response_header_size then
    b ← copy_header (base_ w);
    Ok (Some (header_received_ b, with_base b w))
  else if closed_shutdown then
    let h := ResponseHeader 0 0 0 in
    Ok (Some (h, with_base (set_header h (base_ w)) w))
  else Ok None.

Inductive event :=
| E_write (from : list byte) (h : response_header)
| E_close
| E_shutdown.

Definition apply_event (e : event) (w : t) : res t :=
  match e with
  | E_write from h =>
      p ← write_first (base_ w) (closed_ w) from h;
      Ok (match p with Next (b, _, _) => with_base b w | Blocked | Closed => w end)
  | E_close => Ok (close w)
  | E_shutdown => Ok (notify_shutdown w)
  end.

Fixpoint await (w : t) (env : list event) : res (response_header * t) :=
  r ← await_round w;
  match r with
  | Some x => Ok x
  | None =>
      match env with
      | [] => Throw (runtime_error "response has not been received within the specified time")
      | e :: env => w' ← apply_event e w; await w' env
      end
  end.

End Response.

(** * The server's queue of responses in front of the response wire

    [write] runs on a worker thread; when the wire has no room and the caller must
    not block, the response goes to [responses_] and a writer thread is started
    that empties it.  [emitted] is the sequence of completed [wire_->write] calls,
    [in_hand] the response the writer thread has popped and not yet written.
    [writable] is the answer of [is_writable] at that moment. *)

Module ResponseQueue.

Section Queue.
Context {M : Type}.

Record t := Queue {
  emitted : list M;
  in_hand : option M;
  responses_ : list M;
  thread_active_ : bool
}.

Definition empty : t := Queue [] None [] false.

Definition write (m : M) (blockable writable : bool) (q : t) : t :=
  if thread_active_ q then Queue (emitted q) (in_hand q) (responses_ q ++ [m]) true
  else if blockable || writable then Queue (emitted q ++ [m]) (in_hand q) (responses_ q) false
  else Queue (emitted q) (in_hand q) (responses_ q ++ [m]) true.

(** one round of [operator()], cut at the release of [thread_mtx_] *)
Definition thread_step (q : t) : t :=
  if thread_active_ q then
    match in_hand q with
    | Some m => Queue (emitted q ++ [m]) None (responses_ q) true
    | None =>
        match responses_ q with
        | [] => Queue (emitted q) None [] false
        | m :: ms => Queue (emitted q) (Some m) ms true
        end
    end
  else q.

Inductive action :=
| A_write (m : M) (blockable writable : bool)
| A_thread.

Definition step (q : t) (a : action) : t :=
  match a with A_write m b w => write m b w q | A_thread => thread_step q end.

Definition calls (a : action) : list M :=
  match a with A_write m _ _ => [m] | A_thread => [] end.

Definition pending (q : t) : list M := option_list (in_hand q) ++ responses_ q.

Lemma queue_order q acts :
  (thread_active_ q = false -> pending q = []) ->
  let q' := fold_left step acts q in
  emitted q' ++ pending q' = emitted q ++ pending q ++ concat (map calls acts) /\
  (thread_active_ q' = false -> pending q' = []).
Proof.
  revert q. induction acts as [|a acts IH]; intros q Hq; cbn; [by rewrite app_nil_r|].
  assert (emitted (step q a) ++ pending (step q a) = emitted q ++ pending q ++ calls a /\
          (thread_active_ (step q a) = false -> pending (step q a) = [])) as [E1 E2].
  { unfold pending in *. destruct a as [m b w|]; cbn [step calls].
    - unfold write. destruct (thread_active_ q); cbn; [by rewrite <- !app_assoc|].
      specialize (Hq eq_refl). apply app_nil in Hq as [H1 H2].
      destruct (b || w); cbn; rewrite H1, H2; cbn; by rewrite ?app_nil_r.
    - unfold thread_step. destruct (thread_active_ q) eqn:E; [|by rewrite app_nil_r, E].
      destruct (in_hand q); cbn; [by rewrite <- !app_assoc, app_nil_r|].
      destruct (responses_ q); cbn; by rewrite ?app_nil_r. }
  destruct (IH (step q a) E2) as [F1 F2]. split; [|done].
  rewrite F1. rewrite (app_assoc (emitted (step q a))), E1, <- !app_assoc. done.
Qed.

End Queue.
Arguments t : clear implicits.
Arguments action : clear implicits.
End ResponseQueue.

(** * Properties *)

Lemma u_round_div t :
  0 < t -> u_round t = if bool_decide (500 <= t) then ((t - 500) / 1000 + 1) * 1000 else 1000.
Proof.
  intros Ht. unfold u_round. replace (t =? 0) with false by lia. case_bool_decide.
  - by rewrite Z.quot_div_nonneg by lia.
  - replace (t - 500) with (- (500 - t)) by lia. rewrite Z.quot_opp_l, Z.quot_small by lia. done.
Qed.

(** Rounding never turns a positive timeout into 0 (which means "default"), and
    gives a whole number of milliseconds at most half a millisecond away from the
    argument, except below half a millisecond where it gives one millisecond;
    the cap keeps every rounded timeout within ten years. *)
Theorem u_round_spec t :
  0 < t ->
  0 < u_round t /\ u_round t mod 1000 = 0 /\
  (500 <= t -> Z.abs (u_round t - t) <= 500) /\ (t < 500 -> u_round t = 1000) /\
  0 < u_cap (u_round t) <= MAX_TIMEOUT.
Proof.
  intros Ht. rewrite (u_round_div t Ht).
  assert (0 < MAX_TIMEOUT) by done. unfold u_cap.
  pose proof (Z.div_mod (t - 500) 1000 ltac:(lia)). pose proof (Z.mod_pos_bound (t - 500) 1000 ltac:(lia)).
  case_bool_decide.
  - split_and!; [lia|apply Z_mod_mult|lia|lia| |]; destruct (Z.gtb_spec ((((t - 500) / 1000) + 1) * 1000) MAX_TIMEOUT); lia.
  - split_and!; done || lia.
Qed.

Lemma u_round_spec_witness : 0 < u_round 1 /\ u_round 1 mod 1000 = 0.
Proof. destruct (u_round_spec 1 ltac:(lia)) as (H1 & H2 & _). split; assumption. Defined.

(** ** peep *)

Section Peep.
Import Request.

(** A request on the wire is always returned, whatever the flags, and they are
    left for the next call. *)
Lemma peep_round_message w h c :
  valid h -> repr (base_ w) (get_buffer h ++ c) ->
  peep_round w = Ok (Some (h, with_base (set_header h (base_ w)) w)).
Proof.
  intros Hv Hr. unfold peep_round. pose proof (zlen_nonneg c).
  rewrite (stored_repr _ _ Hr), zlen_app, length_get_buffer.
  change (size (T := message_header)) with message_header_size.
  replace (_ >=? _) with true by lia. by rewrite (copy_header_repr _ h c).
Qed.

Lemma peep_round_empty w :
  repr (base_ w) [] ->
  peep_round w =
    if termination_requested_ w then Ok (Some (MessageHeader terminate_request 0, clear_termination w))
    else if onetime_notification_ w then
      Throw (runtime_error "received shutdown request from outside the communication partner")
    else Ok None.
Proof. intros Hr. unfold peep_round. by rewrite (stored_repr _ _ Hr). Qed.

(** The first event that matters decides what a waiting [peep] does. *)
Inductive peep_outcome := O_header (h : message_header) | O_terminated | O_shutdown | O_timeout.

Fixpoint first_event (closed : bool) (env : list event) : peep_outcome :=
  match env with
  | [] => O_timeout
  | E_write _ h :: env => if closed then first_event closed env else O_header h
  | E_terminate :: _ => O_terminated
  | E_notify :: _ => O_shutdown
  | E_close :: env => first_event true env
  end.

Definition event_ok (e : event) : Prop :=
  match e with E_write from h => valid h /\ zlen from = get_length h | _ => True end.

Definition idle (w : t) : Prop :=
  repr (base_ w) [] /\ termination_requested_ w = false /\ onetime_notification_ w = false /\
  pushed_ (base_ w) + capacity_ (base_ w) < 2 ^ 64.

Lemma peep_idle w env :
  idle w -> peep w env = match env with
    | [] => Throw (runtime_error "request has not been received within the specified time")
    | e :: env => w' ← apply_event e w; peep w' env end.
Proof.
  intros (Hr & Ht & Hn & _). destruct env; cbn; rewrite (peep_round_empty w Hr), Ht, Hn; done.
Qed.

Lemma apply_write w from h :
  idle w -> valid h -> zlen from = get_length h -> closed_ w = false ->
  exists b c, apply_event (E_write from h) w = Ok (with_base b w) /\ repr b (get_buffer h ++ c).
Proof.
  intros (Hr & _ & _ & Hb) Hv Hl Hcl. pose proof Hr as ([Hc _ _ _ _] & _).
  pose proof (size_pos (T := message_header)) as Hs.
  pose proof (get_length_range h Hv) as Hg. unfold in_range in Hg.
  destruct (write_first_repr (base_ w) [] h from) as (b & E & _ & R); [done..| |lia|].
  { change (zlen []) with 0. lia. }
  cbn [apply_event]. rewrite Hcl, E. cbn. exists b. eexists. split; [done|].
  rewrite app_nil_l, take_header in R by lia. exact R.
Qed.

(** A [peep] that finds an empty wire and no pending request waits, and the
    first effective event decides: a request is returned with its header; a
    termination request is reported by the index 0xffff and consumed; a
    notification and the time limit throw.  Writes after a close are ignored. *)
Theorem peep_first_event w env :
  idle w -> Forall event_ok env ->
  match first_event (closed_ w) env with
  | O_header h => exists w', peep w env = Ok (h, w') /\ header_received_ (base_ w') = h
  | O_terminated => exists w', peep w env = Ok (MessageHeader terminate_request 0, w') /\
                      termination_requested_ w' = false
  | O_shutdown => peep w env =
      Throw (runtime_error "received shutdown request from outside the communication partner")
  | O_timeout => peep w env =
      Throw (runtime_error "request has not been received within the specified time")
  end.
Proof.
  revert w. induction env as [|e env IH]; intros w Hi Hok; [by rewrite peep_idle|].
  rewrite (peep_idle w _ Hi). pose proof Hi as (Hr & Ht & Hn & Hb).
  apply Forall_cons in Hok as [He Hok]. destruct e as [from h| | |]; cbn [first_event].
  - destruct (closed_ w) eqn:Ecl.
    + cbn. unfold write_first. rewrite Ecl, andb_false_r. cbn.
      specialize (IH w Hi Hok). by rewrite Ecl in IH.
    + destruct He as [Hv Hl]. destruct (apply_write w from h Hi Hv Hl Ecl) as (b & c & -> & R).
      cbn [mbind res_bind]. exists (with_base (set_header h b) w). split; [|done].
      destruct env; cbn; by rewrite (peep_round_message (with_base b w) h c Hv R).
  - cbn. destruct env; cbn; by rewrite (peep_round_empty (notify w) Hr); cbn; rewrite Ht.
  - cbn. eexists. destruct env; cbn; rewrite (peep_round_empty (terminate w) Hr); done.
  - cbn [apply_event mbind res_bind]. apply (IH (close w)); [|done]. by split_and!.
Qed.

End Peep.

Definition demo_request : Request.t := Request.Wire (new_wire 16 (replicate 16 0)) false false false.

Lemma demo_request_idle : idle demo_request.
Proof. split; [|done]. apply repr_new; [split; [apply (Z.leb_le 6 16)|]; done|done]. Qed.

Lemma peep_first_event_witness :
  exists w', Request.peep demo_request
    [Request.E_terminate; Request.E_write [1; 2] (MessageHeader 5 2)]
    = Ok (MessageHeader terminate_request 0, w') /\ Request.termination_requested_ w' = false.
Proof.
  refine (peep_first_event demo_request
    [Request.E_terminate; Request.E_write [1; 2] (MessageHeader 5 2)] demo_request_idle _).
  repeat constructor; done.
Defined.

(** ** await *)

Section Await.
Import Response.

Inductive await_outcome := A_header (h : response_header) | A_lost | A_timeout.

Definition first_response (closed : bool) (env : list event) : await_outcome :=
  match env with
  | [] => if closed then A_lost else A_timeout
  | E_write _ h :: env => if closed then A_lost else A_header h
  | (E_close | E_shutdown) :: _ => A_lost
  end.

Definition response_event_ok (e : event) : Prop :=
  match e with E_write from h => valid h /\ zlen from = rh_length h | _ => True end.

Lemma await_round_empty w :
  repr (base_ w) [] ->
  await_round w = if closed_ w || shutdown_ w
    then Ok (Some (ResponseHeader 0 0 0, with_base (set_header (ResponseHeader 0 0 0) (base_ w)) w))
    else Ok None.
Proof. intros Hr. unfold await_round. by rewrite (stored_repr _ _ Hr). Qed.

(** A response on the wire is returned even when the wire is closed or the session
    has been shut down. *)
Lemma await_round_message w h c :
  valid h -> repr (base_ w) (get_buffer h ++ c) ->
  await_round w = Ok (Some (h, with_base (set_header h (base_ w)) w)).
Proof.
  intros Hv Hr. unfold await_round. pose proof (zlen_nonneg c).
  rewrite (stored_repr _ _ Hr), zlen_app, length_get_buffer.
  change (size (T := response_header)) with response_header_size.
  replace (_ >=? _) with true by lia. by rewrite (copy_header_repr _ h c).
Qed.

(** [await] on an empty response wire returns the header of the first response
    written; when the wire is closed or the session shut down first it returns the
    header with index, length and type 0, and when nothing happens it throws. *)
Theorem await_first_event w env :
  repr (base_ w) [] -> pushed_ (base_ w) + capacity_ (base_ w) < 2 ^ 64 ->
  Forall response_event_ok env ->
  match first_response (closed_ w || shutdown_ w) env with
  | A_header h => exists w', await w env = Ok (h, w') /\ header_received_ (base_ w') = h
  | A_lost => exists w', await w env = Ok (ResponseHeader 0 0 0, w') /\
                header_received_ (base_ w') = ResponseHeader 0 0 0
  | A_timeout => await w env =
      Throw (runtime_error "response has not been received within the specified time")
  end.
Proof.
  intros Hr Hb Hok. destruct (closed_ w || shutdown_ w) eqn:Ecs.
  - assert (exists w', await w env = Ok (ResponseHeader 0 0 0, w') /\
      header_received_ (base_ w') = ResponseHeader 0 0 0) as H.
    { destruct env; cbn; rewrite (await_round_empty w Hr), Ecs; by eexists. }
    by destruct env as [|[] ?].
  - apply orb_false_iff in Ecs as [Hcl Hsh].
    destruct env as [|e env]; cbn; rewrite (await_round_empty w Hr), Hcl, Hsh; cbn; [done|].
    apply Forall_cons in Hok as [He _]. destruct e as [from h| |].
    + destruct He as [Hv Hl]. pose proof Hr as ([Hc _ _ _ _] & _).
      pose proof (size_pos (T := response_header)) as Hs.
      pose proof (get_length_range h Hv) as Hg. unfold in_range in Hg.
      destruct (write_first_repr (base_ w) [] h from) as (b & E & _ & R); [done..| |lia|].
      { change (zlen []) with 0. lia. }
      cbn [apply_event]. rewrite Hcl, E. cbn.
      rewrite app_nil_l, take_header in R by lia.
      exists (with_base (set_header h b) w). split; [|done].
      destruct env; cbn; by rewrite (await_round_message (with_base b w) h _ Hv R).
    + destruct env; cbn; rewrite (await_round_empty (close w) Hr); cbn; by eexists.
    + destruct env; cbn; rewrite (await_round_empty (notify_shutdown w) Hr); cbn; rewrite orb_true_r; by eexists.
Qed.

End Await.

Definition demo_response : Response.t := Response.Wire (new_wire 16 (replicate 16 0)) false false.

Lemma await_first_event_witness :
  exists w', Response.await demo_response [Response.E_write [1; 2; 3] (ResponseHeader 9 3 1)]
    = Ok (ResponseHeader 9 3 1, w') /\
    header_received_ (Response.base_ w') = ResponseHeader 9 3 1.
Proof.
  refine (await_first_event demo_response [Response.E_write [1; 2; 3] (ResponseHeader 9 3 1)] _ _ _).
  - apply repr_new; [split; [apply (Z.leb_le 8 16)|]; done|done].
  - done.
  - repeat constructor; done.
Defined.

(** The room test of the response wire forgets the 8-byte header: for a
    response whose payload fits and whose header does not, [is_writable] answers
    yes and the write that follows has to wait for the client. *)
Theorem is_writable_ignores_header w h from c :
  repr (Response.base_ w) c -> valid h ->
  rh_length h <= capacity_ (Response.base_ w) - zlen c < rh_length h + response_header_size ->
  rh_length h + response_header_size <= capacity_ (Response.base_ w) ->
  Response.is_writable w h = true /\ write_first (Response.base_ w) false from h = Ok Blocked.
Proof.
  intros Hr Hv Hl Hfit. split.
  - unfold Response.is_writable. rewrite (room_repr _ _ Hr). lia.
  - apply (write_first_blocked _ _ _ _ Hr). cbn. lia.
Qed.

(** a 32-byte response wire with one response of 10 bytes on it *)
Definition demo_busy : Response.t :=
  match Response.apply_event (Response.E_write (seqZ 0 10) (ResponseHeader 1 10 1))
          (Response.Wire (new_wire 32 (replicate 32 0)) false false) with
  | Ok w => w | _ => demo_response end.

Lemma is_writable_ignores_header_witness :
  Response.is_writable demo_busy (ResponseHeader 2 10 1) = true /\
  write_first (Response.base_ demo_busy) false (seqZ 50 10) (ResponseHeader 2 10 1) = Ok Blocked.
Proof.
  refine (is_writable_ignores_header demo_busy (ResponseHeader 2 10 1) (seqZ 50 10)
            (get_buffer (ResponseHeader 1 10 1) ++ seqZ 0 10) _ _ _ _).
  - apply repr_compute; vm_compute; reflexivity.
  - done.
  - vm_compute. split; [discriminate|reflexivity].
  - vm_compute. discriminate.
Defined.

(** Responses reach the wire in the order in which they were handed over: the
    completed writes, then the one in the hands of the writer thread, then the
    queued ones are the sequence of calls, and when no writer thread is active all
    of them have been written. *)
Theorem response_queue_order {M} (acts : list (ResponseQueue.action M)) :
  let q := fold_left ResponseQueue.step acts ResponseQueue.empty in
  let calls := concat (map ResponseQueue.calls acts) in
  ResponseQueue.emitted q ++ ResponseQueue.pending q = calls /\
  (ResponseQueue.thread_active_ q = false -> ResponseQueue.emitted q = calls).
Proof.
  intros q calls. destruct (ResponseQueue.queue_order (@ResponseQueue.empty M) acts) as [E F]; [done|].
  split; [exact E|]. intros Hq. fold q in E, F. rewrite (F Hq), app_nil_r in E. exact E.
Qed.
