(* ===== verification/ResultSetWire.v ===== *)
(** One result-set wire (src/tateyama/endpoint/ipc/wire.h,
    [unidirectional_simple_wires::unidirectional_simple_wire]).

    The server writes a record piece by piece behind a reserved 4-byte header and
    publishes it with [flush]; the client sees whole records only
    ([pushed_valid_]).  A call that would wait in [wait_to_resultset_write]
    returns [Blocked]. *)
From S2P Require Import Prelude WireHeader SimpleWire.

Module ResultSetWire.

Record t := Wire {
  base_ : simple_wire length_header;
  buffer_handle_ : Z;
  pushed_valid_ : Z;
  closed_ : bool;
  continued_ : bool
}.

Definition with_base (b : simple_wire length_header) (w : t) : t :=
  Wire b (buffer_handle_ w) (pushed_valid_ w) (closed_ w) (continued_ w).
Definition set_continued (c : bool) (w : t) : t :=
  Wire (base_ w) (buffer_handle_ w) (pushed_valid_ w) (closed_ w) c.
Definition set_pushed_valid (n : Z) (w : t) : t :=
  Wire (base_ w) (buffer_handle_ w) n (closed_ w) (continued_ w).

Definition brand_new (w : t) : res (progress t) :=
  let length := length_header_size in
  if (length >? room (base_ w)) && negb (closed_ w) then Ok Blocked
  else Ok (Next (with_base (set_pushed (u64 (pushed_ (base_ w) + length)) (base_ w)) w)).

Definition write_data (w : t) (from : list byte) (length : Z) : res (progress t) :=
  if (length >? room (base_ w)) && negb (closed_ w) then Ok Blocked
  else
    b ← write_in_buffer (base_ w) (buffer_address (base_ w) (pushed_ (base_ w))) from length;
    Ok (Next (with_base (set_pushed (u64 (pushed_ b + length)) b) w)).

Definition write (w : t) (from : list byte) (length : Z) : res (progress t) :=
  if negb (closed_ w) && (length >? 0) then
    p ← (if continued_ w then Ok (Next w)
         else p ← brand_new w;
              Ok (match p with Next w1 => Next (set_continued true w1) | o => o end));
    match p with
    | Next w1 => write_data w1 from length
    | Blocked => Ok Blocked
    | Closed => Ok Closed
    end
  else Ok (Next w).

Definition flush_record (w : t) : res t :=
  let header := length_header_of_size_t
                  (u64 (pushed_ (base_ w) - u64 (pushed_valid_ w + length_header_size))) in
  b ← write_in_buffer (base_ w) (buffer_address (base_ w) (pushed_valid_ w)) (get_buffer header)
        length_header_size;
  Ok (set_continued false (set_pushed_valid (pushed_ b) (with_base b w))).

Definition flush (w : t) : res t := if continued_ w then flush_record w else Ok w.

Definition check_room (w : t) (length : Z) : bool :=
  if continued_ w then room (base_ w) >=? length
  else room (base_ w) >=? u64 (length + length_header_size).

(** returns [closed_] once there is room or the client has closed *)
Definition wait_room (w : t) (length : Z) : progress bool :=
  let length := if continued_ w then length else u64 (length + length_header_size) in
  if (room (base_ w) >=? length) || closed_ w then Next (closed_ w) else Blocked.

Definition stored_valid (w : t) : Z := u64 (pushed_valid_ w - poped_ (base_ w)).
Definition has_record (w : t) : bool := stored_valid w >? 0.

(** the chunk, and the part of it that wrapped around (an untouched [wrap_around]
    is the empty view) *)
Definition get_chunk (w : t) : res (view * option view * t) :=
  b ← copy_header (base_ w);
  let length := lh_length (header_received_ b) in
  let start := u64 (poped_ b + length_header_size) in
  if start / capacity_ b =? u64 (u64 (start + length) - 1) / capacity_ b
  then Ok (ViewRing (read_address b length_header_size) length, None, with_base b w)
  else
    let buffer_end := u64 (pushed_valid_ w / capacity_ b * capacity_ b) in
    let first_length := u64 (buffer_end - start) in
    Ok (ViewRing (read_address b length_header_size) first_length,
        Some (ViewRing (read_address b (u64 (length_header_size + first_length))) (length - first_length)),
        with_base b w).

Definition dispose (w : t) : res t :=
  b ← copy_header (base_ w);
  Ok (with_base (set_poped (u64 (poped_ b + (lh_length (header_received_ b) + length_header_size))) b) w).

Definition attach_buffer (handle capacity : Z) (buf : list byte) (w : t) : t :=
  let b := base_ w in
  Wire (SimpleWire capacity (pushed_ b) (poped_ b) (header_received_ b) (need_dispose_ b)
          (copy_of_payload_ b) buf)
       handle (pushed_valid_ w) (closed_ w) (continued_ w).
Definition detach_buffer (w : t) : t := attach_buffer 0 0 [] w.
Definition equal (handle : Z) (w : t) : bool := handle =? buffer_handle_ w.
Definition reset_handle (w : t) : t :=
  Wire (base_ w) 0 (pushed_valid_ w) (closed_ w) (continued_ w).
Definition get_handle (w : t) : Z := buffer_handle_ w.
Definition set_closed (w : t) : t :=
  Wire (base_ w) (buffer_handle_ w) (pushed_valid_ w) true (continued_ w).

(** a fresh wire, as the vector of wires constructs it, before a buffer is attached *)
Definition new : t := Wire (new_wire 0 []) 0 0 false false.

(** * Representation: a queue of records and the record being written *)

Definition encode (r : list byte) : list byte := get_buffer (LengthHeader (zlen r)) ++ r.

Lemma zlen_encode r : zlen (encode r) = 4 + zlen r.
Proof. unfold encode. rewrite zlen_app. by rewrite (length_get_buffer (T := length_header)). Qed.

Definition encoded (recs : list (list byte)) : list byte := concat (map encode recs).

Lemma encoded_cons r recs : encoded (r :: recs) = encode r ++ encoded recs.
Proof. done. Qed.

Lemma encoded_snoc recs r : encoded (recs ++ [r]) = encoded recs ++ encode r.
Proof. unfold encoded. rewrite map_app, concat_app. cbn. by rewrite app_nil_r. Qed.

Record rs_repr (w : t) (recs : list (list byte)) (cur : list byte) : Prop := {
  rs_cap : length_header_size <= capacity_ (base_ w) < 2 ^ 32;
  rs_buf : zlen (buffer (base_ w)) = capacity_ (base_ w);
  rs_poped : 0 <= poped_ (base_ w);
  rs_room : pushed_ (base_ w) <= poped_ (base_ w) + capacity_ (base_ w);
  rs_pushed : pushed_ (base_ w) < 2 ^ 64;
  rs_valid : pushed_valid_ w = poped_ (base_ w) + zlen (encoded recs);
  rs_records : holds (buffer (base_ w)) (capacity_ (base_ w)) (poped_ (base_ w)) (encoded recs);
  rs_nonempty : Forall (fun r => 0 < zlen r) recs;
  rs_current : if continued_ w
    then pushed_ (base_ w) = pushed_valid_ w + length_header_size + zlen cur /\
         holds (buffer (base_ w)) (capacity_ (base_ w)) (pushed_valid_ w + length_header_size) cur
    else pushed_ (base_ w) = pushed_valid_ w /\ cur = []
}.

Lemma rs_order w recs cur :
  rs_repr w recs cur -> poped_ (base_ w) <= pushed_valid_ w <= pushed_ (base_ w).
Proof.
  intros []. pose proof (zlen_nonneg (encoded recs)). unfold length_header_size in *.
  pose proof (zlen_nonneg cur). destruct (continued_ w); lia.
Qed.

Lemma rs_room_eq w recs cur :
  rs_repr w recs cur ->
  room (base_ w) = capacity_ (base_ w) - (pushed_ (base_ w) - poped_ (base_ w)).
Proof.
  intros Hr. pose proof (rs_order _ _ _ Hr). destruct Hr. unfold length_header_size in *.
  unfold room, stored. rewrite (wrap_small _ (pushed_ (base_ w) - _)), wrap_small; unfold in_range; lia.
Qed.

(** bytes still needed for [bs]: the header too when a record is begun *)
Definition needed (w : t) (bs : list byte) : Z :=
  zlen bs + (if continued_ w then 0 else length_header_size).

Lemma check_room_spec w recs cur bs :
  rs_repr w recs cur -> zlen bs < 2 ^ 32 ->
  check_room w (zlen bs) = true <-> needed w bs <= room (base_ w).
Proof.
  intros Hr Hb. unfold check_room, needed. pose proof (zlen_nonneg bs). unfold length_header_size.
  destruct (continued_ w); [lia|]. rewrite wrap_small by (unfold in_range; lia). lia.
Qed.

(** fields a writer leaves alone *)
Definition same_client (w w' : t) : Prop :=
  closed_ w' = closed_ w /\ capacity_ (base_ w') = capacity_ (base_ w) /\
  poped_ (base_ w') = poped_ (base_ w) /\ buffer_handle_ w' = buffer_handle_ w.

Lemma begin_record_repr w recs cur :
  rs_repr w recs cur -> continued_ w = false -> length_header_size <= room (base_ w) ->
  pushed_ (base_ w) + length_header_size < 2 ^ 64 ->
  exists w1, brand_new w = Ok (Next w1) /\ rs_repr (set_continued true w1) recs [] /\
    same_client w w1 /\ pushed_ (base_ w1) = pushed_ (base_ w) + length_header_size.
Proof.
  intros Hr Hco Hroom Hp. pose proof (rs_order _ _ _ Hr) as Ho. pose proof (rs_room_eq _ _ _ Hr) as Hre.
  destruct Hr as [Hc Hbuf Hpop Hrm Hpu Hv Hh Hne Hcur]. rewrite Hco in Hcur. destruct Hcur as [Hpv ->].
  unfold brand_new, length_header_size in *. replace (4 >? room (base_ w)) with false by lia. cbn [andb].
  rewrite wrap_small by (unfold in_range; lia). eexists. split; [done|]. split; [|done].
  split; cbn; unfold length_header_size; try done; try lia.
  split; [|apply holds_nil]. change (zlen []) with 0. lia.
Qed.

Lemma write_data_repr w recs cur bs :
  rs_repr w recs cur -> continued_ w = true -> zlen bs <= room (base_ w) ->
  pushed_ (base_ w) + zlen bs < 2 ^ 64 ->
  exists w', write_data w bs (zlen bs) = Ok (Next w') /\ rs_repr w' recs (cur ++ bs) /\
    continued_ w' = true /\ same_client w w' /\ pushed_ (base_ w') = pushed_ (base_ w) + zlen bs.
Proof.
  intros Hr Hco Hroom Hp. pose proof (rs_order _ _ _ Hr) as Ho. pose proof (rs_room_eq _ _ _ Hr) as Hre.
  destruct Hr as [Hc Hbuf Hpop Hrm Hpu Hv Hh Hne Hcur]. rewrite Hco in Hcur. destruct Hcur as [Hpv Hcur].
  pose proof (zlen_nonneg bs). pose proof (zlen_nonneg cur). unfold length_header_size in *.
  unfold write_data. replace (zlen bs >? room (base_ w)) with false by lia. cbn [andb].
  destruct (write_in_buffer_holds (base_ w) (pushed_ (base_ w)) bs (zlen bs)) as (b & E & Hbl & Hnew & Hold);
    [lia..|].
  unfold buffer_address. rewrite E. cbn [mbind res_bind]. wire_simpl.
  rewrite wrap_small by (unfold in_range; lia). eexists. split; [done|].
  rewrite take_ge in Hnew by (unfold zlen; lia). cbn. split; [|done].
  split; cbn; unfold length_header_size; try done; try lia.
  - apply Hold; [lia|lia|done].
  - rewrite Hco, zlen_app. split; [lia|]. apply holds_app. split; [apply Hold; [lia|lia|done]|].
    by replace (pushed_valid_ w + 4 + zlen cur) with (pushed_ (base_ w)) by lia.
Qed.

(** A piece that [check_room] admits is appended to the record being written. *)
Lemma write_repr w recs cur bs :
  rs_repr w recs cur -> closed_ w = false -> 0 < zlen bs < 2 ^ 32 ->
  check_room w (zlen bs) = true -> pushed_ (base_ w) + needed w bs < 2 ^ 64 ->
  exists w', write w bs (zlen bs) = Ok (Next w') /\ rs_repr w' recs (cur ++ bs) /\
    continued_ w' = true /\ same_client w w' /\ pushed_ (base_ w') = pushed_ (base_ w) + needed w bs.
Proof.
  intros Hr Hcl Hbs Hck Hp. apply (check_room_spec _ _ _ _ Hr) in Hck; [|lia].
  unfold write. rewrite Hcl. replace (zlen bs >? 0) with true by lia. cbn [negb andb].
  unfold needed in *. destruct (continued_ w) eqn:Hco.
  - destruct (write_data_repr w recs cur bs) as (w' & E & R & C & S & P); [done..|lia|lia|].
    cbn [mbind res_bind]. exists w'. split_and!; try done; try apply S. lia.
  - unfold length_header_size in *.
    destruct (begin_record_repr w recs cur) as (w1 & E1 & R1 & S1 & P1); [done|done|unfold length_header_size; lia..|].
    assert (cur = []) as -> by (pose proof (rs_current _ _ _ Hr) as Hcur; rewrite Hco in Hcur; apply Hcur).
    rewrite E1. cbn [mbind res_bind]. unfold length_header_size in *.
    pose proof (rs_room_eq _ _ _ Hr) as Hq. pose proof (rs_room_eq _ _ _ R1) as Hq1. cbn in Hq1.
    pose proof S1 as (? & ? & ? & ?).
    destruct (write_data_repr (set_continued true w1) recs [] bs) as (w' & E & R & C & S & P);
      [done..|cbn; lia|cbn; lia|].
    exists w'. cbn in P. destruct S as (? & ? & ? & ?). cbn in *. unfold same_client.
    split_and!; try done; try congruence. lia.
Qed.

(** [flush] publishes the record being written as one more record. *)
Lemma flush_repr w recs cur :
  rs_repr w recs cur -> continued_ w = true -> 0 < zlen cur ->
  exists w', flush w = Ok w' /\ rs_repr w' (recs ++ [cur]) [] /\
    continued_ w' = false /\ same_client w w' /\ pushed_ (base_ w') = pushed_ (base_ w).
Proof.
  intros Hr Hco Hpos. pose proof (rs_order _ _ _ Hr) as Ho.
  destruct Hr as [Hc Hbuf Hpop Hrm Hpu Hv Hh Hne Hcur]. rewrite Hco in Hcur. destruct Hcur as [Hpv Hcur].
  pose proof (zlen_nonneg (encoded recs)). unfold length_header_size in *.
  unfold flush, flush_record. rewrite Hco. unfold length_header_of_size_t, length_header_size.
  rewrite (wrap_small 64 (pushed_valid_ w + 4)), (wrap_small 64), (wrap_small 32) by (unfold in_range; lia).
  replace (pushed_ (base_ w) - (pushed_valid_ w + 4)) with (zlen cur) by lia.
  set (hb := get_buffer (LengthHeader (zlen cur))).
  assert (zlen hb = 4) as Hhb by exact (length_get_buffer (LengthHeader (zlen cur))).
  destruct (write_in_buffer_holds (base_ w) (pushed_valid_ w) hb 4) as (b & E & Hbl & Hnew & Hold); [lia..|].
  unfold buffer_address. rewrite E. cbn [mbind res_bind]. wire_simpl. eexists. split; [done|].
  rewrite take_ge in Hnew by (unfold zlen in *; lia). cbn. split; [|done].
  split; cbn; unfold length_header_size; try done; try lia.
  - rewrite encoded_snoc, zlen_app, zlen_encode. lia.
  - rewrite encoded_snoc. apply holds_app. split; [apply Hold; [lia|lia|done]|].
    rewrite <- Hv. unfold encode. apply holds_app. split; [exact Hnew|]. fold hb. rewrite Hhb.
    apply holds_turn; [lia|]. apply Hold; [lia|lia|]. by apply holds_turn; [lia|].
  - apply Forall_app. split; [done|]. by constructor.
Qed.

(** ** The client *)

(** [get_chunk] decides by comparing page numbers; [B] is the page boundary inside
    the record. *)
Lemma same_page cap a n :
  0 < cap -> 0 < n -> a / cap = (a + n - 1) / cap -> a mod cap + n <= cap.
Proof.
  intros Hc Hn Heq. pose proof (Z.div_mod a cap ltac:(lia)).
  pose proof (Z.div_mod (a + n - 1) cap ltac:(lia)).
  pose proof (Z.mod_pos_bound (a + n - 1) cap Hc). rewrite <- Heq in *. lia.
Qed.

Lemma page_boundary cap a n pv :
  0 < cap -> 0 < n -> a / cap <> (a + n - 1) / cap -> a + n <= pv <= a + cap ->
  n <= cap -> exists B, B = pv / cap * cap /\ a < B < a + n /\ B mod cap = 0 /\ a mod cap + (B - a) = cap.
Proof.
  intros Hc Hn Hne Hpv Hnc. pose proof (Z.div_mod a cap ltac:(lia)) as E1.
  pose proof (Z.div_mod (a + n - 1) cap ltac:(lia)) as E2. pose proof (Z.mod_pos_bound (a + n - 1) cap Hc).
  pose proof (Z.mod_pos_bound a cap Hc).
  assert ((a + n - 1) / cap = a / cap + 1) as Hq by nia.
  assert (pv / cap = a / cap + 1) as Hpq.
  { symmetry. apply Z.div_unique with (r := pv - cap * (a / cap + 1)); nia. }
  exists ((a / cap + 1) * cap). rewrite Hpq. split_and!; [done|nia|nia|apply Z_mod_mult|nia].
Qed.

Definition record_fits (r : list byte) : Prop := 0 < zlen r < 2 ^ 32.

(** what the client sees of the first record *)
Lemma rs_head w r recs cur :
  rs_repr w (r :: recs) cur ->
  record_fits r /\ copy_header (base_ w) = Ok (set_header (LengthHeader (zlen r)) (base_ w)) /\
  holds (buffer (base_ w)) (capacity_ (base_ w)) (poped_ (base_ w) + 4) r /\
  poped_ (base_ w) + 4 + zlen r <= pushed_valid_ w <= poped_ (base_ w) + capacity_ (base_ w) /\
  pushed_valid_ w < 2 ^ 64.
Proof.
  intros Hr. pose proof (rs_order _ _ _ Hr). destruct Hr as [Hc Hbuf Hpop Hrm Hpu Hv Hh Hne _].
  apply Forall_cons in Hne as [Hpos _]. unfold length_header_size in *.
  assert (zlen (encoded (r :: recs)) = 4 + zlen r + zlen (encoded recs)) as Hz.
  { by rewrite encoded_cons, zlen_app, zlen_encode. }
  pose proof (zlen_nonneg (encoded recs)).
  assert (record_fits r) as Hfit by (unfold record_fits; lia).
  rewrite encoded_cons in Hh. apply holds_app in Hh as [Hh _]. apply holds_app in Hh as [Hhh Hrr].
  change (zlen (get_buffer (LengthHeader (zlen r)))) with 4 in Hrr. split_and!; try done; try lia.
  apply copy_header_holds; try done.
  - unfold valid; cbn. unfold length_header_valid, in_range, record_fits in *. cbn. lia.
  - cbn. unfold length_header_size. lia.
  - unfold in_range. lia.
Qed.

(** The chunk and its wrapped-around part are the record, byte for byte, and both
    lie inside the buffer. *)
Lemma get_chunk_repr w r recs cur :
  rs_repr w (r :: recs) cur ->
  exists v o w', get_chunk w = Ok (v, o, w') /\ base_ w' = set_header (LengthHeader (zlen r)) (base_ w) /\
    exists r1 r2, r = r1 ++ r2 /\ view_bytes (base_ w) v = Ok r1 /\
      match o with None => r2 = [] | Some v2 => view_bytes (base_ w) v2 = Ok r2 end.
Proof.
  intros Hr. destruct (rs_head w r recs cur Hr) as ([Hp H32] & Eh & Hh & Hb & Hpv).
  destruct Hr as [Hc Hbuf Hpop Hrm Hpu _ _ _ _]. unfold length_header_size in *.
  unfold get_chunk, length_header_size. rewrite Eh. cbn [mbind res_bind]. wire_simpl. cbn [lh_length].
  set (cap := capacity_ (base_ w)) in *. set (a := poped_ (base_ w) + 4) in *.
  rewrite (wrap_small 64 a), (wrap_small 64 (a + zlen r)), (wrap_small 64 (a + zlen r - 1)) by (unfold in_range; lia).
  destruct (Z.eqb_spec (a / cap) ((a + zlen r - 1) / cap)) as [Heq|Hne].
  - eexists _, _, _. split; [done|]. split; [done|]. exists r, []. rewrite app_nil_r. split_and!; try done.
    unfold view_bytes, read_address. wire_simpl. fold a. rewrite wrap_small by (unfold in_range; lia).
    apply (load_holds (base_ w) a r); try done; [lia|].
    unfold index. fold cap. apply same_page; [lia|lia|done].
  - destruct (page_boundary cap a (zlen r) (pushed_valid_ w)) as (B & EB & HB & HB0 & Hw); [lia..|].
    rewrite <- EB. rewrite (wrap_small 64 B), (wrap_small 64 (B - a)) by (unfold in_range; lia).
    eexists _, _, _. split; [done|]. split; [done|].
    exists (take (Z.to_nat (B - a)) r), (drop (Z.to_nat (B - a)) r). rewrite take_drop.
    assert (zlen (take (Z.to_nat (B - a)) r) = B - a) as Hz1 by (apply zlen_take; lia).
    assert (zlen (drop (Z.to_nat (B - a)) r) = zlen r - (B - a)) as Hz2 by (apply zlen_drop; lia).
    rewrite <- (take_drop (Z.to_nat (B - a)) r) in Hh. apply holds_app in Hh as [Hh1 Hh2].
    rewrite Hz1 in Hh2. unfold view_bytes, read_address. wire_simpl. fold a.
    rewrite (wrap_small 64 a), (wrap_small 64 (4 + (B - a))), (wrap_small 64 (poped_ (base_ w) + _)) by (unfold in_range; lia).
    split_and!; [done| |].
    + rewrite <- Hz1 at 1. apply (load_holds (base_ w) a); try done; [lia|]. rewrite Hz1. unfold index. fold cap. lia.
    + rewrite <- Hz2. replace (poped_ (base_ w) + (4 + (B - a))) with (a + (B - a)) by lia.
      apply (load_holds (base_ w) (a + (B - a))); try done; [lia|].
      unfold index. fold cap. replace (a + (B - a)) with B by lia. lia.
Qed.

Lemma dispose_repr w r recs cur :
  rs_repr w (r :: recs) cur ->
  exists w', dispose w = Ok w' /\ rs_repr w' recs cur /\ closed_ w' = closed_ w /\
    continued_ w' = continued_ w /\ pushed_ (base_ w') = pushed_ (base_ w) /\
    capacity_ (base_ w') = capacity_ (base_ w).
Proof.
  intros Hr. destruct (rs_head w r recs cur Hr) as ([Hp H32] & Eh & Hh & Hb & Hpv).
  destruct Hr as [Hc Hbuf Hpop Hrm Hpu Hv Hrec Hne Hcur]. unfold length_header_size in *.
  unfold dispose, length_header_size. rewrite Eh. cbn [mbind res_bind].
  eexists. split; [done|]. cbn. rewrite wrap_small by (unfold in_range; lia).
  split; [|done]. rewrite encoded_cons in Hrec, Hv. rewrite zlen_app, zlen_encode in Hv.
  apply holds_app in Hrec as [_ Hrec]. rewrite zlen_encode in Hrec.
  pose proof (zlen_nonneg (encoded recs)).
  split; cbn; unfold length_header_size; try done; try lia.
  - by replace (poped_ (base_ w) + (zlen r + 4)) with (poped_ (base_ w) + (4 + zlen r)) by lia.
  - by apply Forall_cons in Hne as [_ Hne].
Qed.

Lemma zlen_pos_ne {A} (l : list A) : 0 < zlen l -> l <> [].
Proof. by destruct l. Qed.

(** * Server and client on one wire, against a bounded queue of records *)

Inductive action :=
| S_write (bs : list byte)
| S_flush
| C_take.

(** the client reads both views before it disposes of the record *)
Definition take_record (w : t) : res (list byte * t) :=
  '(v, o, w1) ← get_chunk w;
  r1 ← view_bytes (base_ w1) v;
  r2 ← match o with Some v2 => view_bytes (base_ w1) v2 | None => Ok [] end;
  w2 ← dispose w1;
  Ok (r1 ++ r2, w2).

Definition exec (st : t * list (list byte)) (a : action) : res (t * list (list byte)) :=
  let '(w, out) := st in
  match a with
  | S_write bs =>
      if check_room w (zlen bs) then
        p ← write w bs (zlen bs);
        Ok (match p with Next w' => w' | _ => w end, out)
      else Ok (w, out)
  | S_flush => w' ← flush w; Ok (w', out)
  | C_take => if has_record w then '(r, w') ← take_record w; Ok (w', out ++ [r]) else Ok (w, out)
  end.

Fixpoint exec_all (st : t * list (list byte)) (acts : list action) : res (t * list (list byte)) :=
  match acts with
  | [] => Ok st
  | a :: acts => st' ← exec st a; exec_all st' acts
  end.

(** the specification: records queued, bytes of the record being written, records taken *)
Record queue := RecordQueue { queued : list (list byte); current : list byte; taken : list (list byte) }.

Definition used (q : queue) : Z :=
  zlen (encoded (queued q)) + (match current q with [] => 0 | c => 4 + zlen c end).

Definition spec (cap : Z) (q : queue) (a : action) : queue :=
  match a with
  | S_write bs =>
      if bool_decide (used q + zlen bs + (match current q with [] => 4 | _ => 0 end) <= cap)
      then RecordQueue (queued q) (current q ++ bs) (taken q) else q
  | S_flush =>
      match current q with
      | [] => q
      | c => RecordQueue (queued q ++ [c]) [] (taken q)
      end
  | C_take =>
      match queued q with
      | [] => q
      | r :: rs => RecordQueue rs (current q) (taken q ++ [r])
      end
  end.

(** [continued_] says whether a record has been begun *)
Record rs_inv (w : t) (out : list (list byte)) (q : queue) : Prop := {
  ri_repr : rs_repr w (queued q) (current q);
  ri_open : closed_ w = false;
  ri_out : out = taken q;
  ri_cont : continued_ w = bool_decide (current q <> [])
}.

Definition action_ok (a : action) : Prop :=
  match a with S_write bs => 0 < zlen bs < 2 ^ 32 | _ => True end.
Definition action_bytes (a : action) : Z :=
  match a with S_write bs => 4 + zlen bs | _ => 0 end.

Lemma used_spec w out q :
  rs_inv w out q -> pushed_ (base_ w) = poped_ (base_ w) + used q.
Proof.
  intros [Hr _ _ Hco]. destruct Hr as [_ _ _ _ _ Hv _ _ Hcur]. rewrite Hco in Hcur. unfold used.
  case_bool_decide as Hc; destruct Hcur as [Hp Hx]; unfold length_header_size in *.
  - destruct (current q); [done|lia].
  - rewrite Hx. lia.
Qed.

Lemma take_record_repr w r recs cur :
  rs_repr w (r :: recs) cur -> closed_ w = false ->
  exists w', take_record w = Ok (r, w') /\ rs_repr w' recs cur /\ closed_ w' = closed_ w /\
    continued_ w' = continued_ w /\ pushed_ (base_ w') = pushed_ (base_ w) /\
    capacity_ (base_ w') = capacity_ (base_ w).
Proof.
  intros Hr Hcl. destruct (get_chunk_repr w r recs cur Hr) as (v & o & w1 & E & Eb & r1 & r2 & -> & V1 & V2).
  unfold take_record. rewrite E. cbn [mbind res_bind]. rewrite Eb.
  assert (forall v', view_bytes (set_header (LengthHeader (zlen (r1 ++ r2))) (base_ w)) v' = view_bytes (base_ w) v')
    as Hvb by done. rewrite !Hvb, V1. cbn [mbind res_bind].
  assert (w1 = with_base (set_header (LengthHeader (zlen (r1 ++ r2))) (base_ w)) w) as ->.
  { unfold get_chunk in E. destruct (rs_head w _ recs cur Hr) as (_ & Eh & _). rewrite Eh in E. cbn in E.
    by destruct (_ =? _); injection E as _ _ <-. }
  assert (rs_repr (with_base (set_header (LengthHeader (zlen (r1 ++ r2))) (base_ w)) w) ((r1 ++ r2) :: recs) cur)
    as Hr1 by (by destruct Hr; split).
  destruct (dispose_repr _ _ _ _ Hr1) as (w' & Ed & Hr' & D). exists w'.
  split; [|by destruct D as (? & ? & ? & ?)].
  destruct o as [v2|].
  - rewrite Hvb, V2. cbn [mbind res_bind]. by rewrite Ed.
  - rewrite V2, app_nil_r in *. cbn [mbind res_bind]. rewrite Ed. cbn. by rewrite app_nil_r.
Qed.

Lemma exec_write w out q bs :
  rs_inv w out q -> 0 < zlen bs < 2 ^ 32 -> pushed_ (base_ w) + 4 + zlen bs < 2 ^ 64 ->
  exists w', exec (w, out) (S_write bs) = Ok (w', out) /\
    rs_inv w' out (spec (capacity_ (base_ w)) q (S_write bs)) /\
    capacity_ (base_ w') = capacity_ (base_ w) /\ pushed_ (base_ w') <= pushed_ (base_ w) + 4 + zlen bs.
Proof.
  intros Hi Hbs Hp. pose proof (used_spec _ _ _ Hi) as Hu. destruct Hi as [Hr Hcl Ho Hco].
  pose proof (rs_room_eq _ _ _ Hr) as Hroom.
  pose proof (check_room_spec _ _ _ bs Hr ltac:(lia)) as Hck. unfold needed in Hck. rewrite Hco in Hck.
  assert ((if bool_decide (current q <> []) then 0 else length_header_size)
          = match current q with [] => 4 | _ => 0 end) as Hn by (by destruct (current q)).
  rewrite Hn in Hck. cbn [exec spec]. destruct (check_room w (zlen bs)) eqn:Ec.
  - rewrite bool_decide_true by lia.
    destruct (write_repr w (queued q) (current q) bs) as (w' & -> & R & C & (S1 & S2 & S3 & S4) & P);
      [done..|unfold needed; rewrite Hco, Hn; destruct (current q); lia|].
    exists w'. cbn. split_and!; [done| |done|].
    + split; cbn; [done|congruence|done|]. rewrite C. symmetry. apply bool_decide_true.
      destruct (current q); [cbn; apply zlen_pos_ne; lia|done].
    + unfold needed in P. rewrite Hco, Hn in P. destruct (current q); lia.
  - rewrite bool_decide_false by lia. exists w. split_and!; [done|by split|done|lia].
Qed.

Lemma exec_flush w out q :
  rs_inv w out q ->
  exists w', exec (w, out) S_flush = Ok (w', out) /\
    rs_inv w' out (spec (capacity_ (base_ w)) q S_flush) /\
    capacity_ (base_ w') = capacity_ (base_ w) /\ pushed_ (base_ w') = pushed_ (base_ w).
Proof.
  intros [Hr Hcl Ho Hco]. cbn [exec spec]. destruct (current q) as [|x c] eqn:Eq.
  - unfold flush. rewrite Hco. cbn. exists w. split_and!; try done. split; try done; by rewrite Eq.
  - destruct (flush_repr w (queued q) (x :: c)) as (w' & -> & R & C & (S1 & S2 & _) & P);
      [done|by rewrite Hco|rewrite zlen_cons; pose proof (zlen_nonneg c); lia|].
    exists w'. cbn. split_and!; try done. split; cbn; [done|congruence|done|done].
Qed.

Lemma exec_take w out q :
  rs_inv w out q ->
  exists w' out', exec (w, out) C_take = Ok (w', out') /\
    rs_inv w' out' (spec (capacity_ (base_ w)) q C_take) /\
    capacity_ (base_ w') = capacity_ (base_ w) /\ pushed_ (base_ w') = pushed_ (base_ w).
Proof.
  intros [Hr Hcl Ho Hco]. cbn [exec spec]. unfold has_record, stored_valid.
  pose proof (rs_order _ _ _ Hr) as Hord. pose proof Hr as [Hc _ Hpop _ Hpu Hv _ Hne _].
  rewrite wrap_small by (unfold in_range; lia). rewrite Hv.
  replace (poped_ (base_ w) + zlen (encoded (queued q)) - poped_ (base_ w)) with (zlen (encoded (queued q))) by lia.
  destruct (queued q) as [|r rs] eqn:Eq.
  - exists w, out. split_and!; try done. split; try done; by rewrite Eq.
  - rewrite encoded_cons, zlen_app, zlen_encode.
    pose proof (zlen_nonneg r). pose proof (zlen_nonneg (encoded rs)).
    replace (4 + zlen r + zlen (encoded rs) >? 0) with true by lia.
    destruct (take_record_repr w r rs (current q)) as (w' & -> & R & D1 & D2 & D3 & D4); [done..|].
    exists w', (out ++ [r]). cbn. split_and!; try done. split; cbn; [done|congruence|congruence|congruence].
Qed.

Lemma exec_all_spec acts w q out :
  rs_inv w out q -> Forall action_ok acts ->
  pushed_ (base_ w) + foldr Z.add 0 (map action_bytes acts) < 2 ^ 64 ->
  exists w' out', exec_all (w, out) acts = Ok (w', out') /\
    rs_inv w' out' (fold_left (spec (capacity_ (base_ w))) acts q).
Proof.
  intros Hi Hok. revert w q out Hi. induction Hok as [|a acts Ha _ IH]; intros w q out Hi Hb; [by exists w, out|].
  cbn [exec_all map foldr fold_left] in *.
  assert (0 <= foldr Z.add 0 (map action_bytes acts)) as Hpos.
  { clear. induction acts as [|a acts IH]; cbn; [done|]. destruct a as [bs| |]; cbn; try lia.
    pose proof (zlen_nonneg bs). lia. }
  destruct a as [bs| |]; unfold action_ok in Ha; cbn [action_bytes] in Hb.
  - destruct (exec_write w out q bs) as (w' & -> & Hi' & Ec & Ep); [done|done|lia|].
    cbn [mbind res_bind]. rewrite <- Ec in *. apply IH; [done|lia].
  - destruct (exec_flush w out q) as (w' & -> & Hi' & Ec & Ep); [done|].
    cbn [mbind res_bind]. rewrite <- Ec in *. apply IH; [done|lia].
  - destruct (exec_take w out q) as (w' & out' & -> & Hi' & Ec & Ep); [done|].
    cbn [mbind res_bind]. rewrite <- Ec in *. apply IH; [done|lia].
Qed.

(** C7: a result-set wire used by one server and one client is a bounded queue of
    records: whatever the order of their calls, no access leaves the buffer, a
    piece is accepted exactly when it fits (4 bytes of header included), and the
    client obtains exactly the flushed records, each one whole, in order. *)
Theorem resultset_wire_refines w acts :
  rs_repr w [] [] -> closed_ w = false -> continued_ w = false -> Forall action_ok acts ->
  pushed_ (base_ w) + foldr Z.add 0 (map action_bytes acts) < 2 ^ 64 ->
  let q := fold_left (spec (capacity_ (base_ w))) acts (RecordQueue [] [] []) in
  exists w', exec_all (w, []) acts = Ok (w', taken q) /\ rs_repr w' (queued q) (current q).
Proof.
  intros Hr Hcl Hco Hok Hb q.
  destruct (exec_all_spec acts w (RecordQueue [] [] []) []) as (w' & out & E & [R _ -> _]); [by split|done..|].
  by exists w'.
Qed.

(** a 16-byte wire; the second record wraps around the end of the buffer *)
Definition demo_wire : t := attach_buffer 1 16 (replicate 16 0) new.
Definition demo_acts : list action :=
  [S_write [1; 2; 3]; S_write [4]; S_flush; C_take; S_write (seqZ 10 9); S_flush; C_take; C_take].

Lemma resultset_wire_refines_witness :
  exists w', exec_all (demo_wire, []) demo_acts = Ok (w', [[1; 2; 3; 4]; seqZ 10 9]) /\
    rs_repr w' [] [].
Proof.
  refine (resultset_wire_refines demo_wire demo_acts _ _ _ _ _); try reflexivity.
  - split; try done; try (cbn; unfold length_header_size; lia). apply holds_nil.
  - unfold demo_acts. repeat constructor; vm_compute; reflexivity.
Defined.
End ResultSetWire.
