(* ===== verification/ResultSetWires.v ===== *)
(** The set of wires of one result set (src/tateyama/endpoint/ipc/wire.h,
    [unidirectional_simple_wires]).

    A result set has a fixed vector of wires; [acquire] gives a wire a buffer of
    the shared memory, [release] takes it back.  Buffers are known by their
    handles (0 is "no buffer"); [allocate_aligned] and [deallocate] belong to
    boost.interprocess: the block an allocation returns is an argument, and the
    handles passed to [deallocate] are collected in [freed]. *)
From S2P Require Import Prelude WireHeader SimpleWire ResultSetWire.
Import ResultSetWire.

Module ResultSetWires.

Record t := Wires {
  wires_ : list ResultSetWire.t;
  buffer_size_ : Z;
  reserved_ : Z;
  count_using_ : nat;
  next_index_ : nat;
  only_one_buffer_ : bool;
  eor_ : bool;
  closed_ : bool;
  freed : list Z
}.

(** constructor: [count] wires, one buffer reserved *)
Definition create (count : nat) (buffer_size : Z) (alloc : option Z) : res t :=
  match alloc with
  | None => Throw (runtime_error "cannot allocate shared memory")
  | Some h => Ok (Wires (replicate count ResultSetWire.new) buffer_size h 0 0 false false false [])
  end.

Definition with_wires (l : list ResultSetWire.t) (s : t) : t :=
  Wires l (buffer_size_ s) (reserved_ s) (count_using_ s) (next_index_ s) (only_one_buffer_ s)
    (eor_ s) (closed_ s) (freed s).
Definition set_reserved (h : Z) (s : t) : t :=
  Wires (wires_ s) (buffer_size_ s) h (count_using_ s) (next_index_ s) (only_one_buffer_ s)
    (eor_ s) (closed_ s) (freed s).
Definition set_counts (n i : nat) (s : t) : t :=
  Wires (wires_ s) (buffer_size_ s) (reserved_ s) n i (only_one_buffer_ s) (eor_ s) (closed_ s) (freed s).
Definition set_only_one (b : bool) (s : t) : t :=
  Wires (wires_ s) (buffer_size_ s) (reserved_ s) (count_using_ s) (next_index_ s) b
    (eor_ s) (closed_ s) (freed s).
Definition add_freed (h : Z) (s : t) : t :=
  Wires (wires_ s) (buffer_size_ s) (reserved_ s) (count_using_ s) (next_index_ s) (only_one_buffer_ s)
    (eor_ s) (closed_ s) (freed s ++ [h]).

(** first index below [n] whose wire has the given handle; [.at()] past the end of
    the vector inside a noexcept function, and an unsuccessful search, abort *)
Fixpoint search (handle : Z) (l : list ResultSetWire.t) (n : nat) : res nat :=
  match n, l with
  | O, _ => Undefined
  | S _, [] => Undefined
  | S n, w :: l => if equal handle w then Ok O else S <$> search handle l n
  end.

Definition search_free_wire (s : t) : res nat * t :=
  if (count_using_ s =? next_index_ s)%nat
  then (Ok (next_index_ s), set_counts (S (count_using_ s)) (S (next_index_ s)) s)
  else match search 0 (wires_ s) (next_index_ s) with
       | Ok i => (Ok i, set_counts (S (count_using_ s)) (next_index_ s) s)
       | r => (r, s)
       end.

Definition search_wire (s : t) (w : ResultSetWire.t) : res nat :=
  search (get_handle w) (wires_ s) (next_index_ s).

(** [unidirectional_simple_wires_.at(i).attach_buffer(h, buffer_size_)]; [mem] is
    what the block holds *)
Definition attach_at (mem : Z -> list byte) (i : nat) (h : Z) (s : t) : res nat * t :=
  match wires_ s !! i with
  | None => (Throw out_of_range, s)
  | Some w => (Ok i, with_wires (<[i := attach_buffer h (buffer_size_ s) (mem h) w]> (wires_ s)) s)
  end.

Definition acquire (mem : Z -> list byte) (alloc : option Z) (s : t) : res nat * t :=
  if (count_using_ s =? 0)%nat then
    let '(r, s) := attach_at mem 0 (reserved_ s) (set_counts 1 1 s) in
    match r with
    | Ok i => (Ok i, set_only_one true (set_reserved 0 s))
    | _ => (r, s)
    end
  else
    match (if reserved_ s =? 0 then match alloc with Some h => Some (h, s) | None => None end
           else Some (reserved_ s, set_reserved 0 s)) with
    | None => (Throw (runtime_error "cannot allocate shared memory"), s)
    | Some (buffer, s) =>
        let '(i, s) := search_free_wire s in
        match i with
        | Ok i =>
            let '(r, s) := attach_at mem i buffer s in
            match r with
            | Ok i => (Ok i, set_only_one false s)
            | _ => (r, s)
            end
        | _ => (i, s)
        end
    end.

(** the wire released is the [k]-th one *)
Definition release (k : nat) (s : t) : res t :=
  match wires_ s !! k with
  | None => Undefined
  | Some w =>
      let buffer := get_handle w in
      i ← search_wire s w;
      match wires_ s !! i with
      | None => Undefined
      | Some wi =>
          let s := with_wires (<[i := reset_handle wi]> (wires_ s)) s in
          let s := if reserved_ s =? 0 then set_reserved buffer s else add_freed buffer s in
          Ok (set_counts (pred (count_using_ s)) (next_index_ s) s)
      end
  end.

Definition set_closed (s : t) : t :=
  Wires (map ResultSetWire.set_closed (wires_ s)) (buffer_size_ s) (reserved_ s) (count_using_ s)
    (next_index_ s) (only_one_buffer_ s) (eor_ s) true (freed s).
Definition is_closed (s : t) : bool := closed_ s.
Definition set_eor (s : t) : t :=
  Wires (wires_ s) (buffer_size_ s) (reserved_ s) (count_using_ s) (next_index_ s)
    (only_one_buffer_ s) true (closed_ s) (freed s).
Definition is_eor (s : t) : bool := eor_ s.

(** destructor: every block goes back to the shared memory *)
Definition destroy (s : t) : t :=
  let s1 := if reserved_ s =? 0 then s else add_freed (reserved_ s) s in
  fold_left (fun s w => if equal 0 w then s else add_freed (get_handle w) s) (wires_ s)
    (with_wires (map (fun w => if equal 0 w then w else detach_buffer w) (wires_ s)) s1).

(** one pass of [active_wire]: the first wire with a record, the end of the
    result set, or a wait *)
Inductive active := Active (i : nat) | EndOfRecords | NoRecord.

Fixpoint find_record (l : list ResultSetWire.t) (i : nat) : option nat :=
  match l with
  | [] => None
  | w :: l => if has_record w then Some i else find_record l (S i)
  end.

Definition active_wire_round (s : t) : active :=
  match find_record (wires_ s) 0 with
  | Some i => Active i
  | None => if is_eor s then EndOfRecords else NoRecord
  end.

(** * Buffers in use *)

Definition handles (s : t) : list Z := map get_handle (wires_ s).
Definition in_use (l : list Z) : list Z := filter (.≠ 0) l.

Record inv (s : t) : Prop := {
  inv_next : (next_index_ s <= length (wires_ s))%nat;
  inv_beyond : forall i h, handles s !! i = Some h -> (next_index_ s <= i)%nat -> h = 0;
  inv_count : count_using_ s = length (in_use (handles s));
  inv_distinct : NoDup (in_use (handles s));
  inv_reserved : reserved_ s ∉ in_use (handles s);
  inv_first : count_using_ s = 0%nat -> reserved_ s <> 0
}.

(** what the allocator promises: a block that is not in use *)
Definition fresh (s : t) (h : Z) : Prop :=
  h <> 0 /\ (h ∉ in_use (handles s)) /\ h <> reserved_ s.

Lemma in_use_insert l i h :
  l !! i = Some 0 -> h <> 0 -> in_use (<[i := h]> l) ≡ₚ h :: in_use l.
Proof.
  intros Hi Hh. pose proof (lookup_lt_Some _ _ _ Hi) as Hlt.
  rewrite insert_take_drop by done. rewrite <- (take_drop_middle l i 0 Hi) at 3.
  unfold in_use. rewrite !filter_app, !filter_cons. rewrite (decide_True (P := h <> 0)) by done.
  rewrite (decide_False (P := 0 <> 0)) by lia. by rewrite Permutation_middle.
Qed.

Lemma in_use_reset l i h :
  l !! i = Some h -> h <> 0 -> in_use l ≡ₚ h :: in_use (<[i := 0]> l).
Proof.
  intros Hi Hh. pose proof (lookup_lt_Some _ _ _ Hi) as Hlt.
  rewrite <- (in_use_insert (<[i := 0]> l) i h) by (done || by apply list_lookup_insert_eq).
  by rewrite list_insert_insert_eq, list_insert_id.
Qed.

Lemma handles_insert s i w :
  map get_handle (<[i := w]> (wires_ s)) = <[i := get_handle w]> (handles s).
Proof. apply list_fmap_insert. Qed.

Lemma elem_of_in_use h l : h ∈ in_use l <-> h <> 0 /\ h ∈ l.
Proof. unfold in_use. by rewrite list_elem_of_filter. Qed.

Lemma in_use_all l : Forall (.≠ 0) l -> in_use l = l.
Proof.
  unfold in_use. induction 1 as [|x l Hx _ IH]; [done|].
  rewrite filter_cons, decide_True by done. by rewrite IH.
Qed.

Lemma in_use_app l1 l2 : in_use (l1 ++ l2) = in_use l1 ++ in_use l2.
Proof. apply filter_app. Qed.

Lemma in_use_none l : Forall (fun h => h = 0) l -> in_use l = [].
Proof.
  unfold in_use. induction 1 as [|x l Hx _ IH]; [done|].
  rewrite filter_cons, decide_False by (intros Hn; by apply Hn). done.
Qed.

Lemma length_in_use l : (length (in_use l) <= length l)%nat.
Proof.
  unfold in_use. induction l as [|x l IH]; [done|]. rewrite filter_cons. case_decide; cbn; lia.
Qed.

(** A search below [n] returns the first wire with the handle. *)
Lemma search_spec handle l n :
  (exists i, (i < n)%nat /\ (get_handle <$> l !! i) = Some handle) -> (n <= length l)%nat ->
  exists i, search handle l n = Ok i /\ (i < n)%nat /\ (get_handle <$> l !! i) = Some handle.
Proof.
  revert n. induction l as [|w l IH]; intros n (i & Hi & E) Hn; [done|]. destruct n as [|n]; [lia|].
  cbn. unfold equal. destruct (Z.eqb_spec handle (buffer_handle_ w)) as [->|Hne].
  - exists 0%nat. split_and!; [done|lia|done].
  - destruct i as [|i]; [cbn in E; unfold get_handle in E; congruence|].
    destruct (IH n) as (j & -> & Hj & Ej); [exists i; split; [lia|done]|cbn in Hn; lia|].
    exists (S j). split_and!; [done|lia|done].
Qed.

Lemma handles_lookup s i : handles s !! i = get_handle <$> wires_ s !! i.
Proof. apply list_lookup_fmap. Qed.

(** fewer buffers in use than wires opened: one of the opened wires is free *)
Lemma free_below s :
  inv s -> (count_using_ s < next_index_ s)%nat ->
  exists i, (i < next_index_ s)%nat /\ handles s !! i = Some 0.
Proof.
  intros [Hn Hb Hc _ _ _] Hlt. rewrite Hc in Hlt.
  assert (length (handles s) = length (wires_ s)) as Hl by apply length_map.
  destruct (decide (Exists (eq 0) (take (next_index_ s) (handles s)))) as [He|He].
  - apply Exists_exists in He as (x & Hx & <-). apply list_elem_of_lookup in Hx as [i Hi].
    exists i. apply lookup_take_Some in Hi as [? ?]. done.
  - exfalso. apply not_Exists_Forall in He; [|solve_decision].
    assert (length (in_use (handles s)) >= next_index_ s)%nat; [|lia].
    rewrite <- (take_drop (next_index_ s) (handles s)). rewrite in_use_app, length_app, in_use_all.
    + rewrite length_take. lia.
    + eapply Forall_impl; [exact He|]. cbn. intros x Hx ->. by apply Hx.
Qed.

Lemma attach_at_spec mem i h s :
  handles s !! i = Some 0 ->
  exists s', attach_at mem i h s = (Ok i, s') /\ handles s' = <[i := h]> (handles s) /\
    s' = with_wires (wires_ s') s /\ length (wires_ s') = length (wires_ s).
Proof.
  intros Hi. rewrite handles_lookup in Hi. unfold attach_at.
  destruct (wires_ s !! i) as [w|] eqn:Ew; [|done]. eexists. split; [done|].
  split_and!; [by apply (handles_insert s)|done|apply length_insert].
Qed.

Lemma search_free_wire_spec s :
  inv s -> (0 < count_using_ s < length (wires_ s))%nat ->
  exists i n, search_free_wire s = (Ok i, set_counts (S (count_using_ s)) n s) /\
    handles s !! i = Some 0 /\ (i < n <= length (wires_ s))%nat /\ (next_index_ s <= n)%nat.
Proof.
  intros Hi Hc. pose proof Hi as [Hn Hb Hcnt Hd Hr Hf]. unfold search_free_wire.
  assert (length (handles s) = length (wires_ s)) as Hl by apply length_map.
  assert (count_using_ s <= next_index_ s)%nat as Hle.
  { rewrite Hcnt. rewrite <- (take_drop (next_index_ s) (handles s)). rewrite in_use_app, length_app, (in_use_none (drop _ _)).
    - pose proof (length_in_use (take (next_index_ s) (handles s))) as Hlu. rewrite length_take in Hlu.
      cbn [length]. lia.
    - apply Forall_lookup. intros j h Hj. rewrite lookup_drop in Hj. by eapply Hb; [exact Hj|lia]. }
  destruct (Nat.eqb_spec (count_using_ s) (next_index_ s)) as [He|Hne].
  - exists (next_index_ s), (S (next_index_ s)). split_and!; try done; try lia.
    destruct (lookup_lt_is_Some_2 (handles s) (next_index_ s)) as [h Hh]; [lia|].
    rewrite Hh. f_equal. by eapply Hb.
  - destruct (free_below s Hi) as (j & Hj & Ej); [lia|]. rewrite handles_lookup in Ej.
    destruct (search_spec 0 (wires_ s) (next_index_ s)) as (i & -> & Hin & Ei); [by exists j|done|].
    exists i, (next_index_ s). rewrite handles_lookup. split_and!; done || lia.
Qed.

(** handles after a successful attach *)
Lemma inv_attach s s' i h :
  inv s -> handles s !! i = Some 0 -> h <> 0 -> h ∉ in_use (handles s) ->
  handles s' = <[i := h]> (handles s) -> length (wires_ s') = length (wires_ s) ->
  count_using_ s' = S (count_using_ s) -> reserved_ s' = 0 ->
  (i < next_index_ s' <= length (wires_ s))%nat ->
  (forall j, (next_index_ s' <= j)%nat -> (next_index_ s <= j)%nat \/ count_using_ s = 0%nat) -> inv s'.
Proof.
  intros [Hn Hb Hc Hd Hr Hf] Hi Hh Hfr Eh El Ec Er Hni Hnx.
  pose proof (in_use_insert (handles s) i h Hi Hh) as Hp. split.
  - lia.
  - intros j x Hj Hge. rewrite Eh, list_lookup_insert_ne in Hj by lia.
    destruct (Hnx j Hge) as [?|Hz]; [by eapply Hb|].
    destruct (decide (x = 0)) as [|Hx]; [done|]. exfalso.
    assert (x ∈ in_use (handles s)) as He by (apply elem_of_in_use; split; [done|]; by eapply list_elem_of_lookup_2).
    rewrite Hz in Hc. symmetry in Hc. apply length_zero_iff_nil in Hc. rewrite Hc in He. by apply not_elem_of_nil in He.
  - rewrite Eh, Hp, Ec, Hc. done.
  - rewrite Eh, Hp. by constructor.
  - rewrite Er, elem_of_in_use. by intros [? _].
  - rewrite Ec. done.
Qed.

(** As long as fewer wires are used than declared, [acquire] hands out a wire
    that nobody uses, with a buffer that nobody uses (the reserved one first), and
    keeps the bookkeeping of used wires and buffers exact. *)
Theorem acquire_spec mem alloc s :
  inv s -> (count_using_ s < length (wires_ s))%nat ->
  (reserved_ s = 0 -> exists h, alloc = Some h /\ fresh s h) ->
  exists i h s', acquire mem alloc s = (Ok i, s') /\
    handles s !! i = Some 0 /\ handles s' = <[i := h]> (handles s) /\
    h <> 0 /\ (h ∉ in_use (handles s)) /\ (reserved_ s <> 0 -> h = reserved_ s) /\
    count_using_ s' = S (count_using_ s) /\ inv s'.
Proof.
  intros Hi Hlt Hal. pose proof Hi as [Hn Hb Hc Hd Hr Hf]. unfold acquire.
  destruct (Nat.eqb_spec (count_using_ s) 0) as [Hz|Hnz].
  - specialize (Hf Hz). assert (handles s !! 0%nat = Some 0) as H0.
    { destruct (lookup_lt_is_Some_2 (handles s) 0) as [x Hx]; [unfold handles; rewrite length_map; lia|].
      rewrite Hx. f_equal. destruct (decide (x = 0)) as [|Hne]; [done|]. exfalso.
      rewrite Hz in Hc. symmetry in Hc. apply length_zero_iff_nil in Hc.
      assert (x ∈ in_use (handles s)) as He by (apply elem_of_in_use; split; [done|]; by eapply list_elem_of_lookup_2).
      rewrite Hc in He. by apply not_elem_of_nil in He. }
    destruct (attach_at_spec mem 0 (reserved_ s) (set_counts 1 1 s) H0) as (s' & -> & Eh & Es & El).
    exists 0%nat, (reserved_ s). eexists. split; [done|]. rewrite Es in *. cbn in *. split_and!; try done; [by rewrite Hz|].
    apply (inv_attach s _ 0 (reserved_ s)); cbn; try done; [by rewrite Hz|lia|by right].
  - assert (exists b s1, (if reserved_ s =? 0 then match alloc with Some h => Some (h, s) | None => None end
             else Some (reserved_ s, set_reserved 0 s)) = Some (b, s1) /\
             b <> 0 /\ (b ∉ in_use (handles s)) /\ (reserved_ s <> 0 -> b = reserved_ s) /\ s1 = set_reserved 0 s)
      as (b & s1 & -> & Hb0 & Hbf & Hbr & ->).
    { destruct (Z.eqb_spec (reserved_ s) 0) as [Hz|Hz].
      - destruct (Hal Hz) as (h & -> & Hh & Hu & _). exists h, s. split_and!; try done.
        destruct s. cbn in *. by rewrite Hz.
      - exists (reserved_ s), (set_reserved 0 s). done. }
    assert (inv (set_reserved 0 s)) as Hi1.
    { split; cbn; try done. rewrite elem_of_in_use. by intros [? _]. }
    destruct (search_free_wire_spec (set_reserved 0 s) Hi1) as (i & n & -> & E0 & Hni & Hnx); [cbn; lia|].
    destruct (attach_at_spec mem i b (set_counts (S (count_using_ s)) n (set_reserved 0 s)) E0)
      as (s' & E & Eh & Es & El). cbn in E. cbn. rewrite E.
    exists i, b. eexists. split; [done|]. rewrite Es in *. cbn in *. split_and!; try done.
    apply (inv_attach s _ i b); cbn; try done. intros j Hj. left. lia.
Qed.

Lemma search_unique s i h :
  inv s -> handles s !! i = Some h -> h <> 0 -> search h (wires_ s) (next_index_ s) = Ok i.
Proof.
  intros [Hn Hb _ Hd _ _] Hi Hh.
  assert (i < next_index_ s)%nat as Hlt.
  { destruct (decide (i < next_index_ s)%nat) as [|Hge]; [done|]. exfalso. apply Hh. eapply Hb; [exact Hi|lia]. }
  destruct (search_spec h (wires_ s) (next_index_ s)) as (j & -> & Hj & Ej); [|done|].
  { exists i. by rewrite <- handles_lookup. }
  f_equal. rewrite <- handles_lookup in Ej.
  destruct (decide (j = i)) as [|Hne]; [done|]. exfalso.
  rewrite (in_use_reset _ _ _ Hi Hh) in Hd. apply NoDup_cons in Hd as [Hd _]. apply Hd.
  apply elem_of_in_use. split; [done|]. apply list_elem_of_lookup. exists j. by rewrite list_lookup_insert_ne.
Qed.

(** [release] of a wire in use frees exactly that wire; its buffer becomes the
    reserved one, or goes back to the shared memory when there is one already. *)
Theorem release_spec s k h :
  inv s -> handles s !! k = Some h -> h <> 0 ->
  exists s', release k s = Ok s' /\ handles s' = <[k := 0]> (handles s) /\
    count_using_ s = S (count_using_ s') /\
    (if reserved_ s =? 0 then reserved_ s' = h /\ freed s' = freed s
     else reserved_ s' = reserved_ s /\ freed s' = freed s ++ [h]) /\ inv s'.
Proof.
  intros Hi Hk Hh. pose proof Hi as [Hn Hb Hc Hd Hr Hf].
  pose proof (search_unique s k h Hi Hk Hh) as Es. pose proof (in_use_reset _ _ _ Hk Hh) as Hp.
  rewrite handles_lookup in Hk. unfold release, search_wire.
  destruct (wires_ s !! k) as [w|] eqn:Ew; [|done]. injection Hk as Hk. rewrite Hk, Es. cbn [mbind res_bind].
  rewrite Ew. eexists. split; [done|].
  set (s' := set_counts _ _ _).
  assert (handles s' = <[k := 0]> (handles s) /\ count_using_ s' = pred (count_using_ s) /\
    next_index_ s' = next_index_ s /\ length (wires_ s') = length (wires_ s) /\
    (if reserved_ s =? 0 then reserved_ s' = h /\ freed s' = freed s
     else reserved_ s' = reserved_ s /\ freed s' = freed s ++ [h])) as (E1 & E2 & E3 & E4 & E5).
  { unfold s'. cbn [reserved_ with_wires]. destruct (reserved_ s =? 0);
      (split_and!; [exact (handles_insert s k (reset_handle w))|done|done|apply length_insert|done|done]). }
  clearbody s'. rewrite Hp in Hc, Hd, Hr. cbn in Hc. apply NoDup_cons in Hd as [Hnin Hd].
  apply not_elem_of_cons in Hr as [Hrh Hr]. split_and!; try done; [lia|].
  split; rewrite ?E1, ?E2, ?E3, ?E4; try done.
  - intros j x Hj Hge. destruct (decide (k = j)) as [->|Hne].
    + rewrite list_lookup_insert_eq in Hj; [congruence|].
      apply lookup_lt_Some in Ew. unfold handles. by rewrite length_map.
    + rewrite list_lookup_insert_ne in Hj by done. by eapply Hb.
  - lia.
  - destruct (reserved_ s =? 0); destruct E5 as [-> _]; done.
  - intros _. destruct (Z.eqb_spec (reserved_ s) 0); destruct E5 as [-> _]; done.
Qed.

(** An [acquire] beyond the declared number of wires is reported by an
    exception, but the buffer it took (the reserved one, or a newly allocated one)
    is then neither attached to a wire, nor reserved, nor freed. *)
Theorem acquire_overflow_leaks mem h s :
  inv s -> (0 < count_using_ s)%nat -> count_using_ s = length (wires_ s) -> reserved_ s = 0 ->
  fresh s h ->
  exists s', acquire mem (Some h) s = (Throw out_of_range, s') /\
    (h ∉ handles s') /\ reserved_ s' <> h /\ freed s' = freed s /\
    count_using_ s' = S (length (wires_ s')).
Proof.
  intros [Hn Hb Hc Hd Hr Hf] Hpos Hfull Hres (Hh & Hu & _). unfold acquire.
  replace (count_using_ s =? 0)%nat with false by (symmetry; apply Nat.eqb_neq; lia).
  rewrite Hres. cbn. unfold search_free_wire.
  assert (count_using_ s = next_index_ s) as He.
  { pose proof (length_in_use (take (next_index_ s) (handles s))) as Hlu. rewrite length_take in Hlu.
    rewrite <- (take_drop (next_index_ s) (handles s)), in_use_app, length_app, (in_use_none (drop _ _)) in Hc.
    - cbn [length] in Hc. lia.
    - apply Forall_lookup. intros j x Hj. rewrite lookup_drop in Hj. by eapply Hb; [exact Hj|lia]. }
  rewrite <- He, Nat.eqb_refl. unfold attach_at. cbn. rewrite Hfull, lookup_ge_None_2 by done.
  eexists. split; [done|]. cbn. split_and!; try done.
  - intros Hin. apply Hu, elem_of_in_use. done.
  - by rewrite Hres.
Qed.

Lemma create_inv count size h s : h <> 0 -> create count size (Some h) = Ok s -> inv s.
Proof.
  intros Hh [= <-]. set (s0 := Wires _ _ _ _ _ _ _ _ _).
  assert (Forall (fun x => x = 0) (handles s0)) as HF.
  { apply Forall_lookup. intros i x Hi. rewrite handles_lookup in Hi.
    apply fmap_Some in Hi as (w & Hw & ->). by apply lookup_replicate in Hw as [-> _]. }
  split; rewrite ?(in_use_none _ HF); cbn; try done; [lia| |constructor|apply not_elem_of_nil].
  intros i x Hi _. by eapply (Forall_lookup_1 _ _ i) in HF.
Qed.

(** ** Two wires: the first is acquired, then the second, then a third is refused *)

Definition demo_new : t := Wires (replicate 2 new) 64 100 0 0 false false false [].
Definition demo_one : t := (acquire (fun _ => []) None demo_new).2.
Definition demo_full : t := (acquire (fun _ => []) (Some 200) demo_one).2.

Ltac demo_inv :=
  split; [vm_compute; lia
         |intros [|[|i]] h Hi Hge; vm_compute in Hi, Hge; first [lia|congruence|done]
         |reflexivity
         |apply (bool_decide_unpack _); vm_compute; exact I
         |apply (bool_decide_unpack _); vm_compute; exact I
         |vm_compute; discriminate].

Lemma acquire_spec_witness :
  exists i h s', acquire (fun _ => []) (Some 200) demo_one = (Ok i, s') /\
    handles demo_one !! i = Some 0 /\ handles s' = <[i := h]> (handles demo_one) /\
    h <> 0 /\ (h ∉ in_use (handles demo_one)) /\ (reserved_ demo_one <> 0 -> h = reserved_ demo_one) /\
    count_using_ s' = S (count_using_ demo_one) /\ inv s'.
Proof.
  refine (acquire_spec (fun _ => []) (Some 200) demo_one _ _ _).
  - demo_inv.
  - vm_compute. lia.
  - intros _. exists 200. split; [reflexivity|]. split; [discriminate|]. split; [|discriminate].
    apply (bool_decide_unpack _). vm_compute. exact I.
Defined.

Lemma release_spec_witness :
  exists s', release 0 demo_full = Ok s' /\ handles s' = <[0%nat := 0]> (handles demo_full) /\
    count_using_ demo_full = S (count_using_ s') /\
    (if reserved_ demo_full =? 0 then reserved_ s' = 100 /\ freed s' = freed demo_full
     else reserved_ s' = reserved_ demo_full /\ freed s' = freed demo_full ++ [100]) /\ inv s'.
Proof.
  refine (release_spec demo_full 0 100 _ _ _); [demo_inv|reflexivity|discriminate].
Defined.

Lemma acquire_overflow_leaks_witness :
  exists s', acquire (fun _ => []) (Some 300) demo_full = (Throw out_of_range, s') /\
    (300 ∉ handles s') /\ reserved_ s' <> 300 /\ freed s' = freed demo_full /\
    count_using_ s' = S (length (wires_ s')).
Proof.
  refine (acquire_overflow_leaks (fun _ => []) 300 demo_full _ _ _ _ _); try reflexivity.
  - demo_inv.
  - vm_compute. lia.
  - split; [discriminate|]. split; [|discriminate]. apply (bool_decide_unpack _). vm_compute. exact I.
Defined.

End ResultSetWires.
