(* ===== verification/ResultSetReader.v ===== *)
(** The client's side of a result set
    (src/tateyama/endpoint/ipc/bootstrap/server_wires_impl.h, [get_chunk], [dispose] and
    [is_eor] of [resultset_wires_container_impl], on [active_wire] of
    src/tateyama/endpoint/ipc/wire.h).

    Several writers of the server fill the wires of a result set while one client reads all of
    them.  A step is one access to a wire or to [eor_], or one critical section under
    [m_record_]; a client obtains views into the buffer, copies them later, and disposes of a
    record when it has all of its bytes.  Records delimit themselves: [whole] tells whether the
    bytes obtained so far are a record. *)
From S2P Require Import Prelude WireHeader SimpleWire ResultSetWire ResultSetWires.
Import ResultSetWire.

Module ResultSetReader.








(** ** The calls of the client *)





(** ** [active_wire] *)



(** ** The server *)



Section Steps.
Variable whole : list byte -> bool.


(** * What the wires promise: a queue per wire *)





(** ** One wire *)







(** * The invariant *)
































End Steps.
End ResultSetReader.

(** Executions by computation. *)
Module ReaderDemo.
Import ResultSetReader.

Section Run.
Variable whole : list byte -> bool.







End Run.




End ReaderDemo.
