(* ===== verification/ResultSetWriter.v ===== *)
(** The server side of a result-set writer
    (src/tateyama/endpoint/ipc/bootstrap/server_wires_impl.h,
    [resultset_wire_container_impl] and its [annex] buffers).

    Records go straight to the wire until a piece does not fit; from then on they
    go to a queue of heap buffers (annexes) that a thread transfers to the wire as
    the client makes room.  The wire is the bounded queue of records that
    [ResultSetWire.resultset_wire_refines] shows it to be.  A step of the thread is
    one round of the loop of [annex::transfer]; the server's [write], [flush] and
    [release] are atomic because they run under [mtx_queue_]. *)
From S2P Require Import Prelude WireHeader SimpleWire ResultSetWire.
Import ResultSetWire.

Module Annex.

Record t := Annex {
  buffer_ : list byte;
  capacity : Z;
  read_point_ : Z;
  chunks_ : list Z;
  write_pos_ : Z;
  chunk_size_ : Z;
  full_ : bool
}.

Definition create (size : Z) : t := Annex [] size 0 [] 0 0 false.

(** [is_room] marks the annex full when the piece does not fit *)
Definition is_room (length : Z) (a : t) : bool * t :=
  if capacity a <? write_pos_ a + chunk_size_ a + length
  then (false, Annex (buffer_ a) (capacity a) (read_point_ a) (chunks_ a) (write_pos_ a) (chunk_size_ a) true)
  else (true, a).

Definition write (data : list byte) (a : t) : t :=
  Annex (buffer_ a ++ data) (capacity a) (read_point_ a) (chunks_ a) (write_pos_ a)
    (chunk_size_ a + zlen data) (full_ a).

Definition flush (a : t) : t :=
  Annex (buffer_ a) (capacity a) (read_point_ a)
    (if chunk_size_ a >? 0 then chunks_ a ++ [chunk_size_ a] else chunks_ a)
    (write_pos_ a + chunk_size_ a) 0 (full_ a).

Definition exhausted (a : t) : bool := full_ a && (read_point_ a =? zlen (buffer_ a)).

Definition advance (n : Z) (cs : list Z) (a : t) : t :=
  Annex (buffer_ a) (capacity a) (read_point_ a + n) cs (write_pos_ a) (chunk_size_ a) (full_ a).

(** the bytes from [read_point_] on *)
Definition unread (a : t) : list byte := drop (Z.to_nat (read_point_ a)) (buffer_ a).

(** the wire, as the writer sees it *)
Definition fits (cap : Z) (q : queue) (bs : list byte) : bool :=
  bool_decide (used q + zlen bs + (match current q with [] => 4 | _ => 0 end) <= cap).

(** [unidirectional_simple_wire::write]: nothing is written once the client has closed *)
Definition put (cap : Z) (closed : bool) (q : queue) (bs : list byte) : queue :=
  if closed then q else spec cap q (S_write bs).

Inductive outcome :=
| T_wait
| T_return (ok : bool) (q : queue)
| T_continue (a : t) (q : queue).

(** one round of [transfer]; [closed] is what [wait_room] returns, and [late] what [write] finds:
    the client may close between the two *)
Definition transfer_round (cap : Z) (closed late released : bool) (a : t) (q : queue) : outcome :=
  if exhausted a then T_return true q
  else if bool_decide (chunks_ a = []) && negb (full_ a) && negb released then T_wait
  else
    match chunks_ a with
    | record_size :: cs =>
        let r := take (Z.to_nat record_size) (unread a) in
        if closed then T_return false q
        else if fits cap q r
        then T_continue (advance record_size cs a) (spec cap (put cap late q r) S_flush)
        else T_wait
    | [] =>
        if released && (chunk_size_ a =? 0) then T_return true q
        else if full_ a then
          if chunk_size_ a >? 0 then
            let r := take (Z.to_nat (chunk_size_ a)) (unread a) in
            if closed then T_return false q
            else if fits cap q r then T_return true (put cap late q r) else T_wait
          else T_return true q
        else T_continue a q
    end.

End Annex.

Module Writer.
Import Annex.

Record t := Container {
  wire_ : queue;
  client_closed_ : bool;
  queue_ : list Annex.t;
  annex_mode_ : bool;
  thread_invoked_ : bool;
  thread_active_ : bool;
  released_ : bool;
  completed_ : bool;
  current_record_size_ : Z
}.

Section Container.
(** [datachannel_buffer_size_]: the capacity of the wire's buffer and of an annex *)
Variable size : Z.

Definition with_wire (q : queue) (s : t) : t :=
  Container q (client_closed_ s) (queue_ s) (annex_mode_ s) (thread_invoked_ s) (thread_active_ s)
    (released_ s) (completed_ s) (current_record_size_ s).
Definition with_queue (l : list Annex.t) (s : t) : t :=
  Container (wire_ s) (client_closed_ s) l (annex_mode_ s) (thread_invoked_ s) (thread_active_ s)
    (released_ s) (completed_ s) (current_record_size_ s).
Definition with_record_size (n : Z) (s : t) : t :=
  Container (wire_ s) (client_closed_ s) (queue_ s) (annex_mode_ s) (thread_invoked_ s) (thread_active_ s)
    (released_ s) (completed_ s) n.
Definition set_active (b : bool) (s : t) : t :=
  Container (wire_ s) (client_closed_ s) (queue_ s) (annex_mode_ s) (thread_invoked_ s) b
    (released_ s) (completed_ s) (current_record_size_ s).
Definition write_complete (s : t) : t :=
  Container (wire_ s) (client_closed_ s) (queue_ s) (annex_mode_ s) (thread_invoked_ s) (thread_active_ s)
    (released_ s) true (current_record_size_ s).

Definition enter_annex_mode (s : t) : t :=
  Container (wire_ s) (client_closed_ s) (queue_ s ++ [Annex.create size]) true true
    (if thread_invoked_ s then thread_active_ s else true)
    (released_ s) (completed_ s) (current_record_size_ s).

(** the part of [write] under [mtx_queue_] *)
Definition write_annex (data : list byte) (s : t) : t :=
  let extend l := with_queue (l ++ [Annex.write data (Annex.create size)]) s in
  match rev (queue_ s) with
  | [] => extend []
  | a :: front =>
      let '(ok, a') := is_room (zlen data) a in
      if ok then with_queue (rev front ++ [Annex.write data a']) s
      else extend (rev front ++ [a'])
  end.

Definition write (data : list byte) (s : t) : res unit * t :=
  let s := with_record_size (current_record_size_ s + zlen data) s in
  if current_record_size_ s + length_header_size >? size
  then (Throw (runtime_error "too large record size"), s)
  else if negb (annex_mode_ s) && fits size (wire_ s) data
  then (Ok tt, with_wire (put size (client_closed_ s) (wire_ s) data) s)
  else (Ok tt, write_annex data (if annex_mode_ s then s else enter_annex_mode s)).

Definition flush (s : t) : t :=
  let s := with_record_size 0 s in
  if negb (annex_mode_ s) then with_wire (spec size (wire_ s) S_flush) s
  else match rev (queue_ s) with
       | [] => s
       | a :: front => with_queue (rev front ++ [Annex.flush a]) s
       end.

Definition release (s : t) : t :=
  if thread_invoked_ s
  then Container (wire_ s) (client_closed_ s) (queue_ s) (annex_mode_ s) (thread_invoked_ s)
         (thread_active_ s) true (completed_ s) (current_record_size_ s)
  else write_complete s.

Definition is_disposable (s : t) : bool := negb (thread_active_ s).

(** one round of [operator()] / [transfer]; [None]: the thread waits or has ended; [late]: the
    client has closed when the round writes *)
Definition thread_round (late : bool) (s : t) : option t :=
  if negb (thread_active_ s) then None
  else match queue_ s with
       | [] => if released_ s then Some (set_active false (write_complete s)) else None
       | a :: rest =>
           match transfer_round size (client_closed_ s) late (released_ s) a (wire_ s) with
           | T_wait => None
           | T_return true q => Some (with_queue rest (with_wire q s))
           | T_return false q => Some (set_active false s)
           | T_continue a' q => Some (with_queue (a' :: rest) (with_wire q s))
           end
       end.

Definition thread_step (s : t) : option t := thread_round (client_closed_ s) s.

(** the client closes the result set ([set_closed]) *)
Definition close (s : t) : t :=
  Container (wire_ s) true (queue_ s) (annex_mode_ s) (thread_invoked_ s) (thread_active_ s)
    (released_ s) (completed_ s) (current_record_size_ s).

Definition initial : t :=
  Container (RecordQueue [] [] []) false [] false false false false false 0.

End Container.

(** * The stream of records

    A stream is a list of bytes with record boundaries ([None]). *)

Definition tokens (bs : list byte) : list (option byte) := map Some bs.
Definition record_tokens (r : list byte) : list (option byte) := tokens r ++ [None].

Definition wire_stream (q : queue) : list (option byte) :=
  concat (map record_tokens (taken q ++ queued q)) ++ tokens (current q).

Fixpoint cut (cs : list Z) (l : list byte) : list (option byte) :=
  match cs with
  | [] => tokens l
  | c :: cs => record_tokens (take (Z.to_nat c) l) ++ cut cs (drop (Z.to_nat c) l)
  end.

Definition annex_stream (a : Annex.t) : list (option byte) := cut (chunks_ a) (unread a).
Definition stream (s : t) : list (option byte) :=
  wire_stream (wire_ s) ++ concat (map annex_stream (queue_ s)).

(** what [write] and [flush] add to the stream: a boundary only after data *)
Definition in_record (h : list (option byte)) : bool :=
  match last h with Some (Some _) => true | _ => false end.
Definition add_boundary (h : list (option byte)) : list (option byte) :=
  if in_record h then h ++ [None] else h.

Definition sum (l : list Z) : Z := foldr Z.add 0 l.

Record annex_ok (a : Annex.t) : Prop := {
  ao_read : 0 <= read_point_ a <= zlen (buffer_ a);
  ao_chunks : Forall (fun c => 0 < c) (chunks_ a);
  ao_size : 0 <= chunk_size_ a;
  ao_write : write_pos_ a + chunk_size_ a = zlen (buffer_ a);
  ao_unread : sum (chunks_ a) + chunk_size_ a = zlen (unread a)
}.

Lemma tokens_app l1 l2 : tokens (l1 ++ l2) = tokens l1 ++ tokens l2.
Proof. apply map_app. Qed.

Lemma sum_cons c cs : sum (c :: cs) = c + sum cs.
Proof. done. Qed.
Lemma sum_app cs1 cs2 : sum (cs1 ++ cs2) = sum cs1 + sum cs2.
Proof. induction cs1 as [|c cs IH]; cbn [app]; rewrite ?sum_cons, ?IH; [done|lia]. Qed.
Lemma sum_nonneg cs : Forall (fun c => 0 < c) cs -> 0 <= sum cs.
Proof. induction 1; rewrite ?sum_cons; [done|lia]. Qed.

Lemma cut_app cs l bs : sum cs <= zlen l -> Forall (fun c => 0 < c) cs ->
  cut cs (l ++ bs) = cut cs l ++ tokens bs.
Proof.
  intros Hs Hp. revert l Hs. induction Hp as [|c cs Hc Hp IH]; intros l Hs; cbn [cut]; [apply tokens_app|].
  rewrite sum_cons in Hs. pose proof (sum_nonneg cs Hp).
  rewrite take_app_le, drop_app_le by (unfold zlen in Hs; lia).
  rewrite IH, app_assoc; [done|]. rewrite zlen_drop; lia.
Qed.

Lemma cut_snoc cs c l : sum cs + c = zlen l -> Forall (fun c => 0 < c) cs -> 0 < c ->
  cut (cs ++ [c]) l = cut cs l ++ [None].
Proof.
  intros Hs Hp Hc. revert l Hs. induction Hp as [|d cs Hd Hp IH]; intros l Hs; cbn [cut app].
  - change (sum []) with 0 in Hs. rewrite take_ge, drop_ge by (unfold zlen in Hs; lia). by rewrite app_nil_r.
  - rewrite sum_cons in Hs. pose proof (sum_nonneg cs Hp).
    rewrite IH, app_assoc; [done|]. rewrite zlen_drop; lia.
Qed.

(** ** Annexes *)

Lemma create_ok n : annex_ok (Annex.create n).
Proof. split; done. Qed.

Lemma write_ok data a :
  annex_ok a -> annex_ok (Annex.write data a) /\
  annex_stream (Annex.write data a) = annex_stream a ++ tokens data.
Proof.
  intros [Hr Hc Hs Hw Hu]. pose proof (sum_nonneg _ Hc). pose proof (zlen_nonneg data).
  assert (unread (Annex.write data a) = unread a ++ data) as E.
  { unfold unread. cbn. apply drop_app_le. unfold zlen in Hr. lia. }
  split.
  - split; rewrite ?E; cbn [read_point_ buffer_ chunks_ chunk_size_ write_pos_ Annex.write];
      rewrite ?zlen_app; try done; lia.
  - unfold annex_stream. rewrite E. cbn [chunks_ Annex.write]. apply cut_app; [lia|done].
Qed.

Lemma flush_ok a :
  annex_ok a -> annex_ok (Annex.flush a) /\
  annex_stream (Annex.flush a) = annex_stream a ++ (if chunk_size_ a >? 0 then [None] else []).
Proof.
  intros [Hr Hc Hs Hw Hu]. unfold annex_stream. change (unread (Annex.flush a)) with (unread a).
  cbn [Annex.flush chunks_]. destruct (Z.gtb_spec (chunk_size_ a) 0) as [Hp|Hz].
  - split; [|by rewrite <- (cut_snoc (chunks_ a) (chunk_size_ a))].
    split; change (unread (Annex.flush a)) with (unread a);
      cbn [Annex.flush read_point_ buffer_ chunks_ chunk_size_ write_pos_];
      replace (chunk_size_ a >? 0) with true by lia; try done; try lia.
    + apply Forall_app. split; [done|]. by constructor.
    + rewrite sum_app, sum_cons. change (sum []) with 0. lia.
  - split; [|by rewrite app_nil_r].
    split; change (unread (Annex.flush a)) with (unread a);
      cbn [Annex.flush read_point_ buffer_ chunks_ chunk_size_ write_pos_];
      replace (chunk_size_ a >? 0) with false by lia; try done; lia.
Qed.

Lemma unread_none a : annex_ok a -> chunks_ a = [] -> chunk_size_ a = 0 -> annex_stream a = [].
Proof.
  intros [_ _ _ _ Hu] Hc Hs. unfold annex_stream. rewrite Hc, Hs in *. cbn [cut].
  change (sum []) with 0 in Hu.
  destruct (unread a) as [|x l]; [done|]. rewrite zlen_cons in Hu. pose proof (zlen_nonneg l). lia.
Qed.

(** writing to the wire, with and without the boundary *)
Lemma wire_write cap q bs :
  fits cap q bs = true -> wire_stream (spec cap q (S_write bs)) = wire_stream q ++ tokens bs.
Proof.
  intros Hf. cbn. unfold fits in Hf. rewrite Hf. unfold wire_stream. cbn.
  by rewrite tokens_app, app_assoc.
Qed.

Lemma wire_flush cap q :
  wire_stream (spec cap q S_flush) = wire_stream q ++ (match current q with [] => [] | _ => [None] end).
Proof.
  cbn. unfold wire_stream. destruct (current q) as [|x c] eqn:E; [by rewrite E, (app_nil_r (_ ++ _))|]. cbn [taken queued current].
  rewrite app_assoc, map_app, concat_app. cbn [map concat]. unfold record_tokens.
  by rewrite app_nil_r, <- !app_assoc.
Qed.

Lemma wire_take cap q : wire_stream (spec cap q C_take) = wire_stream q.
Proof.
  cbn. unfold wire_stream. destruct (queued q) as [|r rs] eqn:E; [by rewrite E|]. cbn.
  by rewrite <- app_assoc.
Qed.

(** equal streams, unless data was dropped because the client has closed *)
Definition kept (closed : bool) (new old : list (option byte)) : Prop :=
  new `sublist_of` old /\ (closed = false -> new = old).

Lemma kept_eq closed h : kept closed h h.
Proof. by split. Qed.
Lemma kept_app closed l1 l2 k : kept closed l1 l2 -> kept closed (l1 ++ k) (l2 ++ k).
Proof. intros [H1 H2]. split; [by apply sublist_app|]. intros E. by rewrite H2. Qed.
Lemma kept_trans closed l1 l2 l3 : kept closed l1 l2 -> kept closed l2 l3 -> kept closed l1 l3.
Proof. intros [H1 H2] [H3 H4]. split; [by etrans|]. intros E. by rewrite H2, H4. Qed.

(** the data is written, or dropped; and so is a record with its boundary *)
Lemma wire_put cap closed q bs :
  fits cap q bs = true -> kept closed (wire_stream (put cap closed q bs)) (wire_stream q ++ tokens bs).
Proof.
  intros Hf. unfold put. destruct closed; [|rewrite wire_write by done; apply kept_eq].
  split; [|done]. by apply sublist_inserts_r.
Qed.
Lemma wire_put_record cap closed q bs :
  fits cap q bs = true -> bs <> [] ->
  kept closed (wire_stream (spec cap (put cap closed q bs) S_flush)) (wire_stream q ++ record_tokens bs).
Proof.
  intros Hf Hb. unfold record_tokens. rewrite wire_flush, app_assoc. destruct closed; cbn [put].
  - split; [|done]. apply sublist_app; [by apply sublist_inserts_r|]. destruct (current q); [apply sublist_nil_l|done].
  - rewrite wire_write by done. cbn. unfold fits in Hf. rewrite Hf. cbn.
    destruct (current q ++ bs) eqn:E; [by apply app_nil in E as [_ ?]|apply kept_eq].
Qed.

Lemma transfer_round_spec cap closed late released a q :
  annex_ok a ->
  match transfer_round cap closed late released a q with
  | T_wait => True
  | T_return true q' => kept late (wire_stream q') (wire_stream q ++ annex_stream a) /\
                        (full_ a = true \/ released = true /\ chunk_size_ a = 0)
  | T_return false _ => closed = true
  | T_continue a' q' => annex_ok a' /\
      kept late (wire_stream q' ++ annex_stream a') (wire_stream q ++ annex_stream a) /\
      full_ a' = full_ a /\ chunk_size_ a' = chunk_size_ a
  end.
Proof.
  intros Ha. pose proof Ha as [Hr Hc Hs Hw Hu]. pose proof (sum_nonneg _ Hc). unfold transfer_round, exhausted.
  destruct (full_ a && (read_point_ a =? zlen (buffer_ a))) eqn:Ee.
  { apply andb_true_iff in Ee as [Hf He%Z.eqb_eq]. split; [|by left].
    assert (zlen (unread a) = 0) as Hz by (unfold unread; rewrite zlen_drop; lia).
    rewrite unread_none; [rewrite app_nil_r; apply kept_eq|done| |lia].
    destruct (chunks_ a) as [|c cs]; [done|]. apply Forall_cons in Hc as [? Hc].
    pose proof (sum_nonneg _ Hc). rewrite sum_cons in *. lia. }
  destruct (bool_decide _ && _ && _); [done|]. destruct (chunks_ a) as [|c cs] eqn:Ec.
  - destruct (released && (chunk_size_ a =? 0)) eqn:Er.
    { apply andb_true_iff in Er as [-> He%Z.eqb_eq]. rewrite unread_none by done. rewrite app_nil_r.
      split; [apply kept_eq|by right]. }
    destruct (full_ a) eqn:Ef; [|split_and!; done || apply kept_eq].
    change (sum []) with 0 in Hu. destruct (Z.gtb_spec (chunk_size_ a) 0) as [Hp|Hz].
    + destruct closed; [done|]. destruct (fits _ _ _) eqn:Efit; [|done].
      split; [|by left]. unfold annex_stream. rewrite Ec. cbn [cut]. rewrite take_ge in * by (unfold zlen in Hu; lia).
      by apply wire_put.
    + rewrite unread_none by (done || lia). rewrite app_nil_r. split; [apply kept_eq|by left].
  - destruct closed; [done|]. destruct (fits _ _ _) eqn:Efit; [|done].
    apply Forall_cons in Hc as [Hcp Hc]. rewrite sum_cons in *. pose proof (sum_nonneg _ Hc).
    assert (unread (advance c cs a) = drop (Z.to_nat c) (unread a)) as Eu.
    { unfold unread. cbn. rewrite drop_drop. f_equal. lia. }
    assert (zlen (unread a) = zlen (buffer_ a) - read_point_ a) as Hzu by (unfold unread; rewrite zlen_drop; lia).
    split_and!; try done.
    + split; rewrite ?Eu; cbn [read_point_ buffer_ chunks_ chunk_size_ write_pos_ advance]; try done; try lia.
      rewrite zlen_drop; lia.
    + unfold annex_stream. rewrite Eu, Ec. cbn [cut chunks_ advance]. rewrite app_assoc. apply kept_app, wire_put_record; [done|].
      intros E%(f_equal zlen). rewrite zlen_take in E; [change (zlen []) with 0 in E|]; lia.
Qed.

(** * The writer, its thread and the client

    The history is the stream the server has handed over, whether it was written or dropped; a
    writer that was released is gone, so it is not written to any more.  In [A_close_late] the
    client closes during a round of the thread, between its [wait_room] and its [write]. *)

Inductive action := A_write (data : list byte) | A_flush | A_release | A_thread | A_take | A_close | A_close_late.

Definition usable (s : t) : bool := negb (released_ s || completed_ s).

Definition act (size : Z) (a : action) (s : t) (h : list (option byte)) : option (t * list (option byte)) :=
  match a with
  | A_write data =>
      if usable s && negb (bool_decide (data = [])) then
        let '(r, s') := write size data s in
        Some (s', match r with Ok _ => h ++ tokens data | _ => h end)
      else None
  | A_flush => if usable s then Some (flush size s, add_boundary h) else None
  | A_release => if usable s then Some (release s, h) else None
  | A_thread => match thread_step size s with Some s' => Some (s', h) | None => None end
  | A_take => Some (with_wire (spec size (wire_ s) C_take) s, h)
  | A_close => Some (close s, h)
  | A_close_late =>
      if client_closed_ s then None
      else match thread_round size true s with Some s' => Some (close s', h) | None => None end
  end.

Inductive reachable (size : Z) : t -> list (option byte) -> Prop :=
| reach_initial : reachable size initial []
| reach_step s h a s' h' : reachable size s h -> act size a s h = Some (s', h') -> reachable size s' h'.

(** length of the record under construction, and: no record is longer than a buffer *)
Fixpoint last_run (acc : Z) (h : list (option byte)) : Z :=
  match h with
  | [] => acc
  | Some _ :: h => last_run (acc + 1) h
  | None :: h => last_run 0 h
  end.
Fixpoint runs_ok (size acc : Z) (h : list (option byte)) : Prop :=
  acc + length_header_size <= size /\
  match h with
  | [] => True
  | Some _ :: h => runs_ok size (acc + 1) h
  | None :: h => runs_ok size 0 h
  end.

Lemma last_run_app acc h1 h2 : last_run acc (h1 ++ h2) = last_run (last_run acc h1) h2.
Proof. revert acc. induction h1 as [|[x|] h1 IH]; intros acc; cbn; [done|apply IH|apply IH]. Qed.
Lemma last_run_tokens acc bs : last_run acc (tokens bs) = acc + zlen bs.
Proof.
  revert acc. induction bs as [|x bs IH]; intros acc; [change (zlen []) with 0; cbn; lia|].
  cbn. fold (tokens bs). rewrite IH, zlen_cons. lia.
Qed.
Lemma runs_ok_bound size acc h : runs_ok size acc h -> acc + length_header_size <= size.
Proof. by destruct h; intros [? _]. Qed.
Lemma runs_ok_app size acc h1 h2 :
  runs_ok size acc (h1 ++ h2) <-> runs_ok size acc h1 /\ runs_ok size (last_run acc h1) h2.
Proof.
  revert acc. induction h1 as [|[x|] h1 IH]; intros acc; cbn [app runs_ok last_run];
    [|rewrite IH; tauto|rewrite IH; tauto].
  split; [intros H; split; [split; [by eapply runs_ok_bound|done]|done]|by intros [_ ?]].
Qed.
Lemma runs_ok_tokens size acc bs :
  0 <= acc -> runs_ok size acc (tokens bs) <-> acc + zlen bs + length_header_size <= size.
Proof.
  revert acc. induction bs as [|x bs IH]; intros acc Ha;
    [change (zlen []) with 0; cbn [tokens map runs_ok]; rewrite Z.add_0_r; tauto|].
  cbn [tokens map runs_ok]. fold (tokens bs). rewrite IH by lia. rewrite zlen_cons.
  pose proof (zlen_nonneg bs). split; intros; [|split]; lia.
Qed.

Lemma in_record_tokens h bs : bs <> [] -> in_record (h ++ tokens bs) = true.
Proof.
  destruct bs as [|x bs] using rev_ind; [done|]. intros _. unfold in_record.
  rewrite tokens_app, app_assoc. change (tokens [x]) with [Some x]. by rewrite last_snoc.
Qed.
Lemma in_record_boundary h : in_record (h ++ [None]) = false.
Proof. unfold in_record. by rewrite last_snoc. Qed.

Lemma in_record_wire q : in_record (wire_stream q) = negb (bool_decide (current q = [])).
Proof.
  unfold wire_stream. case_bool_decide as Hc.
  - rewrite Hc. cbn. rewrite app_nil_r. destruct (taken q ++ queued q) as [|r l] using rev_ind; [done|].
    rewrite map_app, concat_app. cbn. unfold record_tokens. rewrite app_nil_r, app_assoc. apply in_record_boundary.
  - by apply in_record_tokens.
Qed.

(** the queue while the writer is in annex mode: every buffer but the last is full,
    and the last one holds the record under construction *)
Definition annex_shape (h : list (option byte)) (l : list Annex.t) : Prop :=
  exists front b, l = front ++ [b] /\ Forall (fun a => full_ a = true) front /\ full_ b = false /\
    (in_record h = true <-> 0 < chunk_size_ b).

Record Inv (size : Z) (s : t) (h : list (option byte)) : Prop := {
  inv_stream : kept (client_closed_ s) (stream s) h;
  inv_annexes : Forall annex_ok (queue_ s);
  inv_direct : annex_mode_ s = false -> queue_ s = [] /\ thread_invoked_ s = false /\ thread_active_ s = false /\
    released_ s = false;
  inv_annex : annex_mode_ s = true -> thread_invoked_ s = true /\
    (queue_ s = [] /\ released_ s = true /\ in_record h = false \/ annex_shape h (queue_ s));
  inv_current : annex_mode_ s = false -> current (wire_ s) <> [] -> in_record h = true;
  inv_completed : completed_ s = true -> queue_ s = [];
  inv_runs : runs_ok size 0 h;
  inv_size : 0 <= last_run 0 h <= current_record_size_ s
}.

Lemma last_run_nonneg acc h : 0 <= acc -> 0 <= last_run acc h.
Proof. revert acc. induction h as [|[x|] h IH]; intros acc Ha; cbn; [done|apply IH; lia|by apply IH]. Qed.

Lemma runs_ok_write size h bs : runs_ok size 0 h -> last_run 0 h + zlen bs + length_header_size <= size ->
  runs_ok size 0 (h ++ tokens bs).
Proof. intros H1 H2. apply runs_ok_app. split; [done|]. apply runs_ok_tokens; [by apply last_run_nonneg|done]. Qed.

Lemma stream_snoc s l b : stream (with_queue (l ++ [b]) s) =
  wire_stream (wire_ s) ++ concat (map annex_stream l) ++ annex_stream b.
Proof. unfold stream. cbn. rewrite map_app, concat_app. cbn. by rewrite app_nil_r. Qed.

Definition annex_chain (l : list Annex.t) : Prop :=
  l = [] \/ exists front b, l = front ++ [b] /\ Forall (fun a => full_ a = true) front /\ full_ b = false.

Lemma annex_shape_chain h l : annex_shape h l -> annex_chain l.
Proof. intros (front & b & -> & Hf & Hb & _). right. eauto. Qed.

(** adding a piece to the queue of annexes *)
Lemma write_annex_spec size data s h :
  Forall annex_ok (queue_ s) -> annex_chain (queue_ s) -> data <> [] ->
  exists l, write_annex size data s = with_queue l s /\ stream (with_queue l s) = stream s ++ tokens data /\
    Forall annex_ok l /\ annex_shape (h ++ tokens data) l.
Proof.
  intros Ha Hs Hd. assert (0 < zlen data) as Hl.
  { destruct data; [done|]. rewrite zlen_cons. pose proof (zlen_nonneg data). lia. }
  destruct (write_ok data (Annex.create size) (create_ok size)) as [Hn Hns].
  assert (forall l, stream (with_queue l s) = stream s -> Forall annex_ok l -> Forall (fun a => full_ a = true) l ->
    stream (with_queue (l ++ [Annex.write data (Annex.create size)]) s) = stream s ++ tokens data /\
    Forall annex_ok (l ++ [Annex.write data (Annex.create size)]) /\
    annex_shape (h ++ tokens data) (l ++ [Annex.write data (Annex.create size)])) as Hext.
  { intros l Hl1 Hl2 Hl3. rewrite stream_snoc, Hns, app_assoc. change (wire_stream (wire_ s) ++ concat (map annex_stream l)) with
      (stream (with_queue l s)). rewrite Hl1. split_and!; [done| |].
    - apply Forall_app. split; [done|]. by apply Forall_singleton.
    - eexists l, _. split_and!; [done..|]. rewrite in_record_tokens by done. cbn. split; [lia|done]. }
  unfold write_annex. destruct Hs as [Eq|(front & b & Eq & Hf & Hb)].
  - rewrite Eq. cbn [rev]. eexists. split; [done|]. apply Hext; [|done..]. unfold stream. cbn. by rewrite Eq.
  - rewrite Eq, rev_app_distr. cbn [rev app]. rewrite rev_involutive. rewrite Eq in Ha.
    apply Forall_app in Ha as [Haf Hab]. apply Forall_cons in Hab as [Hab _].
    assert (wire_stream (wire_ s) ++ concat (map annex_stream front) ++ annex_stream b = stream s) as Hb'.
    { unfold stream. rewrite Eq, map_app, concat_app. cbn. by rewrite app_nil_r. }
    unfold is_room. destruct (capacity b <? _).
    + eexists. split; [done|]. apply Hext.
      * by rewrite stream_snoc.
      * apply Forall_app. split; [done|]. apply Forall_singleton. by destruct Hab.
      * apply Forall_app. split; [done|]. by apply Forall_singleton.
    + destruct (write_ok data b Hab) as [Hw Hws]. eexists. split; [done|]. rewrite stream_snoc, Hws. split_and!.
      * rewrite <- Hb'. by rewrite <- !app_assoc.
      * apply Forall_app. split; [done|]. by apply Forall_singleton.
      * exists front, (Annex.write data b). split_and!; [done..|]. rewrite in_record_tokens by done. cbn.
        pose proof (ao_size _ Hab). split; [lia|done].
Qed.

Lemma write_inv size data s h r s' :
  Inv size s h -> usable s = true -> data <> [] -> write size data s = (r, s') ->
  Inv size s' (match r with Ok _ => h ++ tokens data | _ => h end).
Proof.
  intros [Hh Ha Hd Hx Hcu Hc Hr Hz] Hu Hne. pose proof (zlen_nonneg data).
  unfold usable in Hu. apply negb_true_iff, orb_false_iff in Hu as [Hu1 Hu2]. unfold write.
  cbn [current_record_size_ with_record_size wire_ annex_mode_ client_closed_].
  destruct (Z.gtb_spec (current_record_size_ s + zlen data + length_header_size) size) as [Hbig|Hfit].
  { intros [= <- <-]. split; try done. cbn. lia. }
  assert (runs_ok size 0 (h ++ tokens data)) as Hro by (apply runs_ok_write; [done|lia]).
  assert (0 <= last_run 0 (h ++ tokens data) <= current_record_size_ s + zlen data) as Hlr
    by (rewrite last_run_app, last_run_tokens; lia).
  destruct (annex_mode_ s) eqn:Em; cbn [negb andb].
  - destruct (Hx eq_refl) as [Hti [(_ & ? & _)|Hsh]]; [congruence|].
    destruct (write_annex_spec size data (with_record_size (current_record_size_ s + zlen data) s) h)
      as (l & -> & Hls & Hla & Hlsh); [done|by eapply annex_shape_chain|done|].
    intros [= <- <-]. split; cbn; try done; try congruence; [by rewrite Hls; apply kept_app|].
    intros _. split; [done|by right].
  - destruct (Hd eq_refl) as (Hq & Hti & Hta & Hrel). destruct (fits _ _ _) eqn:Ef.
    + intros [= <- <-]. split; cbn; try done; try congruence; [|by intros _ _; apply in_record_tokens].
      unfold stream in *. cbn [wire_ queue_ with_wire with_record_size]. rewrite Hq in *. cbn [map concat] in *.
      rewrite app_nil_r in *. eapply kept_trans; [by apply wire_put|by apply kept_app].
    + destruct (write_annex_spec size data (enter_annex_mode size (with_record_size (current_record_size_ s + zlen data) s)) h)
        as (l & -> & Hls & Hla & Hlsh); [..|done|].
      * cbn. rewrite Hq. apply Forall_singleton, create_ok.
      * right. exists [], (Annex.create size). cbn. by rewrite Hq.
      * intros [= <- <-]. split; cbn; try done; try congruence; [|by intros _; split; [|right]].
        rewrite Hls. apply kept_app. revert Hh. unfold stream. cbn. by rewrite Hq.
Qed.

Lemma boundary_runs size h : 0 <= last_run 0 h -> runs_ok size 0 h ->
  runs_ok size 0 (add_boundary h) /\ last_run 0 (add_boundary h) = 0.
Proof.
  intros H0 Hr. unfold add_boundary. destruct (in_record h) eqn:E.
  - rewrite runs_ok_app, last_run_app. cbn [runs_ok last_run].
    pose proof (proj1 (runs_ok_app size 0 h []) ltac:(by rewrite app_nil_r)) as [_ Hb].
    apply runs_ok_bound in Hb. pose proof (runs_ok_bound _ _ _ Hr). split_and!; done || lia.
  - split; [done|]. unfold in_record in E. destruct h as [|o h] using rev_ind; [done|].
    rewrite last_snoc in E. rewrite last_run_app. by destruct o.
Qed.

Lemma flush_inv size s h :
  Inv size s h -> usable s = true -> Inv size (flush size s) (add_boundary h).
Proof.
  intros [Hh Ha Hd Hx Hcu Hc Hr Hz] Hu. unfold usable in Hu. apply negb_true_iff, orb_false_iff in Hu as [Hu1 Hu2].
  destruct (boundary_runs size h) as [Hbr Hbl]; [lia|done|].
  unfold flush. cbn [annex_mode_ with_record_size]. destruct (annex_mode_ s) eqn:Em; cbn [negb].
  - destruct (Hx eq_refl) as [Hti [(_ & ? & _)|(front & b & Eq & Hf & Hb & Hib)]]; [congruence|].
    cbn [queue_ with_record_size]. rewrite Eq, rev_app_distr. cbn [rev app]. rewrite rev_involutive.
    rewrite Eq in Ha. apply Forall_app in Ha as [Haf Hab]. apply Forall_cons in Hab as [Hab _].
    destruct (flush_ok b Hab) as [Hfo Hfs].
    assert (add_boundary h = h ++ (if chunk_size_ b >? 0 then [None] else [])) as Eb.
    { unfold add_boundary. destruct (in_record h), (Z.gtb_spec (chunk_size_ b) 0); rewrite ?app_nil_r; try done;
        exfalso; (destruct Hib as [Hib _]; specialize (Hib eq_refl); lia) || (destruct Hib as [_ Hib]; by specialize (Hib ltac:(lia))). }
    split; cbn; try done; try congruence; try lia.
    + rewrite stream_snoc, Hfs, Eb, !app_assoc. apply kept_app. revert Hh. unfold stream. cbn [wire_ with_record_size].
      rewrite Eq, map_app, concat_app. cbn. by rewrite app_nil_r, <- !app_assoc.
    + apply Forall_app. split; [done|]. by apply Forall_singleton.
    + intros _. split; [done|]. right. exists front, (Annex.flush b). split_and!; try done. cbn.
      unfold add_boundary. destruct (in_record h) eqn:Ei; [rewrite in_record_boundary|rewrite Ei]; split; (done || lia).
  - destruct (Hd eq_refl) as (Hq & Hti & Hta & Hrel).
    split; cbn -[spec]; try done; try congruence; try lia; [|by intros _; cbn; destruct (current (wire_ s)) eqn:E; cbn; rewrite ?E].
    unfold stream in *. cbn [wire_ queue_ with_wire with_record_size]. rewrite Hq in *. cbn [map concat] in *.
    rewrite app_nil_r in *. rewrite wire_flush. unfold add_boundary. destruct (current (wire_ s)) as [|x l] eqn:Ec.
    + rewrite app_nil_r. destruct Hh as [Hs1 Hs2]. destruct (in_record h) eqn:Ei; [|done]. split; [by apply sublist_inserts_r|].
      intros E. specialize (Hs2 E). rewrite <- Hs2, in_record_wire, Ec in Ei. done.
    + rewrite (Hcu eq_refl) by done. by apply kept_app.
Qed.

Lemma stream_thread s q l : stream (with_queue l (with_wire q s)) = wire_stream q ++ concat (map annex_stream l).
Proof. done. Qed.

Lemma shape_front h a a' rest :
  annex_shape h (a :: rest) -> full_ a' = full_ a -> chunk_size_ a' = chunk_size_ a -> annex_shape h (a' :: rest).
Proof.
  intros (front & b & Eq & Hf & Hb & Hi) E1 E2. destruct front as [|x front]; cbn in Eq; simplify_eq.
  - exists [], a'. rewrite E1, E2. done.
  - apply Forall_cons in Hf as [Hx Hf]. exists (a' :: front), b. split_and!; try done.
    constructor; [by rewrite E1|done].
Qed.

Lemma shape_pop h a rest (released : bool) :
  annex_shape h (a :: rest) -> full_ a = true \/ released = true /\ chunk_size_ a = 0 ->
  rest = [] /\ released = true /\ in_record h = false \/ annex_shape h rest.
Proof.
  intros (front & b & Eq & Hf & Hb & Hi) Hor. destruct front as [|x front]; cbn in Eq; simplify_eq.
  - destruct Hor as [?|[-> E]]; [congruence|]. left. split_and!; try done. rewrite E in Hi.
    destruct (in_record h); [|done]. destruct Hi as [Hi _]. by specialize (Hi eq_refl).
  - apply Forall_cons in Hf as [Hx Hf]. right. by exists front, b.
Qed.

(** a round of the thread, when what it writes is dropped or not *)
Lemma thread_inv size late s h s' :
  Inv size s h -> thread_round size late s = Some s' -> Inv size (if late then close s' else s') h.
Proof.
  intros [Hh Ha Hd Hx Hcu Hc Hr Hz]. unfold thread_round. destruct (thread_active_ s) eqn:Et; cbn [negb]; [|done].
  destruct (annex_mode_ s) eqn:Em; [|by destruct (Hd eq_refl) as (_ & _ & ? & _); congruence].
  assert (forall l, kept (client_closed_ s) (stream s) h -> kept late l (stream s) ->
    kept (client_closed_ (if late then close s else s)) l h) as Hk.
  { intros l H1 H2. destruct late; [split; [|done]; by etrans; [apply H2|apply H1]|]. by rewrite (proj2 H2 eq_refl). }
  destruct (Hx eq_refl) as [Hti Hs]. destruct (queue_ s) as [|a rest] eqn:Eq.
  { destruct (released_ s) eqn:Er; [|done]. intros [= <-].
    destruct late; split; cbn; rewrite ?Eq, ?Er; try done; try congruence; apply (Hk (stream s) Hh (kept_eq _ _)). }
  destruct Hs as [(? & _)|Hs]; [done|]. apply Forall_cons in Ha as [Haa Har].
  pose proof (transfer_round_spec size (client_closed_ s) late (released_ s) a (wire_ s) Haa) as Ht.
  assert (completed_ s = false) as Hcf by (destruct (completed_ s); [by specialize (Hc eq_refl)|done]).
  assert (stream s = wire_stream (wire_ s) ++ annex_stream a ++ concat (map annex_stream rest)) as Est
    by (unfold stream; by rewrite Eq).
  destruct (transfer_round _ _ _ _ _ _) as [|[] q|a' q]; [done|..]; intros [= <-].
  - destruct Ht as [Hw Hor]. assert (kept late (wire_stream q ++ concat (map annex_stream rest)) (stream s)) as Hq
      by (rewrite Est, app_assoc; by apply kept_app).
    specialize (Hk _ Hh Hq). destruct late; split; cbn; try done; try congruence; intros _; (split; [done|]); by eapply shape_pop.
  - specialize (Hk (stream s) Hh (kept_eq _ _)).
    destruct late; split; cbn; rewrite ?Eq; try done; try congruence; try (by constructor); intros _; (split; [done|by right]).
  - destruct Ht as (Hok & Hw & Hfu & Hcs).
    assert (kept late (wire_stream q ++ annex_stream a' ++ concat (map annex_stream rest)) (stream s)) as Hq
      by (rewrite Est, !app_assoc; by apply kept_app).
    specialize (Hk _ Hh Hq). destruct late; split; cbn; try done; try congruence; try (by constructor);
      intros _; (split; [done|right]); by eapply shape_front.
Qed.

Lemma close_inv size s h : Inv size s h -> Inv size (close s) h.
Proof. intros [Hh Ha Hd Hx Hcu Hc Hr Hz]. split; try done. split; [apply Hh|done]. Qed.
Lemma close_closed s : client_closed_ s = true -> close s = s.
Proof. intros E. destruct s. cbn in *. by subst. Qed.
Lemma thread_round_closed size late s s' : thread_round size late s = Some s' -> client_closed_ s' = client_closed_ s.
Proof. unfold thread_round. intros E. repeat case_match; by simplify_eq. Qed.

Lemma act_inv size a s h s' h' : Inv size s h -> act size a s h = Some (s', h') -> Inv size s' h'.
Proof.
  intros Hi. destruct a as [data| | | | | |]; cbn [act].
  - destruct (usable s) eqn:Hu; [|done]. case_bool_decide as Hd; [done|]. cbn [andb negb].
    destruct (write size data s) as [r s1] eqn:Ew. intros [= <- <-]. by eapply write_inv.
  - destruct (usable s) eqn:Hu; [|done]. intros [= <- <-]. by apply flush_inv.
  - destruct (usable s) eqn:Hu; [|done]. intros [= <- <-]. destruct Hi as [Hh Ha Hd Hx Hcu Hc Hr Hz].
    unfold release. destruct (thread_invoked_ s) eqn:Eti; split; cbn; try done.
    + destruct (annex_mode_ s); [done|]. intros E. by destruct (Hd E) as (_ & ? & _).
    + intros E. destruct (Hx E) as [_ [(? & _ & ?)|?]]; split; auto.
    + intros E. rewrite Eti. by destruct (Hd E).
    + intros E. by destruct (Hx E).
    + intros _. destruct (annex_mode_ s); [by destruct (Hx eq_refl)|by destruct (Hd eq_refl)].
  - destruct (thread_step size s) as [s1|] eqn:E; [|done]. intros [= <- <-]. pose proof (thread_inv _ _ _ _ _ Hi E) as Ht.
    destruct (client_closed_ s) eqn:Ec; [|done]. by rewrite close_closed in Ht by (by rewrite (thread_round_closed _ _ _ _ E)).
  - pose proof (wire_take size (wire_ s)) as Ht.
    assert (current (spec size (wire_ s) C_take) = current (wire_ s)) as Hcur by (cbn; by destruct (queued (wire_ s))).
    revert Ht Hcur. generalize (spec size (wire_ s) C_take). intros q Ht Hcur [= <- <-].
    destruct Hi as [Hh Ha Hd Hx Hcu Hc Hr Hz]. split; cbn; rewrite ?Hcur; try done. unfold stream in *.
    by cbn [wire_ queue_ with_wire client_closed_]; rewrite Ht.
  - intros [= <- <-]. by apply close_inv.
  - destruct (client_closed_ s) eqn:Ec; [done|]. destruct (thread_round size true s) as [s1|] eqn:E; [|done].
    intros [= <- <-]. apply (thread_inv _ _ _ _ _ Hi E).
Qed.

Lemma reachable_inv size s h : length_header_size <= size -> reachable size s h -> Inv size s h.
Proof.
  intros Hs. induction 1; [|by eapply act_inv]. by split.
Qed.

(** the bytes that were put on the wire *)
Definition wire_bytes (q : queue) : list byte := concat (taken q ++ queued q) ++ current q.

Lemma wire_bytes_flush cap q : wire_bytes (spec cap q S_flush) = wire_bytes q.
Proof.
  cbn. unfold wire_bytes. destruct (current q) as [|x l] eqn:E; [by rewrite E|]. cbn [taken queued current].
  by rewrite app_assoc, concat_app, app_nil_r; cbn; rewrite app_nil_r.
Qed.
Lemma wire_bytes_take cap q : wire_bytes (spec cap q C_take) = wire_bytes q.
Proof. cbn. unfold wire_bytes. destruct (queued q) as [|r rs] eqn:E; [by rewrite E|]. cbn. by rewrite <- app_assoc. Qed.
Lemma thread_round_closed_bytes size late s s' :
  client_closed_ s || late = true -> thread_round size late s = Some s' -> wire_bytes (wire_ s') = wire_bytes (wire_ s).
Proof.
  unfold thread_round, transfer_round, put. intros Hl E. destruct (client_closed_ s); cbn [orb] in Hl; subst;
    repeat case_match; simplify_eq; try done; cbn [wire_ with_queue with_wire]; apply (wire_bytes_flush size).
Qed.

(** once the client has closed, no further byte is put on the wire *)
Lemma closed_wire_bytes size a s h s' h' :
  client_closed_ s = true \/ a = A_close_late -> act size a s h = Some (s', h') -> wire_bytes (wire_ s') = wire_bytes (wire_ s).
Proof.
  intros Hc. destruct a as [data| | | | | |]; cbn [act].
  - destruct Hc as [Hc|]; [|done]. destruct (_ && _); [|done]. unfold write, write_annex, put, enter_annex_mode. cbn. rewrite Hc.
    intros E. repeat case_match; simplify_eq; done.
  - destruct (usable s); [|done]. intros [= <- <-]. unfold flush. cbn [annex_mode_ with_record_size].
    destruct (annex_mode_ s); cbn [negb]; [|apply (wire_bytes_flush size)]. cbn. by destruct (rev (queue_ s)).
  - destruct (usable s); [|done]. intros [= <- <-]. unfold release. by destruct (thread_invoked_ s).
  - destruct Hc as [Hc|]; [|done]. unfold thread_step. destruct (thread_round _ _ _) as [s1|] eqn:E; [|done]. intros [= <- <-].
    eapply thread_round_closed_bytes, E. by rewrite Hc.
  - intros [= <- <-]. apply (wire_bytes_take size).
  - by intros [= <- <-].
  - destruct (client_closed_ s) eqn:Ec; [done|]. destruct (thread_round _ _ _) as [s1|] eqn:E; [|done]. intros [= <- <-].
    cbn [close wire_]. eapply thread_round_closed_bytes, E. by rewrite orb_true_r.
Qed.

Definition client_records (s : t) : list (option byte) := concat (map record_tokens (taken (wire_ s))).

(** C8: whatever the interleaving of the writer, its transfer thread and the client: as long as
    the client has not closed the result set, what was put on the wire and what waits in the
    annexes is, in order and with its record boundaries, exactly what the server handed over;
    what the client has received is a prefix of it, and once the writer is complete everything
    is on the wire.  When the client closes, also while the thread is between [wait_room] and
    [write], no further byte is put on the wire: what is handed over from then on is dropped or
    stays in the annexes, so that the stream lacks pieces but holds no others, and keeps their
    order. *)
Theorem writer_stream size s h :
  length_header_size <= size -> reachable size s h ->
  (client_closed_ s = false ->
     wire_stream (wire_ s) ++ concat (map annex_stream (queue_ s)) = h /\
     client_records s `prefix_of` h /\
     (completed_ s = true -> wire_stream (wire_ s) = h)) /\
  wire_stream (wire_ s) ++ concat (map annex_stream (queue_ s)) `sublist_of` h /\
  (forall a s' h', act size a s h = Some (s', h') -> client_closed_ s = true \/ a = A_close_late ->
     wire_bytes (wire_ s') = wire_bytes (wire_ s)).
Proof.
  intros Hs Hr. destruct (reachable_inv size s h Hs Hr) as [[Hsub Hh] _ _ _ _ Hc _ _].
  unfold stream in *. split_and!; [|done|by intros; eapply closed_wire_bytes]. intros E. specialize (Hh E). split_and!; [done| |].
  - rewrite <- Hh. unfold client_records, wire_stream. rewrite map_app, concat_app, <- !app_assoc. by apply prefix_app_r.
  - intros Hcm. rewrite (Hc Hcm), app_nil_r in Hh. done.
Qed.

(** ** Progress of the transfer thread *)

(** the annexes and flushed records still to be transferred *)
Fixpoint pending (l : list Annex.t) : nat :=
  match l with [] => O | a :: l => S (length (chunks_ a)) + pending l end.

Lemma last_run_records l : last_run 0 (concat (map record_tokens l)) = 0.
Proof.
  induction l as [|r l IH]; [done|]. cbn [map concat]. unfold record_tokens.
  rewrite !last_run_app. by cbn [last_run].
Qed.

Lemma fits_next size q r rest :
  runs_ok size 0 (wire_stream q ++ tokens r ++ rest) -> queued q = [] -> fits size q r = true.
Proof.
  intros Hr Hq. unfold wire_stream in Hr. rewrite Hq, app_nil_r, <- app_assoc in Hr.
  rewrite runs_ok_app, last_run_records in Hr. destruct Hr as [_ Hr].
  rewrite app_assoc, <- tokens_app, runs_ok_app, runs_ok_tokens, zlen_app in Hr by done. destruct Hr as [Hr _].
  unfold fits, used. rewrite Hq. apply bool_decide_eq_true. change (zlen (encoded [])) with 0.
  unfold length_header_size in Hr. destruct (current q); [change (zlen []) with 0 in Hr|]; lia.
Qed.

(** a buffer that is not the last one, or the last one without a partial record,
    is transferred: the round either waits for room or makes progress *)
Lemma transfer_progress size a q rest :
  annex_ok a -> runs_ok size 0 (wire_stream q ++ annex_stream a ++ rest) ->
  full_ a = true \/ chunk_size_ a = 0 ->
  match transfer_round size false false true a q with
  | T_wait => queued q <> []
  | T_return ok _ => ok = true
  | T_continue a' _ => (length (chunks_ a') < length (chunks_ a))%nat
  end.
Proof.
  intros Ha Hr Hor. pose proof Ha as [_ _ Hs _ Hu]. unfold transfer_round. destruct (exhausted a); [done|]. rewrite andb_false_r.
  unfold annex_stream in Hr. destruct (chunks_ a) as [|c cs] eqn:Ec; cbn [cut] in Hr.
  - destruct (Z.eqb_spec (chunk_size_ a) 0) as [E|E]; [done|]. cbn [andb].
    destruct Hor as [->|?]; [|done]. destruct (chunk_size_ a >? 0); [|done].
    change (sum []) with 0 in Hu. rewrite (take_ge (unread a)) by (unfold zlen in Hu; lia).
    destruct (fits size q (unread a)) eqn:Ef; [done|]. intros Hq. rewrite (fits_next size q (unread a) rest) in Ef; done.
  - destruct (fits size q _) eqn:Ef; [cbn; lia|]. intros Hq. unfold record_tokens in Hr. rewrite <- !app_assoc in Hr.
    erewrite (fits_next size q) in Ef; done.
Qed.

(** C11: a released writer without a partial record terminates.  Every step of its
    transfer thread completes it or reduces what is still to be transferred, and
    the thread waits only while the client has records to take. *)
Theorem released_writer_progress size s h :
  length_header_size <= size -> reachable size s h ->
  released_ s = true -> thread_active_ s = true -> client_closed_ s = false -> in_record h = false ->
  match thread_step size s with
  | Some s' => completed_ s' = true \/ (pending (queue_ s') < pending (queue_ s))%nat
  | None => queued (wire_ s) <> []
  end.
Proof.
  intros Hs Hr Hrel Hact Hcl Hin. destruct (reachable_inv size s h Hs Hr) as [[_ Hh] Ha Hd Hx _ Hc Hru _]. specialize (Hh Hcl).
  unfold thread_step, thread_round. rewrite Hact, Hrel, Hcl. cbn [negb]. destruct (queue_ s) as [|a rest] eqn:Eq; [by left|].
  destruct (annex_mode_ s) eqn:Em; [|by destruct (Hd eq_refl)].
  destruct (Hx eq_refl) as [_ [(? & _)|(front & b & El & Hf & Hb & Hi)]]; [done|].
  apply Forall_cons in Ha as [Haa _].
  assert (full_ a = true \/ chunk_size_ a = 0) as Hor.
  { destruct front as [|x front]; cbn in El; simplify_eq; [right|left; by apply Forall_cons in Hf as [? _]].
    pose proof (ao_size _ Haa). destruct (decide (0 < chunk_size_ b)) as [Hp|]; [|lia].
    rewrite Hin in Hi. by apply Hi in Hp. }
  pose proof (transfer_progress size a (wire_ s) (concat (map annex_stream rest)) Haa) as Ht.
  rewrite <- Hh in Hru. unfold stream in Hru. rewrite Eq in Hru. specialize (Ht Hru Hor).
  destruct (transfer_round size false false true a (wire_ s)) as [|ok q|a' q]; [done|subst ok|]; right; cbn; rewrite ?Eq; cbn; lia.
Qed.

(** C39: a writer in annex mode that is released while a record is not flushed
    never completes: when everything else has been transferred its thread repeats
    the same round for ever. *)
Theorem released_partial_livelock size s h :
  length_header_size <= size -> reachable size s h -> annex_mode_ s = true ->
  released_ s = true -> in_record h = true ->
  completed_ s = false /\
  (forall a, queue_ s = [a] -> chunks_ a = [] -> thread_active_ s = true -> thread_step size s = Some s).
Proof.
  intros Hs Hr Hm Hrel Hin. destruct (reachable_inv size s h Hs Hr) as [_ _ _ Hx _ Hc _ _].
  destruct (Hx Hm) as [_ [(_ & _ & ?)|(front & b & El & Hf & Hb & Hi)]]; [congruence|]. split.
  - destruct (completed_ s); [|done]. rewrite (Hc eq_refl) in El. by destruct front.
  - intros a Eq Hch Hact. rewrite Eq in El. destruct front as [|x [|y front]]; cbn in El; simplify_eq.
    apply Hi in Hin. unfold thread_step, thread_round, transfer_round, exhausted. rewrite Hact, Eq, Hb, Hch, Hrel. cbn [negb andb].
    rewrite andb_false_r. replace (chunk_size_ b =? 0) with false by lia. destruct s; cbn in *. by subst.
Qed.

Definition run (size : Z) (acts : list action) (st : t * list (option byte)) : option (t * list (option byte)) :=
  fold_left (fun o a => match o with Some (s, h) => act size a s h | None => None end) acts (Some st).

Lemma reachable_run size acts s h s' h' :
  reachable size s h -> run size acts (s, h) = Some (s', h') -> reachable size s' h'.
Proof.
  unfold run. revert s h. induction acts as [|a acts IH]; intros s h Hr; cbn; [by intros [= <- <-]|].
  destruct (act size a s h) as [[s1 h1]|] eqn:E; [eapply IH, reach_step; eassumption|].
  clear. by induction acts.
Qed.

(** records of 8 bytes through a buffer of 20 bytes: the second one does not fit *)
Definition bytes8 : list byte := [1; 2; 3; 4; 5; 6; 7; 8].
Definition script (last : list action) : list action :=
  [A_write bytes8; A_flush; A_write bytes8; A_flush; A_write bytes8] ++ last.

Lemma writer_stream_witness : exists s h,
  length_header_size <= 20 /\ reachable 20 s h /\ completed_ s = true /\
  client_closed_ s = false /\ wire_stream (wire_ s) ++ concat (map annex_stream (queue_ s)) = h /\
  client_records s `prefix_of` h /\ wire_stream (wire_ s) = h.
Proof.
  destruct (run 20 (script [A_flush; A_release; A_take; A_thread; A_take; A_thread; A_thread; A_thread])
              (initial, [])) as [[s h]|] eqn:E; [|by vm_compute in E].
  assert (reachable 20 s h) as Hr by (eapply reachable_run; [apply reach_initial|exact E]).
  assert (completed_ s = true) as Hc by (vm_compute in E; by simplify_eq).
  assert (client_closed_ s = false) as Ho by (vm_compute in E; by simplify_eq).
  destruct (proj1 (writer_stream 20 s h ltac:(done) Hr) Ho) as (H1 & H2 & H3). exists s, h. split_and!; done || by apply H3.
Defined.

Lemma released_writer_progress_witness : exists s h,
  length_header_size <= 20 /\ reachable 20 s h /\ released_ s = true /\ thread_active_ s = true /\
  client_closed_ s = false /\ in_record h = false /\ queued (wire_ s) = [] /\
  match thread_step 20 s with
  | Some s' => completed_ s' = true \/ (pending (queue_ s') < pending (queue_ s))%nat
  | None => queued (wire_ s) <> []
  end.
Proof.
  destruct (run 20 (script [A_flush; A_release; A_take]) (initial, [])) as [[s h]|] eqn:E; [|by vm_compute in E].
  assert (reachable 20 s h) as Hr by (eapply reachable_run; [apply reach_initial|exact E]).
  assert (released_ s = true /\ thread_active_ s = true /\ client_closed_ s = false /\ in_record h = false /\
    queued (wire_ s) = []) as (H1 & H2 & H3 & H4 & H5) by (vm_compute in E; by simplify_eq).
  exists s, h. split_and!; [done..|]. by apply (released_writer_progress 20 s h).
Defined.

Lemma released_partial_livelock_witness : exists s h,
  length_header_size <= 20 /\ reachable 20 s h /\ annex_mode_ s = true /\ released_ s = true /\ in_record h = true /\
  completed_ s = false /\ thread_step 20 s = Some s.
Proof.
  destruct (run 20 (script [A_release; A_take; A_thread; A_take]) (initial, [])) as [[s h]|] eqn:E; [|by vm_compute in E].
  assert (reachable 20 s h) as Hr by (eapply reachable_run; [apply reach_initial|exact E]).
  assert (annex_mode_ s = true /\ released_ s = true /\ in_record h = true /\ thread_active_ s = true /\
    exists a, queue_ s = [a] /\ chunks_ a = []) as (H1 & H2 & H3 & H4 & a & H5 & H6)
    by (vm_compute in E; simplify_eq; split_and!; try done; eexists; done).
  destruct (released_partial_livelock 20 s h ltac:(done) Hr H1 H2 H3) as [Hc Hl].
  exists s, h. split_and!; try done. by apply (Hl a).
Defined.

End Writer.
