(* ===== verification/ResultSetEnvelope.v ===== *)
(** The server side of a result set (endpoint/ipc/bootstrap/server_wires_impl.h):
    resultset_wires_container_impl, which tells the client when the last record has been
    written, and garbage_collector_impl, which keeps result sets until the client has
    closed them. *)
From stdpp Require Import gmap.
From S2P Require Import Prelude.

(** * The end of the records

    Writers complete in threads of their own (write_complete, from the transfer thread of a
    writer or from its release), and the service announces the end of the records
    (set_eor).  Both then run notify_eor_conditional, whose loads of the two counters and
    of the flag are separate atomic steps. *)

Module Envelope.

(** a thread in notify_eor_conditional: before its first load, after the load of [writers_],
    after the comparison, after the test of [eor_], after test_and_set, and back *)
Inductive notifier : Type :=
| N_begin | N_loaded (w : nat) | N_equal | N_eor | N_set | N_done.

Record t : Type := Make {
  writers_ : nat;
  completed_writers_ : nat;
  eor_ : bool;
  notify_eor_ : bool;
  (** calls of set_eor() on the wires in the shared memory *)
  set_eor_calls : nat
}.
Definition create : t := Make 0 0 false false 0.

(** acquire(), once the shared memory has given a wire *)
Definition acquire (s : t) : t := Make (S (writers_ s)) (completed_writers_ s) (eor_ s) (notify_eor_ s) (set_eor_calls s).
(** the first statements of write_complete() and set_eor() *)
Definition complete (s : t) : t := Make (writers_ s) (S (completed_writers_ s)) (eor_ s) (notify_eor_ s) (set_eor_calls s).
Definition store_eor (s : t) : t := Make (writers_ s) (completed_writers_ s) true (notify_eor_ s) (set_eor_calls s).

(** one atomic step of notify_eor_conditional *)
Definition notify_step (n : notifier) (s : t) : notifier * t :=
  match n with
  | N_begin => (N_loaded (writers_ s), s)
  | N_loaded w => (if (w =? completed_writers_ s)%nat then N_equal else N_done, s)
  | N_equal => (if eor_ s then N_eor else N_done, s)
  | N_eor =>
      if notify_eor_ s then (N_done, s)
      else (N_set, Make (writers_ s) (completed_writers_ s) (eor_ s) true (set_eor_calls s))
  | N_set => (N_done, Make (writers_ s) (completed_writers_ s) (eor_ s) (notify_eor_ s) (S (set_eor_calls s)))
  | N_done => (N_done, s)
  end.

(** the call without interference *)
Definition notify_eor_conditional (s : t) : t :=
  if (writers_ s =? completed_writers_ s)%nat && eor_ s then
    if notify_eor_ s then s else Make (writers_ s) (completed_writers_ s) (eor_ s) true (S (set_eor_calls s))
  else s.
Definition write_complete (s : t) : t := notify_eor_conditional (complete s).
Definition set_eor (s : t) : t := notify_eor_conditional (store_eor s).

(** any number of threads: a writer is acquired before the end of the records is announced,
    and a writer that was acquired completes once *)
Inductive step : t * list notifier -> t * list notifier -> Prop :=
| s_acquire s ns : eor_ s = false -> step (s, ns) (acquire s, ns)
| s_complete s ns : (completed_writers_ s < writers_ s)%nat -> step (s, ns) (complete s, ns ++ [N_begin])
| s_set_eor s ns : step (s, ns) (store_eor s, ns ++ [N_begin])
| s_notify s ns k n n' s' : ns !! k = Some n -> n <> N_done -> notify_step n s = (n', s') -> step (s, ns) (s', <[k := n']> ns).

Lemma notify_run s : fst (notify_step N_begin s) = N_loaded (writers_ s) /\
  forall k, k = 4%nat -> exists n, Nat.iter k (fun x => notify_step x.1 x.2) (notify_step N_begin s) = (n, notify_eor_conditional s) /\ n = N_done.
Proof.
  split; [done|]. intros k ->. unfold notify_eor_conditional. cbn.
  destruct (writers_ s =? completed_writers_ s)%nat; cbn; [|by eauto]. destruct (eor_ s) eqn:Ee; cbn; [|by eauto].
  destruct (notify_eor_ s); cbn; [by eauto|]. rewrite ?Ee. by eauto.
Qed.

(** a thread that will still see the end of the records *)
Definition alert (s : t) (n : notifier) : Prop :=
  match n with N_begin | N_equal | N_eor => True | N_loaded w => w = writers_ s | N_set | N_done => False end.
Definition setting (ns : list notifier) : nat := sum_of (fun n => match n with N_set => 1 | _ => 0 end)%nat ns.

Record inv (st : t * list notifier) : Prop := {
  i_once : (set_eor_calls st.1 + setting st.2 = if notify_eor_ st.1 then 1 else 0)%nat;
  i_count : (completed_writers_ st.1 <= writers_ st.1)%nat;
  i_flag : notify_eor_ st.1 = true -> eor_ st.1 = true;
  i_tested : forall k n, st.2 !! k = Some n -> n = N_eor \/ n = N_set -> eor_ st.1 = true;
  i_alert : eor_ st.1 = true -> completed_writers_ st.1 = writers_ st.1 ->
    notify_eor_ st.1 = true \/ exists k n, st.2 !! k = Some n /\ alert st.1 n
}.

Lemma setting_insert (ns : list notifier) (k : nat) n n' : ns !! k = Some n ->
  (setting (<[k := n']> ns) + (match n with N_set => 1 | _ => 0 end) = setting ns + (match n' with N_set => 1 | _ => 0 end))%nat.
Proof. intros Hk. exact (sum_of_insert _ ns k n n' Hk). Qed.
Lemma setting_app ns n : setting (ns ++ [n]) = (setting ns + match n with N_set => 1 | _ => 0 end)%nat.
Proof. unfold setting. rewrite sum_of_app, sum_of_cons. change (sum_of _ []) with 0%nat. lia. Qed.

(** a step of a thread keeps some thread alert, or the flag is set *)
Lemma alert_step s (ns : list notifier) (k : nat) n n' s' :
  ns !! k = Some n -> notify_step n s = (n', s') -> (completed_writers_ s = writers_ s) -> eor_ s = true ->
  (notify_eor_ s = true \/ exists j m, ns !! j = Some m /\ alert s m) ->
  notify_eor_ s' = true \/ exists j m, <[k := n']> ns !! j = Some m /\ alert s' m.
Proof.
  intros Hk Hn Hc He [Hf|(j & m & Hj & Hm)].
  { left. destruct n; cbn in Hn; repeat case_match; by simplify_eq. }
  assert (alert s' m) as Hm'. { destruct n; cbn in Hn; repeat case_match; simplify_eq; by destruct m. }
  destruct (decide (j = k)) as [->|Hjk]; [|right; exists j, m; by rewrite list_lookup_insert_ne].
  assert (n = m) as -> by congruence. assert (k < length ns)%nat by (by eapply lookup_lt_Some).
  destruct m as [|w| | | |]; cbn in Hn, Hm; try done; simplify_eq.
  - right. exists k, (N_loaded (writers_ s')). by rewrite list_lookup_insert_eq.
  - rewrite Hc, Nat.eqb_refl. right. exists k, N_equal. by rewrite list_lookup_insert_eq.
  - rewrite He. right. exists k, N_eor. by rewrite list_lookup_insert_eq.
  - left. destruct (notify_eor_ s) eqn:Ef; by simplify_eq.
Qed.

Lemma inv_init : inv (create, []).
Proof. split; cbn; try done; lia. Qed.

Lemma envelope_inv_step st st' : inv st -> step st st' -> inv st'.
Proof.
  intros [H1 H2 H3 H4 H5] Hs. destruct Hs as [s ns He|s ns Hc|s ns|s ns k n n' s' Hk Hd Hn]; cbn [fst snd] in *.
  - split; cbn [fst snd acquire set_eor_calls notify_eor_ completed_writers_ writers_ eor_]; try done; [lia|]. congruence.
  - assert (forall k n, (ns ++ [N_begin]) !! k = Some n -> n = N_eor \/ n = N_set -> ns !! k = Some n) as Ha.
    { intros k n [Hk|[_ Hk]]%lookup_app_Some Hn; [done|]. apply list_lookup_singleton_Some in Hk as [_ <-]. by destruct Hn. }
    split; cbn [fst snd complete set_eor_calls notify_eor_ completed_writers_ writers_ eor_]; try done.
    + rewrite setting_app. lia.
    + intros k n Hk Hn. eapply H4; [by eapply Ha|done].
    + intros _ _. right. exists (length ns), N_begin. split; [|done]. by rewrite lookup_app_r, Nat.sub_diag by lia.
  - split; cbn [fst snd store_eor set_eor_calls notify_eor_ completed_writers_ writers_ eor_]; try done.
    + rewrite setting_app. lia.
    + intros _ _. right. exists (length ns), N_begin. split; [|done]. by rewrite lookup_app_r, Nat.sub_diag by lia.
  - pose proof (setting_insert ns k n n' Hk) as Hset.
    assert (writers_ s' = writers_ s /\ completed_writers_ s' = completed_writers_ s /\ eor_ s' = eor_ s) as (E1 & E2 & E3)
      by (destruct n; cbn in Hn; repeat case_match; by simplify_eq).
    assert (n = N_eor \/ notify_eor_ s' = notify_eor_ s) as Hnf
      by (clear - Hn; destruct n; cbn in Hn; repeat case_match; simplify_eq; auto).
    split; cbn [fst snd]; rewrite ?E1, ?E2, ?E3; try done.
    + destruct n; cbn in Hn; destruct (notify_eor_ s) eqn:Ef; repeat case_match; simplify_eq; cbn in *; rewrite ?Ef in *; lia.
    + intros Hf. destruct Hnf as [->|Hnf]; [by eapply H4; eauto|]. apply H3. by rewrite <- Hnf.
    + intros j m Hj Hm. destruct (decide (j = k)) as [->|Hne].
      * rewrite list_lookup_insert_eq in Hj by (by eapply lookup_lt_Some). simplify_eq.
        clear - Hn Hm H4 Hk. destruct n; cbn in Hn; destruct (eor_ s) eqn:Ee; try done; repeat case_match; simplify_eq; destruct Hm; simplify_eq; try done.
        by eapply H4; eauto.
      * rewrite list_lookup_insert_ne in Hj by done. by eapply H4.
    + intros He Hc. by eapply alert_step; [..|apply H5].
Qed.

Lemma envelope_inv_reachable st : rtc step (create, []) st -> inv st.
Proof. intros Hr. eapply (rtc_ind_r (fun st => inv st)); [apply inv_init|intros; by eapply envelope_inv_step|exact Hr]. Qed.

(** C14: the client is told the end of the records exactly once.  However many writers
    complete concurrently with the announcement of the end of the records, set_eor() is
    called on the shared wires at most once, and only after the announcement; and once all
    writers have completed, the end has been announced, and no thread is still in
    notify_eor_conditional, it has been called. *)
Theorem eor_exactly_once st :
  rtc step (create, []) st ->
  (set_eor_calls st.1 <= 1)%nat /\ (set_eor_calls st.1 = 1%nat -> eor_ st.1 = true) /\
  (Forall (fun n => n = N_done) st.2 -> eor_ st.1 = true -> completed_writers_ st.1 = writers_ st.1 -> set_eor_calls st.1 = 1%nat).
Proof.
  intros Hr. destruct (envelope_inv_reachable _ Hr) as [H1 H2 H3 H4 H5]. split_and!.
  - destruct (notify_eor_ st.1); lia.
  - intros Hc. apply H3. destruct (notify_eor_ st.1); [done|lia].
  - intros Hd He Hc. rewrite Forall_lookup in Hd.
    assert (setting st.2 = 0%nat) as Hs.
    { clear - Hd. induction st.2 as [|n ns IH]; [done|]. unfold setting. rewrite sum_of_cons.
      rewrite (Hd 0%nat n eq_refl). apply IH. intros i x Hi. by apply (Hd (S i)). }
    destruct (H5 He Hc) as [Hf|(k & n & Hk & Ha)]; [rewrite Hf in H1; lia|]. by rewrite (Hd _ _ Hk) in Ha.
Qed.

(** the run of the next theorem: a thread that finishes the first writer has loaded the
    number of writers when another writer is acquired and the end of the records is
    announced *)
Definition s1 : t := complete (acquire create).
Definition s2 : t := acquire s1.
Definition s3 : t := store_eor s2.

(** The client can be told the end of the records too early.  The two counters and the
    flag are read one after the other; when a writer is acquired and the end of the
    records announced between these reads, set_eor() is called on the shared wires while a
    writer has not completed. *)
Theorem premature_eor :
  exists st, rtc step (create, []) st /\ set_eor_calls st.1 = 1%nat /\ (completed_writers_ st.1 < writers_ st.1)%nat.
Proof.
  exists (Make 2 1 true true 1, [N_done; N_begin]). split; [|cbn; lia].
  eapply rtc_l; [by apply s_acquire|]. eapply rtc_l; [apply s_complete; cbn; lia|].
  eapply rtc_l; [by apply (s_notify s1 [N_begin] 0 N_begin)|]. eapply rtc_l; [by apply s_acquire|].
  eapply rtc_l; [by apply (s_notify s2 [N_loaded 1] 0 (N_loaded 1))|]. eapply rtc_l; [apply s_set_eor|].
  eapply rtc_l; [by apply (s_notify s3 [N_equal; N_begin] 0 N_equal)|].
  eapply rtc_l; [by apply (s_notify s3 [N_eor; N_begin] 0 N_eor)|].
  eapply rtc_l; [by apply (s_notify _ [N_set; N_begin] 0 N_set)|]. done.
Qed.

(** without interference the announcement is never early *)
Lemma notify_not_early s : set_eor_calls (notify_eor_conditional s) <> set_eor_calls s -> completed_writers_ s = writers_ s /\ eor_ s = true.
Proof.
  unfold notify_eor_conditional. destruct (Nat.eqb_spec (writers_ s) (completed_writers_ s)), (eor_ s); cbn; try done.
Qed.

Lemma eor_exactly_once_witness : set_eor_calls (Make 1 1 true true 1) = 1%nat.
Proof.
  assert (rtc step (create, []) (Make 1 1 true true 1, [N_done; N_done])) as Hr.
  { eapply rtc_l; [by apply s_acquire|]. eapply rtc_l; [apply s_set_eor|]. eapply rtc_l; [apply s_complete; cbn; lia|].
    eapply rtc_l; [by apply (s_notify _ [N_begin; N_begin] 0 N_begin)|].
    eapply rtc_l; [by apply (s_notify _ [N_loaded 1; N_begin] 0 (N_loaded 1))|].
    eapply rtc_l; [by apply (s_notify _ [N_equal; N_begin] 0 N_equal)|].
    eapply rtc_l; [by apply (s_notify _ [N_eor; N_begin] 0 N_eor)|].
    eapply rtc_l; [by apply (s_notify _ [N_set; N_begin] 0 N_set)|].
    eapply rtc_l; [by apply (s_notify _ [N_done; N_begin] 1 N_begin)|].
    eapply rtc_l; [by apply (s_notify _ [N_done; N_loaded 1] 1 (N_loaded 1))|].
    eapply rtc_l; [by apply (s_notify _ [N_done; N_equal] 1 N_equal)|].
    eapply rtc_l; [by apply (s_notify _ [N_done; N_eor] 1 N_eor)|]. done. }
  destruct (eor_exactly_once _ Hr) as (_ & _ & H). apply H; [by repeat constructor|done|done].
Defined.

End Envelope.

(** * garbage_collector_impl *)

Section GarbageCollector.
(** the result sets put into it; whether the client has closed one and whether its writer
    threads have ended is up to the environment *)
Context {W : Type} (is_closed is_disposable : W -> bool) (force_close_wires : W -> W).

Record garbage_collector : Type := Collector { resultset_wires_set_ : list W; force_close_ : bool }.

Definition gc_create : garbage_collector := Collector [] false.
Definition gc_put (w : W) (g : garbage_collector) : garbage_collector :=
  Collector (resultset_wires_set_ g ++ [if force_close_ g then force_close_wires w else w]) (force_close_ g).
(** [locked]: another thread is in dump(); the result sets destroyed are returned as well *)
Definition gc_dump (locked : bool) (g : garbage_collector) : garbage_collector * list W :=
  let gone w := is_closed w && is_disposable w in
  if force_close_ g || locked then (g, [])
  else (Collector (filter (fun w => gone w = false) (resultset_wires_set_ g)) (force_close_ g),
        filter (fun w => gone w = true) (resultset_wires_set_ g)).
Definition gc_empty (g : garbage_collector) : bool :=
  match resultset_wires_set_ g with [] => true | _ => force_close_ g end.
Definition gc_force_close (g : garbage_collector) : garbage_collector :=
  Collector (map force_close_wires (resultset_wires_set_ g)) true.

(** a result set is destroyed only when its client has closed it and no thread writes to
    it; the others stay, in order *)
Lemma gc_dump_spec locked g g' gone :
  gc_dump locked g = (g', gone) ->
  (forall w, w ∈ gone -> is_closed w = true /\ is_disposable w = true) /\
  resultset_wires_set_ g' ++ gone ≡ₚ resultset_wires_set_ g /\ resultset_wires_set_ g' `sublist_of` resultset_wires_set_ g.
Proof.
  unfold gc_dump. destruct (force_close_ g || locked); intros [= <- <-]; cbn [resultset_wires_set_].
  - split_and!; [set_solver|by rewrite app_nil_r|done].
  - split_and!.
    + intros w [Hw _]%list_elem_of_filter. by apply andb_true_iff in Hw.
    + induction (resultset_wires_set_ g) as [|w l IH]; [done|]. rewrite !filter_cons.
      destruct (is_closed w && is_disposable w); cbn; rewrite ?decide_True, ?decide_False by done; cbn.
      * rewrite decide_True by done. by rewrite <- Permutation_middle, IH.
      * by rewrite IH.
    + apply sublist_filter.
Qed.

End GarbageCollector.
