(* ===== verification/Connection.v ===== *)
(** Connection establishment (src/tateyama/endpoint/ipc/wire.h, [connection_queue]).

    A client takes a slot from the ring of free slots, puts it in the ring of
    requests and waits on the element of the slot; the listener accepts or rejects
    it; a finished session gives its slot back.  Some slots are reserved for
    administrators.  Every operation of [index_queue] runs under its mutex and is
    one step; [request] is two steps, so that clients interleave between them. *)
From S2P Require Import Prelude SimpleWire.

(** A session slot is a [size_t]; bit 63 marks an administrator's. *)
Definition admin_bit : Z := 2 ^ 63.
Definition session_id_indicating_error : Z := 2 ^ 64 - 1.
Definition set_admin (slot : Z) : Z := Z.lor slot admin_bit.
Definition reset_admin (slot : Z) : Z := Z.land slot (u64 (Z.lnot admin_bit)).
Definition is_admin (slot : Z) : bool := negb (Z.land slot admin_bit =? 0).

(** [vector::at] *)
Definition at_ {A} (l : list A) (i : Z) : res A :=
  match l !z i with Some x => Ok x | None => Throw out_of_range end.
Definition put_at {A} (l : list A) (i : Z) (x : A) : res (list A) :=
  if bool_decide (0 <= i < zlen l) then Ok (<[Z.to_nat i := x]> l) else Throw out_of_range.

Module IndexQueue.

Record t := IndexQueue {
  queue_ : list Z;
  capacity_ : Z;
  admin_slots_in_use_ : Z;
  pushed_ : Z;
  poped_ : Z
}.

Definition create (size : Z) : t := IndexQueue (replicate (Z.to_nat (u32 size)) 0) (u32 size) 0 0 0.

Definition index (q : t) (n : Z) : Z := n mod capacity_ q.

(** [fill]: the loop writes [i] at every position [i] *)
Definition fill (admin_slots : Z) (q : t) : t :=
  IndexQueue (seqZ 0 (capacity_ q)) (capacity_ q) (admin_slots_in_use_ q) (u64 (capacity_ q - admin_slots)) (poped_ q).

Definition push (sid admin_slots : Z) (q : t) : res t :=
  let i := index q (u64 (pushed_ q + admin_slots)) in
  if (admin_slots >? 0) && is_admin sid then
    l ← put_at (queue_ q) i (reset_admin sid);
    Ok (IndexQueue l (capacity_ q) (u8 (admin_slots_in_use_ q - 1)) (u64 (pushed_ q + 1)) (poped_ q))
  else
    l ← put_at (queue_ q) i sid;
    Ok (IndexQueue l (capacity_ q) (admin_slots_in_use_ q) (u64 (pushed_ q + 1)) (poped_ q)).

(** [try_pop()]: for a normal request *)
Definition try_pop (q : t) : res (Z * t) :=
  let current := poped_ q in
  if u64 (pushed_ q + admin_slots_in_use_ q) <=? current
  then Throw (runtime_error "no request slot is available for normal request")
  else
    sid ← at_ (queue_ q) (index q current);
    Ok (sid, IndexQueue (queue_ q) (capacity_ q) (admin_slots_in_use_ q) (pushed_ q) (u64 (current + 1))).

(** [try_pop(admin_slots)]: for an administrator's request *)
Definition try_pop_admin (admin_slots : Z) (q : t) : res (Z * t) :=
  let current := poped_ q in
  if u64 (pushed_ q + (admin_slots - admin_slots_in_use_ q)) <=? current
  then Throw (runtime_error "no request slot is available for admin request")
  else
    sid ← at_ (queue_ q) (index q current);
    Ok (set_admin sid,
        IndexQueue (queue_ q) (capacity_ q) (u8 (admin_slots_in_use_ q + 1)) (pushed_ q) (u64 (current + 1))).

(** the condition the listener waits for *)
Definition wait_cond (terminate : bool) (q : t) : bool := (poped_ q <? pushed_ q) || terminate.

Definition pop (q : t) : t :=
  IndexQueue (queue_ q) (capacity_ q) (admin_slots_in_use_ q) (pushed_ q) (u64 (poped_ q + 1)).
Definition front (q : t) : res Z := at_ (queue_ q) (index q (poped_ q)).
Definition size (q : t) : Z := u64 (pushed_ q - poped_ q).

End IndexQueue.

(** [element]: where the client of a slot waits for the answer *)
Module Element.
Definition t : Type := Z.
Definition accept (session_id : Z) (_ : t) : t := session_id.
Definition reject (_ : t) : t := session_id_indicating_error.
Definition check (e : t) : bool := negb (e =? 0).
Definition reuse (_ : t) : t := 0.
End Element.

Module ConnectionQueue.
Import IndexQueue.

Record t := Connections {
  q_free_ : IndexQueue.t;
  q_requested_ : IndexQueue.t;
  v_requested_ : list Element.t;
  terminate_ : bool;
  admin_slots_ : Z;
  session_id_ : Z
}.

Definition create (n as_n : Z) : t :=
  Connections (fill (u8 as_n) (IndexQueue.create (u64 (n + u8 as_n)))) (IndexQueue.create (u64 (n + u8 as_n)))
    (replicate (Z.to_nat (u64 (n + u8 as_n))) 0) false (u8 as_n) 0.

Definition with_free (f : IndexQueue.t) (q : t) : t :=
  Connections f (q_requested_ q) (v_requested_ q) (terminate_ q) (admin_slots_ q) (session_id_ q).
Definition with_requested (r : IndexQueue.t) (q : t) : t :=
  Connections (q_free_ q) r (v_requested_ q) (terminate_ q) (admin_slots_ q) (session_id_ q).
Definition with_elements (v : list Element.t) (q : t) : t :=
  Connections (q_free_ q) (q_requested_ q) v (terminate_ q) (admin_slots_ q) (session_id_ q).

(** the two halves of [request] and [request_admin] *)
Definition take_slot (admin : bool) (q : t) : res (Z * t) :=
  '(sid, f) ← (if admin then try_pop_admin (admin_slots_ q) (q_free_ q) else try_pop (q_free_ q));
  Ok (sid, with_free f q).
Definition enqueue (sid : Z) (q : t) : res t :=
  r ← push sid 0 (q_requested_ q); Ok (with_requested r q).
Definition request (q : t) : res (Z * t) :=
  '(sid, q) ← take_slot false q; q ← enqueue sid q; Ok (sid, q).
Definition request_admin (q : t) : res (Z * t) :=
  '(sid, q) ← take_slot true q; q ← enqueue sid q; Ok (sid, q).

Definition update_element (f : Element.t -> Element.t) (sid : Z) (q : t) : res t :=
  e ← at_ (v_requested_ q) (reset_admin sid);
  v ← put_at (v_requested_ q) (reset_admin sid) (f e);
  Ok (with_elements v q).

(** [wait] once the element is set ([answered]) or the time is over; [None] while
    it waits.  Both ways out reuse the element. *)
Definition wait (sid : Z) (timeout : bool) (q : t) : option (res Z * t) :=
  match at_ (v_requested_ q) (reset_admin sid) with
  | Ok e =>
      if Element.check e then
        match update_element Element.reuse sid q with
        | Ok q' => Some (Ok e, q') | Throw x => Some (Throw x, q) | Undefined => Some (Undefined, q)
        end
      else if timeout then
        match update_element Element.reuse sid q with
        | Ok q' => Some (Throw (runtime_error "connection response has not been accepted within the specified time"), q')
        | Throw x => Some (Throw x, q) | Undefined => Some (Undefined, q)
        end
      else None
  | Throw x => Some (Throw x, q)
  | Undefined => Some (Undefined, q)
  end.

Definition check (sid : Z) (q : t) : res bool :=
  e ← at_ (v_requested_ q) (reset_admin sid); Ok (Element.check e).

(** [listen] after its timed wait: [wait_cond] held, or the time is over *)
Definition listen (q : t) : Z * t :=
  if wait_cond (terminate_ q) (q_requested_ q)
  then (u64 (session_id_ q + 1),
        Connections (q_free_ q) (q_requested_ q) (v_requested_ q) (terminate_ q) (admin_slots_ q) (u64 (session_id_ q + 1)))
  else (0, q).

Definition slot (q : t) : res Z := front (q_requested_ q).

Definition accept (sid session_id : Z) (q : t) : res t :=
  update_element (Element.accept session_id) sid (with_requested (pop (q_requested_ q)) q).

Definition disconnect (sid : Z) (q : t) : res t :=
  f ← push sid (admin_slots_ q) (q_free_ q); Ok (with_free f q).

Definition reject (sid : Z) (q : t) : res t :=
  q ← update_element Element.reject sid (with_requested (pop (q_requested_ q)) q);
  disconnect sid q.

Definition request_terminate (q : t) : t :=
  Connections (q_free_ q) (q_requested_ q) (v_requested_ q) true (admin_slots_ q) (session_id_ q).
Definition is_terminated (q : t) : bool := terminate_ q.
Definition pending_requests (q : t) : Z := size (q_requested_ q).
Definition session_id_accepted (q : t) : Z := session_id_ q.

End ConnectionQueue.

(** * Slots and their administrator bit *)

Lemma admin_bit_bits s : 0 <= s < 2 ^ 63 -> Z.land s admin_bit = 0.
Proof.
  intros Hs. apply Z.bits_inj'. intros k Hk. unfold admin_bit. rewrite Z.land_spec, Z.bits_0, Z.pow2_bits_eqb by done.
  destruct (Z.eqb_spec 63 k) as [<-|]; [|apply andb_false_r]. rewrite andb_true_r.
  apply Z.bits_above_log2; [lia|]. destruct (decide (s = 0)) as [->|]; [done|]. apply Z.log2_lt_pow2; lia.
Qed.

Lemma is_admin_plain s : 0 <= s < 2 ^ 63 -> is_admin s = false.
Proof. intros Hs. unfold is_admin. by rewrite admin_bit_bits. Qed.
Lemma reset_admin_mod s : reset_admin s = s mod 2 ^ 63.
Proof. unfold reset_admin. change (u64 (Z.lnot admin_bit)) with (Z.ones 63). by rewrite Z.land_ones. Qed.
Lemma reset_admin_plain s : 0 <= s < 2 ^ 63 -> reset_admin s = s.
Proof. intros Hs. rewrite reset_admin_mod. by apply Z.mod_small. Qed.
Lemma set_admin_plus s : 0 <= s < 2 ^ 63 -> set_admin s = s + admin_bit.
Proof. intros Hs. unfold set_admin. pose proof (Z.add_lor_land s admin_bit). rewrite admin_bit_bits in *; lia. Qed.
Lemma reset_set_admin s : 0 <= s < 2 ^ 63 -> reset_admin (set_admin s) = s.
Proof.
  intros Hs. rewrite set_admin_plus, reset_admin_mod by done. unfold admin_bit.
  replace (s + 2 ^ 63) with (s + 1 * 2 ^ 63) by lia. rewrite Z_mod_plus_full. by apply Z.mod_small.
Qed.
Lemma is_admin_set s : is_admin (set_admin s) = true.
Proof.
  unfold is_admin, set_admin. apply negb_true_iff, Z.eqb_neq. intros E.
  assert (Z.testbit (Z.land (Z.lor s admin_bit) admin_bit) 63 = true) as Hb.
  { rewrite Z.land_spec, Z.lor_spec. change (Z.testbit admin_bit 63) with true. by rewrite orb_true_r. }
  by rewrite E in Hb.
Qed.

(** * A ring of slots *)

Lemma ring_push (buf l : list Z) cap a x :
  zlen buf = cap -> zlen l < cap -> holds buf cap a l ->
  exists buf', put_at buf ((a + zlen l) mod cap) x = Ok buf' /\ zlen buf' = cap /\ holds buf' cap a (l ++ [x]).
Proof.
  intros Hb Hl Hh. pose proof (zlen_nonneg l). assert (0 < cap) as Hc by lia.
  pose proof (Z.mod_pos_bound (a + zlen l) cap Hc) as Hm. unfold put_at. rewrite bool_decide_true by lia.
  eexists. split; [done|]. split; [unfold zlen in *; by rewrite length_insert|].
  apply holds_app. split.
  - intros i Hi. rewrite <- (Hh i Hi). apply list_lookup_insert_ne. intros E.
    apply Z2Nat.inj in E; [|lia|apply Z.mod_pos_bound; lia].
    pose proof (Z.mod_pos_bound a cap Hc). rewrite <- !(index_shift cap a), !mod_add_cases in E by lia.
    repeat case_bool_decide; lia.
  - intros i Hi. change (zlen [x]) with 1 in Hi. assert (i = 0) as -> by lia. rewrite Z.add_0_r.
    apply list_lookup_insert_eq. unfold zlen in Hb. lia.
Qed.

Lemma ring_front (buf l : list Z) cap a x : holds buf cap a (x :: l) -> at_ buf (a mod cap) = Ok x.
Proof.
  intros Hh. assert (0 <= 0 < zlen (x :: l)) as H0 by (rewrite zlen_cons; pose proof (zlen_nonneg l); lia).
  specialize (Hh 0 H0). rewrite Z.add_0_r in Hh. unfold at_. by rewrite Hh.
Qed.
Lemma ring_pop (buf l : list Z) cap a x : holds buf cap a (x :: l) -> holds buf cap (a + 1) l.
Proof. intros Hh. change (x :: l) with ([x] ++ l) in Hh. apply holds_app in Hh as [_ Hh]. done. Qed.

(** * Slots in use

    [held]: the slots taken by clients and sessions, with their administrator bit. *)

Definition admins (held : list Z) : Z := zlen (filter (fun s => is_admin s = true) held).
Definition normals (held : list Z) : Z := zlen held - admins held.

Module Free.
Import IndexQueue.

Record inv (n as_n k : Z) (q : IndexQueue.t) (held free : list Z) : Prop := {
  fi_cap : capacity_ q = n + as_n;
  fi_len : zlen (queue_ q) = n + as_n;
  fi_pushed : n <= pushed_ q <= n + k;
  fi_poped : poped_ q = pushed_ q - n + zlen held;
  fi_free : zlen free = n + as_n - zlen held;
  fi_in_use : admin_slots_in_use_ q = admins held;
  fi_holds : holds (queue_ q) (n + as_n) (poped_ q) free;
  fi_slots : free ++ map reset_admin held ≡ₚ seqZ 0 (n + as_n);
  fi_held : Forall (fun s => 0 <= s < n + as_n \/ exists s', 0 <= s' < n + as_n /\ s = set_admin s') held
}.
Section Free.
Context (n as_n : Z) (Hn : 0 <= n) (Has : 0 < as_n < 256) (Hsmall : n + as_n < 2 ^ 32).

Lemma free_create : inv n as_n 0 (fill as_n (IndexQueue.create (n + as_n))) [] (seqZ 0 (n + as_n)).
Proof using Hn Has Hsmall.
  assert (u32 (n + as_n) = n + as_n) as E by (apply wrap_small; unfold in_range; lia).
  assert (zlen (seqZ 0 (n + as_n)) = n + as_n) as El by (unfold zlen; rewrite length_seqZ; lia).
  unfold fill, IndexQueue.create. cbn [capacity_]. rewrite E.
  replace (n + as_n - as_n) with n by lia. rewrite wrap_small by (unfold in_range; lia).
  split; cbn [capacity_ queue_ pushed_ poped_ admin_slots_in_use_ map]; change (zlen []) with 0; try done; try lia.
  - intros i Hi. rewrite El in Hi. rewrite Z.add_0_l, Z.mod_small by lia. done.
  - by rewrite app_nil_r.
Qed.

Lemma admins_bounds held : 0 <= admins held <= zlen held.
Proof. unfold admins, zlen. pose proof (length_filter (fun s => is_admin s = true) held). lia. Qed.
Lemma admins_app h1 h2 : admins (h1 ++ h2) = admins h1 + admins h2.
Proof. unfold admins. by rewrite filter_app, zlen_app. Qed.
Lemma admins_one s : admins [s] = if is_admin s then 1 else 0.
Proof. unfold admins. rewrite filter_cons. by destruct (is_admin s). Qed.

Lemma held_plain k q held free : inv n as_n k q held free ->
  Forall (fun s => 0 <= s < n + as_n) free.
Proof.
  intros [_ _ _ _ _ _ _ Hp _]. apply Forall_forall. intros s Hs.
  assert (s ∈ seqZ 0 (n + as_n)) as Hin by (rewrite <- Hp; apply elem_of_app; by left).
  apply elem_of_seqZ in Hin. lia.
Qed.

(** what taking the first free slot does *)
Lemma pop_inv k q held s s0 free in_use :
  inv n as_n k q held (s0 :: free) -> k + n + as_n < 2 ^ 63 ->
  s = s0 /\ in_use = admins held \/ s = set_admin s0 /\ in_use = admins held + 1 ->
  at_ (queue_ q) (index q (poped_ q)) = Ok s0 /\
  inv n as_n k (IndexQueue (queue_ q) (capacity_ q) in_use (pushed_ q) (u64 (poped_ q + 1))) (held ++ [s]) free.
Proof using Hn Has Hsmall.
  intros Hi Hk Hs. pose proof (held_plain _ _ _ _ Hi) as Hfr. apply Forall_cons in Hfr as [Hs0 Hfr].
  destruct Hi as [Hc Hl Hpu Hpo Hf Hu Hh Hp He]. rewrite zlen_cons in Hf. pose proof (zlen_nonneg free). pose proof (zlen_nonneg held).
  assert (reset_admin s = s0) as Hr
    by (destruct Hs as [[-> _]|[-> _]]; [apply reset_admin_plain|apply reset_set_admin]; lia).
  split; [unfold index; rewrite Hc; by eapply ring_front|].
  split; cbn [capacity_ queue_ pushed_ poped_ admin_slots_in_use_]; rewrite ?zlen_app, ?admins_app, ?admins_one;
    change (zlen [s]) with 1; try done; try lia.
  - rewrite wrap_small by (unfold in_range; lia). lia.
  - destruct Hs as [[-> ->]|[-> ->]]; [rewrite is_admin_plain by lia; lia|by rewrite is_admin_set].
  - rewrite wrap_small by (unfold in_range; lia). by eapply ring_pop.
  - rewrite map_app. cbn [map]. rewrite Hr, <- Hp. cbn [app]. solve_Permutation.
  - apply Forall_app. split; [done|]. apply Forall_singleton. destruct Hs as [[-> _]|[-> _]]; eauto.
Qed.

Lemma free_nonempty k q held free : inv n as_n k q held free -> zlen held < n + as_n ->
  exists s0 free', free = s0 :: free'.
Proof.
  intros [_ _ _ _ Hf _ _ _ _] Hl. destruct free; [change (zlen []) with 0 in Hf; lia|eauto].
Qed.

Lemma try_pop_spec k q held free :
  inv n as_n k q held free -> admins held <= as_n -> k + n + as_n < 2 ^ 63 ->
  if bool_decide (normals held < n)
  then exists s free' q', free = s :: free' /\ try_pop q = Ok (s, q') /\ inv n as_n k q' (held ++ [s]) free'
  else try_pop q = Throw (runtime_error "no request slot is available for normal request").
Proof using Hn Has Hsmall.
  intros Hi Ha Hk. pose proof Hi as [Hc Hl Hpu Hpo Hf Hu Hh Hp He]. pose proof (admins_bounds held). pose proof (zlen_nonneg free).
  unfold try_pop, normals. rewrite Hu, wrap_small by (unfold in_range; lia). case_bool_decide as Hlt.
  - replace (_ <=? _) with false by lia. destruct (free_nonempty _ _ _ _ Hi) as (s0 & free' & ->); [lia|].
    destruct (pop_inv k q held s0 s0 free' (admins held) Hi Hk) as [-> Hi']; [by left|]. cbn [mbind res_bind].
    exists s0, free'. eexists. done.
  - by replace (_ <=? _) with true by lia.
Qed.

Lemma try_pop_admin_spec k q held free :
  inv n as_n k q held free -> admins held <= as_n -> k + n + as_n < 2 ^ 63 ->
  if bool_decide (normals held + 2 * admins held < n + as_n)
  then exists s free' q', free = s :: free' /\ try_pop_admin as_n q = Ok (set_admin s, q') /\
         (admins held < as_n -> inv n as_n k q' (held ++ [set_admin s]) free')
  else try_pop_admin as_n q = Throw (runtime_error "no request slot is available for admin request").
Proof using Hn Has Hsmall.
  intros Hi Ha Hk. pose proof Hi as [Hc Hl Hpu Hpo Hf Hu Hh Hp He]. pose proof (admins_bounds held). pose proof (zlen_nonneg free).
  unfold try_pop_admin, normals. rewrite Hu, (wrap_small 64 (_ + _)) by (unfold in_range; lia). case_bool_decide as Hlt.
  - replace (_ <=? _) with false by lia. destruct (free_nonempty _ _ _ _ Hi) as (s0 & free' & ->); [lia|].
    destruct (pop_inv k q held (set_admin s0) s0 free' (admins held + 1) Hi Hk) as [-> Hi']; [by right|]. cbn [mbind res_bind].
    exists s0, free'. eexists. split_and!; [done..|]. intros Hlt'. by rewrite wrap_small by (unfold in_range; lia).
  - by replace (_ <=? _) with true by lia.
Qed.

Lemma push_spec k q h1 s h2 free :
  inv n as_n k q (h1 ++ s :: h2) free -> admins (h1 ++ s :: h2) <= as_n -> k + n + as_n + 1 < 2 ^ 63 ->
  exists q', push s as_n q = Ok q' /\ inv n as_n (k + 1) q' (h1 ++ h2) (free ++ [reset_admin s]).
Proof using Hn Has Hsmall.
  intros [Hc Hl Hpu Hpo Hf Hu Hh Hp He] Ha Hk. pose proof (zlen_nonneg free). pose proof (zlen_nonneg h1). pose proof (zlen_nonneg h2).
  pose proof (admins_bounds h1). pose proof (admins_bounds h2).
  rewrite (cons_middle s h1 h2), !admins_app, admins_one in *. rewrite !zlen_app in *. change (zlen [s]) with 1 in *.
  destruct (ring_push (queue_ q) free (n + as_n) (poped_ q) (reset_admin s)) as (buf & Eb & Hbl & Hbh); [done|lia|done|].
  replace ((poped_ q + zlen free) mod (n + as_n)) with (index q (u64 (pushed_ q + as_n))) in Eb
    by (unfold index; rewrite Hc, wrap_small by (unfold in_range; lia); f_equal; lia).
  apply Forall_app in He as [He1 He2]. apply Forall_app in He2 as [He2 He3]. apply Forall_cons in He2 as [He2 _].
  assert (forall in_use, in_use = admins h1 + admins h2 ->
    inv n as_n (k + 1) (IndexQueue buf (capacity_ q) in_use (u64 (pushed_ q + 1)) (poped_ q)) (h1 ++ h2) (free ++ [reset_admin s])) as Hinv.
  { intros u ->. split; cbn [capacity_ queue_ pushed_ poped_ admin_slots_in_use_]; rewrite ?zlen_app, ?admins_app;
      change (zlen [reset_admin s]) with 1; try rewrite wrap_small by (unfold in_range; lia); try done; try lia.
    - rewrite <- Hp, !map_app. cbn [map]. solve_Permutation.
    - apply Forall_app. done. }
  unfold push. replace (as_n >? 0) with true by lia. cbn [andb]. destruct (is_admin s) eqn:Ea.
  - rewrite Eb. cbn [mbind res_bind]. eexists. split; [done|]. apply Hinv. rewrite Hu, wrap_small by (unfold in_range; lia). lia.
  - assert (reset_admin s = s) as Er.
    { destruct He2 as [?|(s' & _ & ->)]; [apply reset_admin_plain; lia|by rewrite is_admin_set in Ea]. }
    rewrite Er in Eb, Hinv |- *. rewrite Eb. cbn [mbind res_bind]. eexists. split; [done|]. apply Hinv. lia.
Qed.

Lemma inv_perm k q h1 h2 free : h1 ≡ₚ h2 -> inv n as_n k q h1 free -> inv n as_n k q h2 free.
Proof.
  intros Hp [Hc Hl Hpu Hpo Hf Hu Hh Hs He].
  assert (zlen h2 = zlen h1) as El by (unfold zlen; by rewrite Hp).
  assert (admins h2 = admins h1) as Ea by (unfold admins, zlen; by rewrite Hp).
  split; rewrite ?El, ?Ea; try done; [by rewrite <- Hp|by rewrite <- Hp].
Qed.

Lemma inv_later k k' q h free : k <= k' -> inv n as_n k q h free -> inv n as_n k' q h free.
Proof. intros Hk [Hc Hl Hpu Hpo Hf Hu Hh Hs He]. split; try done. lia. Qed.

Lemma held_slot k q h free s : inv n as_n k q h free -> s ∈ h -> 0 <= reset_admin s < n + as_n.
Proof.
  intros [_ _ _ _ _ _ _ Hp _] Hs.
  assert (reset_admin s ∈ seqZ 0 (n + as_n)) as Hin
    by (rewrite <- Hp; apply elem_of_app; right; by apply list_elem_of_fmap_2).
  apply elem_of_seqZ in Hin. lia.
Qed.

End Free.
End Free.

(** * Clients and the listener

    The slots taken but not yet requested, requested, and in use by a session. *)
Module Connections.
Import IndexQueue ConnectionQueue.

Record ghost := Ghost { arriving : list Z; pending : list Z; active : list Z }.
Definition held (g : ghost) : list Z := arriving g ++ pending g ++ active g.

Inductive action :=
| C_take (admin : bool)
| C_enqueue (i : nat)
| L_accept (session_id : Z)
| L_reject
| S_disconnect (i : nat).

Definition exec (a : action) (st : ConnectionQueue.t * ghost) : res (ConnectionQueue.t * ghost) :=
  let '(q, g) := st in
  match a with
  | C_take admin =>
      '(sid, q') ← take_slot admin q;
      Ok (q', Ghost (arriving g ++ [sid]) (pending g) (active g))
  | C_enqueue i =>
      match arriving g !! i with
      | Some sid => q' ← enqueue sid q;
                    Ok (q', Ghost (delete i (arriving g)) (pending g ++ [sid]) (active g))
      | None => Undefined
      end
  | L_accept session_id =>
      sid ← slot q; q' ← accept sid session_id q;
      Ok (q', Ghost (arriving g) (tail (pending g)) (active g ++ [sid]))
  | L_reject =>
      sid ← slot q; q' ← reject sid q;
      Ok (q', Ghost (arriving g) (tail (pending g)) (active g))
  | S_disconnect i =>
      match active g !! i with
      | Some sid => q' ← disconnect sid q;
                    Ok (q', Ghost (arriving g) (pending g) (delete i (active g)))
      | None => Undefined
      end
  end.

(** administrators respect their number of slots *)
Definition enabled (as_n : Z) (g : ghost) (a : action) : Prop :=
  match a with
  | C_take admin => admin = true -> admins (held g) < as_n
  | C_enqueue i => (i < length (arriving g))%nat
  | L_accept _ | L_reject => pending g <> []
  | S_disconnect i => (i < length (active g))%nat
  end.

Inductive reachable (n as_n : Z) : nat -> ConnectionQueue.t * ghost -> Prop :=
| reach_initial : reachable n as_n 0 (ConnectionQueue.create n as_n, Ghost [] [] [])
| reach_step k q g a st : reachable n as_n k (q, g) -> enabled as_n g a -> exec a (q, g) = Ok st ->
    reachable n as_n (S k) st.

Definition requested_ok (n as_n k : Z) (r : IndexQueue.t) (l : list Z) : Prop :=
  capacity_ r = n + as_n /\ zlen (queue_ r) = n + as_n /\ 0 <= poped_ r /\ pushed_ r <= k /\
  poped_ r = pushed_ r - zlen l /\ holds (queue_ r) (n + as_n) (poped_ r) l.

Record inv (n as_n k : Z) (q : ConnectionQueue.t) (g : ghost) : Prop := {
  ci_free : exists free, Free.inv n as_n k (q_free_ q) (held g) free;
  ci_admins : admins (held g) <= as_n;
  ci_normals : normals (held g) <= n;
  ci_slots : admin_slots_ q = as_n;
  ci_requested : requested_ok n as_n k (q_requested_ q) (pending g);
  ci_elements : zlen (v_requested_ q) = n + as_n
}.
Section Connections.
Context (n as_n : Z) (Hn : 0 <= n) (Has : 0 < as_n < 256) (Hsmall : n + as_n < 2 ^ 32).

Lemma initial_inv : inv n as_n 0 (ConnectionQueue.create n as_n) (Ghost [] [] []).
Proof using Hn Has Hsmall.
  assert (u8 as_n = as_n) as Ea by (apply wrap_small; unfold in_range; lia).
  assert (u64 (n + as_n) = n + as_n) as Es by (apply wrap_small; unfold in_range; lia).
  assert (u32 (n + as_n) = n + as_n) as Eu by (apply wrap_small; unfold in_range; lia).
  unfold ConnectionQueue.create. rewrite Ea, Es.
  split; cbn [q_free_ q_requested_ v_requested_ admin_slots_ IndexQueue.create capacity_ queue_ pushed_ poped_ pending];
    rewrite ?Eu; try done; try (change (admins (held _)) with 0; lia); try (unfold zlen; rewrite length_replicate; lia).
  - eexists. by apply Free.free_create.
  - unfold requested_ok. cbn [capacity_ queue_ pushed_ poped_ IndexQueue.create]. rewrite Eu.
    split_and!; try done; [unfold zlen; rewrite length_replicate; lia|apply holds_nil].
Qed.

Lemma update_element_ok f sid q :
  0 <= reset_admin sid < zlen (v_requested_ q) ->
  exists v, update_element f sid q = Ok (with_elements v q) /\ zlen v = zlen (v_requested_ q).
Proof.
  intros Hs. unfold update_element, at_, put_at.
  destruct (lookup_lt_is_Some_2 (v_requested_ q) (Z.to_nat (reset_admin sid))) as [e Ee]; [unfold zlen in Hs; lia|].
  rewrite Ee. cbn [mbind res_bind]. rewrite bool_decide_true by done. cbn [mbind res_bind].
  eexists. split; [done|]. unfold zlen. by rewrite length_insert.
Qed.

Lemma held_length k q g : inv n as_n k q g -> zlen (held g) <= n + as_n.
Proof. intros [(free & Hf) _ _ _ _ _]. destruct Hf. pose proof (zlen_nonneg free). lia. Qed.

Lemma requested_push k r l s :
  requested_ok n as_n k r l -> zlen l < n + as_n -> k + 1 < 2 ^ 63 ->
  exists r', push s 0 r = Ok r' /\ requested_ok n as_n (k + 1) r' (l ++ [s]).
Proof.
  intros (Hc & Hl & H0 & Hpu & Hpo & Hh) Hlt Hk. pose proof (zlen_nonneg l). unfold push. cbn [andb]. replace (0 >? 0) with false by lia. cbn [andb].
  destruct (ring_push (queue_ r) l (n + as_n) (poped_ r) s) as (b & Eb & Hbl & Hbh); [done..|].
  replace ((poped_ r + zlen l) mod (n + as_n)) with (index r (u64 (pushed_ r + 0))) in Eb
    by (unfold index; rewrite Hc, wrap_small by (unfold in_range; lia); f_equal; lia).
  rewrite Eb. cbn [mbind res_bind]. eexists. split; [done|].
  unfold requested_ok. cbn [capacity_ queue_ pushed_ poped_]. rewrite zlen_app. change (zlen [s]) with 1.
  rewrite wrap_small by (unfold in_range; lia). split_and!; try done; lia.
Qed.

Lemma requested_pop k r s l : requested_ok n as_n k r (s :: l) -> k + 1 < 2 ^ 63 ->
  front r = Ok s /\ requested_ok n as_n (k + 1) (pop r) l.
Proof.
  intros (Hc & Hl & H0 & Hpu & Hpo & Hh) Hk. rewrite zlen_cons in Hpo. pose proof (zlen_nonneg l).
  unfold front, index. rewrite Hc. split; [by eapply ring_front|].
  unfold requested_ok, pop. cbn [capacity_ queue_ pushed_ poped_]. rewrite wrap_small by (unfold in_range; lia).
  split_and!; try done; try lia. by eapply ring_pop.
Qed.

Lemma take_inv k q g admin :
  inv n as_n k q g -> enabled as_n g (C_take admin) -> k + n + as_n + 1 < 2 ^ 63 ->
  (exists q' g', exec (C_take admin) (q, g) = Ok (q', g') /\ inv n as_n k q' g') \/
  (exists e, exec (C_take admin) (q, g) = Throw e /\
     if admin then n + as_n <= normals (held g) + 2 * admins (held g) else n <= normals (held g)).
Proof using Hn Has Hsmall.
  intros [(free & Hf) Ha Hno Hs Hr He] Hen Hk. cbn [exec]. unfold take_slot. rewrite Hs. cbn in Hen.
  assert (forall s, held g ++ [s] ≡ₚ held (Ghost (arriving g ++ [s]) (pending g) (active g))) as Hp
    by (intros s; unfold held; cbn; solve_Permutation).
  assert (forall s f free', Free.inv n as_n k f (held g ++ [s]) free' -> admins (held g ++ [s]) <= as_n ->
    normals (held g ++ [s]) <= n ->
    inv n as_n k (with_free f q) (Ghost (arriving g ++ [s]) (pending g) (active g))) as Hmk.
  { intros s f free' Hf' Ha' Hn'. assert (forall h, held g ++ [s] ≡ₚ h -> admins h = admins (held g ++ [s])) as Eadm
      by (intros h E; unfold admins, zlen; by rewrite E).
    assert (forall h, held g ++ [s] ≡ₚ h -> zlen h = zlen (held g ++ [s])) as Elen by (intros h E; unfold zlen; by rewrite E).
    split; try done; unfold normals in *; rewrite ?(Eadm _ (Hp s)), ?(Elen _ (Hp s)); try done.
    exists free'. eapply Free.inv_perm; [apply Hp|done]. }
  destruct admin.
  - pose proof (Free.try_pop_admin_spec n as_n Hn Has Hsmall k _ _ _ Hf Ha ltac:(lia)) as Hpop. case_bool_decide as Hlt.
    + left. destruct Hpop as (s & free' & f & _ & -> & Hf'). cbn [mbind res_bind]. do 2 eexists. split; [done|].
      eapply Hmk; [by apply Hf', Hen|..]; unfold normals in *; rewrite ?zlen_app, Free.admins_app, Free.admins_one, is_admin_set;
        change (zlen [_]) with 1; [specialize (Hen eq_refl)|]; lia.
    + right. rewrite Hpop. cbn [mbind res_bind]. eexists. split; [done|lia].
  - pose proof (Free.try_pop_spec n as_n Hn Has Hsmall k _ _ _ Hf Ha ltac:(lia)) as Hpop. case_bool_decide as Hlt.
    + left. destruct Hpop as (s & free' & f & -> & -> & Hf'). cbn [mbind res_bind]. do 2 eexists. split; [done|].
      pose proof (Free.held_plain n as_n _ _ _ _ Hf) as Hpl. apply Forall_cons in Hpl as [Hpl _].
      eapply Hmk; [done|..]; unfold normals in *; rewrite ?zlen_app, Free.admins_app, Free.admins_one, is_admin_plain by lia;
        change (zlen [_]) with 1; lia.
    + right. rewrite Hpop. cbn [mbind res_bind]. eexists. split; [done|lia].
Qed.

Lemma held_perm g g' : held g ≡ₚ held g' -> admins (held g) = admins (held g') /\ normals (held g) = normals (held g').
Proof. intros E. unfold normals, admins, zlen. by rewrite E. Qed.

(** the slots held do not change *)
Lemma move_inv k q g q' g' :
  inv n as_n k q g -> held g ≡ₚ held g' -> q_free_ q' = q_free_ q -> admin_slots_ q' = admin_slots_ q ->
  requested_ok n as_n (k + 1) (q_requested_ q') (pending g') -> zlen (v_requested_ q') = zlen (v_requested_ q) ->
  inv n as_n (k + 1) q' g'.
Proof using Hn Has Hsmall.
  intros [(free & Hf) Ha Hno Hs Hr He] Hp E1 E2 Hr' E3. destruct (held_perm _ _ Hp) as [Ea En].
  split; rewrite ?E1, ?E2, ?E3, <- ?Ea, <- ?En; try done.
  exists free. eapply Free.inv_later; [|by eapply Free.inv_perm; [exact Hp|]]. lia.
Qed.

(** a slot is given back *)
Lemma disconnect_inv k q g q' g' s :
  inv n as_n k q g -> held g ≡ₚ s :: held g' -> k + n + as_n + 2 < 2 ^ 63 ->
  q_free_ q' = q_free_ q -> admin_slots_ q' = admin_slots_ q ->
  requested_ok n as_n (k + 1) (q_requested_ q') (pending g') -> zlen (v_requested_ q') = zlen (v_requested_ q) ->
  exists q2, disconnect s q' = Ok q2 /\ inv n as_n (k + 1) q2 g'.
Proof using Hn Has Hsmall.
  intros [(free & Hf) Ha Hno Hs Hr He] Hp Hk E1 E2 Hr' E3.
  assert (admins (held g) = admins [s] + admins (held g')) as Ea
    by (rewrite <- Free.admins_app; unfold admins, zlen; by rewrite Hp).
  assert (zlen (held g) = 1 + zlen (held g')) as El by (unfold zlen; rewrite Hp; cbn; lia).
  pose proof (Free.admins_bounds [s]) as Hb1. change (zlen [s]) with 1 in Hb1.
  destruct (Free.push_spec n as_n Hn Has Hsmall k (q_free_ q) [] s (held g') free) as (f & Ef & Hfi).
  - cbn [app]. by eapply Free.inv_perm; [exact Hp|].
  - cbn [app]. change (s :: held g') with ([s] ++ held g'). rewrite Free.admins_app. lia.
  - lia.
  - unfold disconnect. rewrite E1, E2, Hs, Ef. cbn [mbind res_bind]. eexists. split; [done|].
    unfold normals in *. split; cbn [q_free_ q_requested_ admin_slots_ v_requested_ with_free]; unfold normals; rewrite ?E2, ?E3; try done; try lia.
    by eexists.
Qed.

Lemma conn_inv_step k q g : inv n as_n k q g -> inv n as_n (k + 1) q g.
Proof using Hn Has Hsmall.
  intros Hi. eapply move_inv; try done. destruct Hi as [_ _ _ _ (? & ? & ? & ? & ? & ?) _].
  unfold requested_ok. split_and!; done || lia.
Qed.

Lemma pending_slot k q g s l f :
  inv n as_n k q g -> pending g = s :: l -> k + n + as_n + 2 < 2 ^ 63 ->
  slot q = Ok s /\ exists v, update_element f s (with_requested (pop (q_requested_ q)) q) =
      Ok (with_elements v (with_requested (pop (q_requested_ q)) q)) /\ zlen v = zlen (v_requested_ q) /\
  requested_ok n as_n (k + 1) (pop (q_requested_ q)) l.
Proof using Hn Has Hsmall.
  intros Hi Ep Hk. pose proof Hi as [(free & Hf) Ha Hno Hs Hr He]. rewrite Ep in Hr.
  destruct (requested_pop k _ s l Hr ltac:(lia)) as [Hfr Hr'].
  assert (0 <= reset_admin s < n + as_n) as Hsl.
  { eapply Free.held_slot; [exact Hf|]. unfold held. rewrite Ep. set_solver. }
  destruct (update_element_ok f s (with_requested (pop (q_requested_ q)) q)) as (v & Ev & Hv); [cbn [v_requested_ with_requested]; by rewrite He|].
  split; [done|]. by exists v.
Qed.

(** every enabled step succeeds, but for requests that are not admitted *)
Lemma exec_spec k q g a :
  inv n as_n k q g -> enabled as_n g a -> k + n + as_n + 2 < 2 ^ 63 ->
  (exists q' g', exec a (q, g) = Ok (q', g') /\ inv n as_n (k + 1) q' g') \/
  (exists e admin, a = C_take admin /\ exec a (q, g) = Throw e /\
     if admin then n + as_n <= normals (held g) + 2 * admins (held g) else n <= normals (held g)).
Proof using Hn Has Hsmall.
  intros Hi Hen Hk. destruct a as [admin|i|sess| |i].
  - destruct (take_inv k q g admin Hi Hen ltac:(lia)) as [(q' & g' & E & Hi')|(e & E & H)]; [left|right; eauto].
    exists q', g'. split; [done|]. by apply conn_inv_step.
  - left. cbn in Hen. cbn [exec]. destruct (lookup_lt_is_Some_2 _ _ Hen) as [s Es]. rewrite Es.
    pose proof (delete_Permutation _ _ _ Es) as Hp. pose proof (held_length _ _ _ Hi) as Hl. pose proof Hi as [_ _ _ _ Hr _].
    destruct (requested_push k (q_requested_ q) (pending g) s) as (r & Er & Hr'); [done| |lia|].
    { unfold held, zlen in *. rewrite Hp in Hl. cbn in Hl. rewrite length_app in Hl. cbn in Hl. rewrite length_app in Hl. lia. }
    unfold enqueue. rewrite Er. cbn [mbind res_bind]. do 2 eexists. split; [done|]. eapply move_inv; [done|..]; try done.
    unfold held. cbn. rewrite Hp at 1. solve_Permutation.
  - left. cbn in Hen. cbn [exec]. destruct (pending g) as [|s l] eqn:Ep; [done|].
    destruct (pending_slot k q g s l (Element.accept sess) Hi Ep Hk) as (-> & v & Ev & Hv & Hr').
    cbn [mbind res_bind]. unfold accept. rewrite Ev. cbn [mbind res_bind]. do 2 eexists. split; [done|].
    eapply move_inv; [done|..]; try done. unfold held. rewrite Ep. cbn. solve_Permutation.
  - left. cbn in Hen. cbn [exec]. destruct (pending g) as [|s l] eqn:Ep; [done|].
    destruct (pending_slot k q g s l Element.reject Hi Ep Hk) as (-> & v & Ev & Hv & Hr').
    cbn [mbind res_bind]. unfold reject. rewrite Ev. cbn [mbind res_bind].
    destruct (disconnect_inv k q g (with_elements v (with_requested (pop (q_requested_ q)) q))
                (Ghost (arriving g) l (active g)) s) as (q2 & -> & Hi2); try done.
    { unfold held. rewrite Ep. cbn. solve_Permutation. }
    cbn [mbind res_bind]. by do 2 eexists.
  - left. cbn in Hen. cbn [exec]. destruct (lookup_lt_is_Some_2 _ _ Hen) as [s Es]. rewrite Es.
    pose proof (delete_Permutation _ _ _ Es) as Hp. pose proof (conn_inv_step _ _ _ Hi) as [_ _ _ _ Hr _].
    destruct (disconnect_inv k q g q (Ghost (arriving g) (pending g) (delete i (active g))) s) as (q2 & -> & Hi2); try done.
    { unfold held. cbn. rewrite Hp at 1. solve_Permutation. }
    cbn [mbind res_bind]. by do 2 eexists.
Qed.

Lemma conn_reachable_inv k q g : reachable n as_n k (q, g) -> Z.of_nat k + n + as_n + 2 < 2 ^ 63 ->
  inv n as_n (Z.of_nat k) q g.
Proof using Hn Has Hsmall.
  intros Hr. remember (q, g) as st eqn:E. revert q g E. induction Hr as [|k q0 g0 a st Hr IH Hen Hex]; intros q g E Hk.
  - simplify_eq. apply initial_inv.
  - subst st. specialize (IH _ _ eq_refl ltac:(lia)).
    destruct (exec_spec _ q0 g0 a IH Hen ltac:(lia)) as [(q' & g' & E & Hi)|(e & ad & _ & E & _)]; rewrite E in Hex; simplify_eq.
    by replace (Z.of_nat (S k)) with (Z.of_nat k + 1) by lia.
Qed.

End Connections.

(** C10: as long as administrators take at most their number of slots, the slots of
    the clients and sessions are pairwise different and in range, at most [n] of
    them are normal ones, the counter of administrators is exact, and the listener
    sees the requests in the order they were made; every operation succeeds, except
    a request for a slot when none is available. *)
Theorem connection_slots n as_n k q g :
  0 <= n -> 0 < as_n < 256 -> n + as_n < 2 ^ 32 -> reachable n as_n k (q, g) -> Z.of_nat k < 2 ^ 62 ->
  NoDup (map reset_admin (held g)) /\ Forall (fun s => 0 <= reset_admin s < n + as_n) (held g) /\
  normals (held g) <= n /\ admin_slots_in_use_ (q_free_ q) = admins (held g) /\
  pending_requests q = zlen (pending g) /\
  (forall s l, pending g = s :: l -> slot q = Ok s) /\
  (forall a, enabled as_n g a -> (exists st, exec a (q, g) = Ok st) \/ (exists admin, a = C_take admin)).
Proof.
  intros Hn Has Hs Hr Hk. pose proof (conn_reachable_inv n as_n Hn Has Hs k q g Hr ltac:(lia)) as Hi.
  pose proof Hi as [(free & Hf) Ha Hno Hsl (? & ? & ? & ? & ? & ?) He]. pose proof (zlen_nonneg (pending g)). split_and!.
  - destruct Hf as [_ _ _ _ _ _ _ Hp _]. assert (NoDup (free ++ map reset_admin (held g))) as Hnd by (rewrite Hp; apply NoDup_seqZ).
    by apply NoDup_app in Hnd as (_ & _ & ?).
  - apply Forall_forall. intros s Hin. by eapply Free.held_slot.
  - done.
  - apply Hf.
  - unfold pending_requests, size. rewrite wrap_small; [lia|unfold in_range; lia].
  - intros s l El. by destruct (pending_slot n as_n Hn Has Hs (Z.of_nat k) q g s l (fun e => e) Hi El ltac:(lia)).
  - intros a Hen. destruct (exec_spec n as_n Hn Has Hs (Z.of_nat k) q g a Hi Hen ltac:(lia)) as [(q' & g' & E & _)|(e & ad & -> & _)]; eauto.
Qed.

(** Admission.  With [U] normal and [A] administrator slots in use, a normal
    request is admitted exactly when [U < n]; an administrator's exactly when
    [U + 2A < n + as].  So with all normal slots in use only half of the
    administrator slots can be taken, and with few normal sessions more than
    [as] administrators are admitted. *)
Theorem connection_admission n as_n k q g :
  0 <= n -> 0 < as_n < 256 -> n + as_n < 2 ^ 32 -> reachable n as_n k (q, g) -> Z.of_nat k < 2 ^ 62 ->
  (is_Ok (take_slot false q) <-> normals (held g) < n) /\
  (is_Ok (take_slot true q) <-> normals (held g) + 2 * admins (held g) < n + as_n).
Proof.
  intros Hn Has Hs Hr Hk. pose proof (conn_reachable_inv n as_n Hn Has Hs k q g Hr ltac:(lia)) as [(free & Hf) Ha Hno Hsl _ _].
  unfold take_slot, is_Ok. rewrite Hsl. split.
  - pose proof (Free.try_pop_spec n as_n Hn Has Hs _ _ _ _ Hf Ha ltac:(lia)) as Hpop. case_bool_decide.
    + destruct Hpop as (s & f' & q' & _ & -> & _). cbn [mbind res_bind]. split; eauto.
    + rewrite Hpop. cbn [mbind res_bind]. split; [by intros [? ?]|lia].
  - pose proof (Free.try_pop_admin_spec n as_n Hn Has Hs _ _ _ _ Hf Ha ltac:(lia)) as Hpop. case_bool_decide.
    + destruct Hpop as (s & f' & q' & _ & -> & _). cbn [mbind res_bind]. split; eauto.
    + rewrite Hpop. cbn [mbind res_bind]. split; [by intros [? ?]|lia].
Qed.

Definition exec_all (acts : list action) (st : ConnectionQueue.t * ghost) : res (ConnectionQueue.t * ghost) :=
  fold_left (fun r a => r ≫= exec a) acts (Ok st).

(** One administrator slot beside two normal ones: two administrators are
    admitted, then two normal clients, and the last one is given the slot of the
    first administrator, whose session is still in use. *)
Theorem admin_double_allocation :
  match exec_all [C_take true; C_take true; C_take false; C_take false]
          (ConnectionQueue.create 2 1, Ghost [] [] []) with
  | Ok (_, g) => map reset_admin (held g) = [0; 1; 2; 0]
  | _ => False
  end.
Proof. vm_compute. done. Qed.

Lemma exec_all_failed (acts : list action) (r : res (ConnectionQueue.t * ghost)) :
  r = Undefined \/ (exists e, r = Throw e) -> forall st, fold_left (fun r a => r ≫= exec a) acts r = Ok st -> False.
Proof.
  revert r. induction acts as [|a acts IH]; intros r Hr st; cbn [fold_left]; [by destruct Hr as [->|[? ->]]|].
  apply IH. destruct Hr as [->|[e ->]]; cbn [mbind res_bind]; eauto.
Qed.

Lemma conn_reachable_run n as_n k acts st st' :
  reachable n as_n k st -> exec_all acts st = Ok st' ->
  (forall i st1, exec_all (take i acts) st = Ok st1 ->
     match acts !! i with Some a => enabled as_n (snd st1) a | None => True end) ->
  reachable n as_n (k + length acts) st'.
Proof.
  revert k st. induction acts as [|a acts IH]; intros k st Hr He Hen.
  - cbn in He. simplify_eq. by rewrite Nat.add_0_r.
  - unfold exec_all in He. cbn [fold_left mbind res_bind] in He. destruct st as [q g].
    destruct (exec a (q, g)) as [st1|e|] eqn:E; [|by eapply (exec_all_failed acts) in He; eauto..].
    replace (k + length (a :: acts))%nat with (S k + length acts)%nat by (cbn; lia). eapply IH; [|exact He|].
    + eapply reach_step; [done| |exact E]. by apply (Hen O (q, g)).
    + intros i st2 H2. apply (Hen (S i) st2). unfold exec_all in *. cbn [firstn fold_left mbind res_bind]. by rewrite E.
Qed.

Definition demo_acts : list action := [C_take false; C_take true; C_enqueue 1; C_enqueue 0; L_accept 7].

Lemma demo_reachable : exists q g, reachable 2 1 5 (q, g) /\ pending g = [0] /\
  normals (held g) = 1 /\ admins (held g) = 1.
Proof.
  destruct (exec_all demo_acts (ConnectionQueue.create 2 1, Ghost [] [] [])) as [[q g]| |] eqn:E;
    [|by vm_compute in E|by vm_compute in E]. exists q, g.
  split; [|vm_compute in E; by simplify_eq].
  apply (conn_reachable_run 2 1 O demo_acts _ _ (reach_initial 2 1) E).
  intros i st1 H1. do 5 (destruct i as [|i]; [vm_compute in H1; simplify_eq; vm_compute; try done; lia|]). done.
Qed.

Lemma connection_slots_witness : exists q g, reachable 2 1 5 (q, g) /\ pending g = [0] /\
  NoDup (map reset_admin (held g)) /\ slot q = Ok 0.
Proof.
  destruct demo_reachable as (q & g & Hr & Hp & _).
  destruct (connection_slots 2 1 5 q g ltac:(lia) ltac:(lia) ltac:(lia) Hr ltac:(lia)) as (H1 & _ & _ & _ & _ & H2 & _).
  exists q, g. split_and!; try done. by apply (H2 0 []).
Defined.

Lemma connection_admission_witness : exists q g, reachable 2 1 5 (q, g) /\
  normals (held g) = 1 /\ admins (held g) = 1 /\ is_Ok (take_slot false q) /\ ~ is_Ok (take_slot true q).
Proof.
  destruct demo_reachable as (q & g & Hr & Hp & H1 & H2).
  destruct (connection_admission 2 1 5 q g ltac:(lia) ltac:(lia) ltac:(lia) Hr ltac:(lia)) as [Ha Hb].
  exists q, g. split_and!; try done; [apply Ha; lia|]. intros H. apply Hb in H. lia.
Defined.
End Connections.
