(* ===== verification/Text.v ===== *)
(** Text conversions of the C++ library that the session service and the
    configuration use: [std::to_string], [std::stol], [std::stoul], and
    [boost::algorithm::split]/[trim] as used for lists of names. *)
From stdpp Require Import pretty.
From S2P Require Import Prelude.
From Stdlib Require Import Ascii String.

Module Text.

Definition is_space (c : ascii) : bool :=
  let n := Ascii.nat_of_ascii c in (n =? 32)%nat || ((9 <=? n)%nat && (n <=? 13)%nat).
Definition digit (c : ascii) : option Z :=
  let n := Z.of_nat (Ascii.nat_of_ascii c) in
  if (48 <=? n) && (n <=? 57) then Some (n - 48) else None.

Fixpoint skip_space (s : string) : string :=
  match s with String c s' => if is_space c then skip_space s' else s | EmptyString => s end.

(** the longest run of digits *)
Fixpoint digits (acc : Z) (s : string) : Z :=
  match s with
  | String c s' => match digit c with Some d => digits (acc * 10 + d) s' | None => acc end
  | EmptyString => acc
  end.
Definition magnitude (s : string) : option Z :=
  match s with
  | String c _ => match digit c with Some _ => Some (digits 0 s) | None => None end
  | EmptyString => None
  end.

(** sign and magnitude, as [strtol] and [strtoul] read them *)
Definition signed_number (s : string) : option (bool * Z) :=
  match skip_space s with
  | String "-" s' => (fun v => (true, v)) <$> magnitude s'
  | String "+" s' => (fun v => (false, v)) <$> magnitude s'
  | s' => (fun v => (false, v)) <$> magnitude s'
  end.

Definition stol (s : string) : res Z :=
  match signed_number s with
  | None => Throw (invalid_argument "stol")
  | Some (neg, v) =>
      let x := if neg then - v else v in
      if bool_decide (- 2 ^ 63 <= x < 2 ^ 63) then Ok x else Throw out_of_range
  end.

(** a negative number is negated in the unsigned type *)
Definition stoul (s : string) : res Z :=
  match signed_number s with
  | None => Throw (invalid_argument "stoul")
  | Some (neg, v) =>
      if bool_decide (v < 2 ^ 64) then Ok (u64 (if neg then - v else v)) else Throw out_of_range
  end.

Definition to_string (x : Z) : string := pretty x.

(** * [stol] reads back what [to_string] prints *)

Definition starts_with_digit (s : string) : Prop :=
  exists c s', s = String c s' /\ is_Some (digit c).

Lemma digit_char x : (x < 10)%N -> digit (pretty_N_char x) = Some (Z.of_N x).
Proof.
  intros Hx. assert (x = 0 \/ x = 1 \/ x = 2 \/ x = 3 \/ x = 4 \/ x = 5 \/ x = 6 \/ x = 7 \/ x = 8 \/ x = 9)%N by lia.
  by repeat destruct H as [->|H]; [..|subst].
Qed.

Lemma pretty_digits x s :
  digits 0 (pretty_N_go x s) = digits (Z.of_N x) s /\
  ((0 < x)%N \/ starts_with_digit s -> starts_with_digit (pretty_N_go x s)).
Proof.
  revert s. induction (N.lt_wf_0 x) as [x _ IH]; intros s.
  destruct (decide (x = 0%N)) as [->|Hx]; [by rewrite pretty_N_go_0; split; [|intros [?|?]]|].
  rewrite pretty_N_go_step by lia. destruct (IH (x `div` 10)%N ltac:(apply N.div_lt; lia)
    (String (pretty_N_char (x `mod` 10)) s)) as [Hd Hs].
  pose proof (digit_char (x `mod` 10) ltac:(apply N.mod_lt; lia)) as Hc. split.
  - rewrite Hd. cbn [digits]. rewrite Hc. f_equal.
    pose proof (N.div_mod x 10 ltac:(done)). lia.
  - intros _. apply Hs. right. do 2 eexists. split; [done|]. by rewrite Hc.
Qed.

Lemma digit_plain c d : digit c = Some d -> is_space c = false /\ c <> "-"%char /\ c <> "+"%char.
Proof. destruct c as [[] [] [] [] [] [] [] []]; vm_compute; (by intros) || (by intros [=]) || done. Qed.

Lemma signed_number_digits s : starts_with_digit s -> signed_number s = Some (false, digits 0 s).
Proof.
  intros (c & s' & -> & d & Hd). destruct (digit_plain _ _ Hd) as (Hsp & Hm & Hp).
  unfold signed_number. cbn [skip_space]. rewrite Hsp.
  assert (magnitude (String c s') = Some (digits 0 (String c s'))) as Em by (cbn [magnitude]; by rewrite Hd).
  destruct c as [[] [] [] [] [] [] [] []]; by rewrite ?Em || (vm_compute in Hd; congruence).
Qed.

Lemma to_string_number x : 0 <= x -> signed_number (to_string x) = Some (false, x).
Proof.
  intros Hx. destruct x as [|p|p]; [done| |lia].
  change (to_string (Z.pos p)) with (if decide (N.pos p = 0%N) then "0" else pretty_N_go (N.pos p) "").
  rewrite decide_False by done. destruct (pretty_digits (N.pos p) "") as [Hd Hs].
  rewrite signed_number_digits by (apply Hs; left; lia). by rewrite Hd.
Qed.

Lemma stol_to_string x : 0 <= x < 2 ^ 63 -> stol (to_string x) = Ok x.
Proof.
  intros Hx. unfold stol. rewrite to_string_number by lia. by rewrite bool_decide_true by lia.
Qed.

End Text.
