(* ===== verification/Configuration.v ===== *)
(** The configuration (include/tateyama/api/configuration.h).

    A configuration is two property trees, read from the configuration file and from the
    built-in default, and a section object for every section of the default.  A section
    refers to its subtrees inside the trees, so that what is set in one is seen by everybody:
    here a section is the name of its subtree and the tree it refers to, and every operation
    takes the whole configuration.  Boost code is a parameter: reading of ini files, conversion
    of strings, splitting, trimming and caseless comparison. *)
From stdpp Require Import gmap strings.
From S2P Require Import Prelude.

(** the children of a node, in their order; read_ini refuses duplicate names.  Properties
    outside any section, which no section object reaches, are left out. *)
Definition section_tree : Type := list (string * string).
Definition tree : Type := list (string * section_tree).

(** [find], [get_child]: names have no dot, the separator of paths *)
Fixpoint find {A} (name : string) (l : list (string * A)) : option A :=
  match l with
  | [] => None
  | (n, a) :: l => if bool_decide (n = name) then Some a else find name l
  end.
(** assignment to the child found, or [push_back] *)
Fixpoint assign {A} (name : string) (a : A) (l : list (string * A)) : list (string * A) :=
  match l with
  | [] => [(name, a)]
  | (n, x) :: l => if bool_decide (n = name) then (n, a) :: l else (n, x) :: assign name a l
  end.

Lemma find_assign {A} name name' (a : A) l : find name' (assign name a l) = if bool_decide (name = name') then Some a else find name' l.
Proof.
  induction l as [|[n x] l IH]; cbn [assign find]; [done|]. repeat (case_bool_decide || cbn [find]); simplify_eq; try done;
    repeat case_bool_decide; congruence.
Qed.

(** * class section, class whole: the data *)

(** [in_file]: the file has the section (the first constructor, with default_valid_);
    otherwise it is the default's in both roles *)
Record section : Type := Section_ { name_ : string; in_file : bool; default_required_ : bool }.

Record whole : Type := Whole {
  property_tree_ : tree;
  default_tree_ : tree;
  property_file_exist_ : bool;
  check_done_ : bool;
  default_valid_ : bool;
  base_path_ : option string;
  map_ : list (string * section)
}.
Definition with_trees (pt dt : tree) (w : whole) : whole :=
  Whole pt dt (property_file_exist_ w) (check_done_ w) (default_valid_ w) (base_path_ w) (map_ w).
Definition with_base_path (p : string) (w : whole) : whole :=
  Whole (property_tree_ w) (default_tree_ w) (property_file_exist_ w) (check_done_ w) (default_valid_ w) (Some p) (map_ w).
Definition with_map (m : list (string * section)) (w : whole) : whole :=
  Whole (property_tree_ w) (default_tree_ w) (property_file_exist_ w) (check_done_ w) (default_valid_ w) (base_path_ w) m.
Definition with_check_done (w : whole) : whole :=
  Whole (property_tree_ w) (default_tree_ w) (property_file_exist_ w) true (default_valid_ w) (base_path_ w) (map_ w).

(** the subtrees a section refers to *)
Definition own_tree (s : section) (w : whole) : section_tree :=
  default [] (find (name_ s) (if in_file s then property_tree_ w else default_tree_ w)).
Definition fallback_tree (s : section) (w : whole) : section_tree := default [] (find (name_ s) (default_tree_ w)).

Definition not_convertible : exn := runtime_error "the parameter string can not be converted to the type specified".

Section Configuration.
(** [boost::property_tree::read_ini]; [None]: ini_parser_error *)
Context (read_ini : string -> option tree).
(** [boost::algorithm::split] at any of the delimiters, [trim], [iequals] *)
Context (split : string -> string -> list string) (trim : string -> string) (iequals : string -> string -> bool).
(** [std::filesystem::path]: is_absolute and the operator [/] *)
Context (is_absolute : string -> bool) (append_path : string -> string -> string).

(** * class section *)

(** the value of a property that is present: [boost::lexical_cast], unless it is empty *)
Definition convert {T} (lexical_cast : string -> option T) (value : string) : res (option T) :=
  if bool_decide (value = "") then Ok None
  else match lexical_cast value with Some v => Ok (Some v) | None => Throw not_convertible end.

(** [get<T>(name)] *)
Definition get {T} (lexical_cast : string -> option T) (name : string) (s : section) (w : whole) : res (option T) :=
  match find name (own_tree s w) with
  | Some value => convert lexical_cast value
  | None =>
      if in_file s then
        match find name (fallback_tree s w) with Some value => convert lexical_cast value | None => Ok None end
      else Ok None
  end.

Fixpoint convert_all {T} (lexical_cast : string -> option T) (l : list string) : res (list T) :=
  match l with
  | [] => Ok []
  | e :: l =>
      match lexical_cast (trim e) with
      | Some v => vs ← convert_all lexical_cast l; Ok (v :: vs)
      | None => Throw not_convertible
      end
  end.

(** [get<T>(name, delimiter)] *)
Definition get_list {T} (lexical_cast : string -> option T) (name delimiter : string) (s : section) (w : whole) : res (option (list T)) :=
  match find name (own_tree s w) with
  | Some "" => Ok None
  | own =>
      if in_file s then
        match find name (fallback_tree s w) with
        | Some "" => Ok None
        | fallback =>
            let value := match fallback with Some v => v | None => default "" own end in
            vs ← convert_all lexical_cast (split value delimiter); Ok (Some vs)
        end
      else Ok None
  end.

(** [get<std::string>]: also an empty value *)
Definition get_string (name : string) (s : section) (w : whole) : option string :=
  match find name (own_tree s w) with
  | Some value => Some value
  | None => if in_file s then find name (fallback_tree s w) else None
  end.

Definition not_bool : exn := runtime_error "the parameter string can not be converted to bool".
Definition to_bool (str : string) : res bool :=
  if iequals str "true" || iequals str "yes" || bool_decide (str = "1") then Ok true
  else if iequals str "false" || iequals str "no" || bool_decide (str = "0") then Ok false
  else Throw not_bool.
Definition get_bool (name : string) (s : section) (w : whole) : res (option bool) :=
  match get_string name s w with Some str => b ← to_bool str; Ok (Some b) | None => Ok None end.

Definition get_string_list (name delimiter : string) (s : section) (w : whole) : option (list string) :=
  (fun str => map trim (split str delimiter)) <$> get_string name s w.
Fixpoint to_bools (l : list string) : res (list bool) :=
  match l with [] => Ok [] | e :: l => b ← to_bool (trim e); bs ← to_bools l; Ok (b :: bs) end.
Definition get_bool_list (name delimiter : string) (s : section) (w : whole) : res (option (list bool)) :=
  match get_string name s w with Some str => bs ← to_bools (split str delimiter); Ok (Some bs) | None => Ok None end.

(** [get<std::filesystem::path>] *)
Definition get_path (name : string) (s : section) (w : whole) : res (option string) :=
  match get_string name s w with
  | None => Ok None
  | Some str =>
      if bool_decide (str = "") then Ok (Some "")
      else if is_absolute str then Ok (Some str)
      else match base_path_ w with
           | Some bp => Ok (Some (append_path bp str))
           | None => Throw (runtime_error "the parameter string is relative path and the base path is empty")
           end
  end.

(** [set(name, value)], whether the property is new *)
Definition set (name value : string) (s : section) (w : whole) : bool * whole :=
  (match find name (own_tree s w) with Some _ => false | None => true end,
   let t := assign name value (own_tree s w) in
   if in_file s then with_trees (assign (name_ s) t (property_tree_ w)) (default_tree_ w) w
   else with_trees (property_tree_ w) (assign (name_ s) t (default_tree_ w)) w).

(** * class whole *)

Definition get_section (name : string) (w : whole) : option section := find name (map_ w).

(** check(): only logs what is not in the default *)
Definition check (w : whole) : bool * whole :=
  if negb (property_file_exist_ w) || check_done_ w || negb (default_valid_ w) then (true, w) else (true, with_check_done w).

(** one section object per section of the default; [emplace] keeps the first of a name *)
Definition make_sections (pt dt : tree) : list (string * section) :=
  map (fun '(name, _) =>
         (name, Section_ name (match find name pt with Some _ => true | None => false end) (negb (bool_decide (name = "glog"))))) dt.

(** initialize(); [content]: the file when it exists, or the stream; [throw_exception] *)
Definition initialize (default_property content : string) (file_exists throw_exception : bool) : res whole :=
  dt ← (if bool_decide (default_property = "") then Ok None
        else match read_ini default_property with Some t => Ok (Some t) | None => Throw (other_exception "ini_parser_error") end);
  pt ← match read_ini content with
       | Some t => Ok t
       | None => if throw_exception then Throw (other_exception "ini_parser_error") else Ok []
       end;
  match dt with
  | Some dt =>
      let w := Whole pt dt file_exists false true None (make_sections pt dt) in
      let '(ok, w) := check w in
      if (ok : bool) then Ok w else Throw (other_exception "orphan entry error")
  | None => Ok (Whole pt [] file_exists false false None [])
  end.

(** the two constructors: a file, which may be missing, or a stream *)
Definition from_file (file : option string) (default_property : string) : res whole :=
  match file with
  | Some content => initialize default_property content true true
  | None => initialize default_property "" false false
  end.
Definition from_stream (content default_property : string) : res whole := initialize default_property content false true.

(** create_configuration: a null pointer for every error *)
Definition create_configuration (file : option string) (default_property : string) : res (option whole) :=
  match from_file file default_property with Ok w => Ok (Some w) | Throw _ => Ok None | Undefined => Undefined end.

(** operator==: sections are dereferenced without a check *)
Definition section_equal (a b : whole) (sa sb : section) : bool := bool_decide (own_tree sa a = own_tree sb b).
Fixpoint sections_equal (a b : whole) (l : tree) : res bool :=
  match l with
  | [] => Ok true
  | (name, _) :: l =>
      match get_section name a, get_section name b with
      | Some sa, Some sb => if section_equal a b sa sb then sections_equal a b l else Ok false
      | _, _ => Undefined
      end
  end.
Definition whole_equal (a b : whole) : res bool :=
  if bool_decide (property_tree_ a = property_tree_ b) then sections_equal a b (property_tree_ a) else Ok false.

(** * What a section finds *)

(** the section objects are those of the default, and refer to subtrees that exist *)
Record wf (w : whole) : Prop := {
  wf_section n s : get_section n w = Some s -> name_ s = n /\ is_Some (find n (default_tree_ w)) /\
    (in_file s = true <-> is_Some (find n (property_tree_ w)));
  wf_default n : default_valid_ w = true -> is_Some (find n (default_tree_ w)) -> is_Some (get_section n w)
}.

Lemma find_make_sections pt dt n :
  find n (make_sections pt dt) =
    (fun _ => Section_ n (match find n pt with Some _ => true | None => false end) (negb (bool_decide (n = "glog")))) <$> find n dt.
Proof. induction dt as [|[m t] dt IH]; cbn; [done|]. destruct (decide (m = n)) as [->|]; [by rewrite bool_decide_true|by rewrite bool_decide_false]. Qed.

Lemma initialize_spec def content fe te w :
  initialize def content fe te = Ok w ->
  property_tree_ w = default [] (read_ini content) /\ default_valid_ w = negb (bool_decide (def = "")) /\
  default_tree_ w = (if bool_decide (def = "") then [] else default [] (read_ini def)) /\
  map_ w = (if bool_decide (def = "") then [] else make_sections (default [] (read_ini content)) (default [] (read_ini def))).
Proof.
  unfold initialize, check. intros Hi. case_bool_decide; [|destruct (read_ini def) as [dt|]; [|done]];
    (destruct (read_ini content) as [pt|]; [|destruct te; [done|]]); cbn in Hi; repeat case_match; simplify_eq; done.
Qed.

Lemma initialize_wf def content fe te w : initialize def content fe te = Ok w -> wf w.
Proof.
  intros (E1 & E2 & E3 & E4)%initialize_spec. split; unfold get_section; rewrite E4, E3, ?E2, ?E1; case_bool_decide; cbn; try done.
  - intros n s. rewrite find_make_sections. intros (t & Ht & ->)%fmap_Some. rewrite Ht. cbn. split_and!; [done|done|]. split.
    + by destruct (find n (default [] (read_ini content))).
    + by intros [? ->].
  - intros n _ [t Ht]. rewrite find_make_sections, Ht. by eexists.
Qed.

(** In a configuration made from a file and the default, the sections are exactly those of
    the default; a property has the value the file gives it in its section, also when that is
    empty, otherwise that of the default. *)
Theorem configuration_lookup content def w n :
  from_file (Some content) def = Ok w -> def <> "" ->
  exists pt dt, read_ini content = Some pt /\ read_ini def = Some dt /\
    (is_Some (get_section n w) <-> is_Some (find n dt)) /\
    forall s key, get_section n w = Some s ->
      get_string key s w = match find n pt ≫= find key with Some v => Some v | None => find n dt ≫= find key end.
Proof.
  intros Hi Hd. cbn [from_file] in Hi. assert (exists pt dt, read_ini content = Some pt /\ read_ini def = Some dt) as (pt & dt & Ep & Ed).
  { unfold initialize in Hi. rewrite bool_decide_false in Hi by done. destruct (read_ini def), (read_ini content); by eauto. }
  destruct (initialize_spec _ _ _ _ _ Hi) as (E1 & E2 & E3 & E4). destruct (initialize_wf _ _ _ _ _ Hi) as [W1 W2].
  rewrite bool_decide_false in E2, E3, E4 by done. rewrite Ep, Ed in *. cbn [default from_option id negb] in *. exists pt, dt. split_and!; [done|done| |].
  - split; [intros [s Hs]; apply W1 in Hs as (_ & Hs & _); by rewrite E3 in Hs|]. intros Hs. apply W2; by rewrite ?E3.
  - intros s key Hs. destruct (W1 _ _ Hs) as (Hn & [t Ht] & Hf). unfold get_string, own_tree, fallback_tree. rewrite Hn, E1, E3 in *.
    rewrite Ht. cbn [mbind option_bind default from_option id]. destruct (find n pt) as [u|] eqn:Eu.
    + rewrite (proj2 Hf) by by eexists. rewrite Eu. cbn. by destruct (find key u).
    + destruct (in_file s); [by destruct (proj1 Hf eq_refl)|]. rewrite Ht. cbn. by destruct (find key t).
Qed.

(** ** set and get *)

Lemma set_trees key v s w :
  let w' := snd (set key v s w) in
  map_ w' = map_ w /\ default_valid_ w' = default_valid_ w /\
  forall n b, find n (if (b : bool) then property_tree_ w' else default_tree_ w') =
    if bool_decide (n = name_ s) && eqb b (in_file s) then Some (assign key v (own_tree s w))
    else find n (if b then property_tree_ w else default_tree_ w).
Proof.
  unfold set. destruct (in_file s) eqn:Ef; cbn [snd]; split_and!; try done; intros n [];
    cbn [property_tree_ default_tree_ with_trees eqb]; rewrite ?find_assign, ?andb_true_r, ?andb_false_r; try done;
    repeat case_bool_decide; done || congruence.
Qed.

Lemma set_wf key v s w n : wf w -> get_section n w = Some s -> wf (snd (set key v s w)).
Proof.
  intros [W1 W2] Hs. destruct (W1 _ _ Hs) as (Hn & Hd & Hf). destruct (set_trees key v s w) as (E1 & E2 & E3). cbn zeta in *.
  pose proof (fun n => E3 n true) as Ep. pose proof (fun n => E3 n false) as Ed. cbn in Ep, Ed.
  assert (forall m, is_Some (find m (property_tree_ (snd (set key v s w)))) <-> is_Some (find m (property_tree_ w))) as Ip.
  { intros m. rewrite Ep. case_bool_decide as Hm; [|done]. subst m. rewrite Hn. destruct (in_file s); cbn; [|done]. split; [by intros _; apply Hf|done]. }
  assert (forall m, is_Some (find m (default_tree_ (snd (set key v s w)))) <-> is_Some (find m (default_tree_ w))) as Id.
  { intros m. rewrite Ed. case_bool_decide as Hm; [|done]. subst m. rewrite Hn. destruct (in_file s); cbn; [done|]. split; [by intros _|done]. }
  split; unfold get_section; rewrite E1, ?E2.
  - intros m t Ht. rewrite Ip, Id. by apply W1.
  - intros m Hv. rewrite Id. by apply W2.
Qed.

(** After [set] every section object finds the new value, under that name in that section,
    and what it found before everywhere else; the result tells whether the section had no such
    property of its own. *)
Theorem property_set_then_get key v n s w :
  wf w -> get_section n w = Some s ->
  let '(added, w') := set key v s w in
  wf w' /\ added = negb (bool_decide (is_Some (find key (own_tree s w)))) /\
  forall n' s' key', get_section n' w' = Some s' -> get_section n' w = Some s' /\
    get_string key' s' w' = if bool_decide (n' = n) && bool_decide (key' = key) then Some v else get_string key' s' w.
Proof.
  intros Hw Hs. pose proof (set_wf key v s w n Hw Hs) as Hw'. destruct (set_trees key v s w) as (E1 & _ & E3).
  assert (fst (set key v s w) = negb (bool_decide (is_Some (find key (own_tree s w))))) as Hadd.
  { unfold set. cbn [fst]. by destruct (find key (own_tree s w)). }
  destruct (set key v s w) as [added w']. cbn [fst snd] in *. cbn zeta in E3. split_and!; [done|done|].
  intros n' s' key' Hs'. assert (get_section n' w = Some s') as Hs0 by (unfold get_section in *; by rewrite <- E1). split; [done|].
  destruct (wf_section _ Hw _ _ Hs) as (Hn & _). destruct (wf_section _ Hw _ _ Hs0) as (Hn' & _).
  unfold get_string, own_tree, fallback_tree. rewrite E3. pose proof (E3 (name_ s') false) as Ed. cbn in Ed. rewrite Ed.
  rewrite Hn, Hn'. destruct (decide (n' = n)) as [->|Hne].
  - assert (s' = s) as -> by congruence. rewrite bool_decide_true by done. rewrite eqb_reflx. cbn [andb default from_option id].
    rewrite find_assign. destruct (decide (key' = key)) as [->|Hk]; [by rewrite !bool_decide_true|]. rewrite !bool_decide_false by done.
    unfold own_tree. rewrite Hn. destruct (in_file s); cbn [eqb andb]; done.
  - rewrite !(bool_decide_false (n' = n)) by done. done.
Qed.

(** ** Lists *)

(** A list property (other than of strings or booleans) never has the value the file gives
    it when the default has one: the default's is taken; and for a section that is only in the
    default, it has no value at all. *)
Theorem list_property_ignores_file {T} (cast : string -> option T) name delimiter s w own fallback :
  find name (fallback_tree s w) = Some fallback -> fallback <> "" ->
  (in_file s = true -> find name (own_tree s w) = Some own -> own <> "" ->
     get_list cast name delimiter s w = (vs ← convert_all cast (split fallback delimiter); Ok (Some vs))) /\
  (in_file s = false -> get_list cast name delimiter s w = Ok None).
Proof.
  intros Hf Hne. split.
  - intros Hi Ho Hn. unfold get_list. rewrite Ho, Hi, Hf. destruct own; [done|]. by destruct fallback.
  - intros Hi. unfold get_list. rewrite Hi. by destruct (find name (own_tree s w)) as [[]|].
Qed.

(** Comparing a configuration that was made without a default with itself dereferences a
    null pointer, unless it has no section. *)
Theorem equality_without_default content t pt w :
  read_ini content = Some (t :: pt) -> from_stream content "" = Ok w -> whole_equal w w = Undefined.
Proof.
  intros Hr Hi. apply initialize_spec in Hi as (E1 & _ & _ & E4). rewrite Hr in E1. cbn in E1. unfold whole_equal.
  rewrite bool_decide_true, E1 by done. destruct t as [name l]. cbn [sections_equal]. unfold get_section. by rewrite E4.
Qed.

End Configuration.

(** * A concrete configuration *)
Module ConfigurationDemo.

Definition default_tree : tree :=
  [("ipc_endpoint", [("database_name", "tsurugi"); ("threads", "104"); ("datachannel_buffer_size", "64"); ("max_datachannel_buffers", "256");
                     ("admin_sessions", "1"); ("allow_blob_privileged", "true"); ("sizes", "1,2")]);
   ("session", [("enable_timeout", "true"); ("refresh_timeout", "300"); ("max_refresh_timeout", "10800"); ("authentication_timeout", "0")]);
   ("authentication", [("enabled", "false")])].
Definition file_tree : tree := [("ipc_endpoint", [("threads", "8"); ("database_name", ""); ("sizes", "7")])].
Definition read_ini (s : string) : option tree :=
  if bool_decide (s = "default") then Some default_tree else if bool_decide (s = "file") then Some file_tree
  else if bool_decide (s = "") then Some [] else None.
(** at every comma *)
Fixpoint split_ (s acc : string) : list string :=
  match s with
  | EmptyString => [acc]
  | String c s => if bool_decide (c = Ascii.ascii_of_nat 44) then acc :: split_ s "" else split_ s (acc ++ String c "")
  end.
Definition split (s delimiter : string) : list string := split_ s "".
Definition trim (s : string) : string := s.

Definition w : whole :=
  Eval vm_compute in match from_file read_ini (Some "file") "default" with Ok w => w | _ => Whole [] [] false false false None [] end.
Definition ipc : section := Section_ "ipc_endpoint" true true.

Lemma configuration_lookup_witness :
  from_file read_ini (Some "file") "default" = Ok w /\ get_section "ipc_endpoint" w = Some ipc /\ get_string "threads" ipc w = Some "8" /\
  get_string "database_name" ipc w = Some "" /\ get_string "admin_sessions" ipc w = Some "1".
Proof.
  assert (from_file read_ini (Some "file") "default" = Ok w) as Hw by (vm_compute; reflexivity).
  destruct (configuration_lookup read_ini "file" "default" w "ipc_endpoint" Hw ltac:(discriminate)) as (pt & dt & Hp & Hd & _ & H).
  split; [exact Hw|]. split; [reflexivity|]. specialize (H ipc). injection Hp as <-. injection Hd as <-.
  rewrite !H by reflexivity. split; [reflexivity|]. split; reflexivity.
Defined.

Lemma property_set_then_get_witness :
  let '(added, w') := set "threads" "16" ipc w in added = false /\ get_string "threads" ipc w' = Some "16".
Proof.
  assert (wf w) as Hwf by (eapply (initialize_wf read_ini "default" "file" true true); vm_compute; reflexivity).
  destruct (property_set_then_get "threads" "16" "ipc_endpoint" ipc w Hwf eq_refl) as (_ & H1 & H2).
  split; [exact H1|]. exact (proj2 (H2 "ipc_endpoint" ipc "threads" eq_refl)).
Defined.

Lemma list_property_ignores_file_witness :
  find "sizes" (own_tree ipc w) = Some "7" /\ get_list split trim Some "sizes" "," ipc w = Ok (Some ["1"; "2"]).
Proof.
  split; [reflexivity|].
  exact (proj1 (list_property_ignores_file split trim Some "sizes" "," ipc w "7" "1,2" eq_refl ltac:(discriminate)) eq_refl eq_refl ltac:(discriminate)).
Defined.

Lemma equality_without_default_witness :
  exists v, from_stream read_ini "file" "" = Ok v /\ whole_equal v v = Undefined.
Proof. eexists. split; [reflexivity|]. eapply (equality_without_default read_ini "file"); reflexivity. Defined.

End ConfigurationDemo.
