(* ===== verification/Grpc.v ===== *)
(** The gRPC server and the blob relay service (src/tateyama/grpc/server.cpp,
    server_resource_impl.cpp, blob_relay/service_adapter_impl.cpp and service_handler.h).

    The resource reads its configuration, collects the services others register and runs the
    gRPC library's server on a thread of its own, with which [start] synchronizes by a barrier.
    The library's server, the file system and the blob relay library are parameters. *)
From Stdlib Require Import Ascii.
From stdpp Require Import strings.
From S2P Require Import Prelude Configuration.

Module Grpc.
Section Grpc.
Context (iequals : string -> string -> bool).
(** [boost::lexical_cast<std::size_t>] *)
Context (to_size : string -> option Z).
Context (is_absolute : string -> bool) (append_path : string -> string -> string).
(** what a file holds; [None]: it cannot be opened *)
Context (file : string -> option string).
(** a [::grpc::Service*] *)
Context {Svc : Type}.

Abbreviation bool_of := (get_bool iequals).
Abbreviation path_of := (get_path is_absolute append_path).

(** * tateyama_grpc_server *)

Inductive status : Type := init | no_service | working.

Definition newline : ascii := "010"%char.

(** [getline] in a loop: every line, and the rest after the last newline when it is not empty,
    each followed by a newline; [line] is the line read so far *)
Fixpoint copy_lines (line : string) (content : string) : string :=
  match content with
  | EmptyString => if bool_decide (line = "") then "" else line +:+ String newline ""
  | String c content =>
      if bool_decide (c = newline) then line +:+ String newline (copy_lines "" content)
      else copy_lines (line +:+ String c "") content
  end.

Definition read_file (filename : string) : res string :=
  match file filename with
  | None => Throw (runtime_error ("cannot open " +:+ filename))
  | Some content => Ok (copy_lines "" content)
  end.

Record server : Type := Server {
  listen_address_ : string;
  secure_ : bool;
  fullchain_crt_content_ : string;
  server_key_content_ : string
}.

(** the constructor *)
Definition new_server (listen_address : string) (secure : bool) (fullchain_crt server_key : string) : res server :=
  if negb secure then Ok (Server listen_address false "" "")
  else if bool_decide (fullchain_crt = "") then Throw (runtime_error "file name for fullchain crt is empty")
  else
    crt ← read_file fullchain_crt;
    if bool_decide (server_key = "") then Throw (runtime_error "file name for server key is empty")
    else
      key ← read_file server_key;
      Ok (Server listen_address true crt key).

(** * resource_impl *)

Record resource : Type := Resource {
  services_ : list Svc;
  grpc_listen_address_ : string;
  fullchain_crt_ : string;
  server_key_ : string;
  grpc_enabled_ : bool;
  grpc_secure_ : bool;
  started_ : bool
}.
Definition new_resource : resource := Resource [] "" "" "" false false false.

Definition with_values (enabled : bool) (address : string) (secure : bool) (r : resource) : resource :=
  Resource (services_ r) address (fullchain_crt_ r) (server_key_ r) enabled secure (started_ r).
Definition with_files (crt key : string) (r : resource) : resource :=
  Resource (services_ r) (grpc_listen_address_ r) crt key (grpc_enabled_ r) (grpc_secure_ r) (started_ r).
Definition with_started (r : resource) : resource :=
  Resource (services_ r) (grpc_listen_address_ r) (fullchain_crt_ r) (server_key_ r) (grpc_enabled_ r) (grpc_secure_ r) true.

(** an exception of the configuration leaves [setup] *)
Definition setup (w : whole) (r : resource) : res (bool * resource) :=
  match get_section "grpc_server" w with
  | None => Ok (true, r)
  | Some s =>
      enabled ← bool_of "enabled" s w;
      secure ← bool_of "secure" s w;
      let r := with_values (default (grpc_enabled_ r) enabled) (default (grpc_listen_address_ r) (get_string "listen_address" s w))
                 (default (grpc_secure_ r) secure) r in
      if grpc_secure_ r then
        crt ← path_of "fullchain_crt" s w;
        match crt with
        | None => Ok (false, r)
        | Some crt =>
            let r := with_files crt (server_key_ r) r in
            key ← path_of "server_key" s w;
            match key with None => Ok (false, r) | Some key => Ok (true, with_files crt key r) end
        end
      else Ok (true, r)
  end.

Definition add_service (service : Svc) (r : resource) : res resource :=
  if started_ r then Throw (runtime_error "The gRPC server has already started")
  else Ok (Resource (services_ r ++ [service]) (grpc_listen_address_ r) (fullchain_crt_ r) (server_key_ r) (grpc_enabled_ r)
             (grpc_secure_ r) (started_ r)).

(** * The two threads of [start] and [shutdown] *)

(** the thread that calls [start] and [shutdown]: before [start], at the barrier, past it,
    after [start], after the request to shut down, after [shutdown] *)
Inductive main_phase : Type := M_before | M_barrier | M_status | M_started (success : bool) | M_join | M_down.
(** the server's thread: none, at the beginning, at the barrier (and whether it goes on after
    it), polling for the request, stopping the library's server, ended; [T_joined]: no longer
    joinable *)
Inductive thread_phase : Type := T_none | T_begin | T_barrier (serving : bool) | T_poll | T_stop | T_end | T_joined.

Record t : Type := Make {
  resource_ : resource;
  grpc_server_ : option server;
  main_ : main_phase;
  thread_ : thread_phase;
  status_ : status;
  shutdown_requested_ : bool;
  serving_ : bool                (* the library's server runs *)
}.
Definition initial (r : resource) : t := Make r None M_before T_none init false false.

Definition main_to (m : main_phase) (s : t) : t :=
  Make (resource_ s) (grpc_server_ s) m (thread_ s) (status_ s) (shutdown_requested_ s) (serving_ s).
Definition thread_to (p : thread_phase) (s : t) : t :=
  Make (resource_ s) (grpc_server_ s) (main_ s) p (status_ s) (shutdown_requested_ s) (serving_ s).
Definition set_status (st : status) (serving : bool) (s : t) : t :=
  Make (resource_ s) (grpc_server_ s) (main_ s) (thread_ s) st (shutdown_requested_ s) serving.

(** [start], up to the barrier; an error of the constructor makes it return false *)
Definition start (s : t) : t :=
  let r := with_started (resource_ s) in
  if grpc_enabled_ r then
    match new_server (grpc_listen_address_ r) (grpc_secure_ r) (fullchain_crt_ r) (server_key_ r) with
    | Ok srv => Make r (Some srv) M_barrier T_begin init false (serving_ s)
    | _ => Make r (grpc_server_ s) (M_started false) (thread_ s) (status_ s) (shutdown_requested_ s) (serving_ s)
    end
  else Make r (grpc_server_ s) (M_started true) (thread_ s) (status_ s) (shutdown_requested_ s) (serving_ s).

Definition joinable (s : t) : bool := match thread_ s with T_none | T_joined => false | _ => true end.

(** [shutdown], up to the join *)
Definition shutdown (s : t) : t :=
  if grpc_enabled_ (resource_ s) then
    let requested := match grpc_server_ s with Some _ => true | None => shutdown_requested_ s end in
    Make (resource_ s) (grpc_server_ s) (if joinable s then M_join else M_down) (thread_ s) (status_ s) requested (serving_ s)
  else main_to M_down s.

Definition main_step (s : t) : option t :=
  match main_ s with
  | M_before => Some (start s)
  | M_barrier => None
  | M_status => Some (main_to (M_started (match status_ s with init => false | _ => true end)) s)
  | M_started _ | M_down => Some (shutdown s)
  | M_join => match thread_ s with T_end => Some (thread_to T_joined (main_to M_down s)) | _ => None end
  end.

(** [operator()]; [built]: what [BuildAndStart] gives *)
Definition thread_step (built : bool) (s : t) : option t :=
  match thread_ s with
  | T_begin =>
      match services_ (resource_ s) with
      | [] => Some (thread_to (T_barrier false) (set_status no_service (serving_ s) s))
      | _ => if built then Some (thread_to (T_barrier true) (set_status working true s)) else Some (thread_to (T_barrier false) s)
      end
  | T_poll => if shutdown_requested_ s then Some (thread_to T_stop s) else Some s
  | T_stop => Some (thread_to T_end (set_status (status_ s) false s))
  | _ => None
  end.

(** the barrier of two lets both threads go on when both are there *)
Definition barrier_step (s : t) : option t :=
  match main_ s, thread_ s with
  | M_barrier, T_barrier serving => Some (main_to M_status (thread_to (if serving then T_poll else T_end) s))
  | _, _ => None
  end.

(** [Early]: [shutdown] without [start] *)
Inductive label : Type := Main | Early | Thread (built : bool) | Barrier.
Definition step (l : label) (s : t) : option t :=
  match l with
  | Main => main_step s
  | Early => match main_ s with M_before => Some (shutdown s) | _ => None end
  | Thread built => thread_step built s
  | Barrier => barrier_step s
  end.

Inductive reachable (r : resource) : t -> Prop :=
| reach_initial : reachable r (initial r)
| reach_step s l s' : reachable r s -> step l s = Some s' -> reachable r s'.

(** * service_adapter_impl *)

Record relay_configuration : Type := RelayConfiguration {
  session_store : string;
  session_quota_size : Z;
  local_enabled : bool;
  local_upload_copy_file : bool;
  stream_chunk_size : Z;
  dev_accept_mock_tag : bool
}.

Definition blob_relay_service_configuration (s : section) (w : whole) : res relay_configuration :=
  store ← path_of "session_store" s w;
  quota ← get to_size "session_quota_size" s w;
  local ← bool_of "local_enabled" s w;
  copy ← bool_of "local_upload_copy_file" s w;
  chunk ← get to_size "stream_chunk_size" s w;
  mock ← bool_of "dev_accept_mock_tag" s w;
  Ok (RelayConfiguration (default "" store) (default 0 quota) (default false local) (default false copy) (default 0 chunk)
        (default false mock)).

(** the constructor of the library's blob_relay_service, and the services it has *)
Context (create_service : relay_configuration -> res (list Svc)).

Record adapter : Type := Adapter { blob_relay_enabled_ : bool; service_handler_ : option (list Svc) }.
Definition new_adapter : adapter := Adapter false None.

Fixpoint add_services (l : list Svc) (r : resource) : res resource :=
  match l with [] => Ok r | e :: l => r ← add_service e r; add_services l r end.

(** the try block: the data store, the service, and its registration with the gRPC server, when
    the repository has one; an exception makes [setup] return false, and [add_service] throws
    at the first service or never *)
Definition create_relay (datastore : bool) (s : section) (w : whole) (grpc : option resource) (a : adapter)
    : res (bool * adapter * option resource) :=
  if negb datastore then Ok (false, a, grpc)
  else
    match c ← blob_relay_service_configuration s w; create_service c with
    | Undefined => Undefined
    | Throw _ => Ok (false, a, grpc)
    | Ok services =>
        let a := Adapter (blob_relay_enabled_ a) (Some services) in
        match grpc with
        | None => Ok (true, a, None)
        | Some r =>
            match add_services services r with
            | Ok r => Ok (true, a, Some r)
            | Throw _ => Ok (false, a, grpc)
            | Undefined => Undefined
            end
        end
    end.

Definition adapter_setup (datastore : bool) (w : whole) (grpc : option resource) (a : adapter) : res (bool * adapter * option resource) :=
  grpc_enabled ← match get_section "grpc_server" w with Some s => bool_of "enabled" s w | None => Ok None end;
  if default false grpc_enabled then
    match get_section "blob_relay" w with
    | None => Ok (true, a, grpc)
    | Some s =>
        relay_enabled ← bool_of "enabled" s w;
        match relay_enabled with
        | None => Ok (true, a, grpc)
        | Some false => Ok (true, Adapter false (service_handler_ a), grpc)
        | Some true => create_relay datastore s w grpc (Adapter true (service_handler_ a))
        end
    end
  else Ok (true, a, grpc).

(** * Properties *)

(** read_file() gives what the file holds, with a newline at the end *)
Fixpoint ends_line (content : string) (fresh : bool) : bool :=
  match content with EmptyString => fresh | String c content => ends_line content (bool_decide (c = newline)) end.

Lemma string_app_assoc (a b c : string) : (a +:+ b) +:+ c = a +:+ (b +:+ c).
Proof. induction a as [|x a IH]; [done|]. change (String x ((a +:+ b) +:+ c) = String x (a +:+ (b +:+ c))). by rewrite IH. Qed.

Lemma copy_lines_spec content line :
  copy_lines line content = line +:+ content +:+ (if ends_line content (bool_decide (line = "")) then "" else String newline "").
Proof.
  revert line. induction content as [|c content IH]; intros line; cbn [copy_lines ends_line].
  - case_bool_decide as E; cbn; [by rewrite E|done].
  - case_bool_decide as E.
    + rewrite IH. subst c. rewrite bool_decide_true by done. done.
    + rewrite IH, string_app_assoc. cbn. rewrite bool_decide_false; [done|]. by destruct line.
Qed.

Lemma read_file_spec filename content :
  file filename = Some content ->
  read_file filename = Ok (content +:+ (if ends_line content true then "" else String newline "")).
Proof. intros E. unfold read_file. rewrite E, copy_lines_spec. by rewrite bool_decide_true. Qed.

(** what a relay that is set up has registered *)
Lemma add_services_spec l r r' : add_services l r = Ok r' -> services_ r' = services_ r ++ l /\ (l <> [] -> started_ r = false).
Proof.
  revert r. induction l as [|e l IH]; intros r; cbn; [intros [= ->]; by rewrite app_nil_r|].
  unfold add_service. destruct (started_ r) eqn:E; [done|]. cbn. intros [H _]%IH. cbn in H. by rewrite H, <- app_assoc.
Qed.
Lemma adapter_registers datastore w r a' r' services :
  adapter_setup datastore w (Some r) new_adapter = Ok (true, a', r') -> service_handler_ a' = Some services ->
  exists r1, r' = Some r1 /\ services_ r1 = services_ r ++ services.
Proof.
  unfold adapter_setup. intros E Hs.
  destruct (match get_section "grpc_server" w with Some s => _ | None => _ end) as [ge| |]; try done. cbn in E.
  destruct (default false ge); [|by simplify_eq].
  destruct (get_section "blob_relay" w) as [s|]; [|by simplify_eq].
  destruct (bool_of "enabled" s w) as [re| |]; try done. cbn in E. destruct re as [[]|]; [|by simplify_eq..].
  unfold create_relay in E. destruct datastore; [|by simplify_eq]. cbn in E.
  destruct (c ← blob_relay_service_configuration s w; create_service c) as [l| |]; try by simplify_eq.
  cbn in E. destruct (add_services l r) as [r1| |] eqn:Ea; simplify_eq. cbn in Hs. simplify_eq. exists r1. split; [done|].
  by apply add_services_spec.
Qed.

(** ** The threads *)

(** the thread is where the library's server runs *)
Definition serves (p : thread_phase) : bool := match p with T_barrier true | T_poll | T_stop => true | _ => false end.

(** what [status_] says when the thread comes to the barrier *)
Definition verdict (r : resource) (serving : bool) (s : t) : Prop :=
  if serving then status_ s = working
  else (services_ r = [] /\ status_ s = no_service) \/ (services_ r <> [] /\ status_ s = init).

(** a thread was made *)
Definition launched (r : resource) (s : t) : Prop :=
  resource_ s = with_started r /\ grpc_enabled_ r = true /\ is_Some (grpc_server_ s).
Definition running (r : resource) (s : t) : Prop := launched r s /\ shutdown_requested_ s = false.

Definition inv (r : resource) (s : t) : Prop :=
  serving_ s = serves (thread_ s) /\
  match main_ s, thread_ s with
  | M_before, T_none => resource_ s = r /\ grpc_server_ s = None /\ shutdown_requested_ s = false
  | M_barrier, T_begin => running r s /\ status_ s = init
  | M_barrier, T_barrier b => running r s /\ verdict r b s
  | M_status, T_poll => running r s /\ verdict r true s
  | M_status, T_end => running r s /\ verdict r false s
  | M_started b, T_none => resource_ s = with_started r /\ grpc_server_ s = None /\ (b = true -> grpc_enabled_ r = false)
  | M_started b, T_poll => running r s /\ b = true
  | M_started b, T_end => running r s /\ (b = true -> services_ r = [])
  | M_join, (T_poll | T_stop | T_end) => launched r s /\ shutdown_requested_ s = true
  | M_down, T_none => grpc_server_ s = None
  | M_down, T_joined => launched r s
  | _, _ => False
  end.

Lemma grpc_inv_step r s l s' : inv r s -> step l s = Some s' -> inv r s'.
Proof.
  intros [Hv Hm] E. destruct s as [rs sv m th st rq sg]. cbn in *. unfold running, launched in *. cbn in *.
  destruct l as [| |built|]; cbn in E.
  - unfold main_step in E. cbn in E. destruct m; try done; try (by destruct th; try destruct Hm; injection E as <-; cbn; auto).
    + destruct th; try done. destruct Hm as (-> & -> & ->). injection E as <-. unfold start. cbn.
      destruct (grpc_enabled_ r) eqn:Ee; [|by split].
      destruct (new_server _ _ _ _) eqn:En; [|by split..]. split; [done|]. unfold running, launched. cbn. by split_and!; eauto.
    + injection E as <-. destruct th; try done; split; try done; unfold running, launched, verdict in *; cbn in *.
      * by destruct Hm as [? ->].
      * destruct Hm as [? [[? ->]|[? ->]]]; by split.
    + injection E as <-. unfold shutdown. cbn. destruct th; try done; cbn.
      * destruct Hm as (-> & -> & Hb). cbn. destruct (grpc_enabled_ r); by split.
      * destruct Hm as (((-> & He & sv' & ->) & ->) & _). cbn. rewrite He. split; [done|]. unfold launched. cbn. eauto.
      * destruct Hm as (((-> & He & sv' & ->) & ->) & _). cbn. rewrite He. split; [done|]. unfold launched. cbn. eauto.
    + destruct th; try done. injection E as <-. split; [done|]. by destruct Hm.
    + injection E as <-. unfold shutdown. cbn. destruct th; try done; cbn.
      * subst sv. destruct (grpc_enabled_ rs); by split.
      * destruct Hm as (-> & He & sv' & ->). cbn. rewrite He. split; [done|]. unfold launched. cbn. eauto.
  - destruct m; try done. injection E as <-. destruct th; try done. destruct Hm as (-> & -> & ->). unfold shutdown. cbn.
    destruct (grpc_enabled_ r); by split.
  - unfold thread_step in E. cbn in E. destruct th; try done; destruct m; try done.
    + destruct Hm as (((-> & He & Hs) & Hq) & ->). cbn in E. unfold running, launched, verdict.
      destruct (services_ r) eqn:Es; [|destruct built]; injection E as <-; (split; [done|]); unfold running, launched, verdict; cbn; rewrite ?Es; auto 10.
    + destruct Hm as ((Hl & ->) & Hs). injection E as <-. split; [done|]. unfold running, launched. cbn. auto.
    + destruct Hm as ((Hl & ->) & Hs). injection E as <-. split; [done|]. unfold running, launched. cbn. auto.
    + destruct Hm as (Hl & ->). injection E as <-. split; [done|]. unfold launched. cbn. auto.
    + injection E as <-. split; [done|]. unfold launched. cbn. auto.
  - unfold barrier_step in E. cbn in E. destruct m; try done. destruct th as [| |b| | | |]; try done. injection E as <-.
    destruct b; split; try done; unfold running, launched, verdict in *; cbn in *; auto.
Qed.

Lemma grpc_inv r s : reachable r s -> inv r s.
Proof. induction 1; [|by eapply grpc_inv_step]. by split. Qed.

(** [start] waits at the barrier, [shutdown] for the thread *)
Definition waits (s : t) : Prop := main_ s = M_barrier \/ main_ s = M_join.
Definition rank (s : t) : nat :=
  match main_ s, thread_ s with
  | M_barrier, T_begin => 2
  | M_barrier, T_barrier _ => 1
  | M_join, T_poll => 3
  | M_join, T_stop => 2
  | M_join, T_end => 1
  | _, _ => 0
  end.

(** C25: the gRPC server is started and stopped properly, however its two threads interleave.
    When [start] has returned true and the server is enabled, it serves the registered services,
    if there are any; when [shutdown] has returned, the library's server has stopped and its
    thread was joined; and neither waits forever: while one waits a step is possible, and every
    step reduces the number of steps it has to wait for. *)
Theorem grpc_lifecycle r s :
  reachable r s ->
  (main_ s = M_started true -> grpc_enabled_ r = true -> services_ r <> [] -> serving_ s = true) /\
  (main_ s = M_down -> serving_ s = false /\ joinable s = false) /\
  (waits s -> (exists l, is_Some (step l s)) /\ forall l s', step l s = Some s' -> (rank s' < rank s)%nat).
Proof.
  intros Hr. destruct (grpc_inv r s Hr) as [Hv Hm]. destruct s as [rs sv m th st rq sg]. cbn in *. unfold waits, rank, joinable. cbn.
  split_and!.
  - intros -> He Hs. destruct th; try done; [by destruct Hm as (_ & _ & Hb); rewrite Hb in He|]. destruct Hm as [_ Hb]. by specialize (Hb eq_refl).
  - intros ->. by destruct th.
  - intros [-> | ->]; destruct th as [| |b| | | |]; try done.
    + split; [exists (Thread true); cbn; by destruct (services_ rs)|]. intros [| |built|] s' E; cbn in E; try done.
      unfold thread_step in E. cbn in E. destruct (services_ rs), built; injection E as <-; cbn; lia.
    + split; [by exists Barrier|]. intros [| |built|] s' E; cbn in E; try done. injection E as <-. cbn. destruct b; cbn; lia.
    + destruct Hm as [_ Hq]. cbn in Hq. subst rq. split; [by exists (Thread true)|].
      intros [| |built|] s' E; cbn in E; try done. injection E as <-. cbn. lia.
    + split; [by exists (Thread true)|]. intros [| |built|] s' E; cbn in E; try done. injection E as <-. cbn. lia.
    + split; [by exists Main|]. intros [| |built|] s' E; cbn in E; try done. injection E as <-. cbn. lia.
Qed.

End Grpc.
End Grpc.

(** Executions by computation. *)
Module GrpcDemo.
Import Grpc.

Definition r : resource (Svc := nat) := Resource [1%nat] "0.0.0.0:52345" "" "" true false false.
Definition file (_ : string) : option string := None.
Fixpoint exec (ls : list label) (s : t (Svc := nat)) : option t :=
  match ls with [] => Some s | l :: ls => match step file l s with Some s' => exec ls s' | None => None end end.
Lemma grpc_exec_reachable ls s s' : reachable file r s -> exec ls s = Some s' -> reachable file r s'.
Proof.
  revert s. induction ls as [|l ls IH]; intros s Hr; cbn; [by intros [= <-]|].
  destruct (step file l s) as [s1|] eqn:E; [|done]. apply IH. by eapply reach_step.
Qed.

Definition joining : t := default (initial r) (exec [Main; Thread true; Barrier; Main; Thread true; Main] (initial r)).
Lemma grpc_lifecycle_witness : main_ joining = M_join /\ exists l, is_Some (step file l joining).
Proof.
  assert (reachable file r joining) as Hr.
  { refine (grpc_exec_reachable [Main; Thread true; Barrier; Main; Thread true; Main] (initial r) joining _ _); [constructor|vm_compute; reflexivity]. }
  split; [reflexivity|]. exact (proj1 (proj2 (proj2 (grpc_lifecycle file r joining Hr)) (or_intror eq_refl))).
Defined.
End GrpcDemo.
