(* ===== verification/Status.v ===== *)
(** The status resource: the record in shared memory by which the server tells other processes
    its state and its sessions, and by which it is asked to shut down
    (include/tateyama/status/resource/core.h, src/tateyama/status/resource/core.cpp, bridge.cpp).

    The Boost segment that holds the record is left out: the record is the state.  The maps of
    component states, which no code uses, are left out as well. *)
From S2P Require Import Prelude Text Configuration.

Module Status.

(** * resource_status_memory *)

Inductive state : Type := initial | ready | activated | deactivating | deactivated | boot_error.
Definition state_code (s : state) : Z :=
  match s with initial => 0 | ready => 1 | activated => 2 | deactivating => 3 | deactivated => 4 | boot_error => 10 end.
Inductive shutdown_type : Type := nothing | graceful | forceful.
#[global] Instance shutdown_type_eq_dec : EqDecision shutdown_type.
Proof. solve_decision. Defined.

Definition inactive_session_id : Z := 2 ^ 64 - 1.
Definition mergin : Z := 2.

Record resource_status : Type := ResourceStatus {
  whole_ : state;
  pid_ : Z;
  shutdown_requested_ : shutdown_type;
  database_name_ : string;
  mutex_file_ : string;
  sessions_ : list Z
}.
Definition new_status : resource_status := ResourceStatus initial 0 nothing "" "" [].

Definition set_pid (pid : Z) (r : resource_status) : resource_status :=
  ResourceStatus (whole_ r) pid (shutdown_requested_ r) (database_name_ r) (mutex_file_ r) (sessions_ r).
Definition set_whole (s : state) (r : resource_status) : resource_status :=
  ResourceStatus s (pid_ r) (shutdown_requested_ r) (database_name_ r) (mutex_file_ r) (sessions_ r).
Definition set_mutex_file (file : string) (r : resource_status) : resource_status :=
  ResourceStatus (whole_ r) (pid_ r) (shutdown_requested_ r) (database_name_ r) file (sessions_ r).
Definition set_database_name (name : string) (r : resource_status) : resource_status :=
  ResourceStatus (whole_ r) (pid_ r) (shutdown_requested_ r) name (mutex_file_ r) (sessions_ r).
Definition set_shutdown (t : shutdown_type) (r : resource_status) : resource_status :=
  ResourceStatus (whole_ r) (pid_ r) t (database_name_ r) (mutex_file_ r) (sessions_ r).
Definition with_sessions (l : list Z) (r : resource_status) : resource_status :=
  ResourceStatus (whole_ r) (pid_ r) (shutdown_requested_ r) (database_name_ r) (mutex_file_ r) l.

(** [alive]: [kill(pid, 0)] tells whether there is such a process *)
Definition alive (kill : Z -> bool) (r : resource_status) : bool := kill (pid_ r).

Definition set_maximum_sessions (n : Z) (r : resource_status) : resource_status :=
  with_sessions (replicate (Z.to_nat (u64 (n * mergin))) inactive_session_id) r.

Definition index (n : Z) : Z := u64 (n * mergin).
Definition entries_of (slot : Z) : list Z := map (fun i => u64 (index slot + i)) [0; 1].

(** the loop over the entries of a slot: the first that is [v] *)
Fixpoint find_entry (v : Z) (idxs : list Z) (l : list Z) : res (option Z) :=
  match idxs with
  | [] => Ok None
  | i :: idxs =>
      match l !z i with
      | None => Throw out_of_range
      | Some x => if x =? v then Ok (Some i) else find_entry v idxs l
      end
  end.
Fixpoint remaining (idxs : list Z) (l : list Z) : string :=
  match idxs with
  | [] => ""
  | i :: idxs => (match l !z i with Some x => Text.to_string x +:+ " " | None => "" end) +:+ remaining idxs l
  end.

Definition add_shm_entry (session_id slot : Z) (r : resource_status) : res resource_status :=
  found ← find_entry inactive_session_id (entries_of slot) (sessions_ r);
  match found with
  | Some i => Ok (with_sessions (<[Z.to_nat i := session_id]> (sessions_ r)) r)
  | None =>
      Throw (runtime_error ("IPC communication channel for session " +:+ remaining (entries_of slot) (sessions_ r)
        +:+ "remains in slot " +:+ Text.to_string slot +:+ ", thus cannot create that for session " +:+ Text.to_string session_id))
  end.
Definition remove_shm_entry (session_id slot : Z) (r : resource_status) : res resource_status :=
  found ← find_entry session_id (entries_of slot) (sessions_ r);
  match found with
  | Some i => Ok (with_sessions (<[Z.to_nat i := inactive_session_id]> (sessions_ r)) r)
  | None => Ok r
  end.

(** the names [f] is called with *)
Definition session_name (r : resource_status) (e : Z) : string := database_name_ r +:+ "-" +:+ Text.to_string e.
Definition apply_shm_entry (r : resource_status) : list string :=
  database_name_ r :: map (session_name r) (filter (fun e => 0 < e) (sessions_ r)).

(** ** Requests to shut down; the mutex makes the load and the exchange one step *)

Definition test_and_set_shutdown (type : shutdown_type) (r : resource_status) : bool * resource_status :=
  let expected := shutdown_requested_ r in
  if bool_decide (expected = forceful) || (bool_decide (expected = graceful) && bool_decide (type = graceful)) || bool_decide (type = nothing)
  then (false, r) else (true, set_shutdown type r).

(** * The bridge *)

Definition initial_size : Z := 640.
Definition per_size : Z := 8.
Definition shm_size (n : Z) : Z :=
  let size := u64 (initial_size + u64 (u64 (n * mergin) * per_size)) in
  let size := u64 (size + initial_size / 2) in
  u64 ((size / 4096 + 1) * 4096).

(** [std::hex] with a width of 16 and zeros *)
Definition hex_digit (d : Z) : Ascii.ascii := Ascii.ascii_of_N (Z.to_N (if d <? 10 then d + 48 else d + 87)).
Fixpoint hex (n : nat) (x : Z) : string :=
  match n with
  | O => ""
  | S n => String (hex_digit (x / 16 ^ Z.of_nat n mod 16)) (hex n x)
  end.

Record bridge : Type := Bridge {
  digest_ : string;
  memory_ : option resource_status;
  deactivated_ : bool
}.
Definition new_bridge : bridge := Bridge "" None false.
Definition with_memory (f : resource_status -> resource_status) (b : bridge) : bridge :=
  Bridge (digest_ b) (f <$> memory_ b) (deactivated_ b).

Section Bridge.
(** [std::hash<std::string>], the conversion of numbers, and Boost's creation of a segment
    of the given name and size, which may fail *)
Context (hash : string -> Z) (lexical_size : string -> option Z) (create_segment : string -> Z -> bool).

Definition set_digest (path : string) (b : bridge) : bridge := Bridge (hex 16 (hash path)) (memory_ b) (deactivated_ b).

(** [canonical_path], [name]: of the configuration; [pid]: of the process *)
Definition setup (canonical_path name : string) (pid : Z) (w : whole) (b : bridge) : res (bool * bridge) :=
  let b := set_digest (if bool_decide (canonical_path = "") then Text.to_string pid else canonical_path) b in
  match get_section "ipc_endpoint" w with
  | None => Undefined
  | Some s =>
      threads_opt ← Configuration.get lexical_size "threads" s w;
      match threads_opt with
      | None => Ok (false, b)
      | Some threads =>
          admin_sessions_opt ← Configuration.get lexical_size "admin_sessions" s w;
          match admin_sessions_opt with
          | None => Ok (false, b)
          | Some admin_sessions =>
              if create_segment ("tsurugidb-" +:+ digest_ b +:+ ".stat") (shm_size (u64 (threads + admin_sessions)))
              then Ok (true, Bridge (digest_ b) (Some (set_database_name name (set_pid pid new_status))) (deactivated_ b))
              else Ok (false, b)
          end
      end
  end.
End Bridge.

Definition shutdown (b : bridge) : bridge := Bridge (digest_ b) (memory_ b) true.
Definition whole (s : state) : bridge -> bridge := with_memory (set_whole s).
Definition mutex_file (file : string) : bridge -> bridge := with_memory (set_mutex_file file).
Definition get_mutex_file (b : bridge) : string := match memory_ b with Some r => mutex_file_ r | None => "" end.
Definition get_shutdown_request (b : bridge) : shutdown_type := match memory_ b with Some r => shutdown_requested_ r | None => nothing end.
Definition database_name (b : bridge) : res string :=
  match memory_ b with Some r => Ok (database_name_ r) | None => Throw (runtime_error "resource_status_memory is not ready.") end.
Definition bridge_maximum_sessions (n : Z) : bridge -> bridge := with_memory (set_maximum_sessions n).
Definition on_memory (f : resource_status -> res resource_status) (b : bridge) : res bridge :=
  match memory_ b with Some r => r' ← f r; Ok (Bridge (digest_ b) (Some r') (deactivated_ b)) | None => Ok b end.
Definition bridge_add_shm_entry (session_id slot : Z) : bridge -> res bridge := on_memory (add_shm_entry session_id slot).
Definition bridge_remove_shm_entry (session_id slot : Z) : bridge -> res bridge := on_memory (remove_shm_entry session_id slot).

(** * The channels of the IPC listener

    A channel (server_wire_container_impl) is recorded after it is made, and its destructor
    removes the record: when the worker is destroyed, or at once when it could not be
    recorded. *)

Record channels : Type := Channels { record : resource_status; live : list (Z * Z) }.
Inductive channel_op : Type := Open (session slot : Z) | Close (session slot : Z).
Definition exec (o : channel_op) (c : channels) : res channels :=
  match o with
  | Open session slot =>
      match add_shm_entry session slot (record c) with
      | Ok r => Ok (Channels r ((session, slot) :: live c))
      | Throw _ => r ← remove_shm_entry session slot (record c); Ok (Channels r (live c))
      | Undefined => Undefined
      end
  | Close session slot => r ← remove_shm_entry session slot (record c); Ok (Channels r (filter (fun e => e <> (session, slot)) (live c)))
  end.

(** sessions have ids of their own, and only a channel that is open is closed *)
Definition allowed (n : Z) (o : channel_op) (c : channels) : Prop :=
  match o with
  | Open session slot => 0 < session < inactive_session_id /\ 0 <= slot < n /\ session ∉ (live c).*1
  | Close session slot => (session, slot) ∈ live c
  end.
Inductive reachable (n : Z) (name : string) : channels -> Prop :=
| reach_init : reachable n name (Channels (set_maximum_sessions n (set_database_name name new_status)) [])
| reach_step o c c' : reachable n name c -> allowed n o c -> exec o c = Ok c' -> reachable n name c'.

Definition open_in (slot : Z) (c : channels) : list Z := (filter (fun e => e.2 = slot) (live c)).*1.
(** what the record has for a slot *)
Definition recorded (slot : Z) (r : resource_status) : list Z :=
  filter (fun e => e <> inactive_session_id) (take 2 (drop (Z.to_nat (2 * slot)) (sessions_ r))).

Definition pair (slot : Z) (l : list Z) : list Z := take 2 (drop (Z.to_nat (2 * slot)) l).

Lemma pair_lookup slot l a b :
  0 <= slot -> l !z (2 * slot) = Some a -> l !z (2 * slot + 1) = Some b -> pair slot l = [a; b].
Proof.
  intros Hs Ha Hb. unfold pair. replace (Z.to_nat (2 * slot + 1)) with (S (Z.to_nat (2 * slot))) in Hb by lia.
  by rewrite (drop_S _ _ _ Ha), (drop_S _ _ _ Hb).
Qed.

Lemma slot_entries n slot (l : list Z) :
  length l = Z.to_nat (2 * n) -> 0 <= slot < n -> 2 * n < 2 ^ 64 ->
  entries_of slot = [2 * slot; 2 * slot + 1] /\
  exists a b, l !z (2 * slot) = Some a /\ l !z (2 * slot + 1) = Some b.
Proof.
  intros Hl Hs Hn. split.
  - unfold entries_of, index, mergin. cbn [map]. rewrite (wrap_small 64 (slot * 2)) by (unfold in_range; lia).
    rewrite !wrap_small by (unfold in_range; lia). f_equal; [lia|f_equal; lia].
  - destruct (lookup_lt_is_Some_2 l (Z.to_nat (2 * slot))) as [a Ha]; [lia|].
    destruct (lookup_lt_is_Some_2 l (Z.to_nat (2 * slot + 1))) as [b Hb]; [lia|]. eauto.
Qed.

Lemma pair_insert slot l i v a b slot' n :
  length l = Z.to_nat (2 * n) -> 0 <= slot < n -> 0 <= slot' < n -> i = 2 * slot \/ i = 2 * slot + 1 ->
  l !z (2 * slot) = Some a -> l !z (2 * slot + 1) = Some b ->
  pair slot' (<[Z.to_nat i := v]> l) =
    if slot' =? slot then (if i =? 2 * slot then [v; b] else [a; v]) else pair slot' l.
Proof.
  intros Hl Hs Hs' Hi Ha Hb. destruct (Z.eqb_spec slot' slot) as [->|Hne].
  - destruct Hi as [->| ->].
    + rewrite Z.eqb_refl. apply pair_lookup; [lia| |by rewrite list_lookup_insert_ne by lia].
      by apply list_lookup_insert_eq, lookup_lt_Some with a.
    + replace (2 * slot + 1 =? 2 * slot) with false by lia.
      apply pair_lookup; [lia|by rewrite list_lookup_insert_ne by lia|].
      by apply list_lookup_insert_eq, lookup_lt_Some with b.
  - unfold pair. apply list_eq. intros k. rewrite !lookup_take. case_decide; [|done].
    rewrite !lookup_drop. apply list_lookup_insert_ne. lia.
Qed.

(** the record after an entry of a slot was changed *)
Definition changed (n slot old new : Z) (r r' : resource_status) : Prop :=
  (exists i, sessions_ r !! i = Some old /\ r' = with_sessions (<[i := new]> (sessions_ r)) r) /\ length (sessions_ r') = Z.to_nat (2 * n) /\
  forall slot', 0 <= slot' < n -> slot' <> slot -> recorded slot' r' = recorded slot' r.

Lemma insert_changed n slot i v r a b :
  length (sessions_ r) = Z.to_nat (2 * n) -> 0 <= slot < n -> i = 2 * slot \/ i = 2 * slot + 1 ->
  sessions_ r !z (2 * slot) = Some a -> sessions_ r !z (2 * slot + 1) = Some b ->
  let r' := with_sessions (<[Z.to_nat i := v]> (sessions_ r)) r in
  changed n slot (if i =? 2 * slot then a else b) v r r' /\
  recorded slot r' = filter (fun e => e <> inactive_session_id) (if i =? 2 * slot then [v; b] else [a; v]) /\
  recorded slot r = filter (fun e => e <> inactive_session_id) [a; b].
Proof.
  intros Hl Hs Hi Ha Hb r'.
  assert (Hp : forall slot', 0 <= slot' < n -> recorded slot' r' = filter (fun e => e <> inactive_session_id)
    (if slot' =? slot then (if i =? 2 * slot then [v; b] else [a; v]) else pair slot' (sessions_ r))).
  { intros slot' Hs'. unfold recorded, r'. cbn [sessions_ with_sessions]. f_equal. by eapply pair_insert. }
  repeat split.
  - exists (Z.to_nat i). split; [|done]. destruct Hi as [->| ->]; [by rewrite Z.eqb_refl|].
    by replace (2 * slot + 1 =? 2 * slot) with false by lia.
  - unfold r'. cbn [sessions_ with_sessions]. by rewrite length_insert.
  - intros slot' Hs' Hne. rewrite Hp by done. by replace (slot' =? slot) with false by lia.
  - rewrite Hp by done. by rewrite Z.eqb_refl.
  - unfold recorded. f_equal. apply pair_lookup; (done || lia).
Qed.

Lemma add_spec n session slot r :
  length (sessions_ r) = Z.to_nat (2 * n) -> 0 <= slot < n -> 2 * n < 2 ^ 64 -> session <> inactive_session_id ->
  match add_shm_entry session slot r with
  | Ok r' => changed n slot inactive_session_id session r r' /\ recorded slot r' ≡ₚ session :: recorded slot r /\ (length (recorded slot r) < 2)%nat
  | Throw _ => length (recorded slot r) = 2%nat
  | Undefined => False
  end.
Proof.
  intros Hl Hs Hn Hsess. destruct (slot_entries n slot (sessions_ r) Hl Hs Hn) as (He & a & b & Ha & Hb).
  unfold add_shm_entry. rewrite He. cbn [find_entry]. rewrite Ha, Hb.
  destruct (Z.eqb_spec a inactive_session_id) as [->|Hia]; [|destruct (Z.eqb_spec b inactive_session_id) as [->|Hib]]; cbn [mbind res_bind].
  - destruct (insert_changed n slot (2 * slot) session r _ _ Hl Hs (or_introl eq_refl) Ha Hb) as (Hc & H1 & H2).
    rewrite Z.eqb_refl in *. split; [done|]. rewrite H1, H2, !filter_cons. repeat case_decide; try done; simpl; split; (done || lia).
  - destruct (insert_changed n slot (2 * slot + 1) session r _ _ Hl Hs (or_intror eq_refl) Ha Hb) as (Hc & H1 & H2).
    replace (2 * slot + 1 =? 2 * slot) with false in * by lia. split; [done|]. rewrite H1, H2.
    rewrite !filter_cons. repeat case_decide; try done. simpl. split; [apply Permutation_swap|lia].
  - unfold recorded. fold (pair slot (sessions_ r)). rewrite (pair_lookup slot _ a b) by (done || lia).
    rewrite !filter_cons. by repeat case_decide.
Qed.

Lemma remove_spec n session slot r :
  length (sessions_ r) = Z.to_nat (2 * n) -> 0 <= slot < n -> 2 * n < 2 ^ 64 -> session <> inactive_session_id ->
  exists r', remove_shm_entry session slot r = Ok r' /\
    ((session ∈ recorded slot r /\ changed n slot session inactive_session_id r r' /\ recorded slot r ≡ₚ session :: recorded slot r') \/
     (session ∉ recorded slot r /\ r' = r)).
Proof.
  intros Hl Hs Hn Hsess. destruct (slot_entries n slot (sessions_ r) Hl Hs Hn) as (He & a & b & Ha & Hb).
  unfold remove_shm_entry. rewrite He. cbn [find_entry]. rewrite Ha, Hb.
  assert (Hr : recorded slot r = filter (fun e => e <> inactive_session_id) [a; b]).
  { unfold recorded. f_equal. apply pair_lookup; (done || lia). }
  destruct (Z.eqb_spec a session) as [->|Hia]; [|destruct (Z.eqb_spec b session) as [->|Hib]]; cbn [mbind res_bind]; eexists; (split; [done|]).
  - left. destruct (insert_changed n slot (2 * slot) inactive_session_id r _ _ Hl Hs (or_introl eq_refl) Ha Hb) as (Hc & H1 & H2).
    rewrite Z.eqb_refl in *. rewrite Hr, H1, !filter_cons. repeat case_decide; try done; split_and!; try done; left.
  - left. destruct (insert_changed n slot (2 * slot + 1) inactive_session_id r _ _ Hl Hs (or_intror eq_refl) Ha Hb) as (Hc & H1 & H2).
    replace (2 * slot + 1 =? 2 * slot) with false in * by lia. rewrite Hr, H1.
    rewrite !filter_cons. repeat case_decide; try done; split_and!; try done; try apply Permutation_swap; set_solver.
  - right. split; [|done]. rewrite Hr, list_elem_of_filter, !elem_of_cons, elem_of_nil. naive_solver.
Qed.

(** ** The record lists the open channels *)

Record cinv (n : Z) (name : string) (c : channels) : Prop := {
  c_len : length (sessions_ (record c)) = Z.to_nat (2 * n);
  c_name : database_name_ (record c) = name;
  c_slot slot : 0 <= slot < n -> recorded slot (record c) ≡ₚ open_in slot c;
  c_all : filter (fun e => e <> inactive_session_id) (sessions_ (record c)) ≡ₚ (live c).*1;
  c_ids : NoDup (live c).*1;
  c_live s slot : (s, slot) ∈ live c -> 0 < s < inactive_session_id /\ 0 <= slot < n
}.

Lemma insert_swap (l : list Z) i x v : l !! i = Some x -> x :: <[i := v]> l ≡ₚ v :: l.
Proof.
  intros Hi. rewrite <- (take_drop_middle l i x Hi) at 2. rewrite insert_take_drop by by eapply lookup_lt_Some.
  rewrite <- !Permutation_middle. apply Permutation_swap.
Qed.

Lemma changed_all n slot old new r r' :
  changed n slot old new r r' ->
  database_name_ r' = database_name_ r /\ old :: sessions_ r' ≡ₚ new :: sessions_ r.
Proof. intros ((i & Hi & ->) & _). split; [done|]. by apply insert_swap. Qed.

Lemma live_remove (l : list (Z * Z)) x : NoDup l.*1 -> x ∈ l -> l ≡ₚ x :: filter (fun e => e <> x) l.
Proof.
  intros Hnd Hx. apply NoDup_Permutation.
  - by eapply NoDup_fmap_1.
  - constructor; [rewrite list_elem_of_filter; naive_solver|]. by eapply NoDup_filter, NoDup_fmap_1.
  - intros y. rewrite elem_of_cons, list_elem_of_filter. destruct (decide (y = x)); naive_solver.
Qed.

Lemma open_in_cons s slot slot' r l :
  open_in slot' (Channels r ((s, slot) :: l)) = (if slot =? slot' then [s] else []) ++ open_in slot' (Channels r l).
Proof. unfold open_in. cbn [live]. rewrite filter_cons. cbn [snd]. destruct (Z.eqb_spec slot slot'); case_decide; done. Qed.

Lemma cinv_init n name : 0 <= n -> 2 * n < 2 ^ 64 -> cinv n name (Channels (set_maximum_sessions n (set_database_name name new_status)) []).
Proof.
  intros Hn Hb. assert (Hw : u64 (n * mergin) = 2 * n) by (unfold mergin; rewrite wrap_small; unfold in_range; lia).
  assert (Hr : forall k, filter (fun e => e <> inactive_session_id) (replicate k inactive_session_id) = []).
  { intros k. induction k as [|k IH]; [done|]. cbn [replicate]. rewrite filter_cons. by case_decide. }
  split; cbn [record live set_maximum_sessions with_sessions sessions_ database_name_ set_database_name].
  - rewrite length_replicate, Hw. done.
  - done.
  - intros slot Hs. unfold recorded, open_in. cbn [record live set_maximum_sessions with_sessions sessions_].
    by rewrite drop_replicate, take_replicate, Hr.
  - by rewrite Hr.
  - constructor.
  - set_solver.
Qed.

Lemma cinv_open n name s slot c :
  cinv n name c -> 2 * n < 2 ^ 64 -> allowed n (Open s slot) c ->
  exists c', exec (Open s slot) c = Ok c' /\ cinv n name c' /\
    (if bool_decide (length (open_in slot c) < 2)%nat then live c' = (s, slot) :: live c else live c' = live c /\ record c' = record c).
Proof.
  intros Hc Hn (Hs & Hslot & Hfresh). destruct c as [r l]. cbn [record live] in *. destruct Hc as [Hlen Hname Hrec Hall Hnd Hlive].
  cbn [record live] in *. unfold exec. cbn [record live]. pose proof (add_spec n s slot r Hlen Hslot Hn ltac:(lia)) as Ha.
  destruct (add_shm_entry s slot r) as [r'|e|]; [..|done].
  - destruct Ha as (Hch & Hp & Hlt). rewrite (Hrec slot Hslot) in Hp, Hlt. eexists. split; [done|].
    rewrite bool_decide_true by done. split; [|done].
    destruct (changed_all _ _ _ _ _ _ Hch) as [Hn' Hperm]. destruct Hch as (_ & Hlen' & Hoth).
    split; cbn [record live]; [done|congruence|..].
    + intros slot' Hs'. rewrite open_in_cons. destruct (Z.eqb_spec slot slot') as [<-|Hne]; [done|].
      rewrite Hoth by done. by apply Hrec.
    + cbn [fmap list_fmap fst]. rewrite <- Hall. apply (filter_Permutation (fun e => e <> inactive_session_id)) in Hperm.
      rewrite !filter_cons in Hperm. case_decide; [done|]. case_decide; [done|lia].
    + cbn [fmap list_fmap fst]. by constructor.
    + intros s' slot'. rewrite elem_of_cons. intros [[= -> ->]|?]; [done|by apply Hlive].
  - destruct (remove_spec n s slot r Hlen Hslot Hn ltac:(lia)) as (r' & -> & [(Hin & _)|[_ ->]]); cbn [mbind res_bind].
    + exfalso. rewrite (Hrec slot Hslot) in Hin. apply Hfresh. unfold open_in in Hin. cbn [live] in Hin.
      apply list_elem_of_fmap in Hin as (x & -> & Hx). apply list_elem_of_filter in Hx as [_ Hx]. by apply list_elem_of_fmap_2.
    + eexists. split; [done|]. rewrite (Hrec slot Hslot) in Ha. rewrite bool_decide_false by lia. by split.
Qed.

Lemma cinv_close n name s slot c :
  cinv n name c -> 2 * n < 2 ^ 64 -> allowed n (Close s slot) c ->
  exists c', exec (Close s slot) c = Ok c' /\ cinv n name c' /\ live c ≡ₚ (s, slot) :: live c'.
Proof.
  intros Hc Hn Hin. destruct c as [r l]. cbn [allowed live] in Hin. destruct Hc as [Hlen Hname Hrec Hall Hnd Hlive].
  cbn [record live] in *. destruct (Hlive s slot Hin) as [Hs Hslot].
  pose proof (live_remove l (s, slot) Hnd Hin) as Hl. set (l' := filter (fun e => e <> (s, slot)) l) in *.
  unfold exec. cbn [record live].
  destruct (remove_spec n s slot r Hlen Hslot Hn ltac:(lia)) as (r' & -> & [(_ & Hch & Hp)|[Hout _]]); cbn [mbind res_bind].
  - eexists. split; [done|]. split; [|done]. destruct (changed_all _ _ _ _ _ _ Hch) as [Hn' Hperm]. destruct Hch as (_ & Hlen' & Hoth).
    assert (Hopen : forall slot', open_in slot' (Channels r l) ≡ₚ (if slot =? slot' then [s] else []) ++ open_in slot' (Channels r' l')).
    { intros slot'. unfold open_in at 1. cbn [live]. rewrite Hl. apply Permutation_refl'.
      exact (open_in_cons s slot slot' r l'). }
    split; cbn [record live]; fold l'; [done|congruence|..].
    + intros slot' Hs'. specialize (Hopen slot'). destruct (Z.eqb_spec slot slot') as [Heq|Hne].
      * subst slot'. apply (Permutation_cons_inv (a := s)). by rewrite <- Hp, (Hrec slot Hslot).
      * rewrite Hoth, (Hrec slot' Hs') by done. done.
    + apply (Permutation_cons_inv (a := s)). change (s :: l'.*1) with (((s, slot) :: l').*1). rewrite <- Hl, <- Hall.
      apply (filter_Permutation (fun e => e <> inactive_session_id)) in Hperm.
      rewrite !filter_cons in Hperm. repeat case_decide; try done; lia.
    + rewrite Hl in Hnd. by inversion Hnd.
    + intros s' slot' Hin'. apply Hlive. rewrite Hl. by right.
  - exfalso. apply Hout. rewrite (Hrec slot Hslot). unfold open_in. cbn [live]. apply list_elem_of_fmap. exists (s, slot).
    by rewrite list_elem_of_filter.
Qed.

Lemma channels_inv n name c : 0 <= n -> 2 * n < 2 ^ 64 -> reachable n name c -> cinv n name c.
Proof.
  intros Hn Hb. induction 1 as [|o c c' _ IH Ha He]; [by apply cinv_init|]. destruct o as [s slot|s slot].
  - destruct (cinv_open n name s slot c IH Hb Ha) as (c1 & He1 & Hi & _). congruence.
  - destruct (cinv_close n name s slot c IH Hb Ha) as (c1 & He1 & Hi & _). congruence.
Qed.

(** C21: the record of the status resource lists for every slot exactly the channels that are
    open in it, of which there are at most two; a new channel is recorded when there is room in
    its slot and otherwise refused without a change of the record; and every open channel can
    be closed. *)
Theorem status_channels n name c :
  0 <= n -> 2 * n < 2 ^ 64 -> reachable n name c ->
  (forall slot, 0 <= slot < n -> recorded slot (record c) ≡ₚ open_in slot c /\ (length (open_in slot c) <= 2)%nat) /\
  (forall s slot, allowed n (Open s slot) c -> exists c', exec (Open s slot) c = Ok c' /\
     if bool_decide (length (open_in slot c) < 2)%nat then live c' = (s, slot) :: live c else c' = c) /\
  (forall s slot, (s, slot) ∈ live c -> exists c', exec (Close s slot) c = Ok c' /\ live c ≡ₚ (s, slot) :: live c').
Proof.
  intros Hn Hb Hr. pose proof (channels_inv n name c Hn Hb Hr) as Hi. split_and!.
  - intros slot Hs. pose proof (c_slot _ _ _ Hi slot Hs) as Hp. split; [done|]. rewrite <- Hp. unfold recorded.
    etrans; [apply length_filter|]. rewrite length_take. lia.
  - intros s slot Ha. destruct (cinv_open n name s slot c Hi Hb Ha) as (c' & He & _ & Hc). exists c'. split; [done|].
    case_bool_decide; [done|]. destruct c, c', Hc; cbn [record live] in *; congruence.
  - intros s slot Hin. destruct (cinv_close n name s slot c Hi Hb Hin) as (c' & He & _ & Hp). eauto.
Qed.

(** The function given to apply_shm_entry is called with the name of the database, the name
    of every open channel, and, for every entry that is not in use, the name of a channel that
    cannot exist, that of the session 2^64 - 1. *)
Theorem applied_names n name c :
  0 <= n -> 2 * n < 2 ^ 64 -> reachable n name c ->
  apply_shm_entry (record c) ≡ₚ
    name :: map (fun s => name +:+ "-" +:+ Text.to_string s) (live c).*1 ++
    replicate (Z.to_nat (2 * n - zlen (live c))) (name +:+ "-18446744073709551615").
Proof.
  intros Hn Hb Hr. destruct (channels_inv n name c Hn Hb Hr) as [Hlen Hname _ Hall _ Hlive].
  unfold apply_shm_entry, session_name. rewrite Hname. constructor.
  assert (Hsplit : forall l : list Z, l ≡ₚ filter (fun e => e <> inactive_session_id) l ++
    replicate (length l - length (filter (fun e => e <> inactive_session_id) l)) inactive_session_id).
  { intros l. induction l as [|x l IH]; [done|]. rewrite filter_cons. pose proof (length_filter (fun e => e <> inactive_session_id) l).
    case_decide as Hx; cbn [length app]; [by constructor|subst x].
    rewrite Nat.sub_succ_l by done. cbn [replicate]. rewrite <- Permutation_middle. by constructor. }
  assert (Hs : sessions_ (record c) ≡ₚ (live c).*1 ++ replicate (Z.to_nat (2 * n - zlen (live c))) inactive_session_id).
  { etrans; [apply Hsplit|]. rewrite (Permutation_length Hall), length_fmap, Hlen, Hall. apply reflexive_eq. do 2 f_equal. unfold zlen. lia. }
  assert (Hpos : Forall (fun e => 0 < e) ((live c).*1 ++ replicate (Z.to_nat (2 * n - zlen (live c))) inactive_session_id)).
  { apply Forall_app. split; [|by apply Forall_replicate].
    apply Forall_fmap, Forall_forall. intros [s slot] Hin. by apply (Hlive s slot Hin). }
  assert (Hf : forall l : list Z, Forall (fun e => 0 < e) l -> filter (fun e => 0 < e) l = l).
  { induction 1 as [|x l Hx _ IH]; [done|]. rewrite filter_cons_True by done. by f_equal. }
  rewrite (filter_Permutation _ _ _ Hs), Hf, map_app by done. f_equiv. apply reflexive_eq.
  exact (fmap_replicate (fun e => name +:+ "-" +:+ Text.to_string e) _ inactive_session_id).
Qed.

(** * Asking the server to shut down

    Other processes call request_shutdown while the server is in wait_for_shutdown.  A section
    guarded by [m_shutdown_] is one step; [c_shutdown_.wait] releases the mutex as it goes to
    sleep, and may return without a notification. *)

Inductive requester : Type := Asking (type : shutdown_type) | Notifying (type : shutdown_type) | Asked (type : shutdown_type) (result : bool).
Inductive waiter_phase : Type := Testing | Sleeping | Returned.
Record shutdown_system : Type := ShutdownSystem { status : resource_status; requesters : list requester; waiter : waiter_phase }.
Inductive shutdown_action : Type := Request (i : nat) | Wait | Spurious.

Definition request_shutdown_step (i : nat) (s : shutdown_system) : shutdown_system :=
  match requesters s !! i with
  | Some (Asking type) =>
      let '(set, r) := test_and_set_shutdown type (status s) in
      ShutdownSystem r (<[i := if (set : bool) then Notifying type else Asked type false]> (requesters s)) (waiter s)
  | Some (Notifying type) =>
      ShutdownSystem (status s) (<[i := Asked type true]> (requesters s)) (match waiter s with Sleeping => Testing | w => w end)
  | _ => s
  end.
Definition wait_for_shutdown_step (s : shutdown_system) : shutdown_system :=
  match waiter s with
  | Testing => ShutdownSystem (status s) (requesters s) (if bool_decide (shutdown_requested_ (status s) = nothing) then Sleeping else Returned)
  | _ => s
  end.
Definition shutdown_step (a : shutdown_action) (s : shutdown_system) : shutdown_system :=
  match a with
  | Request i => request_shutdown_step i s
  | Wait => wait_for_shutdown_step s
  | Spurious => ShutdownSystem (status s) (requesters s) (match waiter s with Sleeping => Testing | w => w end)
  end.

Definition rank (t : shutdown_type) : nat := match t with nothing => 0 | graceful => 1 | forceful => 2 end.
Record sinv (s : shutdown_system) : Prop := {
  s_asked t b : Notifying t ∈ requesters s \/ Asked t b ∈ requesters s -> (rank t <= rank (shutdown_requested_ (status s)))%nat;
  s_set t : Notifying t ∈ requesters s \/ Asked t true ∈ requesters s -> shutdown_requested_ (status s) <> nothing;
  s_awake t : Asked t true ∈ requesters s -> waiter s <> Sleeping;
  s_returned : waiter s = Returned -> shutdown_requested_ (status s) <> nothing
}.

Lemma insert_elem {A} (l : list A) i x y : x ∈ <[i := y]> l -> x ∈ l \/ x = y.
Proof.
  intros (j & Hj)%list_elem_of_lookup. apply list_lookup_insert_Some in Hj as [(_ & -> & _)|[_ Hj]]; [by right|].
  left. by eapply list_elem_of_lookup_2.
Qed.

Lemma test_and_set_spec type r :
  let '(b, r') := test_and_set_shutdown type r in
  (rank type <= rank (shutdown_requested_ r'))%nat /\ (rank (shutdown_requested_ r) <= rank (shutdown_requested_ r'))%nat /\
  (if (b : bool) then shutdown_requested_ r' = type /\ type <> nothing else r' = r).
Proof.
  unfold test_and_set_shutdown. destruct r as [? ? q ? ? ?]. destruct q, type; simpl; split_and!; (done || lia).
Qed.

Lemma shut_inv_step a s : sinv s -> sinv (shutdown_step a s).
Proof.
  intros [Hasked Hset Hawake Hret]. destruct a as [i| |]; cbn [shutdown_step].
  - unfold request_shutdown_step. destruct (requesters s !! i) as [[type|type|]|] eqn:Hi; [..|done|done].
    + pose proof (test_and_set_spec type (status s)) as Hts. destruct (test_and_set_shutdown type (status s)) as [b r].
      destruct Hts as (Hr1 & Hr2 & Hb).
      assert (Hne : shutdown_requested_ (status s) <> nothing -> shutdown_requested_ r <> nothing).
      { intros Hn Hr. rewrite Hr in Hr2. by destruct (shutdown_requested_ (status s)); simpl in Hr2; [|lia..]. }
      assert (Hin : forall x, x ∈ <[i := if b then Notifying type else Asked type false]> (requesters s) ->
        x ∈ requesters s \/ x = (if b then Notifying type else Asked type false)).
      { intros x. apply insert_elem. }
      split; cbn [status requesters waiter].
      * intros t b' [[?|Heq]%Hin|[?|Heq]%Hin]; try (pose proof (Hasked t b'); intuition lia); destruct b; try done; by injection Heq as ->.
      * intros t [[?|Heq]%Hin|[?|Heq]%Hin]; try (apply Hne, (Hset t); tauto); destruct b; try done. by destruct Hb as [-> ?].
      * intros t [?%Hawake|Heq]%Hin; [done|by destruct b].
      * intros ?%Hret. by apply Hne.
    + assert (Hin : forall x, x ∈ <[i := Asked type true]> (requesters s) -> x ∈ requesters s \/ x = Asked type true).
      { intros x. apply insert_elem. }
      assert (Ht : shutdown_requested_ (status s) <> nothing) by (apply (Hset type); left; by eapply list_elem_of_lookup_2).
      split; cbn [status requesters waiter]; [|done|..|done].
      * intros t b' [[?|Heq]%Hin|[?|Heq]%Hin]; try (apply (Hasked t b'); tauto); [done|]. injection Heq as -> ->.
        apply (Hasked type true). left. by eapply list_elem_of_lookup_2.
      * intros t _. by destruct (waiter s).
  - unfold wait_for_shutdown_step. destruct (waiter s) eqn:Hw; [|by split; rewrite ?Hw..].
    case_bool_decide as Hf; split; cbn [status requesters waiter]; try done.
    intros t Ha. by destruct (Hset t (or_intror Ha)).
  - split; cbn [status requesters waiter]; try done; [|].
    + intros t ?%Hawake. by destruct (waiter s).
    + intros H. apply Hret. by destruct (waiter s).
Qed.

Definition waiting (r : resource_status) (types : list shutdown_type) : shutdown_system := ShutdownSystem r (map Asking types) Testing.
Definition shutdown_run (acts : list shutdown_action) (s : shutdown_system) : shutdown_system := foldl (fun s a => shutdown_step a s) s acts.

(** C22: whatever the order in which processes ask the server to shut down, spurious wake-ups
    included: a request that has returned has been granted, or something at least as strong
    has; once a call of request_shutdown has returned true the server is awake and returns
    from wait_for_shutdown in its next step; and it never returns without a request. *)
Theorem shutdown_request_wakes r types acts :
  shutdown_requested_ r = nothing ->
  let s := shutdown_run acts (waiting r types) in
  (forall t b, Asked t b ∈ requesters s -> (rank t <= rank (shutdown_requested_ (status s)))%nat) /\
  (forall t, Asked t true ∈ requesters s -> waiter (shutdown_step Wait s) = Returned) /\
  (waiter s = Returned -> shutdown_requested_ (status s) <> nothing).
Proof.
  intros Hr s. assert (Hi : sinv s).
  { assert (H0 : sinv (waiting r types)).
    { split; cbn [waiting status requesters waiter]; try done; intros; rewrite !list_elem_of_fmap in *; naive_solver. }
    unfold s, shutdown_run. clear s. revert H0. generalize (waiting r types). induction acts as [|a acts IH]; intros s0 H0; [done|].
    apply IH. by apply shut_inv_step. }
  destruct Hi as [Hasked Hset Hawake Hret]. split_and!; [eauto|..|done]. intros t Ha. cbn [shutdown_step]. unfold wait_for_shutdown_step.
  pose proof (Hawake t Ha). destruct (waiter s) eqn:Hw; [|done..]. rewrite bool_decide_false by eauto. done.
Qed.

(** the segment the bridge asks for is a whole number of pages with room for every entry *)
Lemma shm_size_ok n : 0 <= n < 2 ^ 50 ->
  shm_size n mod 4096 = 0 /\ initial_size + n * mergin * per_size + initial_size / 2 < shm_size n.
Proof.
  intros Hn. unfold shm_size, initial_size, mergin, per_size. rewrite (wrap_small 64 (n * 2)) by (unfold in_range; lia).
  rewrite (wrap_small 64 (n * 2 * 8)) by (unfold in_range; lia). rewrite (wrap_small 64 (640 + n * 2 * 8)) by (unfold in_range; lia).
  change (640 / 2) with 320. rewrite (wrap_small 64 (640 + n * 2 * 8 + 320)) by (unfold in_range; lia).
  pose proof (Z.div_mod (640 + n * 2 * 8 + 320) 4096 ltac:(lia)).
  pose proof (Z.mod_pos_bound (640 + n * 2 * 8 + 320) 4096 ltac:(lia)).
  rewrite wrap_small by (unfold in_range; lia). split; [apply Z.mod_mul; lia|lia].
Qed.

End Status.

(** * Examples *)

Module StatusDemo.
Import Status.

Definition two_slots : channels := Channels (set_maximum_sessions 2 (set_database_name "db" new_status)) [].
Definition run (ops : list channel_op) : res channels := foldl (fun c o => c ← c; exec o c) (Ok two_slots) ops.
Definition busy : channels := match run [Open 1 0; Open 2 0; Open 3 1; Close 1 0] with Ok c => c | _ => two_slots end.

Lemma busy_reachable : reachable 2 "db" busy.
Proof.
  eapply (reach_step _ _ (Close 1 0)); [eapply (reach_step _ _ (Open 3 1)); [eapply (reach_step _ _ (Open 2 0));
    [eapply (reach_step _ _ (Open 1 0)); [apply reach_init|..]|..]|..]|..]; try reflexivity; cbn; try (split_and!; try lia); set_solver.
Qed.

Lemma status_channels_witness :
  sessions_ (record busy) = [2 ^ 64 - 1; 2; 3; 2 ^ 64 - 1] /\ recorded 0 (record busy) ≡ₚ open_in 0 busy.
Proof.
  split; [reflexivity|]. destruct (status_channels 2 "db" busy ltac:(lia) ltac:(lia) busy_reachable) as (H & _). by apply (H 0).
Defined.

Lemma applied_names_witness :
  apply_shm_entry (record busy) ≡ₚ ["db"; "db-3"; "db-2"; "db-18446744073709551615"; "db-18446744073709551615"].
Proof. exact (applied_names 2 "db" busy ltac:(lia) ltac:(lia) busy_reachable). Defined.

Definition asked : shutdown_system := shutdown_run [Wait; Request 0; Request 1; Request 0] (waiting new_status [graceful; forceful]).
Lemma shutdown_request_wakes_witness :
  requesters asked = [Asked graceful true; Notifying forceful] /\ waiter (shutdown_step Wait asked) = Returned.
Proof.
  split; [reflexivity|]. destruct (shutdown_request_wakes new_status [graceful; forceful] [Wait; Request 0; Request 1; Request 0] eq_refl) as (_ & H & _).
  apply (H graceful). left.
Defined.

End StatusDemo.
