(* ===== verification/Session.v ===== *)
(** Sessions (src/tateyama/session): contexts and their variables, the container
    of living sessions, the session resource and the session service.

    Contexts live on the heap and belong to their workers; the container only has
    weak pointers.  [store] maps the addresses of the living contexts to their
    state, so that [weak_ptr::lock] is a lookup in it. *)
From stdpp Require Import gmap.
From Stdlib Require Import Ascii.
From S2P Require Import Prelude Text.

(** * Session variables *)

Inductive session_variable_type := boolean | signed_integer | unsigned_integer | string_.
Inductive value_type :=
| monostate
| V_bool (b : bool)
| V_int64 (z : Z)
| V_uint64 (z : Z)
| V_string (s : string).

#[export] Instance session_variable_type_eq : EqDecision session_variable_type.
Proof. solve_decision. Defined.
#[export] Instance value_type_eq : EqDecision value_type.
Proof. solve_decision. Defined.

Module VariableSet.
Abbreviation t := (gmap string (session_variable_type * value_type)).

(** [map::insert] keeps the first of two equal keys *)
Definition create (declarations : list (string * session_variable_type * value_type)) : t :=
  fold_left (fun m e => let '(name, ty, v) := e in
               match m !! name with Some _ => m | None => <[name := (ty, v)]> m end) declarations ∅.
Definition exists_ (name : string) (s : t) : bool := bool_decide (is_Some (s !! name)).
Definition type (name : string) (s : t) : option session_variable_type := fst <$> s !! name.
Definition get (name : string) (s : t) : value_type :=
  match s !! name with Some (_, v) => v | None => monostate end.
Definition set (name : string) (v : value_type) (s : t) : bool * t :=
  match s !! name with Some (ty, _) => (true, <[name := (ty, v)]> s) | None => (false, s) end.
End VariableSet.

Record session_variable_declaration := Declaration {
  name_ : string;
  type_ : session_variable_type;
  initial_value_ : value_type;
  description_ : string
}.

Module DeclarationSet.
Definition t : Type := list session_variable_declaration.
Fixpoint find (name : string) (ds : t) : option session_variable_declaration :=
  match ds with
  | [] => None
  | d :: ds => if bool_decide (name_ d = name) then Some d else find name ds
  end.
Definition declare (d : session_variable_declaration) (ds : t) : bool * t :=
  match find (name_ d) ds with Some _ => (false, ds) | None => (true, ds ++ [d]) end.
Definition enumerate_variable_names (ds : t) : list string := map name_ ds.
Definition make_variable_set (ds : t) : VariableSet.t :=
  VariableSet.create (map (fun d => (name_ d, type_ d, initial_value_ d)) ds).
End DeclarationSet.

(** * Session contexts *)

Inductive user_type := administrator | standard.
#[export] Instance user_type_eq : EqDecision user_type.
Proof. solve_decision. Defined.

Record session_info := Info {
  id : Z;
  label : string;
  application_name : string;
  username : option string;
  start_at : Z;
  connection_type_name : string;
  connection_information : string;
  user_type_ : user_type
}.

Inductive shutdown_request_type := nothing | graceful | forceful.
#[export] Instance shutdown_request_type_eq : EqDecision shutdown_request_type.
Proof. solve_decision. Defined.

Record session_context := Context_ {
  info_ : session_info;
  variables_ : VariableSet.t;
  shutdown_request_ : shutdown_request_type;
  expiration_time_ : option Z
}.
Definition numeric_id (c : session_context) : Z := id (info_ c).
Definition symbolic_id (c : session_context) : string := label (info_ c).
Definition set_variables (vs : VariableSet.t) (c : session_context) : session_context :=
  Context_ (info_ c) vs (shutdown_request_ c) (expiration_time_ c).
Definition set_shutdown (ty : shutdown_request_type) (c : session_context) : session_context :=
  Context_ (info_ c) (variables_ c) ty (expiration_time_ c).
Definition expiration_time (t : option Z) (c : session_context) : session_context :=
  Context_ (info_ c) (variables_ c) (shutdown_request_ c) t.

(** one iteration of the loop of [shutdown_request]: [old] is the local copy, [now]
    the atomic; [inl] is the return value, [inr] the reloaded copy *)
Definition shutdown_iter (type old now : shutdown_request_type) : (bool + shutdown_request_type) * shutdown_request_type :=
  if bool_decide (old = type) || bool_decide (old = forceful) then (inl false, now)
  else if bool_decide (now = old) then (inl true, type)
  else (inr now, now).

(** the whole call when nobody interferes *)
Definition shutdown_request (type : shutdown_request_type) (c : session_context) : bool * session_context :=
  if bool_decide (type = nothing) then (false, c)
  else match shutdown_iter type (shutdown_request_ c) (shutdown_request_ c) with
       | (inl b, now) => (b, set_shutdown now c)
       | (inr _, now) => (false, set_shutdown now c)
       end.

(** * The container and the resource *)

Inductive error_code :=
| INVALID_ARGUMENT
| SESSION_NOT_FOUND
| SESSION_AMBIGUOUS
| SESSION_VARIABLE_NOT_DECLARED
| SESSION_VARIABLE_INVALID_VALUE
| OPERATION_NOT_PERMITTED.
Definition error_descriptor : Type := error_code * string.

Record sessions := Sessions {
  store : gmap nat session_context;
  session_contexts_ : list nat;
  variable_declarations_ : DeclarationSet.t
}.
Definition with_store (m : gmap nat session_context) (s : sessions) : sessions :=
  Sessions m (session_contexts_ s) (variable_declarations_ s).
Definition with_contexts (l : list nat) (s : sessions) : sessions :=
  Sessions (store s) l (variable_declarations_ s).
Definition lock (s : sessions) (p : nat) : option session_context := store s !! p.

(** erase the weak pointers that have expired *)
Definition purge (s : sessions) : sessions :=
  with_contexts (filter (fun p => is_Some (lock s p)) (session_contexts_ s)) s.

(** [foreach]: the contexts the callback sees, in the order of the set *)
Definition foreach (s : sessions) : list (nat * session_context) * sessions :=
  (omap (fun p => (fun c => (p, c)) <$> lock s p) (session_contexts_ s), purge s).

(** [register_session]: the set is ordered by the addresses of its own nodes, so
    [find] never finds the new session and [emplace] puts it at a position that
    depends on the allocator ([pos]) *)
Definition register_session (pos p : nat) (s : sessions) : bool * sessions :=
  let s := purge s in
  (true, with_contexts (take pos (session_contexts_ s) ++ p :: drop pos (session_contexts_ s)) s).

Definition find_session (numeric : Z) (s : sessions) : option (nat * session_context) * sessions :=
  let '(l, s) := foreach s in
  (fold_left (fun rv e => if numeric =? numeric_id (snd e) then Some e else rv) l None, s).
Definition enumerate_numeric_ids (symbolic : string) (s : sessions) : list Z * sessions :=
  let '(l, s) := foreach s in
  (omap (fun e => if bool_decide (symbolic = symbolic_id (snd e)) then Some (numeric_id (snd e)) else None) l, s).

Record SessionInfo := Entry {
  e_session_id : string;
  e_label : string;
  e_application : string;
  e_user : option string;
  e_start_at : Z;
  e_connection_type : string;
  e_connection_info : string
}.
Definition set_entry (info : session_info) : SessionInfo :=
  Entry (":" +:+ Text.to_string (id info)) (label info) (application_name info) (username info)
    (start_at info) (connection_type_name info) (connection_information info).

(** a method of the bridge: an exception, or a value or error descriptor, and the state *)
Definition method (A : Type) : Type := sessions -> res (A + error_descriptor) * sessions.
Definition fail {A} (code : error_code) (what : string) : method A := fun s => (Ok (inr (code, what)), s).
Definition done_ {A} (a : A) : method A := fun s => (Ok (inl a), s).
Definition raise {A} (e : exn) : method A := fun s => (Throw e, s).
Definition bind {A B} (m : method A) (f : A -> method B) : method B := fun s =>
  match m s with
  | (Ok (inl a), s) => f a s
  | (Ok (inr e), s) => (Ok (inr e), s)
  | (Throw e, s) => (Throw e, s)
  | (Undefined, s) => (Undefined, s)
  end.
(** [try { m } catch (std::invalid_argument&) { return code, what }] *)
Definition catch_invalid {A} (m : method A) (code : error_code) (what : string -> string) : method A := fun s =>
  match m s with
  | (Throw (invalid_argument w), s) => (Ok (inr (code, what w)), s)
  | r => r
  end.
Notation "'let*' x := m 'in' f" := (bind m (fun x => f)) (at level 200, x name, f at level 200, right associativity).

Definition find_only_one_session (spec : string) : method Z := fun s =>
  match spec with
  | EmptyString => (Throw out_of_range, s)
  | String ":"%char rest =>
      match Text.stol rest with
      | Ok v => (Ok (inl (u64 v)), s)
      | Throw _ => (Ok (inr (INVALID_ARGUMENT, "invalid session id")), s)
      | Undefined => (Undefined, s)
      end
  | _ =>
      let '(v, s) := enumerate_numeric_ids spec s in
      match v with
      | [] => fail SESSION_NOT_FOUND "cannot find session by that session specifier" s
      | [numeric] => done_ numeric s
      | _ => fail SESSION_AMBIGUOUS "ambiguous session (find multiple sessions by that session specifier)" s
      end
  end.

Definition lookup_session (numeric : Z) : method (option (nat * session_context)) := fun s =>
  let '(r, s) := find_session numeric s in (Ok (inl r), s).

(** the check every method makes on the session found *)
Definition permitted (caller : session_info) (c : session_context) : bool :=
  negb (negb (bool_decide (user_type_ caller = administrator)) &&
        negb (bool_decide (username caller = username (info_ c)))).
Definition check_permission (caller : session_info) (c : session_context) : method unit :=
  if permitted caller c then done_ tt else raise (runtime_error "no permission to access the session specified").

Definition update (p : nat) (c : session_context) : method unit := fun s =>
  (Ok (inl tt), with_store (<[p := c]> (store s)) s).

Definition not_found {A} : method A := fail SESSION_NOT_FOUND "cannot find session by that session specifier".

Module Bridge.

Definition list_ (session_id : Z) (caller : session_info) : method (list SessionInfo) := fun s =>
  let '(l, s) := foreach s in
  (Ok (inl (omap (fun e =>
     let info := info_ (snd e) in
     if negb (session_id =? id info) &&
        (bool_decide (user_type_ caller = administrator) || bool_decide (username caller = username info))
     then Some (set_entry info) else None) l)), s).

Definition get (spec : string) (caller : session_info) : method SessionInfo :=
  let* numeric := catch_invalid (find_only_one_session spec) SESSION_VARIABLE_INVALID_VALUE (fun w => w) in
  catch_invalid
    (let* o := lookup_session numeric in
     match o with
     | Some (_, c) => let* _ := check_permission caller c in done_ (set_entry (info_ c))
     | None => not_found
     end) SESSION_VARIABLE_INVALID_VALUE (fun w => w).

(** returns the context that is shut down *)
Definition session_shutdown (spec : string) (type : shutdown_request_type) (caller : session_info) : method nat :=
  let* numeric := catch_invalid (find_only_one_session spec) SESSION_NOT_FOUND
                    (fun _ => "cannot find session by that session specifier") in
  catch_invalid
    (let* o := lookup_session numeric in
     match o with
     | Some (p, c) =>
         let* _ := check_permission caller c in
         let '(rv, c') := shutdown_request type c in
         let* _ := update p c' in
         if rv then done_ p else fail OPERATION_NOT_PERMITTED "shutdown is not permitted"
     | None => not_found
     end) SESSION_VARIABLE_INVALID_VALUE (fun w => w).

Section SetVariable.
(** [boost::lexical_cast<locale_bool>] *)
Variable lexical_cast_bool : string -> option bool.

(** the value stored for a variable of the type; [None] when the text is no such value *)
Definition convert (type : session_variable_type) (text : string) : option value_type :=
  match type with
  | boolean => V_bool <$> lexical_cast_bool text
  | signed_integer => match Text.stol text with Ok v => Some (V_int64 v) | _ => None end
  | unsigned_integer => match Text.stoul text with Ok v => Some (V_uint64 v) | _ => None end
  | string_ => Some (V_string text)
  end.
Definition invalid_value (type : session_variable_type) : string :=
  match type with
  | boolean => "invalid value type for the boolean session variable"
  | signed_integer => "invalid value type for the signed_integer session variable"
  | unsigned_integer => "invalid value type for the unsigned_integer session variable"
  | string_ => ""
  end.

Definition set_valiable (spec name text : string) (caller : session_info) : method unit :=
  let* numeric := catch_invalid (find_only_one_session spec) SESSION_NOT_FOUND (fun w => w) in
  catch_invalid
    (let* o := lookup_session numeric in
     match o with
     | Some (p, c) =>
         let* _ := check_permission caller c in
         let vs := variables_ c in
         if negb (VariableSet.exists_ name vs)
         then fail SESSION_VARIABLE_NOT_DECLARED "session variable by that name has not been declared"
         else match VariableSet.type name vs with
              | None => fail SESSION_VARIABLE_NOT_DECLARED "session variable with that type has not been declared"
              | Some type =>
                  match convert type text with
                  | None => fail SESSION_VARIABLE_INVALID_VALUE (invalid_value type)
                  | Some v =>
                      let '(ok, vs') := VariableSet.set name v vs in
                      let* _ := update p (set_variables vs' c) in
                      if ok then done_ tt else fail OPERATION_NOT_PERMITTED "operation is not permitted"
                  end
              end
     | None => not_found
     end) SESSION_VARIABLE_INVALID_VALUE (fun w => w).
End SetVariable.

Definition unset_valiable (spec name : string) (caller : session_info) : method unit :=
  let* numeric := catch_invalid (find_only_one_session spec) SESSION_NOT_FOUND (fun w => w) in
  let* o := lookup_session numeric in
  match o with
  | Some (p, c) =>
      let* _ := check_permission caller c in
      let vs := variables_ c in
      if negb (VariableSet.exists_ name vs)
      then fail SESSION_VARIABLE_NOT_DECLARED "session variable by that name has not been declared"
      else fun s =>
        let initial := VariableSet.get name (DeclarationSet.make_variable_set (variable_declarations_ s)) in
        let '(ok, vs') := VariableSet.set name initial vs in
        (let* _ := update p (set_variables vs' c) in
         if ok then done_ tt else fail OPERATION_NOT_PERMITTED "should not reach here") s
  | None => not_found
  end.

(** name, value and description of the answer *)
Definition get_valiable (spec name : string) (caller : session_info) : method (string * value_type * option string) :=
  let* numeric := catch_invalid (find_only_one_session spec) SESSION_NOT_FOUND (fun _ => "") in
  catch_invalid
    (let* o := lookup_session numeric in
     match o with
     | Some (_, c) =>
         let* _ := check_permission caller c in
         let vs := variables_ c in
         if negb (VariableSet.exists_ name vs) then fail SESSION_VARIABLE_NOT_DECLARED ""
         else match VariableSet.type name vs with
              | None => fail SESSION_VARIABLE_NOT_DECLARED ""
              | Some _ => fun s =>
                  done_ (name, VariableSet.get name vs,
                         description_ <$> DeclarationSet.find name (variable_declarations_ s)) s
              end
     | None => fail SESSION_NOT_FOUND ""
     end) SESSION_VARIABLE_INVALID_VALUE (fun _ => "").

End Bridge.

(** * The service *)

Inductive shutdown_type_field := SESSION_SHUTDOWN_TYPE_NOT_SET | GRACEFUL | FORCEFUL | UNKNOWN_SHUTDOWN_TYPE.
Inductive command :=
| kSessionGet (spec : string)
| kSessionList
| kSessionShutdown (spec : string) (type : shutdown_type_field)
| kSessionSetVariable (spec name : string) (value : option string)
| kSessionGetVariable (spec name : string)
| COMMAND_NOT_SET.

(** what is sent to the client; the body of a successful shutdown is sent by a
    thread once the worker of the context has ended *)
Inductive reply :=
| R_get (e : SessionInfo)
| R_list (l : list SessionInfo)
| R_shutdown_when_ended (context : nat)
| R_set_variable
| R_get_variable (name : string) (v : value_type) (description : option string)
| R_error (e : error_descriptor)
| R_permission_error (what : string)
| R_nothing.

Section Service.
Variable lexical_cast_bool : string -> option bool.

(** the [if (!rv) ... else send_error] of each command, and the handler of
    [std::runtime_error] around them; any other exception leaves the service *)
Definition answer {A} (r : res (A + error_descriptor) * sessions) (ok : A -> reply) : res (bool * reply) * sessions :=
  match r with
  | (Ok (inl a), s) => (Ok (true, ok a), s)
  | (Ok (inr e), s) => (Ok (false, R_error e), s)
  | (Throw (runtime_error w), s) => (Ok (false, R_permission_error w), s)
  | (Throw e, s) => (Throw e, s)
  | (Undefined, s) => (Undefined, s)
  end.

(** [operator()]: [None] when the request cannot be parsed *)
Definition service (session_id : Z) (caller : session_info) (rq : option command) (s : sessions)
  : res (bool * reply) * sessions :=
  match rq with
  | None | Some COMMAND_NOT_SET => (Ok (false, R_nothing), s)
  | Some (kSessionGet spec) => answer (Bridge.get spec caller s) R_get
  | Some kSessionList => answer (Bridge.list_ session_id caller s) R_list
  | Some (kSessionShutdown spec type) =>
      match type with
      | GRACEFUL => answer (Bridge.session_shutdown spec graceful caller s) R_shutdown_when_ended
      | SESSION_SHUTDOWN_TYPE_NOT_SET | FORCEFUL =>
          answer (Bridge.session_shutdown spec forceful caller s) R_shutdown_when_ended
      | UNKNOWN_SHUTDOWN_TYPE => (Ok (false, R_error (INVALID_ARGUMENT, "invalid session shutdown type")), s)
      end
  | Some (kSessionSetVariable spec name (Some v)) =>
      answer (Bridge.set_valiable lexical_cast_bool spec name v caller s) (fun _ => R_set_variable)
  | Some (kSessionSetVariable spec name None) =>
      answer (Bridge.unset_valiable spec name caller s) (fun _ => R_set_variable)
  | Some (kSessionGetVariable spec name) =>
      answer (Bridge.get_valiable spec name caller s) (fun r => let '(n, v, d) := r in R_get_variable n v d)
  end.
End Service.

(** * Variables *)

Lemma make_variable_set_lookup ds name :
  DeclarationSet.make_variable_set ds !! name = (fun d => (type_ d, initial_value_ d)) <$> DeclarationSet.find name ds.
Proof.
  unfold DeclarationSet.make_variable_set, VariableSet.create.
  cut (forall m : VariableSet.t, fold_left (fun m e => let '(name, ty, v) := e in
      match m !! name with Some _ => m | None => <[name := (ty, v)]> m end)
      (map (fun d => (name_ d, type_ d, initial_value_ d)) ds) m !! name
    = match m !! name with Some x => Some x | None => (fun d => (type_ d, initial_value_ d)) <$> DeclarationSet.find name ds end).
  { intros H. rewrite H. by rewrite lookup_empty. }
  induction ds as [|d ds IH]; intros m; cbn [map fold_left DeclarationSet.find]; [by destruct (m !! name)|].
  rewrite IH. case_bool_decide as Hn; [subst name|]; destruct (m !! name_ d) eqn:E; rewrite ?E; try done.
  - by rewrite lookup_insert_eq.
  - by rewrite lookup_insert_ne.
Qed.

(** a value of the type, or no value *)
Definition has_type (ty : session_variable_type) (v : value_type) : Prop :=
  match ty, v with
  | _, monostate => True
  | boolean, V_bool _ => True
  | signed_integer, V_int64 z => - 2 ^ 63 <= z < 2 ^ 63
  | unsigned_integer, V_uint64 z => in_range 64 z
  | string_, V_string _ => True
  | _, _ => False
  end.

Lemma convert_has_type lex ty text v : Bridge.convert lex ty text = Some v -> has_type ty v.
Proof.
  destruct ty; cbn.
  - intros E. apply fmap_Some in E as (b & _ & ->). done.
  - unfold Text.stol. destruct (Text.signed_number text) as [[neg x]|]; [|done].
    case_bool_decide; [|done]. by intros [= <-].
  - unfold Text.stoul. destruct (Text.signed_number text) as [[neg x]|]; [|done].
    case_bool_decide; [|done]. intros [= <-]. by apply wrap_range.
  - by intros [= <-].
Qed.

(** the variables of a context are the declared ones, with values of their types *)
Definition variables_ok (ds : DeclarationSet.t) (vs : VariableSet.t) : Prop :=
  forall name, match vs !! name with
    | Some (ty, v) => (type_ <$> DeclarationSet.find name ds) = Some ty /\ has_type ty v
    | None => DeclarationSet.find name ds = None
    end.
Definition declarations_ok (ds : DeclarationSet.t) : Prop :=
  Forall (fun d => has_type (type_ d) (initial_value_ d)) ds.
Definition sessions_ok (s : sessions) : Prop :=
  declarations_ok (variable_declarations_ s) /\
  map_Forall (fun _ c => variables_ok (variable_declarations_ s) (variables_ c)) (store s).

Lemma find_In name ds d : DeclarationSet.find name ds = Some d -> d ∈ ds.
Proof.
  induction ds as [|e ds IH]; cbn; [done|]. case_bool_decide; [intros [= <-]; left|intros ?; right; by apply IH].
Qed.

Lemma variables_ok_initial ds : declarations_ok ds -> variables_ok ds (DeclarationSet.make_variable_set ds).
Proof.
  intros Hd name. rewrite make_variable_set_lookup. destruct (DeclarationSet.find name ds) as [d|] eqn:E; cbn; [|done].
  split; [done|]. eapply Forall_forall in Hd; [exact Hd|by eapply find_In].
Qed.

Lemma variables_ok_set ds vs name ty v0 v :
  variables_ok ds vs -> vs !! name = Some (ty, v0) -> has_type ty v -> variables_ok ds (<[name := (ty, v)]> vs).
Proof.
  intros Hv E Ht n. destruct (decide (n = name)) as [->|Hn]; [|rewrite lookup_insert_ne by done; apply Hv].
  rewrite lookup_insert_eq. specialize (Hv name). rewrite E in Hv. by destruct Hv.
Qed.

(** * Methods of the resource *)

Lemma foreach_elem s p c : (p, c) ∈ fst (foreach s) <-> p ∈ session_contexts_ s /\ store s !! p = Some c.
Proof.
  cbn. rewrite list_elem_of_omap. unfold lock. split.
  - intros (q & Hq & E). apply fmap_Some in E as (c' & E & [= -> ->]). done.
  - intros [Hp E]. exists p. by rewrite E.
Qed.

Lemma fold_last {A} (P : A -> bool) l :
  match fold_left (fun rv e => if P e then Some e else rv) l None with
  | Some e => e ∈ l /\ P e = true
  | None => forall e, e ∈ l -> P e = false
  end.
Proof.
  induction l as [|x l IH] using rev_ind; cbn [fold_left]; [by intros e He%not_elem_of_nil|].
  rewrite fold_left_app. cbn [fold_left]. destruct (P x) eqn:E; [split; [set_solver|done]|].
  destruct (fold_left _ l None); [destruct IH; split; [set_solver|done]|].
  intros e [He|He%list_elem_of_singleton]%elem_of_app; [by apply IH|by subst].
Qed.

Lemma find_session_spec numeric s o s' :
  find_session numeric s = (o, s') ->
  s' = purge s /\
  match o with
  | Some (p, c) => p ∈ session_contexts_ s /\ store s !! p = Some c /\ numeric_id c = numeric
  | None => forall p c, p ∈ session_contexts_ s -> store s !! p = Some c -> numeric_id c <> numeric
  end.
Proof.
  unfold find_session. destruct (foreach s) as [l s1] eqn:E. intros [= <- <-].
  assert (forall p c, (p, c) ∈ l <-> p ∈ session_contexts_ s /\ store s !! p = Some c) as Hl
    by (intros p c; rewrite <- foreach_elem; by rewrite E).
  split; [by injection E|].
  pose proof (fold_last (fun e : nat * session_context => numeric =? numeric_id (snd e)) l) as Hf.
  destruct (fold_left _ l None) as [[p c]|].
  - destruct Hf as [Hin%Hl He%Z.eqb_eq]. destruct Hin. by split_and!.
  - intros p c Hp Hc <-. specialize (Hf (p, c) (proj2 (Hl p c) (conj Hp Hc))). cbn in Hf. lia.
Qed.

(** nothing but expired pointers changed *)
Definition quiet (s s' : sessions) : Prop :=
  store s' = store s /\ variable_declarations_ s' = variable_declarations_ s.

Lemma quiet_refl s : quiet s s.
Proof. done. Qed.
Lemma quiet_trans s1 s2 s3 : quiet s1 s2 -> quiet s2 s3 -> quiet s1 s3.
Proof. unfold quiet. intros [-> ->]. done. Qed.

Lemma find_only_one_quiet spec s r s' : find_only_one_session spec s = (r, s') -> quiet s s'.
Proof.
  unfold find_only_one_session. destruct spec as [|c rest]; [by intros [= _ <-]|].
  assert (forall l s1, enumerate_numeric_ids (String c rest) s = (l, s1) -> quiet s s1) as He
    by (unfold enumerate_numeric_ids; cbn; by intros l s1 [= _ <-]).
  destruct (decide (c = ":"%char)) as [->|Hc].
  { destruct (Text.stol rest); by intros [= _ <-]. }
  intros H. destruct (enumerate_numeric_ids (String c rest) s) as [l s1] eqn:El. specialize (He l s1 eq_refl).
  assert (s' = s1) as ->; [|done]. revert H. unfold fail, done_.
  destruct c as [[] [] [] [] [] [] [] []]; try done; by destruct l as [|x [|y l]]; intros [= _ <-].
Qed.

Lemma catch_invalid_inl {A} (m : method A) code f s a s' :
  catch_invalid m code f s = (Ok (inl a), s') <-> m s = (Ok (inl a), s').
Proof. unfold catch_invalid. destruct (m s) as [[[x|x]|[]|] s1]; split; intros H; simplify_eq; done. Qed.
Lemma catch_invalid_state {A} (m : method A) code f s : snd (catch_invalid m code f s) = snd (m s).
Proof. unfold catch_invalid. by destruct (m s) as [[[x|x]|[]|] s1]. Qed.

(** the session a method works on: the one found, if the caller may access it *)
Lemma session_found {A} spec caller code f (N : method A) (K : nat -> session_context -> method A) W s :
  (forall m s1, snd (W m s1) = snd (m s1) /\ forall a, fst (W m s1) = Ok (inl a) <-> fst (m s1) = Ok (inl a)) ->
  (forall s1, snd (N s1) = s1 /\ forall a, fst (N s1) <> Ok (inl a)) ->
  forall r s', bind (catch_invalid (find_only_one_session spec) code f) (fun numeric =>
             W (bind (lookup_session numeric) (fun o => match o with
                | Some (p, c) => bind (check_permission caller c) (fun _ => K p c)
                | None => N end))) s = (r, s') ->
  (exists p c s1, quiet s s1 /\ store s !! p = Some c /\ permitted caller c = true /\
     s' = snd (K p c s1) /\ forall a, r = Ok (inl a) <-> fst (K p c s1) = Ok (inl a)) \/
  (quiet s s' /\ forall a, r <> Ok (inl a)).
Proof.
  intros HW HN r s' H. unfold bind at 1 in H.
  pose proof (catch_invalid_state (find_only_one_session spec) code f s) as Hs.
  destruct (find_only_one_session spec s) as [r1 s1] eqn:E1. apply find_only_one_quiet in E1. cbn in Hs.
  destruct (catch_invalid (find_only_one_session spec) code f s) as [[[numeric|e]|e|] s1'];
    cbn in Hs; subst s1'; [|right; by simplify_eq..].
  match type of H with W ?m _ = _ => destruct (HW m s1) as [Hst Hr]; rewrite H in Hst, Hr end. cbn [fst snd] in Hst, Hr.
  clear H HW. subst s'. setoid_rewrite Hr. clear Hr. unfold bind, lookup_session.
  destruct (find_session numeric s1) as [o s2] eqn:E2. apply find_session_spec in E2 as [-> Ho].
  assert (quiet s (purge s1)) as Hq by (eapply quiet_trans; [exact E1|done]).
  destruct o as [[p c]|].
  - destruct Ho as (_ & Hc & _). destruct E1 as [Est _]. rewrite Est in Hc. unfold check_permission.
    destruct (permitted caller c) eqn:Ep; [|right; by split; [exact Hq|]].
    left. exists p, c, (purge s1). by split_and!.
  - right. destruct (HN (purge s1)) as [-> HN']. done.
Qed.

Lemma catch_transparent {A} code f (m : method A) s1 :
  snd (catch_invalid m code f s1) = snd (m s1) /\
  forall a, fst (catch_invalid m code f s1) = Ok (inl a) <-> fst (m s1) = Ok (inl a).
Proof. unfold catch_invalid. destruct (m s1) as [[[x|x]|[]|] s2]; done. Qed.

Lemma fail_quiet {A} code what s1 : snd (@fail A code what s1) = s1 /\ forall a, fst (@fail A code what s1) <> Ok (inl a).
Proof. done. Qed.

(** what a call may change: one context the caller may access, whose information
    stays and whose variables keep their declared types *)
Definition changed (caller : session_info) (s s' : sessions) : Prop :=
  variable_declarations_ s' = variable_declarations_ s /\
  (store s' = store s \/
   exists p c c', store s !! p = Some c /\ permitted caller c = true /\ store s' = <[p := c']> (store s) /\
     info_ c' = info_ c /\
     (sessions_ok s -> variables_ok (variable_declarations_ s) (variables_ c'))).

Lemma changed_quiet caller s s' : quiet s s' -> changed caller s s'.
Proof. intros [E1 E2]. split; [done|by left]. Qed.

Lemma changed_update caller s s1 s' p c c' :
  quiet s s1 -> store s !! p = Some c -> permitted caller c = true -> info_ c' = info_ c ->
  (sessions_ok s -> variables_ok (variable_declarations_ s) (variables_ c')) ->
  s' = with_store (<[p := c']> (store s1)) s1 -> changed caller s s'.
Proof.
  intros [E1 E2] Hc Hp Hi Hv ->. split; [done|right]. exists p, c, c'. split_and!; try done. cbn. by rewrite E1.
Qed.

Lemma sessions_ok_variables s p c : sessions_ok s -> store s !! p = Some c ->
  variables_ok (variable_declarations_ s) (variables_ c).
Proof. intros [_ Hm] Hc. by apply (Hm p c). Qed.

(** a session found and then only read *)
Ltac found H := eapply (session_found _ _ _ _ _ _ (fun m => catch_invalid m _ _)) in H as [(p & c & s1 & Hq & Hc & Hp & Hs & Hr)|[Hq Hr]];
  [..|apply catch_transparent|apply fail_quiet].

Lemma get_changed spec caller s r s' : Bridge.get spec caller s = (r, s') ->
  quiet s s' /\ forall e, r = Ok (inl e) -> exists p c, store s !! p = Some c /\ permitted caller c = true /\ e = set_entry (info_ c).
Proof.
  intros H. unfold Bridge.get in H. found H; [|by split; [|intros e ->; destruct (Hr e)]].
  cbn in Hs. subst s'. split; [done|]. intros e He. apply Hr in He. cbn in He. simplify_eq. eauto.
Qed.

Lemma shutdown_changed spec type caller s r s' :
  Bridge.session_shutdown spec type caller s = (r, s') -> changed caller s s'.
Proof.
  intros H. unfold Bridge.session_shutdown in H. found H; [|by apply changed_quiet].
  destruct (shutdown_request type c) as [rv c'] eqn:E.
  assert (info_ c' = info_ c /\ variables_ c' = variables_ c) as [Ei Ev].
  { unfold shutdown_request, shutdown_iter in E. repeat case_bool_decide; cbn in E; by simplify_eq. }
  eapply (changed_update caller s s1 s' p c c'); try done.
  - intros Hok. rewrite Ev. by eapply sessions_ok_variables.
  - subst s'. by destruct rv.
Qed.

Lemma set_valiable_changed lex spec name text caller s r s' :
  Bridge.set_valiable lex spec name text caller s = (r, s') -> changed caller s s'.
Proof.
  intros H. unfold Bridge.set_valiable in H. found H; [|by apply changed_quiet].
  cbv zeta in Hs. destruct (negb _); [subst s'; by apply changed_quiet|].
  unfold VariableSet.type, VariableSet.set in Hs.
  destruct (variables_ c !! name) as [[ty v0]|] eqn:Ev; cbn [fmap option_fmap option_map fst] in Hs;
    [|subst s'; by apply changed_quiet].
  destruct (Bridge.convert lex ty text) as [v|] eqn:Econv; [|subst s'; by apply changed_quiet].
  eapply (changed_update caller s s1 s' p c (set_variables _ c)); try done; [|subst s'; done].
  intros Hok. eapply variables_ok_set; [by eapply sessions_ok_variables|done|by eapply convert_has_type].
Qed.

Lemma unset_valiable_changed spec name caller s r s' :
  Bridge.unset_valiable spec name caller s = (r, s') -> changed caller s s'.
Proof.
  intros H. unfold Bridge.unset_valiable in H.
  eapply (session_found spec caller _ _ _ _ (fun m => m)) in H as [(p & c & s1 & Hq & Hc & Hp & Hs & Hr)|[Hq Hr]];
    [..|done|apply fail_quiet]; [|by apply changed_quiet].
  cbv zeta in Hs. destruct (negb _); [subst s'; by apply changed_quiet|].
  unfold VariableSet.set in Hs. destruct (variables_ c !! name) as [[ty v0]|] eqn:Ev; cbn [fst snd] in Hs.
  - eapply (changed_update caller s s1 s' p c (set_variables _ c)); try done; [|subst s'; done].
    intros Hok. destruct Hq as [_ ->]. eapply variables_ok_set; [by eapply sessions_ok_variables|done|].
    pose proof (sessions_ok_variables _ _ _ Hok Hc name) as Hn. rewrite Ev in Hn. destruct Hn as [Hty Hht].
    pose proof (variables_ok_initial _ (proj1 Hok) name) as Hi. unfold VariableSet.get.
    rewrite make_variable_set_lookup in *. destruct (DeclarationSet.find name _) as [d|]; [|done].
    cbn in *. destruct Hi as [_ Hi]. by simplify_eq.
  - eapply (changed_update caller s s1 s' p c (set_variables (variables_ c) c)); try done.
    intros Hok. cbn [variables_ set_variables]. by eapply sessions_ok_variables.
Qed.

Lemma get_valiable_changed spec name caller s r s' : Bridge.get_valiable spec name caller s = (r, s') ->
  quiet s s' /\ forall n v d, r = Ok (inl (n, v, d)) ->
    exists p c, store s !! p = Some c /\ permitted caller c = true /\ n = name /\ v = VariableSet.get name (variables_ c).
Proof.
  intros H. unfold Bridge.get_valiable in H. found H; [|by split; [|intros n v d ->; destruct (Hr (n, v, d))]].
  cbv zeta in Hs, Hr. destruct (negb _); [split; [by subst s'|intros n v d E; by apply Hr in E]|].
  destruct (VariableSet.type name (variables_ c)); (split; [by subst s'|]); intros n v d E; apply Hr in E; cbn in E; simplify_eq.
  eauto 10.
Qed.

Lemma answer_state {A} (m : res (A + error_descriptor) * sessions) ok : snd (answer m ok) = snd m.
Proof. by destruct m as [[[a|e]|[]|] s1]. Qed.
Lemma answer_ok {A} (m : res (A + error_descriptor) * sessions) ok b rep :
  fst (answer m ok) = Ok (b, rep) ->
  (exists a, fst m = Ok (inl a) /\ rep = ok a) \/ (exists e, rep = R_error e) \/ (exists w, rep = R_permission_error w).
Proof. destruct m as [[[a|e]|[]|] s1]; cbn; intros [= <- <-]; eauto. Qed.

Section Claims.
Variable lexical_cast_bool : string -> option bool.

Lemma service_changed sid caller rq s r s' :
  service lexical_cast_bool sid caller rq s = (r, s') -> changed caller s s'.
Proof.
  intros H. assert (s' = snd (service lexical_cast_bool sid caller rq s)) as -> by (by rewrite H). clear H.
  destruct rq as [[spec| |spec [| | |]|spec name [v|]|spec name|]|]; cbn [service]; rewrite ?answer_state;
    try (by apply changed_quiet).
  - eapply changed_quiet, (get_changed spec caller s _ _ (surjective_pairing _)).
  - eapply (shutdown_changed spec _ caller s _ _ (surjective_pairing _)).
  - eapply (shutdown_changed spec _ caller s _ _ (surjective_pairing _)).
  - eapply (shutdown_changed spec _ caller s _ _ (surjective_pairing _)).
  - eapply (set_valiable_changed _ spec name v caller s _ _ (surjective_pairing _)).
  - eapply (unset_valiable_changed spec name caller s _ _ (surjective_pairing _)).
  - eapply changed_quiet, (get_valiable_changed spec name caller s _ _ (surjective_pairing _)).
Qed.

(** what a reply tells about the sessions *)
Definition reveals_only (P : session_context -> Prop) (s : sessions) (rep : reply) : Prop :=
  match rep with
  | R_get e => exists p c, store s !! p = Some c /\ P c /\ e = set_entry (info_ c)
  | R_list l => Forall (fun e => exists p c, store s !! p = Some c /\ P c /\ e = set_entry (info_ c)) l
  | R_get_variable n v _ => exists p c, store s !! p = Some c /\ P c /\ v = VariableSet.get n (variables_ c)
  | _ => True
  end.

Lemma list_reveals sid caller s l s' :
  Bridge.list_ sid caller s = (Ok (inl l), s') ->
  Forall (fun e => exists p c, store s !! p = Some c /\ permitted caller c = true /\ e = set_entry (info_ c)) l.
Proof.
  unfold Bridge.list_. destruct (foreach s) as [cs s1] eqn:E. intros [= <- _]. apply Forall_forall. intros e He.
  apply list_elem_of_omap in He as ([p c] & Hin & He). cbn [snd] in He.
  assert ((p, c) ∈ fst (foreach s)) as Hf by (by rewrite E). apply foreach_elem in Hf as [_ Hc].
  destruct (negb _ && (_ || _)) eqn:Eb; [|done]. injection He as <-. exists p, c. split_and!; try done.
  apply andb_true_iff in Eb as [_ Eb]. unfold permitted. by repeat case_bool_decide.
Qed.

(** C34: a request can change and show only sessions the caller may access: his own
    user's, or any for an administrator.  Every other session is left exactly as it
    was, and no reply contains anything about it. *)
Theorem service_isolation sid caller rq s r s' :
  service lexical_cast_bool sid caller rq s = (r, s') ->
  (forall p c, store s !! p = Some c -> permitted caller c = false -> store s' !! p = Some c) /\
  (forall b rep, r = Ok (b, rep) -> reveals_only (fun c => permitted caller c = true) s rep).
Proof.
  intros H. split.
  - intros p c Hc Hp. destruct (service_changed _ _ _ _ _ _ H) as [_ [->|(q & d & d' & Hd & Hq & -> & _)]]; [done|].
    destruct (decide (p = q)) as [->|Hn]; [congruence|by rewrite lookup_insert_ne].
  - intros b rep Hr. assert (fst (service lexical_cast_bool sid caller rq s) = Ok (b, rep)) as Hf by (by rewrite H).
    destruct rq as [[spec| |spec [| | |]|spec name [v|]|spec name|]|]; cbn [service] in Hf;
      try (by injection Hf as _ <-); apply answer_ok in Hf as [(a & Ha & ->)|[[? ->]|[? ->]]]; cbn; try done.
    + by apply (get_changed spec caller s _ _ (surjective_pairing _)).
    + eapply (list_reveals sid caller s a). rewrite <- Ha. apply surjective_pairing.
    + destruct a as [[n v] d]. cbn.
      destruct (proj2 (get_valiable_changed spec name caller s _ _ (surjective_pairing _)) n v d Ha) as (p & c & ? & ? & -> & ->).
      by exists p, c.
Qed.

(** C35: no request breaks the typing of the session variables: every session keeps
    exactly the declared variables, each with its declared type and no value or a
    value of that type in its range. *)
Theorem service_typed sid caller rq s r s' :
  sessions_ok s -> service lexical_cast_bool sid caller rq s = (r, s') -> sessions_ok s'.
Proof.
  intros Hok H. destruct (service_changed _ _ _ _ _ _ H) as [Ed Hs]. pose proof Hok as [Hd Hm].
  split; rewrite Ed; [done|]. destruct Hs as [->|(p & c & c' & Hc & _ & -> & _ & Hv)]; [done|].
  apply map_Forall_insert_2; [by apply Hv|done].
Qed.

End Claims.

(** * Looking a session up again after a change *)

Lemma omap_cons_eq {A B} (f : A -> option B) x l :
  omap f (x :: l) = match f x with Some y => y :: omap f l | None => omap f l end.
Proof. done. Qed.

Lemma omap_map_ext {A B} (f : A -> option B) (g : A -> A) l :
  (forall e, e ∈ l -> f (g e) = f e) -> omap f (map g l) = omap f l.
Proof.
  intros H. induction l as [|e l IH]; [done|]. cbn [map]. rewrite !omap_cons_eq, H by left.
  rewrite IH; [done|]. intros; apply H; by right.
Qed.

Section Stable.
Context (s : sessions) (p : nat) (c c' : session_context).
Context (Hc : store s !! p = Some c) (Hi : info_ c' = info_ c).

Definition after : sessions := with_store (<[p := c']> (store s)) (purge s).
Definition subst_context (e : nat * session_context) : nat * session_context :=
  if decide (fst e = p) then (p, c') else e.

Lemma foreach_after : fst (foreach after) = map subst_context (fst (foreach s)).
Proof using Hc.
  unfold foreach, after, purge, lock. cbn [fst store session_contexts_ with_store with_contexts].
  induction (session_contexts_ s) as [|q l IH]; [done|].
  rewrite filter_cons. destruct (store s !! q) as [d|] eqn:Eq; cbn [omap list_omap]; rewrite Eq.
  - rewrite decide_True by done. cbn. unfold subst_context at 1. cbn.
    destruct (decide (q = p)) as [->|Hn]; [rewrite lookup_insert_eq|rewrite lookup_insert_ne, Eq by done]; cbn; by rewrite IH.
  - rewrite decide_False by (by intros [? ?]). apply IH.
Qed.

Lemma subst_info e : e ∈ fst (foreach s) -> info_ (snd (subst_context e)) = info_ (snd e).
Proof using Hc Hi.
  destruct e as [q d]. intros He%foreach_elem. destruct He as [_ Hd]. unfold subst_context. cbn.
  destruct (decide (q = p)) as [->|]; cbn; congruence.
Qed.

Lemma fold_map_stable numeric l r :
  (forall e, e ∈ l -> info_ (snd (subst_context e)) = info_ (snd e)) ->
  fold_left (fun rv e => if numeric =? numeric_id (snd e) then Some e else rv) (map subst_context l) (subst_context <$> r)
  = subst_context <$> fold_left (fun rv e => if numeric =? numeric_id (snd e) then Some e else rv) l r.
Proof.
  revert r. induction l as [|e l IH]; intros r Hl; [done|]. cbn [map fold_left].
  unfold numeric_id at 2. rewrite (Hl e) by left. fold (numeric_id (snd e)).
  rewrite <- IH by (intros; apply Hl; by right). by destruct (numeric =? numeric_id (snd e)).
Qed.

Lemma find_session_after numeric :
  find_session numeric after = (subst_context <$> fst (find_session numeric s), purge after).
Proof using Hc Hi.
  unfold find_session. pose proof foreach_after as Hf. unfold foreach in *. cbn [fst] in *. rewrite Hf. cbn [fst]. f_equal.
  apply (fold_map_stable numeric _ None). intros e He. by apply subst_info.
Qed.

Lemma enumerate_after symbolic :
  enumerate_numeric_ids symbolic after = (fst (enumerate_numeric_ids symbolic s), purge after).
Proof using Hc Hi.
  unfold enumerate_numeric_ids. pose proof foreach_after as Hf. pose proof subst_info as Hs. unfold foreach in *. cbn [fst] in *.
  rewrite Hf. cbn [fst]. f_equal. apply omap_map_ext. intros e He. specialize (Hs e He).
  unfold symbolic_id, numeric_id. by rewrite Hs.
Qed.

Lemma find_only_one_after spec numeric s1 :
  find_only_one_session spec s = (Ok (inl numeric), s1) ->
  exists s2, find_only_one_session spec after = (Ok (inl numeric), s2) /\ (s2 = after \/ s2 = purge after).
Proof using Hc Hi.
  unfold find_only_one_session. destruct spec as [|a rest]; [done|].
  rewrite enumerate_after. destruct (decide (a = ":"%char)) as [->|Ha].
  { destruct (Text.stol rest); [|done..]. intros [= <- _]. eauto. }
  destruct (enumerate_numeric_ids (String a rest) s) as [v s3]. cbn [fst].
  destruct a as [[] [] [] [] [] [] [] []]; try done; destruct v as [|x [|y v]]; unfold done_, fail; intros [= -> _]; eauto.
Qed.

End Stable.

Lemma purge_idem s : purge (purge s) = purge s.
Proof.
  unfold purge, lock, with_contexts. cbn. f_equal. rewrite list_filter_filter. apply list_filter_iff. intros x. tauto.
Qed.

Lemma foreach_purge s : foreach (purge s) = foreach s.
Proof.
  unfold foreach. rewrite purge_idem. f_equal. unfold purge, lock. cbn [store session_contexts_ with_contexts].
  induction (session_contexts_ s) as [|q l IH]; [done|]. rewrite filter_cons.
  destruct (store s !! q) as [d|] eqn:Eq; [rewrite decide_True by done|rewrite decide_False by (by intros [? ?])];
    cbn [omap list_omap]; rewrite Eq; cbn; [f_equal|]; apply IH.
Qed.
Lemma find_session_purge numeric s : find_session numeric (purge s) = find_session numeric s.
Proof. unfold find_session. by rewrite foreach_purge. Qed.

Lemma find_only_one_state spec s r s1 : find_only_one_session spec s = (r, s1) -> s1 = s \/ s1 = purge s.
Proof.
  unfold find_only_one_session. destruct spec as [|c rest]; [intros [= _ <-]; by left|].
  destruct (decide (c = ":"%char)) as [->|Hc]; [destruct (Text.stol rest); intros [= _ <-]; by left|].
  destruct (enumerate_numeric_ids (String c rest) s) as [l s2] eqn:El.
  assert (s2 = purge s) as -> by (unfold enumerate_numeric_ids in El; cbn in El; by injection El).
  unfold fail, done_. destruct c as [[] [] [] [] [] [] [] []]; try done; destruct l as [|x [|y l]]; intros [= _ <-]; by right.
Qed.

(** What [set_valiable] stored is what [get_valiable] shows, under the same
    specifier and for the same caller. *)
Theorem set_then_get lex spec name text caller s s' :
  Bridge.set_valiable lex spec name text caller s = (Ok (inl tt), s') ->
  exists p c ty v, store s !! p = Some c /\ VariableSet.type name (variables_ c) = Some ty /\
    Bridge.convert lex ty text = Some v /\
    fst (Bridge.get_valiable spec name caller s') =
      Ok (inl (name, v, description_ <$> DeclarationSet.find name (variable_declarations_ s))).
Proof.
  unfold Bridge.set_valiable. unfold bind at 1.
  destruct (catch_invalid (find_only_one_session spec) _ _ s) as [[[numeric|]| |] s1] eqn:Ef; try done.
  apply catch_invalid_inl in Ef. rewrite catch_invalid_inl. unfold bind at 1, lookup_session.
  assert (find_session numeric s1 = find_session numeric s) as ->
    by (destruct (find_only_one_state _ _ _ _ Ef) as [->| ->]; [done|apply find_session_purge]).
  destruct (find_session numeric s) as [o s2] eqn:E2. pose proof (find_session_spec _ _ _ _ E2) as [-> Ho].
  destruct o as [[p c]|]; [|done]. destruct Ho as (Hp & Hc & Hn). unfold bind at 1, check_permission.
  destruct (permitted caller c) eqn:Epm; [|done]. cbn [done_ negb]. unfold VariableSet.exists_, VariableSet.type, VariableSet.set.
  destruct (variables_ c !! name) as [[ty v0]|] eqn:Ev; [|by rewrite bool_decide_false by (by intros [? ?])].
  rewrite bool_decide_true by done. cbn [negb fmap option_fmap option_map fst].
  destruct (Bridge.convert lex ty text) as [v|] eqn:Ec; [|done]. unfold bind, update. intros [= <-].
  exists p, c, ty, v. split_and!; try done; [by rewrite Ev|].
  set (c' := set_variables (<[name:=(ty, v)]> (variables_ c)) c).
  change (with_store _ _) with (after s p c').
  destruct (find_only_one_after s p c c' Hc eq_refl spec numeric s1 Ef) as (s3 & E3 & Hs3).
  unfold Bridge.get_valiable. unfold bind at 1. erewrite (proj2 (catch_invalid_inl _ _ _ _ _ _) E3).
  apply catch_transparent. unfold bind at 1, lookup_session.
  assert (find_session numeric s3 = find_session numeric (after s p c')) as ->
    by (destruct Hs3 as [->| ->]; [done|apply find_session_purge]).
  rewrite (find_session_after s p c c' Hc eq_refl), E2. cbn [fst fmap option_fmap option_map].
  unfold subst_context. cbn [fst]. rewrite decide_True by done. unfold bind at 1, check_permission.
  replace (permitted caller c') with true by (unfold permitted in *; done).
  unfold VariableSet.exists_, VariableSet.type, VariableSet.get. cbn [variables_ c' set_variables].
  rewrite lookup_insert_eq, bool_decide_true by done. done.
Qed.

(** The session id shown in a reply is a specifier of that session: [get] with
    it finds the session again. *)
Theorem session_id_roundtrip s p c caller :
  p ∈ session_contexts_ s -> store s !! p = Some c -> 0 <= numeric_id c < 2 ^ 63 ->
  (forall q d, q ∈ session_contexts_ s -> store s !! q = Some d -> numeric_id d = numeric_id c -> d = c) ->
  permitted caller c = true ->
  fst (Bridge.get (e_session_id (set_entry (info_ c))) caller s) = Ok (inl (set_entry (info_ c))).
Proof.
  intros Hp Hc Hid Hu Hpm. unfold Bridge.get. unfold bind at 1.
  assert (find_only_one_session (e_session_id (set_entry (info_ c))) s = (Ok (inl (numeric_id c)), s)) as E.
  { change (e_session_id _) with (String ":"%char (Text.to_string (numeric_id c))). cbv beta iota delta [find_only_one_session].
    rewrite Text.stol_to_string by done. by rewrite wrap_small by (unfold in_range, numeric_id in *; lia). }
  erewrite (proj2 (catch_invalid_inl _ _ _ _ _ _) E). apply catch_transparent. unfold bind at 1, lookup_session.
  destruct (find_session (numeric_id c) s) as [o s2] eqn:E2. apply find_session_spec in E2 as [-> Ho].
  destruct o as [[q d]|]; [|by destruct (Ho p c Hp Hc)]. destruct Ho as (Hq & Hd & Hn).
  rewrite (Hu q d Hq Hd Hn). unfold bind, check_permission. by rewrite Hpm.
Qed.

(** An empty session specifier is not answered: [string_view::at] throws
    [out_of_range], which neither the resource nor the service catches. *)
Theorem empty_specifier_escapes lex sid caller s rq :
  rq ∈ [kSessionGet ""; kSessionShutdown "" GRACEFUL; kSessionShutdown "" FORCEFUL;
        kSessionShutdown "" SESSION_SHUTDOWN_TYPE_NOT_SET] \/
  (exists name v, rq = kSessionSetVariable "" name v) \/ (exists name, rq = kSessionGetVariable "" name) ->
  service lex sid caller (Some rq) s = (Throw out_of_range, s).
Proof. intros [H|[(name & [v|] & ->)|(name & ->)]]; try done. by set_unfold; destruct_or!; subst. Qed.

(** a session that is registered is enumerated under its label as often as it is registered *)
Lemma enumerate_count p c s :
  store s !! p = Some c ->
  (length (filter (eq p) (session_contexts_ s)) <= length (fst (enumerate_numeric_ids (label (info_ c)) s)))%nat.
Proof.
  intros Hc. unfold enumerate_numeric_ids, foreach, lock. cbn [fst].
  induction (session_contexts_ s) as [|q l IH]; [done|]. rewrite filter_cons, omap_cons_eq.
  destruct (decide (p = q)) as [<-|Hn].
  - rewrite Hc. cbn [fmap option_fmap option_map]. rewrite omap_cons_eq. cbn [snd].
    rewrite (bool_decide_true (label (info_ c) = symbolic_id c)) by done. cbn [length]. lia.
  - destruct (store s !! q) as [d|]; cbn [fmap option_fmap option_map]; [|done].
    rewrite omap_cons_eq. destruct (bool_decide _); cbn [length]; lia.
Qed.

Lemma registered_count p pos s c :
  store s !! p = Some c ->
  length (filter (eq p) (session_contexts_ (snd (register_session pos p s)))) =
    S (length (filter (eq p) (session_contexts_ s))).
Proof.
  intros Hc. cbn [register_session snd with_contexts session_contexts_ purge].
  assert (filter (eq p) (filter (fun q => is_Some (lock s q)) (session_contexts_ s)) = filter (eq p) (session_contexts_ s)) as E.
  { rewrite list_filter_filter. apply list_filter_iff. intros q. unfold lock. split; [by intros [? ?]|intros <-; eauto]. }
  rewrite <- E, filter_app, filter_cons, decide_True by done.
  rewrite <- (take_drop pos (filter (fun q => is_Some (lock s q)) (session_contexts_ s))) at 3.
  rewrite filter_app, !length_app. cbn. lia.
Qed.

(** [register_session] accepts every session, also one that is registered
    already; a session registered twice can no longer be named by its label. *)
Theorem register_twice_ambiguous pos pos' p c s :
  store s !! p = Some c -> (exists a rest, label (info_ c) = String a rest /\ a <> ":"%char) ->
  let s1 := snd (register_session pos p s) in
  let s2 := snd (register_session pos' p s1) in
  fst (register_session pos p s) = true /\ fst (register_session pos' p s1) = true /\
  fst (find_only_one_session (label (info_ c)) s2)
    = Ok (inr (SESSION_AMBIGUOUS, "ambiguous session (find multiple sessions by that session specifier)")).
Proof.
  intros Hc (a & rest & El & Ha) s1 s2. split_and!; [done..|].
  assert (store s1 !! p = Some c /\ store s2 !! p = Some c) as [Hc1 Hc2] by done.
  pose proof (enumerate_count p c s2 Hc2) as He. unfold s2 in He at 1. rewrite (registered_count p pos' s1 c Hc1) in He.
  unfold s1 in He at 1. rewrite (registered_count p pos s c Hc) in He. rewrite El in *. unfold find_only_one_session.
  destruct (enumerate_numeric_ids (String a rest) s2) as [l s3]. cbn [fst] in He.
  destruct l as [|x [|y l]]; cbn in He; try lia. by destruct a as [[] [] [] [] [] [] [] []].
Qed.

(** * Concurrent shutdown requests

    Several threads call [shutdown_request] on one context: the load, and each
    iteration of the compare-and-exchange loop, are atomic steps. *)
Module Shutdown.

Inductive caller :=
| Start (type : shutdown_request_type)
| Loop (type old : shutdown_request_type)
| Returned (type : shutdown_request_type) (b : bool).

Definition type_of (c : caller) : shutdown_request_type :=
  match c with Start t | Loop t _ | Returned t _ => t end.

Definition caller_step (c : caller) (now : shutdown_request_type) : option (caller * shutdown_request_type) :=
  match c with
  | Start t => Some (if bool_decide (t = nothing) then Returned t false else Loop t now, now)
  | Loop t old =>
      match shutdown_iter t old now with
      | (inl b, now') => Some (Returned t b, now')
      | (inr old', now') => Some (Loop t old', now')
      end
  | Returned _ _ => None
  end.

(** the callers share the atomic; [run] lets them step in the order of [sched] *)
Definition step (i : nat) (st : shutdown_request_type * list caller) : option (shutdown_request_type * list caller) :=
  match st.2 !! i with
  | None => None
  | Some c => match caller_step c st.1 with Some (c', now') => Some (now', <[i := c']> st.2) | None => None end
  end.
Fixpoint run (sched : list nat) (st : shutdown_request_type * list caller) : option (shutdown_request_type * list caller) :=
  match sched with [] => Some st | i :: sched => match step i st with Some st' => run sched st' | None => None end end.
(** the steps of caller [i] *)
Definition own (i : nat) (sched : list nat) : nat := length (filter (fun j => j = i) sched).

Definition rank (t : shutdown_request_type) : nat := match t with nothing => 0 | graceful => 1 | forceful => 2 end.
Definition fuel (c : caller) : nat := match c with Start _ => 4 | Loop _ old => 3 - rank old | Returned _ _ => 0 end.
Definition granted (c : caller) : nat := match c with Returned _ true => 1 | _ => 0 end.
Definition total (f : caller -> nat) (cs : list caller) : nat := foldr (fun c n => (f c + n)%nat) O cs.

Lemma rank_inj t1 t2 : rank t1 = rank t2 -> t1 = t2.
Proof. by destruct t1, t2. Qed.

Definition caller_ok (now : shutdown_request_type) (c : caller) : Prop :=
  match c with
  | Start _ => True
  | Loop t old => (rank old <= rank now)%nat /\ t <> nothing
  | Returned t _ => (rank t <= rank now)%nat
  end.

Lemma total_cons f c cs : total f (c :: cs) = (f c + total f cs)%nat.
Proof. done. Qed.
Lemma total_insert f cs i c c' : cs !! i = Some c -> (total f (<[i := c']> cs) + f c = total f cs + f c')%nat.
Proof.
  revert i. induction cs as [|d cs IH]; intros [|i] H; cbn in H; simplify_eq.
  - change (<[0%nat := c']> (c :: cs)) with (c' :: cs). rewrite !total_cons. lia.
  - change (<[S i := c']> (d :: cs)) with (d :: <[i := c']> cs). rewrite !total_cons. specialize (IH i H). lia.
Qed.

Lemma caller_step_spec c now c' now' :
  caller_ok now c -> caller_step c now = Some (c', now') ->
  caller_ok now' c' /\ (rank now <= rank now')%nat /\ type_of c' = type_of c /\ (fuel c' < fuel c)%nat /\
  (granted c' + rank now <= granted c + rank now')%nat /\ (now' = now \/ now' = type_of c).
Proof.
  intros Hok E. destruct c as [t|t old|t b]; cbn in E; [| |done].
  - case_bool_decide as Ht; injection E as <- <-; destruct t, now; cbn; split_and!; try done; try lia; by left.
  - destruct Hok as [Hr Ht]. unfold shutdown_iter in E.
    repeat case_bool_decide; cbn [orb] in E; injection E as <- <-; destruct t, old, now; cbn in *; try done;
      split_and!; try done; try lia; (by left) || (by right).
Qed.

Record inv (tys : list shutdown_request_type) (st : shutdown_request_type * list caller) : Prop := {
  i_types : map type_of (snd st) = tys;
  i_ok : Forall (caller_ok (fst st)) (snd st);
  i_granted : (total granted (snd st) <= rank (fst st))%nat;
  i_now : fst st = nothing \/ fst st ∈ tys
}.

Lemma caller_ok_mono now now' c : (rank now <= rank now')%nat -> caller_ok now c -> caller_ok now' c.
Proof. destruct c; cbn; intuition lia. Qed.

Lemma inv_shutdown_step tys i st st' : inv tys st -> step i st = Some st' -> inv tys st'.
Proof.
  destruct st as [now cs]. intros [H1 H2 H4 H5] Hs. unfold step in Hs. cbn [fst snd] in *.
  destruct (cs !! i) as [c|] eqn:Hc; [|done]. destruct (caller_step c now) as [[c' now']|] eqn:Hstep; [|done]. injection Hs as <-.
  pose proof (Forall_lookup_1 _ _ _ _ H2 Hc) as Hok. destruct (caller_step_spec c now c' now' Hok Hstep) as (Ho & Hr & Ht & Hf & Hg & Hn).
  pose proof (total_insert granted cs i c c' Hc). split; cbn [fst snd]; [| |lia|].
  - rewrite <- H1, list_fmap_insert, Ht. apply list_insert_id. by rewrite list_lookup_fmap, Hc.
  - apply Forall_insert; [|done]. eapply Forall_impl; [exact H2|]. intros d. by apply caller_ok_mono.
  - destruct Hn as [->| ->]; [done|right]. rewrite <- H1. by eapply list_elem_of_fmap_2, list_elem_of_lookup_2.
Qed.

Lemma own_cons i j sched : own i (j :: sched) = ((if decide (j = i) then 1 else 0) + own i sched)%nat.
Proof. unfold own. rewrite filter_cons. by case_decide. Qed.

(** the steps a caller took and the ones it has left are at most what it had *)
Lemma run_fuel tys sched st st' i c :
  inv tys st -> run sched st = Some st' -> snd st !! i = Some c ->
  inv tys st' /\ exists c', snd st' !! i = Some c' /\ (own i sched + fuel c' <= fuel c)%nat.
Proof.
  revert st c. induction sched as [|j sched IH]; intros st c Hi Hr Hc; cbn [run] in Hr.
  { injection Hr as <-. split; [done|]. exists c. split; [done|cbn; lia]. }
  destruct (step j st) as [st1|] eqn:Es; [|done]. pose proof (inv_shutdown_step tys j st st1 Hi Es) as Hi1. rewrite own_cons.
  destruct st as [now cs]. unfold step in Es. cbn [fst snd] in *. destruct (cs !! j) as [d|] eqn:Hd; [|done].
  destruct (caller_step d now) as [[d' now']|] eqn:Hstep; [|done]. injection Es as <-. case_decide as Hj.
  - subst j. rewrite Hd in Hc. injection Hc as ->.
    destruct (caller_step_spec c now d' now') as (_ & _ & _ & Hf & _); [by eapply Forall_lookup_1; [apply Hi|]|done|].
    destruct (IH (now', <[i := d']> cs) d' Hi1 Hr) as (? & c' & ? & ?); [cbn; by apply list_lookup_insert_eq, lookup_lt_is_Some|].
    split; [done|]. exists c'. split; [done|lia].
  - destruct (IH (now', <[j := d']> cs) c Hi1 Hr) as (? & c' & ? & ?); [cbn; by rewrite list_lookup_insert_ne|].
    split; [done|]. exists c'. split; [done|lia].
Qed.
(** a caller that is not there takes no step *)
Lemma run_absent sched st st' i : snd st !! i = None -> run sched st = Some st' -> own i sched = 0%nat.
Proof.
  revert st. induction sched as [|j sched IH]; intros st Hn Hr; [done|]. cbn [run] in Hr. rewrite own_cons. unfold step in Hr.
  destruct (snd st !! j) as [d|] eqn:Hd; [|done]. destruct (caller_step d st.1) as [[d' now']|]; [|done].
  rewrite decide_False by congruence. eapply (IH (now', <[j := d']> st.2)); [|done]. cbn. rewrite list_lookup_insert_ne by congruence. done.
Qed.
Lemma run_inv tys sched st st' : inv tys st -> run sched st = Some st' -> inv tys st'.
Proof.
  revert st. induction sched as [|j sched IH]; intros st Hi Hr; cbn [run] in Hr; [by injection Hr as <-|].
  destruct (step j st) as [st1|] eqn:Es; [|done]. by eapply IH, Hr; eapply inv_shutdown_step.
Qed.

Lemma total_start f tys n : (forall t, f (Start t) = n) -> total f (map Start tys) = (n * length tys)%nat.
Proof. intros H. induction tys as [|t tys IH]; cbn [map]; [cbn; lia|]. rewrite total_cons, IH, H. cbn. lia. Qed.

Lemma inv_shutdown_initial tys : inv tys (nothing, map Start tys).
Proof.
  split; cbn [fst snd]; [|by apply Forall_fmap, Forall_true| |by left].
  - rewrite map_map. apply map_id.
  - by rewrite (total_start granted tys 0).
Qed.

(** a call that asks for what is recorded already is refused (context.h documents that it is
    accepted) *)
Lemma repeated_request_refused type c :
  type <> nothing -> shutdown_request_ c = type -> shutdown_request type c = (false, set_shutdown type c).
Proof. intros Hn E. unfold shutdown_request, shutdown_iter. rewrite E. by destruct type. Qed.

(** C36: however the calls interleave, no call takes more than four steps of its own, and one
    that has not returned can take its next step; when all have returned, the request recorded
    is the strongest one asked for, and at most one call was granted per step up the order
    nothing < graceful < forceful: a call for what is recorded already returns false, where
    the comment in context.h says true. *)
Theorem shutdown_requests_agree tys sched st :
  run sched (nothing, map Start tys) = Some st ->
  (forall i, (own i sched <= 4)%nat) /\
  (forall i c, snd st !! i = Some c -> (exists t b, c = Returned t b) \/ is_Some (step i st)) /\
  (Forall (fun c => exists t b, c = Returned t b) (snd st) ->
     Forall (fun t => (rank t <= rank (fst st))%nat) tys /\ (fst st = nothing \/ fst st ∈ tys) /\
     (total granted (snd st) <= rank (fst st))%nat).
Proof.
  intros Hr. pose proof (inv_shutdown_initial tys) as H0. pose proof (run_inv tys sched _ st H0 Hr) as [H1 H2 H4 H5]. split_and!.
  - intros i. destruct (map Start tys !! i) as [c|] eqn:Hc.
    + destruct (run_fuel tys sched _ st i c H0 Hr Hc) as (_ & c' & _ & Hf).
      apply list_lookup_fmap_Some in Hc as (t & -> & _). cbn in Hf. lia.
    + assert (own i sched = 0)%nat as ->; [|lia]. exact (run_absent sched (nothing, map Start tys) st i Hc Hr).
  - intros i c Hc. unfold step. rewrite Hc. destruct c as [t|t old|t b]; cbn; [right; by eexists| |by left; eauto].
    right. destruct (shutdown_iter t old st.1) as [[b|old'] now']; by eexists.
  - intros Hd. split_and!; [|done..]. rewrite <- H1. apply Forall_fmap.
    eapply Forall_impl; [apply Forall_and; split; [exact H2|exact Hd]|]. intros c [Hok (t & b & ->)]. done.
Qed.

End Shutdown.

(** * Examples *)
Module Demo.

(** [true]/[false], as [std::boolalpha] reads them *)
Definition boolalpha (s : string) : option bool :=
  if bool_decide (s = "true") then Some true else if bool_decide (s = "false") then Some false else None.

Definition declarations : DeclarationSet.t :=
  [Declaration "limit" signed_integer (V_int64 5) "row limit"; Declaration "verbose" boolean monostate ""].
Definition info (i : Z) (l user : string) (ut : user_type) : session_info := Info i l "app" (Some user) 0 "ipc" "" ut.
Definition alice : session_context :=
  Context_ (info 1 "job" "alice" standard) (DeclarationSet.make_variable_set declarations) nothing None.
Definition bob : session_context :=
  Context_ (info 2 "batch" "bob" standard) (DeclarationSet.make_variable_set declarations) nothing None.
Definition st : sessions := Sessions (<[1%nat := alice]> (<[2%nat := bob]> ∅)) [2%nat; 7%nat; 1%nat] declarations.

Lemma st_ok : sessions_ok st.
Proof.
  assert (declarations_ok declarations) as Hd by (repeat constructor; cbn; lia). split; [done|].
  apply map_Forall_insert_2; [by apply variables_ok_initial|].
  apply map_Forall_insert_2; [by apply variables_ok_initial|]. apply map_Forall_empty.
Qed.

Lemma service_isolation_witness : exists r s',
  service boolalpha 1 (info_ alice) (Some (kSessionShutdown ":2" FORCEFUL)) st = (r, s') /\
  permitted (info_ alice) bob = false /\ store s' !! 2%nat = Some bob.
Proof.
  destruct (service boolalpha 1 (info_ alice) (Some (kSessionShutdown ":2" FORCEFUL)) st) as [r s'] eqn:E.
  exists r, s'. split; [done|]. split; [done|].
  by apply (proj1 (service_isolation boolalpha 1 (info_ alice) _ st r s' E)).
Defined.

Lemma service_typed_witness : exists r s',
  sessions_ok st /\ service boolalpha 1 (info_ alice) (Some (kSessionSetVariable ":1" "limit" (Some "-12"))) st = (r, s') /\
  r = Ok (true, R_set_variable) /\ sessions_ok s'.
Proof.
  destruct (service boolalpha 1 (info_ alice) (Some (kSessionSetVariable ":1" "limit" (Some "-12"))) st) as [r s'] eqn:E.
  exists r, s'. split; [apply st_ok|]. split; [done|]. split; [by vm_compute in E; injection E as <- _|].
  exact (service_typed boolalpha 1 (info_ alice) _ st r s' st_ok E).
Defined.

Lemma set_then_get_witness : exists s',
  Bridge.set_valiable boolalpha "job" "limit" "+7x" (info_ alice) st = (Ok (inl tt), s') /\
  exists p c ty v, store st !! p = Some c /\ VariableSet.type "limit" (variables_ c) = Some ty /\
    Bridge.convert boolalpha ty "+7x" = Some v /\
    fst (Bridge.get_valiable "job" "limit" (info_ alice) s') =
      Ok (inl ("limit", v, description_ <$> DeclarationSet.find "limit" (variable_declarations_ st))).
Proof.
  destruct (Bridge.set_valiable boolalpha "job" "limit" "+7x" (info_ alice) st) as [r s'] eqn:E.
  assert (r = Ok (inl tt)) as -> by (vm_compute in E; by injection E as <- _).
  exists s'. split; [done|]. exact (set_then_get boolalpha "job" "limit" "+7x" (info_ alice) st s' E).
Defined.

Lemma session_id_roundtrip_witness :
  fst (Bridge.get (e_session_id (set_entry (info_ bob))) (info 9 "" "root" administrator) st) = Ok (inl (set_entry (info_ bob))).
Proof.
  apply (session_id_roundtrip st 2%nat bob); [vm_compute; left|done|vm_compute; done| |done].
  intros q d Hq Hd Hn. cbn in Hq. apply list_elem_of_In in Hq as [<-|[<-|[<-|[]]]]; vm_compute in Hd; simplify_eq; done.
Defined.

Lemma empty_specifier_escapes_witness :
  service boolalpha 1 (info_ alice) (Some (kSessionGet "")) st = (Throw out_of_range, st).
Proof. apply (empty_specifier_escapes boolalpha 1 (info_ alice) st (kSessionGet "")). left. left. Defined.

Lemma register_twice_ambiguous_witness :
  let s1 := snd (register_session 0 1 st) in
  let s2 := snd (register_session 9 1 s1) in
  fst (find_only_one_session "job" s2)
    = Ok (inr (SESSION_AMBIGUOUS, "ambiguous session (find multiple sessions by that session specifier)")).
Proof.
  apply (register_twice_ambiguous 0 9 1 alice st); [done|]. by exists "j"%char, "ob".
Defined.

Lemma shutdown_requests_agree_witness : exists st',
  Shutdown.run [0; 1; 1; 0; 0]%nat (nothing, map Shutdown.Start [graceful; forceful]) = Some st' /\ fst st' = forceful /\
  Shutdown.total Shutdown.granted (snd st') = 1%nat /\
  Forall (fun t => (Shutdown.rank t <= Shutdown.rank (fst st'))%nat) [graceful; forceful].
Proof.
  exists (forceful, [Shutdown.Returned graceful false; Shutdown.Returned forceful true]).
  split; [reflexivity|]. split; [done|]. split; [done|].
  refine (proj1 (proj2 (proj2 (Shutdown.shutdown_requests_agree [graceful; forceful] [0; 1; 1; 0; 0]%nat _ _)) _)); [reflexivity|].
  repeat constructor; eauto.
Defined.

End Demo.
