(* ===== verification/SessionStore.v ===== *)
(** The store of session data (include/tateyama/api/server/session_store.h), in which services
    keep what belongs to a session, and worker_common::dispose_session_store.

    Elements are shared objects with a class; [is_a] tells which casts succeed.  Every operation
    runs under the mutex of the store. *)
From stdpp Require Import gmap.
From S2P Require Import Prelude.

Module SessionStore.
Section Store.
Context {C : Type} (is_a : C -> C -> bool).

(** an element with the class of the object *)
Record element : Type := Element { pointer : nat; class : C }.
(** [disposed]: the calls of session_element::dispose *)
Record t : Type := Store { element_map_ : gmap Z element; disposed : list nat }.
Definition create : t := Store ∅ [].

(** [std::dynamic_pointer_cast<T>] *)
Definition cast (T : C) (e : element) : option nat := if is_a (class e) T then Some (pointer e) else None.

Definition put (id : Z) (e : element) (s : t) : bool * t :=
  match element_map_ s !! id with
  | Some _ => (false, s)
  | None => (true, Store (<[id := e]> (element_map_ s)) (disposed s))
  end.
Definition find (T : C) (id : Z) (s : t) : option nat := element_map_ s !! id ≫= cast T.
(** [p]: the object made by [std::make_shared<T>] when there is no element *)
Definition find_or_emplace (T : C) (id : Z) (p : nat) (s : t) : option nat * t :=
  match element_map_ s !! id with
  | Some e => (cast T e, s)
  | None => (None, Store (<[id := Element p T]> (element_map_ s)) (disposed s))
  end.
Definition remove (T : C) (id : Z) (s : t) : bool * t :=
  match element_map_ s !! id with
  | Some e => match cast T e with Some _ => (true, Store (delete id (element_map_ s)) (disposed s)) | None => (false, s) end
  | None => (true, s)
  end.
(** the elements stay in the store *)
Definition dispose (s : t) : t := Store (element_map_ s) (disposed s ++ map (fun e => pointer e.2) (map_to_list (element_map_ s))).

(** worker_common::dispose_session_store; the flag is [dispose_done_] *)
Definition dispose_session_store (w : bool * t) : bool * t := if w.1 then w else (true, dispose w.2).

(** ** Elements are found as long as they are stored *)

Inductive op : Type := Op_put (id : Z) (e : element) | Op_emplace (T : C) (id : Z) (p : nat) | Op_remove (T : C) (id : Z) | Op_dispose.
Definition exec (o : op) (s : t) : t :=
  match o with
  | Op_put id e => snd (put id e s)
  | Op_emplace T id p => snd (find_or_emplace T id p s)
  | Op_remove T id => snd (remove T id s)
  | Op_dispose => dispose s
  end.
(** an element is not replaced by the operations on other ids, nor by any but its removal *)
Definition keeps (id : Z) (o : op) : bool := match o with Op_remove _ id' => negb (id =? id') | _ => true end.

Lemma exec_keeps id e o s : element_map_ s !! id = Some e -> keeps id o = true -> element_map_ (exec o s) !! id = Some e.
Proof.
  intros Hs Hk. destruct o as [id' e'|T id' p|T id'|]; cbn [exec keeps] in *; [..|done].
  - unfold put. destruct (element_map_ s !! id') eqn:He; cbn; [done|]. rewrite lookup_insert_ne; [done|congruence].
  - unfold find_or_emplace. destruct (element_map_ s !! id') eqn:He; cbn; [done|]. rewrite lookup_insert_ne; [done|congruence].
  - unfold remove. destruct (element_map_ s !! id'); [|done]. destruct (cast T e0); cbn; [|done]. rewrite lookup_delete_ne; [done|lia].
Qed.

(** An element that was put into the store is found, by every type it has, until it is
    removed, and no other is put in its place meanwhile.  find_or_emplace puts a new element
    where there is none, but returns nothing: only the next call finds it. *)
Theorem session_store_finds id e s ops T :
  fst (put id e s) = true -> Forall (fun o => keeps id o = true) ops ->
  (let s' := foldl (fun s o => exec o s) (snd (put id e s)) ops in
   find T id s' = cast T e /\ (forall e', put id e' s' = (false, s')) /\ (forall p, find_or_emplace T id p s' = (cast T e, s'))) /\
  (forall p, fst (find_or_emplace T id p s) = None /\ (is_a T T = true -> find T id (snd (find_or_emplace T id p s)) = Some p)).
Proof.
  intros Hput Hops. split.
  - cbn zeta. assert (Hin : element_map_ (foldl (fun s o => exec o s) (snd (put id e s)) ops) !! id = Some e).
    { assert (H0 : element_map_ (snd (put id e s)) !! id = Some e).
      { unfold put in *. destruct (element_map_ s !! id); [done|]. cbn. apply lookup_insert_eq. }
      revert H0. generalize (snd (put id e s)). induction Hops as [|o ops Ho _ IH]; intros s0 H0; [done|]. cbn [foldl]. apply IH. by apply exec_keeps. }
    set (s' := foldl _ _ ops) in *. clearbody s'. unfold find, put, find_or_emplace. by rewrite Hin.
  - intros p. unfold put in Hput. unfold find, find_or_emplace. destruct (element_map_ s !! id); [done|]. split; [done|]. intros Hrefl.
    cbn. rewrite lookup_insert_eq. cbn. unfold cast. cbn. by rewrite Hrefl.
Qed.

(** a session's elements are disposed of once, however often the worker does it *)
Lemma disposed_once s n : disposed (snd (Nat.iter (S n) dispose_session_store (false, s))) = disposed (dispose s).
Proof.
  enough (H : forall m, Nat.iter m dispose_session_store (true, dispose s) = (true, dispose s)).
  - rewrite Nat.iter_succ_r. cbn [dispose_session_store fst snd]. by rewrite H.
  - intros m. induction m as [|m IH]; [done|]. rewrite Nat.iter_succ, IH. done.
Qed.
End Store.

Definition same_class (a b : nat) : bool := (a =? b)%nat.
Definition start : t (C := nat) := Store ∅ [].
Lemma session_store_finds_witness :
  find same_class 2%nat 7 (exec same_class (Op_put 7 (Element 5 2%nat)) start) = Some 5%nat /\
  fst (find_or_emplace same_class 3%nat 7 9 start) = None.
Proof.
  destruct (session_store_finds same_class 7 (Element 5 2%nat) start [] 2%nat eq_refl (Forall_nil_2 _)) as [[H _] _]. split; [exact H|reflexivity].
Defined.

End SessionStore.
