(* ===== verification/WorkerPool.v ===== *)
(** The workers of a listener: what ipc_listener.h and stream_listener.h (endpoint/ipc/bootstrap,
    endpoint/stream/bootstrap) have in common.

    A listener thread accepts connections, gives each its worker with a thread of its own,
    and joins the workers that have ended.  A worker is in its slot of [workers_] while its
    run() lasts, then in [undertakers_] until it is quiet.  What happens inside run() is the
    subject of Worker.v and StreamWorker.v; here it is one stage of the worker's thread. *)
From stdpp Require Import gmap.
From S2P Require Import Prelude Session.

(** * Workers and their threads *)

(** [Running]: inside run(); [Retired]: moved to [undertakers_]; then, on the IPC endpoint
    only, the slot of the connection queue is given back and the delete hook runs;
    [Finished]: the thread has ended.  [Declined]: inside run(), for a surplus session, which
    has no slot.  [Unstarted]: no thread could be made for the worker. *)
Inductive stage : Type := Unstarted | Declined | Running | Retired | Disconnected | Hooked | Finished.
#[global] Instance stage_eq_dec : EqDecision stage.
Proof. solve_decision. Defined.

(** [completed]: the worker has no unanswered request and no open result set *)
Record thread : Type := Thread {
  session_id : Z;
  slot_id : Z;
  stg : stage;
  asked : shutdown_request_type;
  completed : bool
}.
Definition set_stage (s : stage) (t : thread) : thread := Thread (session_id t) (slot_id t) s (asked t) (completed t).
Definition set_asked (r : shutdown_request_type) (t : thread) : thread := Thread (session_id t) (slot_id t) (stg t) r (completed t).
Definition set_completed (b : bool) (t : thread) : thread := Thread (session_id t) (slot_id t) (stg t) (asked t) b.

(** [destroyed]: the workers erased from [undertakers_], the last place that refers to them *)
Record pool : Type := Pool {
  workers_ : list (option nat);
  undertakers_ : gset nat;
  threads : gmap nat thread;
  destroyed : gset nat
}.
Definition with_threads (m : gmap nat thread) (p : pool) : pool := Pool (workers_ p) (undertakers_ p) m (destroyed p).
Definition on_thread (f : thread -> thread) (id : nat) (p : pool) : pool := with_threads (alter f id (threads p)) p.

(** worker_common::is_quiet *)
Definition is_quiet (id : nat) (p : pool) : bool :=
  match threads p !! id with Some t => completed t && bool_decide (stg t = Finished) | None => true end.

Definition care_undertakers (p : pool) : bool * pool :=
  let rest := filter (fun id => is_quiet id p = false) (undertakers_ p) in
  (bool_decide (rest = ∅), Pool (workers_ p) rest (threads p) (destroyed p ∪ (undertakers_ p ∖ rest))).

(** [graceful]: whether the shutdown of the server asked for is graceful.  What a worker has
    been asked is never weakened (session_context_impl::shutdown_request). *)
Definition terminate_thread (graceful_ : bool) (t : thread) : thread :=
  set_asked (if bool_decide (asked t = forceful) then forceful else if graceful_ then graceful else forceful) t.
Definition terminate_workers (graceful_ : bool) (p : pool) : pool :=
  foldl (fun p w => match w with Some id => on_thread (terminate_thread graceful_) id p | None => p end) p (workers_ p).

(** confirm_workers_termination: the condition of its first loop *)
Definition worker_remain (p : pool) : bool := existsb (fun w => match w with Some _ => true | None => false end) (workers_ p).

(** [undertakers_.emplace(std::move(worker))]: whatever the slot refers to *)
Definition retire (i : Z) (p : pool) : pool :=
  match workers_ p !z i with
  | Some (Some w) => Pool (<[Z.to_nat i := None]> (workers_ p)) ({[w]} ∪ undertakers_ p) (threads p) (destroyed p)
  | _ => p
  end.

Inductive listener_phase : Type := Listening | Confirming | Undertaking | Stopped.

(** ** Where the workers are *)

(** [idx]: the slot of a worker *)
Record pinv (idx : thread -> nat) (p : pool) : Prop := {
  p_slot i id : workers_ p !! i = Some (Some id) -> exists th, threads p !! id = Some th /\ stg th = Running /\ idx th = i;
  p_running id th : threads p !! id = Some th -> stg th = Running -> workers_ p !! idx th = Some (Some id);
  p_under id : id ∈ undertakers_ p -> exists th, threads p !! id = Some th /\ stg th <> Running;
  p_retired id th : threads p !! id = Some th -> stg th <> Running -> id ∈ undertakers_ p \/ id ∈ destroyed p;
  p_destroyed id : id ∈ destroyed p -> exists th, threads p !! id = Some th /\ stg th = Finished
}.

Section Pool.
Context (idx : thread -> nat).

Lemma pinv_initial n : pinv idx (Pool (replicate n None) ∅ ∅ ∅).
Proof. split; cbn; try set_solver. intros i id Hi. apply lookup_replicate_1 in Hi as [? _]. done. Qed.

(** a worker with its thread, in an empty slot *)
Lemma pinv_add id th p :
  pinv idx p -> threads p !! id = None -> workers_ p !! idx th = Some None -> stg th = Running ->
  pinv idx (Pool (<[idx th := Some id]> (workers_ p)) (undertakers_ p) (<[id := th]> (threads p)) (destroyed p)).
Proof.
  intros [H1 H2 H3 H4 H5] Hf Hw Hs. assert (idx th < length (workers_ p))%nat as Hlt by by eapply lookup_lt_Some.
  split; cbn [workers_ undertakers_ threads destroyed].
  - intros i id'. destruct (decide (i = idx th)) as [->|Hne].
    + rewrite list_lookup_insert_eq by done. intros [= <-]. exists th. by rewrite lookup_insert_eq.
    + rewrite list_lookup_insert_ne by done. intros (th' & Ht & ? & ?)%H1. exists th'. rewrite lookup_insert_ne by congruence. done.
  - intros id' th'. destruct (decide (id' = id)) as [->|Hne].
    + rewrite lookup_insert_eq. intros [= <-] _. by rewrite list_lookup_insert_eq.
    + rewrite lookup_insert_ne by done. intros Ht Hr. pose proof (H2 _ _ Ht Hr). rewrite list_lookup_insert_ne; congruence.
  - intros id' (th' & Ht & ?)%H3. exists th'. rewrite lookup_insert_ne by congruence. done.
  - intros id' th'. destruct (decide (id' = id)) as [->|Hne]; [rewrite lookup_insert_eq|rewrite lookup_insert_ne by done; by apply H4].
    intros [= <-]. done.
  - intros id' (th' & Ht & ?)%H5. exists th'. rewrite lookup_insert_ne by congruence. done.
Qed.

(** changes of a thread's record that keep its slot: it stays inside run(), or outside of it *)
Lemma pinv_thread f id p :
  pinv idx p -> (forall th, threads p !! id = Some th ->
    idx (f th) = idx th /\ (stg (f th) = Running <-> stg th = Running) /\ (stg th = Finished -> stg (f th) = Finished)) ->
  pinv idx (on_thread f id p).
Proof.
  intros [H1 H2 H3 H4 H5] Hf. unfold on_thread. split; cbn [workers_ undertakers_ threads destroyed with_threads].
  - intros i id' (th & Ht & Hs & Hi)%H1. destruct (decide (id = id')) as [<-|]; [|exists th; by rewrite lookup_alter_ne].
    destruct (Hf _ Ht) as (E1 & E2 & _). exists (f th). rewrite lookup_alter_eq, Ht, E1. by rewrite E2.
  - intros id' th' [(<- & th & Ht & ->)|[_ Ht]]%lookup_alter_Some; [|by apply H2].
    destruct (Hf _ Ht) as (-> & E2 & _). intros Hr%E2. by apply H2.
  - intros id' (th & Ht & Hs)%H3. destruct (decide (id = id')) as [<-|]; [|exists th; by rewrite lookup_alter_ne].
    destruct (Hf _ Ht) as (_ & E2 & _). exists (f th). rewrite lookup_alter_eq, Ht. by rewrite E2.
  - intros id' th' [(<- & th & Ht & ->)|[_ Ht]]%lookup_alter_Some; [|by apply H4].
    destruct (Hf _ Ht) as (_ & E2 & _). intros Hr. eapply H4; [done|]. by rewrite <- E2.
  - intros id' (th & Ht & Hs)%H5. destruct (decide (id = id')) as [<-|]; [|exists th; by rewrite lookup_alter_ne].
    destruct (Hf _ Ht) as (_ & _ & E3). exists (f th). rewrite lookup_alter_eq, Ht. by rewrite E3.
Qed.

(** run() is over: the worker leaves its slot *)
Lemma pinv_retire id th i p :
  (forall th s, idx (set_stage s th) = idx th) ->
  pinv idx p -> threads p !! id = Some th -> stg th = Running -> idx th = Z.to_nat i ->
  retire i (on_thread (set_stage Retired) id p) =
    Pool (<[idx th := None]> (workers_ p)) ({[id]} ∪ undertakers_ p) (alter (set_stage Retired) id (threads p)) (destroyed p) /\
  pinv idx (retire i (on_thread (set_stage Retired) id p)).
Proof.
  intros Hidx [H1 H2 H3 H4 H5] Ht Hs Hi. pose proof (H2 _ _ Ht Hs) as Hw.
  assert (retire i (on_thread (set_stage Retired) id p) =
    Pool (<[idx th := None]> (workers_ p)) ({[id]} ∪ undertakers_ p) (alter (set_stage Retired) id (threads p)) (destroyed p)) as E.
  { unfold retire. cbn [workers_ on_thread with_threads]. rewrite <- Hi, Hw. done. }
  split; [done|]. rewrite E. assert (idx th < length (workers_ p))%nat as Hlt by by eapply lookup_lt_Some.
  split; cbn [workers_ undertakers_ threads destroyed].
  - intros j id'. destruct (decide (j = idx th)) as [->|Hne]; [by rewrite list_lookup_insert_eq|].
    rewrite list_lookup_insert_ne by done. intros (th' & Ht' & Hs' & Hi')%H1. exists th'.
    rewrite lookup_alter_ne by congruence. done.
  - intros id' th' [(<- & th0 & Ht0 & ->)|[Hne Ht']]%lookup_alter_Some; [done|]. intros Hr. pose proof (H2 _ _ Ht' Hr) as Hw'.
    rewrite list_lookup_insert_ne; congruence.
  - intros id' [->%elem_of_singleton|(th' & Ht' & Hs')%H3]%elem_of_union.
    + exists (set_stage Retired th). by rewrite lookup_alter_eq, Ht.
    + exists th'. rewrite lookup_alter_ne by congruence. done.
  - intros id' th' [(<- & th0 & Ht0 & ->)|[Hne Ht']]%lookup_alter_Some; [set_solver|]. intros Hr.
    destruct (H4 _ _ Ht' Hr); set_solver.
  - intros id' (th' & Ht' & Hs')%H5. exists th'. rewrite lookup_alter_ne by congruence. done.
Qed.

Lemma pinv_care p : pinv idx p -> pinv idx (snd (care_undertakers p)).
Proof.
  intros [H1 H2 H3 H4 H5]. unfold care_undertakers. cbn [snd]. split; cbn [workers_ undertakers_ threads destroyed]; try done.
  - intros id [_ Hu]%elem_of_filter. by apply H3.
  - intros id th Ht Hs. destruct (H4 _ _ Ht Hs) as [Hu|Hd]; [|set_solver].
    destruct (is_quiet id p) eqn:E; [right|left; by apply elem_of_filter].
    apply elem_of_union_r, elem_of_difference. split; [done|]. intros [? _]%elem_of_filter. congruence.
  - intros id [Hd|[Hu Hn]%elem_of_difference]%elem_of_union; [by apply H5|].
    destruct (H3 _ Hu) as (th & Ht & Hs). exists th. split; [done|].
    destruct (is_quiet id p) eqn:E; [|exfalso; by apply Hn, elem_of_filter].
    unfold is_quiet in E. rewrite Ht in E. apply andb_true_iff in E as [_ E]. by apply bool_decide_eq_true in E.
Qed.

Lemma pinv_terminate g p :
  (forall th r, idx (set_asked r th) = idx th) -> pinv idx p -> pinv idx (terminate_workers g p).
Proof.
  intros Hidx Hp. unfold terminate_workers. generalize (workers_ p) at 1. intros l. revert p Hp.
  induction l as [|[id|] l IH]; intros p Hp; cbn [foldl]; [done| |by apply IH].
  apply IH, pinv_thread; [done|]. intros th _. unfold terminate_thread. rewrite Hidx. done.
Qed.

(** *** The end of the listener *)

(** once the listener has seen no worker left, none is inside run() any more *)
Definition ended (l : listener_phase) (p : pool) : Prop :=
  match l with
  | Listening | Confirming => True
  | Undertaking => forall id th, threads p !! id = Some th -> stg th <> Running
  | Stopped => (forall id th, threads p !! id = Some th -> stg th <> Running) /\ undertakers_ p = ∅
  end.

Lemma no_worker_no_running p : pinv idx p -> worker_remain p = false -> forall id th, threads p !! id = Some th -> stg th <> Running.
Proof.
  intros Hp Hw id th Ht Hs. pose proof (p_running _ _ Hp _ _ Ht Hs) as Hi. apply not_true_iff_false in Hw. apply Hw.
  apply existsb_exists. exists (Some id). split; [|done]. apply list_elem_of_In. by eapply list_elem_of_lookup_2.
Qed.

(** a thread that changes its stage from one outside run() to another *)
Lemma ended_thread f id l p :
  ended l p -> (forall th, threads p !! id = Some th -> stg (f th) = Running -> stg th = Running) -> ended l (on_thread f id p).
Proof.
  intros Hp Hf. unfold ended in *. cbn [threads undertakers_ on_thread with_threads].
  assert ((forall id' th, threads p !! id' = Some th -> stg th <> Running) ->
    forall id' th, alter f id (threads p) !! id' = Some th -> stg th <> Running) as Hx.
  { intros Hr id' th [(<- & th0 & Ht & ->)|[_ Ht]]%lookup_alter_Some; [|by eapply Hr]. intros Hs%Hf; [|done]. by eapply Hr. }
  destruct l; try done; [by apply Hx|]. destruct Hp as [H1 H2]. split; [by apply Hx|done].
Qed.

Lemma ended_care l p : ended l p -> ended l (snd (care_undertakers p)).
Proof.
  unfold ended. cbn [care_undertakers snd threads undertakers_]. destruct l; try done. intros [H1 H2]. split; [done|]. rewrite H2. set_solver.
Qed.

(** a thread that leaves run() has not been waited for yet *)
Lemma ended_running l p id th : ended l p -> threads p !! id = Some th -> stg th = Running -> l = Listening \/ l = Confirming.
Proof. destruct l; cbn; auto; [intros Hp Ht Hs; by destruct (Hp _ _ Ht)|intros [Hp _] Ht Hs; by destruct (Hp _ _ Ht)]. Qed.

(** when the listener has stopped, all threads have ended and all workers are destroyed *)
Lemma ended_stopped p : pinv idx p -> ended Stopped p -> forall id th, threads p !! id = Some th -> stg th = Finished /\ id ∈ destroyed p.
Proof.
  intros H3 [P1 P2] id th Ht. destruct (p_retired _ _ H3 _ _ Ht (P1 _ _ Ht)) as [Hu|Hd]; [rewrite P2 in Hu; set_solver|].
  destruct (p_destroyed _ _ H3 _ Hd) as (th' & Ht' & Hs'). by simplify_eq.
Qed.

End Pool.

(** ** What the threads have, taken together *)

Definition collect {A} (f : thread -> option A) (m : gmap nat thread) : list A := omap (fun e => f e.2) (map_to_list m).

Lemma collect_insert {A} (f : thread -> option A) id th m :
  m !! id = None -> collect f (<[id := th]> m) ≡ₚ option_list (f th) ++ collect f m.
Proof. intros Hm. unfold collect. rewrite map_to_list_insert by done. cbn. by destruct (f th). Qed.
Lemma collect_lookup {A} (f : thread -> option A) id th m :
  m !! id = Some th -> collect f m ≡ₚ option_list (f th) ++ collect f (delete id m).
Proof.
  intros Hm. rewrite <- (insert_delete_id m id th Hm) at 1. apply collect_insert, lookup_delete_eq.
Qed.
Lemma collect_alter {A} (f : thread -> option A) g id th m :
  m !! id = Some th -> collect f (alter g id m) ≡ₚ option_list (f (g th)) ++ collect f (delete id m).
Proof.
  intros Hm. replace (alter g id m) with (<[id := g th]> (delete id m)).
  - apply collect_insert, lookup_delete_eq.
  - apply map_eq. intros j. destruct (decide (id = j)) as [<-|].
    + by rewrite lookup_insert_eq, lookup_alter_eq, Hm.
    + by rewrite lookup_insert_ne, lookup_delete_ne, lookup_alter_ne.
Qed.
Lemma collect_same {A} (f : thread -> option A) g id m :
  (forall th, m !! id = Some th -> f (g th) = f th) -> collect f (alter g id m) ≡ₚ collect f m.
Proof.
  intros Hf. destruct (m !! id) as [th|] eqn:E.
  - by rewrite (collect_alter f g id th m), (collect_lookup f id th m), Hf.
  - replace (alter g id m) with m; [done|]. apply map_eq. intros j. destruct (decide (id = j)) as [<-|].
    + by rewrite lookup_alter_eq, E.
    + by rewrite lookup_alter_ne.
Qed.
Lemma collect_none {A} (f : thread -> option A) m : (forall id th, m !! id = Some th -> f th = None) -> collect f m = [].
Proof.
  intros Hf. unfold collect. destruct (omap _ _) as [|x l] eqn:E; [done|].
  assert (x ∈ omap (fun e => f e.2) (map_to_list m)) as Hx by (rewrite E; set_solver).
  apply list_elem_of_omap in Hx as ([id th] & He%elem_of_map_to_list & Hx). cbn in Hx. by rewrite (Hf _ _ He) in Hx.
Qed.
Lemma collect_terminate {A} (f : thread -> option A) g p :
  (forall th r, f (set_asked r th) = f th) -> collect f (threads (terminate_workers g p)) ≡ₚ collect f (threads p).
Proof.
  intros Hf. unfold terminate_workers. generalize (workers_ p) at 1. intros l. revert p.
  induction l as [|[id|] l IH]; intros p; cbn [foldl]; [done| |by apply IH].
  rewrite IH. cbn [threads on_thread with_threads]. apply collect_same. intros th _. apply Hf.
Qed.
Lemma terminate_workers_slots g p : workers_ (terminate_workers g p) = workers_ p.
Proof.
  unfold terminate_workers. generalize (workers_ p) at 1. intros l. revert p.
  induction l as [|[id|] l IH]; intros p; cbn [foldl]; [done| |by apply IH]. by rewrite IH.
Qed.
