(* ===== verification/IpcListener.v ===== *)
(** The listener of the IPC endpoint (endpoint/ipc/bootstrap/ipc_listener.h): the pool of
    workers of WorkerPool.v over the connection queue of Connection.v, in any interleaving of
    the listener, the clients and the worker threads. *)
From stdpp Require Import gmap.
From S2P Require Import Prelude SimpleWire Connection Session WorkerPool.

Module IpcListener.
Import ConnectionQueue.

Record t : Type := Ipc {
  queue : ConnectionQueue.t;
  pool_ : pool;
  (** ipc_metrics: the number of sessions *)
  session_count_ : Z;
  lphase : listener_phase;
  (** slots that clients have taken and not yet put in the queue of requests *)
  clients : list Z
}.
Definition with_queue (q : ConnectionQueue.t) (s : t) : t := Ipc q (pool_ s) (session_count_ s) (lphase s) (clients s).
Definition with_pool (p : pool) (s : t) : t := Ipc (queue s) p (session_count_ s) (lphase s) (clients s).
Definition with_count (c : Z) (s : t) : t := Ipc (queue s) (pool_ s) c (lphase s) (clients s).
Definition with_phase (l : listener_phase) (s : t) : t := Ipc (queue s) (pool_ s) (session_count_ s) l (clients s).

(** the constructor's connection_container and workers_.resize, with a sum in size_t *)
Definition create (threads_ admin_sessions : Z) : t :=
  Ipc (ConnectionQueue.create threads_ admin_sessions) (Pool (replicate (Z.to_nat (u64 (threads_ + admin_sessions))) None) ∅ ∅ ∅) 0 Listening [].

(** how the making of a session goes: well, or with an exception of the wires (before the
    session is accepted) or of the creation of its thread (after that) *)
Inductive creation : Type := Made | Wires_failed | Invoke_failed.

(** the inner try block for the request of [sid]; [id]: the worker object *)
Definition make_session (c : creation) (id : nat) (session sid : Z) (s : t) : res t :=
  let rejected s := q ← reject sid (queue s); Ok (with_queue q s) in
  let index := reset_admin sid in
  match c, workers_ (pool_ s) !z index with
  | Wires_failed, _ | _, None => rejected s
  | _, Some _ =>
      let started := match c with Made => true | _ => false end in
      let p := pool_ s in
      let th := Thread session sid (if started then Running else Unstarted) nothing true in
      let s := with_pool (Pool (<[Z.to_nat index := Some id]> (workers_ p)) (undertakers_ p) (<[id := th]> (threads p)) (destroyed p)) s in
      q ← accept sid session (queue s);
      let s := with_count (session_count_ s + 1) (with_queue q s) in
      if started then Ok s else rejected s
  end.

(** one turn of operator(), after care_undertakers(); an exception of slot() only ends the turn *)
Definition turn (c : creation) (id : nat) (graceful_ : bool) (s : t) : res t :=
  let '(session, q) := listen (queue s) in
  let s := with_queue q s in
  if session =? 0 then Ok s
  else if is_terminated q then Ok (with_phase Confirming (with_pool (terminate_workers graceful_ (pool_ s)) s))
  else match slot q with
       | Ok sid => make_session c id session sid s
       | Throw _ => Ok s
       | Undefined => Undefined
       end.

Inductive action : Type :=
| Client_take (admin : bool)
| Client_enqueue (i : nat)
| Li_care
| Li_turn (c : creation) (id : nat) (graceful_ : bool)
| Li_confirm
| Li_undertake
| Li_terminate
| Th_retire (id : nat)
| Th_disconnect (id : nat)
| Th_hook (id : nat)
| Th_finish (id : nat)
| Th_completed (id : nat) (b : bool).

(** the steps of a worker's thread after run(), in their order *)
Definition thread_step (id : nat) (from to : stage) (k : thread -> t -> res t) (s : t) : res t :=
  match threads (pool_ s) !! id with
  | Some th => if bool_decide (stg th = from) then k th (with_pool (on_thread (set_stage to) id (pool_ s)) s) else Ok s
  | None => Ok s
  end.

Definition step (a : action) (s : t) : res t :=
  match a with
  | Client_take admin =>
      match take_slot admin (queue s) with
      | Ok (sid, q) => Ok (Ipc q (pool_ s) (session_count_ s) (lphase s) (clients s ++ [sid]))
      | Throw _ => Ok s
      | Undefined => Undefined
      end
  | Client_enqueue i =>
      match clients s !! i with
      | Some sid => q ← enqueue sid (queue s); Ok (Ipc q (pool_ s) (session_count_ s) (lphase s) (delete i (clients s)))
      | None => Ok s
      end
  | Li_care => Ok (with_pool (snd (care_undertakers (pool_ s))) s)
  | Li_turn c id graceful_ => match lphase s with Listening => turn c id graceful_ s | _ => Ok s end
  | Li_confirm =>
      match lphase s with
      | Confirming => Ok (if worker_remain (pool_ s) then s else with_phase Undertaking s)
      | _ => Ok s
      end
  | Li_undertake =>
      match lphase s with
      | Undertaking =>
          let '(empty, p) := care_undertakers (pool_ s) in
          Ok (with_phase (if (empty : bool) then Stopped else Undertaking) (with_pool p s))
      | _ => Ok s
      end
  | Li_terminate => Ok (with_queue (request_terminate (queue s)) s)
  | Th_retire id => thread_step id Running Retired (fun th s => Ok (with_pool (retire (reset_admin (slot_id th)) (pool_ s)) s)) s
  | Th_disconnect id =>
      thread_step id Retired Disconnected (fun th s => q ← disconnect (slot_id th) (queue s); Ok (with_queue q s)) s
  | Th_hook id => thread_step id Disconnected Hooked (fun _ s => Ok s) s
  | Th_finish id => thread_step id Hooked Finished (fun _ s => Ok (with_count (session_count_ s - 1) s)) s
  | Th_completed id b => Ok (with_pool (on_thread (set_completed b) id (pool_ s)) s)
  end.

(** ** The listener keeps to the slots of the connection queue *)

Definition idx (th : thread) : nat := Z.to_nat (reset_admin (slot_id th)).
(** threads that have not given their slot of the queue back, and threads that have not ended *)
Definition holding (th : thread) : option Z := match stg th with Running | Retired => Some (slot_id th) | _ => None end.
Definition live (th : thread) : option unit := match stg th with Finished => None | _ => Some tt end.

Record linv (n as_n k : Z) (s : t) : Prop := {
  li_queue : exists pend act, Connections.inv n as_n k (queue s) (Connections.Ghost (clients s) pend act) /\ act ≡ₚ collect holding (threads (pool_ s));
  li_len : length (workers_ (pool_ s)) = Z.to_nat (n + as_n);
  li_pool : pinv idx (pool_ s);
  li_count : session_count_ s = zlen (collect live (threads (pool_ s)))
}.

Lemma inv_frame n as_n k q q' g :
  q_free_ q' = q_free_ q -> q_requested_ q' = q_requested_ q -> v_requested_ q' = v_requested_ q -> admin_slots_ q' = admin_slots_ q ->
  Connections.inv n as_n k q g -> Connections.inv n as_n k q' g.
Proof. intros E1 E2 E3 E4 [H1 H2 H3 H4 H5 H6]. split; by rewrite ?E1, ?E2, ?E3, ?E4. Qed.

Lemma held_nodup n as_n k q g : Connections.inv n as_n k q g -> NoDup (map reset_admin (Connections.held g)).
Proof.
  intros [(free & [_ _ _ _ _ _ _ Hp _]) _ _ _ _ _].
  assert (NoDup (free ++ map reset_admin (Connections.held g))) as Hnd by (rewrite Hp; apply NoDup_seqZ). by apply NoDup_app in Hnd as (_ & _ & ?).
Qed.

(** clients take administrator slots only as far as there are; every worker gets an object of
    its own and its thread *)
Definition enabled (a : action) (s : t) : Prop :=
  match a with
  | Client_take admin => admin = true -> IndexQueue.admin_slots_in_use_ (q_free_ (queue s)) < admin_slots_ (queue s)
  | Li_turn c id _ => c <> Invoke_failed /\ threads (pool_ s) !! id = None
  | _ => True
  end.

Inductive reachable (n as_n : Z) : nat -> t -> Prop :=
| reach_create : reachable n as_n 0 (create n as_n)
| reach_action k s a s' : reachable n as_n k s -> enabled a s -> step a s = Ok s' -> reachable n as_n (S k) s'.

Section Slots.
Context (n as_n : Z) (Hn : 0 <= n) (Has : 0 < as_n < 256) (Hsmall : n + as_n < 2 ^ 32).

Lemma linv_create : linv n as_n 0 (create n as_n).
Proof using Hn Has Hsmall.
  split; cbn [create queue clients pool_ workers_ threads session_count_].
  - exists [], []. split; [by apply Connections.initial_inv|done].
  - rewrite length_replicate, (wrap_small 64) by (unfold in_range; lia). done.
  - apply pinv_initial.
  - done.
Qed.

(** one more step is counted *)
Lemma linv_later k s : linv n as_n k s -> linv n as_n (k + 1) s.
Proof using Hn Has Hsmall.
  intros [(pend & act & Hi & Ha) H2 H3 H4]. split; try done. exists pend, act. split; [by apply Connections.conn_inv_step|done].
Qed.

(** steps that change only the workers and their threads, and keep who has what *)
Lemma linv_pool k s p :
  linv n as_n k s -> pinv idx p -> length (workers_ p) = length (workers_ (pool_ s)) ->
  collect holding (threads p) ≡ₚ collect holding (threads (pool_ s)) ->
  collect live (threads p) ≡ₚ collect live (threads (pool_ s)) ->
  linv n as_n k (with_pool p s).
Proof.
  intros [(pend & act & Hi & Ha) H2 H3 H4] Hp Hl Hh Hc. split; cbn [with_pool queue clients pool_ session_count_]; try done.
  - exists pend, act. split; [done|]. by rewrite Hh.
  - by rewrite Hl.
  - rewrite H4. unfold zlen. by rewrite Hc.
Qed.
Lemma linv_queue k s q :
  linv n as_n k s -> q_free_ q = q_free_ (queue s) -> q_requested_ q = q_requested_ (queue s) ->
  v_requested_ q = v_requested_ (queue s) -> admin_slots_ q = admin_slots_ (queue s) -> linv n as_n k (with_queue q s).
Proof.
  intros [(pend & act & Hi & Ha) H2 H3 H4] E1 E2 E3 E4. split; try done. exists pend, act. split; [|done].
  by eapply inv_frame.
Qed.
Lemma linv_phase k s l : linv n as_n k s -> linv n as_n k (with_phase l s).
Proof. by intros [H1 H2 H3 H4]. Qed.

(** *** The clients *)

Lemma take_ok k s admin s' :
  linv n as_n k s -> enabled (Client_take admin) s -> k + n + as_n + 2 < 2 ^ 63 ->
  step (Client_take admin) s = Ok s' -> linv n as_n k s'.
Proof using Hn Has Hsmall.
  intros [(pend & act & Hi & Ha) H2 H3 H4] Hen Hk. cbn [step]. set (g := Connections.Ghost (clients s) pend act) in *.
  assert (Connections.enabled as_n g (Connections.C_take admin)) as Hen'.
  { intros Hadm. destruct Hi as [(free & [_ _ _ _ _ Hu _ _ _]) _ _ Hs _ _]. specialize (Hen Hadm). cbn in Hen. by rewrite Hu, Hs in Hen. }
  destruct (Connections.take_inv n as_n Hn Has Hsmall k (queue s) g admin Hi Hen' ltac:(lia)) as [(q' & g' & E & Hi')|(e & E & _)];
    cbn [Connections.exec] in E; destruct (take_slot admin (queue s)) as [[sid q]|x|]; cbn [mbind res_bind] in E; simplify_eq;
    intros [= <-]; [|by split; [exists pend, act|..]].
  split; try done. by exists pend, act.
Qed.

Lemma enqueue_ok k s i s' :
  linv n as_n k s -> k + n + as_n + 2 < 2 ^ 63 -> step (Client_enqueue i) s = Ok s' -> linv n as_n (k + 1) s'.
Proof using Hn Has Hsmall.
  intros Hl Hk. cbn [step]. destruct (clients s !! i) as [sid|] eqn:Ei; [|intros [= <-]; by apply linv_later].
  pose proof Hl as [(pend & act & Hi & Ha) H2 H3 H4]. set (g := Connections.Ghost (clients s) pend act) in *.
  destruct (Connections.exec_spec n as_n Hn Has Hsmall k (queue s) g (Connections.C_enqueue i) Hi) as [(q' & g' & E & Hi')|(e & ad & ? & _)];
    [by eapply lookup_lt_Some|done| |done].
  cbn [Connections.exec Connections.arriving g] in E. rewrite Ei in E. destruct (enqueue sid (queue s)) as [q|x|]; cbn [mbind res_bind] in *; simplify_eq.
  intros [= <-]. split; try done. by exists (pend ++ [sid]), act.
Qed.

(** *** The listener *)

(** the slot of the next request is no worker's *)
Lemma next_slot_free k s pend act sid l :
  linv n as_n k s -> Connections.inv n as_n k (queue s) (Connections.Ghost (clients s) pend act) ->
  act ≡ₚ collect holding (threads (pool_ s)) -> pend = sid :: l -> workers_ (pool_ s) !z reset_admin sid = Some None.
Proof using Hn Has Hsmall.
  intros [_ H2 H3 _] Hi Ha ->. pose proof (held_nodup _ _ _ _ _ Hi) as Hnd. unfold Connections.held in Hnd.
  cbn [Connections.arriving Connections.pending Connections.active] in Hnd.
  assert (0 <= reset_admin sid < n + as_n) as Hr.
  { destruct Hi as [(free & Hf) _ _ _ _ _]. eapply Free.held_slot; [exact Hf|]. unfold Connections.held. cbn. set_solver. }
  destruct (workers_ (pool_ s) !z reset_admin sid) as [[id|]|] eqn:Ew; [|done|].
  - destruct (p_slot _ _ H3 _ _ Ew) as (th & Ht & Hs & Hix). unfold idx in Hix.
    assert (slot_id th ∈ act) as Hin.
    { rewrite Ha. unfold collect. apply list_elem_of_omap. exists (id, th). split; [by apply elem_of_map_to_list|]. unfold holding. cbn. by rewrite Hs. }
    rewrite map_app in Hnd. apply NoDup_app in Hnd as (_ & _ & Hnd). cbn [map app] in Hnd. apply NoDup_cons in Hnd as [Hnot _].
    exfalso. apply Hnot. rewrite map_app. apply elem_of_app. right. apply list_elem_of_fmap. exists (slot_id th). split; [|done].
    assert (0 <= reset_admin (slot_id th) < n + as_n) as Hr'; [|lia].
    destruct Hi as [(free & Hf) _ _ _ _ _]. eapply Free.held_slot; [exact Hf|]. unfold Connections.held. cbn. set_solver.
  - apply lookup_ge_None_1 in Ew. lia.
Qed.

Lemma pending_nonempty k q g : Connections.inv n as_n k q g -> terminate_ q = false ->
  IndexQueue.wait_cond (terminate_ q) (q_requested_ q) = true -> exists sid l, Connections.pending g = sid :: l.
Proof using Hn Has Hsmall.
  intros [_ _ _ _ (_ & _ & _ & _ & Hp & _) _] -> Hw. unfold IndexQueue.wait_cond in Hw. rewrite orb_false_r in Hw.
  destruct (Connections.pending g) as [|sid l]; [|by eauto]. change (zlen []) with 0 in Hp. lia.
Qed.

(** a request is accepted, or refused *)
Lemma make_ok k s c id session pend act sid l s' :
  linv n as_n k s -> Connections.inv n as_n k (queue s) (Connections.Ghost (clients s) pend act) ->
  act ≡ₚ collect holding (threads (pool_ s)) -> pend = sid :: l -> k + n + as_n + 2 < 2 ^ 63 ->
  c <> Invoke_failed -> threads (pool_ s) !! id = None ->
  make_session c id session sid s = Ok s' -> linv n as_n (k + 1) s'.
Proof using Hn Has Hsmall.
  intros Hl Hi Ha Hpe Hk Hc Hid. pose proof (next_slot_free k s pend act sid l Hl Hi Ha Hpe) as Hw.
  set (g := Connections.Ghost (clients s) pend act) in *. pose proof Hl as [_ H2 H3 H4].
  assert (slot (queue s) = Ok sid) as Hslot.
  { by destruct (Connections.pending_slot n as_n Hn Has Hsmall k (queue s) g sid l (fun x => x) Hi Hpe ltac:(lia)) as [? _]. }
  unfold make_session. rewrite Hw. destruct c; [| |done].
  - destruct (Connections.exec_spec n as_n Hn Has Hsmall k (queue s) g (Connections.L_accept session) Hi) as [(q' & g' & E & Hi')|(e & ad & ? & _)];
      [cbn; by rewrite Hpe|done| |done].
    cbn [Connections.exec] in E. rewrite Hslot in E. cbn [mbind res_bind queue with_pool] in *.
    destruct (accept sid session (queue s)) as [q|x|]; cbn [mbind res_bind] in *; simplify_eq. intros [= <-].
    split; cbn [queue clients pool_ session_count_ with_count with_queue with_pool workers_ threads].
    + exists l, (act ++ [sid]). split; [exact Hi'|]. rewrite collect_insert by done. cbn. rewrite Ha. apply Permutation_app_comm.
    + by rewrite length_insert.
    + by apply (pinv_add idx id (Thread session sid Running nothing true)).
    + unfold zlen. rewrite collect_insert by done. cbn. unfold zlen in H4. lia.
  - destruct (Connections.exec_spec n as_n Hn Has Hsmall k (queue s) g Connections.L_reject Hi) as [(q' & g' & E & Hi')|(e & ad & ? & _)];
      [cbn; by rewrite Hpe|done| |done].
    cbn [Connections.exec] in E. rewrite Hslot in E. cbn [mbind res_bind] in *.
    destruct (reject sid (queue s)) as [q|x|]; cbn [mbind res_bind] in *; simplify_eq. intros [= <-].
    split; try done. by exists l, act.
Qed.

Lemma idx_asked th r : idx (set_asked r th) = idx th.
Proof. done. Qed.

Lemma turn_ok k s c id gr s' :
  linv n as_n k s -> k + n + as_n + 2 < 2 ^ 63 -> c <> Invoke_failed -> threads (pool_ s) !! id = None ->
  turn c id gr s = Ok s' -> linv n as_n (k + 1) s'.
Proof using Hn Has Hsmall.
  intros Hl Hk Hc Hid. unfold turn, listen.
  destruct (IndexQueue.wait_cond (terminate_ (queue s)) (q_requested_ (queue s))) eqn:Ew.
  2:{ intros [= <-]. apply linv_later. by apply linv_queue. }
  set (q := ConnectionQueue.Connections _ _ _ _ _ _). assert (linv n as_n k (with_queue q s)) as Hq by by apply linv_queue.
  destruct (u64 (session_id_ (queue s) + 1) =? 0); [intros [= <-]; by apply linv_later|].
  unfold is_terminated. destruct (terminate_ q) eqn:Et.
  - intros [= <-]. apply linv_later, linv_phase. apply linv_pool; [done|apply pinv_terminate; [apply idx_asked|apply Hq]| | |].
    + by rewrite terminate_workers_slots.
    + by apply collect_terminate.
    + by apply collect_terminate.
  - pose proof Hq as [(pend & act & Hi & Ha) _ _ _].
    destruct (pending_nonempty k q (Connections.Ghost (clients s) pend act) Hi Et) as (sid & l & Hpe).
    { rewrite Et. change (terminate_ (queue s) = false) in Et. by rewrite Et in Ew. }
    destruct (Connections.pending_slot n as_n Hn Has Hsmall k q _ sid l (fun x => x) Hi Hpe ltac:(lia)) as [-> _].
    intros Hm. by eapply (make_ok k (with_queue q s) c id _ pend act sid l).
Qed.

(** *** The threads of the workers *)

Lemma retire_ok k s id th :
  linv n as_n k s -> threads (pool_ s) !! id = Some th -> stg th = Running ->
  linv n as_n k (with_pool (retire (reset_admin (slot_id th)) (on_thread (set_stage Retired) id (pool_ s))) s).
Proof.
  intros Hl Ht Hs. destruct (pinv_retire idx id th (reset_admin (slot_id th)) (pool_ s)) as [E Hp]; try done; [apply Hl|].
  rewrite E in *. apply linv_pool; try done; cbn [workers_ threads].
  - by rewrite length_insert.
  - apply collect_same. intros th' Ht'. simplify_eq. unfold holding. cbn. by rewrite Hs.
  - apply collect_same. intros th' Ht'. simplify_eq. unfold live. cbn. by rewrite Hs.
Qed.

(** a change of stage outside run() *)
Lemma stage_pinv from to id th p :
  pinv idx p -> threads p !! id = Some th -> stg th = from -> from <> Running -> from <> Finished -> to <> Running ->
  pinv idx (on_thread (set_stage to) id p).
Proof. intros Hp Ht Hs H1 H2 H3. apply pinv_thread; [done|]. intros th' Ht'. simplify_eq. split_and!; [done|cbn; tauto|tauto]. Qed.

Lemma hook_ok k s id th :
  linv n as_n k s -> threads (pool_ s) !! id = Some th -> stg th = Disconnected ->
  linv n as_n k (with_pool (on_thread (set_stage Hooked) id (pool_ s)) s).
Proof.
  intros Hl Ht Hs. apply linv_pool; [done|eapply stage_pinv; [apply Hl|done..]|done| |].
  - apply collect_same. intros th' Ht'. simplify_eq. unfold holding. cbn. by rewrite Hs.
  - apply collect_same. intros th' Ht'. simplify_eq. unfold live. cbn. by rewrite Hs.
Qed.

Lemma finish_ok k s id th :
  linv n as_n k s -> threads (pool_ s) !! id = Some th -> stg th = Hooked ->
  linv n as_n k (with_count (session_count_ s - 1) (with_pool (on_thread (set_stage Finished) id (pool_ s)) s)).
Proof.
  intros Hl Ht Hs. pose proof Hl as [(pend & act & Hi & Ha) H2 H3 H4].
  split; cbn [queue clients pool_ session_count_ with_count with_pool on_thread with_threads workers_ threads].
  - exists pend, act. split; [done|]. rewrite collect_same; [done|]. intros th' Ht'. simplify_eq. unfold holding. cbn. by rewrite Hs.
  - done.
  - eapply stage_pinv; done.
  - rewrite H4. unfold zlen. rewrite (collect_alter live _ id th), (collect_lookup live id th (threads (pool_ s))), !length_app by done.
    unfold live at 1 3. cbn [set_stage stg]. rewrite Hs. cbn. lia.
Qed.

Lemma disconnect_ok k s id th s' :
  linv n as_n k s -> k + n + as_n + 2 < 2 ^ 63 -> threads (pool_ s) !! id = Some th -> stg th = Retired ->
  (q ← disconnect (slot_id th) (queue s); Ok (with_queue q (with_pool (on_thread (set_stage Disconnected) id (pool_ s)) s))) = Ok s' ->
  linv n as_n (k + 1) s'.
Proof using Hn Has Hsmall.
  intros Hl Hk Ht Hs. pose proof Hl as [(pend & act & Hi & Ha) H2 H3 H4]. set (g := Connections.Ghost (clients s) pend act) in *.
  pose proof (collect_lookup holding id th (threads (pool_ s)) Ht) as Hco. unfold holding in Hco at 2. rewrite Hs in Hco. cbn in Hco.
  assert (slot_id th ∈ act) as Hin by (rewrite Ha, Hco; set_solver). apply list_elem_of_lookup in Hin as [i Hx].
  destruct (Connections.exec_spec n as_n Hn Has Hsmall k (queue s) g (Connections.S_disconnect i) Hi) as [(q' & g' & E & Hi')|(e & ad & ? & _)];
    [cbn; by eapply lookup_lt_Some|done| |done].
  cbn [Connections.exec Connections.active g] in E. rewrite Hx in E.
  destruct (disconnect (slot_id th) (queue s)) as [q|x|]; cbn [mbind res_bind] in *; simplify_eq. intros [= <-].
  split; cbn [queue clients pool_ session_count_ with_queue with_pool on_thread with_threads workers_ threads].
  - exists pend, (delete i act). split; [done|]. rewrite (collect_alter holding _ id th) by done. cbn.
    apply (Permutation_cons_inv (a := slot_id th)). rewrite <- Hco, <- Ha. symmetry. by apply delete_Permutation.
  - done.
  - eapply stage_pinv; done.
  - rewrite H4. unfold zlen. rewrite collect_same; [done|]. intros th' Ht'. simplify_eq. unfold live. cbn. by rewrite Hs.
Qed.

Lemma listener_step k s a s' :
  linv n as_n k s -> enabled a s -> k + n + as_n + 2 < 2 ^ 63 -> step a s = Ok s' -> linv n as_n (k + 1) s'.
Proof using Hn Has Hsmall.
  intros Hl Hen Hk. destruct a as [admin|i| |c id gr| | | |id|id|id|id|id b].
  - intros Hs. apply linv_later. by eapply take_ok.
  - by apply enqueue_ok.
  - intros [= <-]. apply linv_later. apply linv_pool; try done. apply pinv_care, Hl.
  - cbn [step]. destruct (lphase s); [destruct Hen; by apply turn_ok|intros [= <-]; by apply linv_later..].
  - cbn [step]. intros Hs. apply linv_later. destruct (lphase s); simplify_eq; try done. case_match; [done|by apply linv_phase].
  - cbn [step]. intros Hs. apply linv_later. destruct (lphase s); try by simplify_eq. pose proof (pinv_care idx (pool_ s) ltac:(apply Hl)) as Hp.
    unfold care_undertakers in *. cbn [snd] in Hp. injection Hs as <-. by apply linv_phase, linv_pool.
  - intros [= <-]. apply linv_later. by apply linv_queue.
  - cbn [step]. unfold thread_step. destruct (threads (pool_ s) !! id) as [th|] eqn:Et; [|intros [= <-]; by apply linv_later].
    case_bool_decide as Hst; intros [= <-]; apply linv_later; [|done]. exact (retire_ok k s id th Hl Et Hst).
  - cbn [step]. unfold thread_step. destruct (threads (pool_ s) !! id) as [th|] eqn:Et; [|intros [= <-]; by apply linv_later].
    case_bool_decide as Hst; [|intros [= <-]; by apply linv_later]. intros Hs. exact (disconnect_ok k s id th s' Hl Hk Et Hst Hs).
  - cbn [step]. unfold thread_step. destruct (threads (pool_ s) !! id) as [th|] eqn:Et; [|intros [= <-]; by apply linv_later].
    case_bool_decide as Hst; intros [= <-]; apply linv_later; [|done]. exact (hook_ok k s id th Hl Et Hst).
  - cbn [step]. unfold thread_step. destruct (threads (pool_ s) !! id) as [th|] eqn:Et; [|intros [= <-]; by apply linv_later].
    case_bool_decide as Hst; intros [= <-]; apply linv_later; [|done]. exact (finish_ok k s id th Hl Et Hst).
  - intros [= <-]. apply linv_later. apply linv_pool; [done|apply pinv_thread; [apply Hl|done]|done|by apply collect_same..].
Qed.

Lemma listener_reachable_inv k s : reachable n as_n k s -> Z.of_nat k + n + as_n + 2 < 2 ^ 63 -> linv n as_n (Z.of_nat k) s.
Proof using Hn Has Hsmall.
  induction 1 as [|k s a s' _ IH Hen Hs]; intros Hk; [by apply linv_create|].
  replace (Z.of_nat (S k)) with (Z.of_nat k + 1) by lia. eapply listener_step; [apply IH; lia|done|lia|done].
Qed.

(** *** The end of the listener *)

Definition phase_ok (s : t) : Prop := ended (lphase s) (pool_ s).

Lemma make_session_phase c id session sid s s' : make_session c id session sid s = Ok s' -> lphase s' = lphase s.
Proof.
  unfold make_session. intros Hm. destruct c, (workers_ (pool_ s) !z reset_admin sid);
    repeat (match goal with H : context [reject ?a ?b] |- _ => destruct (reject a b) end ||
            match goal with H : context [accept ?a ?b ?c] |- _ => destruct (accept a b c) end; cbn [mbind res_bind] in * ); by simplify_eq.
Qed.

Lemma turn_phase c id gr s s' : turn c id gr s = Ok s' -> lphase s = Listening -> lphase s' = Listening \/ lphase s' = Confirming.
Proof.
  intros Ht Hl. unfold turn in Ht. destruct (listen (queue s)) as [session q]. destruct (session =? 0); [simplify_eq; by left|].
  destruct (is_terminated q); [simplify_eq; by right|]. destruct (slot q); simplify_eq; [|by left].
  left. by rewrite (make_session_phase _ _ _ _ _ _ Ht).
Qed.

Lemma phase_ok_step k a s s' : linv n as_n k s -> phase_ok s -> step a s = Ok s' -> phase_ok s'.
Proof.
  intros Hl Hp. destruct a as [admin|i| |c id gr| | | |id|id|id|id|id b]; cbn [step].
  - destruct (take_slot admin (queue s)) as [[sid q]|x|]; intros [= <-]; done.
  - destruct (clients s !! i); [|by intros [= <-]]. destruct (enqueue _ _); cbn [mbind res_bind]; intros [= <-]. done.
  - intros [= <-]. by apply ended_care.
  - destruct (lphase s) eqn:El; [|by intros [= <-]..]. intros Ht. unfold phase_ok. by destruct (turn_phase _ _ _ _ _ Ht El) as [-> | ->].
  - unfold phase_ok in *. destruct (lphase s) eqn:El; intros [= <-]; rewrite ?El; try done.
    destruct (worker_remain (pool_ s)) eqn:Ew; [by rewrite El|]. cbn. apply (no_worker_no_running idx); [apply Hl|done].
  - unfold phase_ok in *. destruct (lphase s) eqn:El; [by intros [= <-]; rewrite El..| |by intros [= <-]; rewrite El].
    unfold care_undertakers. intros [= <-]. case_bool_decide; cbn; [by split|done].
  - by intros [= <-].
  - unfold thread_step. destruct (threads (pool_ s) !! id) as [th|] eqn:Et; [|by intros [= <-]].
    case_bool_decide as Hst; intros [= <-]; [|done]. unfold phase_ok in *. cbn [lphase with_pool].
    by destruct (ended_running _ _ _ _ Hp Et Hst) as [-> | ->].
  - unfold thread_step. destruct (threads (pool_ s) !! id) as [th|] eqn:Et; [|by intros [= <-]].
    case_bool_decide as Hst; [|by intros [= <-]]. cbn [queue with_pool]. destruct (disconnect _ _) as [q|x|]; cbn [mbind res_bind]; intros [= <-].
    by apply ended_thread.
  - unfold thread_step. destruct (threads (pool_ s) !! id) as [th|] eqn:Et; [|by intros [= <-]].
    case_bool_decide as Hst; intros [= <-]; [|done]. by apply ended_thread.
  - unfold thread_step. destruct (threads (pool_ s) !! id) as [th|] eqn:Et; [|by intros [= <-]].
    case_bool_decide as Hst; intros [= <-]; [|done]. by apply ended_thread.
  - intros [= <-]. by apply ended_thread.
Qed.

Lemma reachable_phase k s : reachable n as_n k s -> Z.of_nat k + n + as_n + 2 < 2 ^ 63 -> phase_ok s.
Proof using Hn Has Hsmall.
  induction 1 as [|k s a s' Hr IH Hen Hs]; intros Hk; [done|]. eapply phase_ok_step; [by apply (listener_reachable_inv k); [|lia]|apply IH; lia|done].
Qed.

End Slots.

(** C20: in every state the IPC listener reaches, while administrators take at most their
    number of slots and every thread can be made: the slot of [workers_] that the next request
    goes to is empty, so that no running worker is ever overwritten; the count of sessions is
    that of the worker threads that have not ended; and a worker object has been destroyed only
    after its thread has ended. *)
Theorem ipc_listener_slots n as_n k s :
  0 <= n -> 0 < as_n < 256 -> n + as_n < 2 ^ 32 -> reachable n as_n k s -> Z.of_nat k < 2 ^ 62 ->
  (forall sid, 0 < pending_requests (queue s) -> slot (queue s) = Ok sid -> workers_ (pool_ s) !z reset_admin sid = Some None) /\
  session_count_ s = zlen (collect live (threads (pool_ s))) /\
  (forall id, id ∈ destroyed (pool_ s) -> exists th, threads (pool_ s) !! id = Some th /\ stg th = Finished).
Proof.
  intros Hn Has Hs Hr Hk. pose proof (listener_reachable_inv n as_n Hn Has Hs k s Hr ltac:(lia)) as Hl.
  pose proof Hl as [(pend & act & Hi & Ha) H2 H3 H4]. split_and!; [|done|apply H3].
  intros sid Hpe Hsl. destruct pend as [|sid' l].
  - exfalso. destruct Hi as [_ _ _ _ (_ & _ & _ & _ & Hp & _) _]. cbn in Hp. change (zlen []) with 0 in Hp.
    unfold pending_requests, IndexQueue.size in Hpe. replace (_ - _) with 0 in Hpe by lia. done.
  - destruct (Connections.pending_slot n as_n Hn Has Hs _ _ _ sid' l (fun x => x) Hi eq_refl ltac:(lia)) as [Hsl' _].
    rewrite Hsl in Hsl'. injection Hsl' as ->. by eapply next_slot_free.
Qed.

(** When the listener thread has ended, every worker thread has ended, every worker has been
    destroyed, the count of sessions is zero and no session has a slot of the connection queue;
    and it ends, in two steps, once the threads have ended and their requests are completed. *)
Theorem ipc_listener_stops n as_n k s :
  0 <= n -> 0 < as_n < 256 -> n + as_n < 2 ^ 32 -> reachable n as_n k s -> Z.of_nat k < 2 ^ 62 ->
  (lphase s = Stopped ->
     (forall id th, threads (pool_ s) !! id = Some th -> stg th = Finished /\ id ∈ destroyed (pool_ s)) /\
     session_count_ s = 0 /\ collect holding (threads (pool_ s)) = []) /\
  (lphase s = Confirming -> (forall id th, threads (pool_ s) !! id = Some th -> stg th = Finished /\ completed th = true) ->
     exists s1 s2, step Li_confirm s = Ok s1 /\ step Li_undertake s1 = Ok s2 /\ lphase s2 = Stopped).
Proof.
  intros Hn Has Hs Hr Hk. pose proof (listener_reachable_inv n as_n Hn Has Hs k s Hr ltac:(lia)) as Hl.
  pose proof (reachable_phase n as_n Hn Has Hs k s Hr ltac:(lia)) as Hp. pose proof Hl as [_ _ H3 H4]. split.
  - intros El. unfold phase_ok in Hp. rewrite El in Hp. pose proof (ended_stopped idx _ H3 Hp) as Hf. split_and!; [done| |].
    + rewrite H4, collect_none; [done|]. intros id th Ht. unfold live. by rewrite (proj1 (Hf _ _ Ht)).
    + apply collect_none. intros id th Ht. unfold holding. by rewrite (proj1 (Hf _ _ Ht)).
  - intros El Hf. cbn [step]. rewrite El. destruct (worker_remain (pool_ s)) eqn:Ew.
    { exfalso. unfold worker_remain in Ew. apply existsb_exists in Ew as ([id|] & Hin & ?); [|done].
      apply list_elem_of_In, list_elem_of_lookup in Hin as [i Hi]. destruct (p_slot _ _ H3 _ _ Hi) as (th & Ht & Hst & _).
      destruct (Hf _ _ Ht). congruence. }
    do 2 eexists. split; [done|]. cbn [lphase with_phase step pool_]. unfold care_undertakers. split; [done|].
    rewrite bool_decide_true; [done|]. apply set_eq. intros id. rewrite elem_of_filter. split; [|set_solver].
    intros [Hq Hu]. destruct (p_under _ _ H3 _ Hu) as (th & Ht & _). unfold is_quiet in Hq. rewrite Ht in Hq.
    destruct (Hf _ _ Ht) as [E1 E2]. by rewrite E1, E2 in Hq.
Qed.

(** *** A thread that cannot be made *)

Lemma update_element_other f sid q q' j :
  update_element f sid q = Ok q' -> 0 <= reset_admin sid -> 0 <= j -> j <> reset_admin sid ->
  at_ (v_requested_ q') j = at_ (v_requested_ q) j.
Proof.
  intros Hu Hs Hj Hne. unfold update_element, put_at in Hu. destruct (at_ (v_requested_ q) (reset_admin sid)) as [e| |]; [|done..].
  cbn [mbind res_bind] in Hu. case_bool_decide; [|done]. cbn [mbind res_bind] in Hu. injection Hu as <-.
  unfold at_. cbn [v_requested_ with_elements]. rewrite list_lookup_insert_ne by lia. done.
Qed.

Lemma pending_count n as_n k q g : Connections.inv n as_n k q g -> 0 <= n + as_n < 2 ^ 63 -> pending_requests q = zlen (Connections.pending g).
Proof.
  intros [(free & [_ _ _ _ Hf _ _ _ _]) _ _ _ (_ & _ & _ & _ & Hp & _) _] Hb. unfold pending_requests, IndexQueue.size.
  replace (_ - _) with (zlen (Connections.pending g)) by lia. apply wrap_small. unfold in_range.
  pose proof (zlen_nonneg free). pose proof (zlen_nonneg (Connections.pending g)). unfold Connections.held in Hf.
  rewrite !zlen_app in Hf. pose proof (zlen_nonneg (Connections.arriving g)). pose proof (zlen_nonneg (Connections.active g)). lia.
Qed.

(** the rejection that follows an acceptance takes the request behind it away *)
Lemma accept_reject n as_n k q c s1 s2 l act session :
  0 <= n -> 0 < as_n < 256 -> n + as_n < 2 ^ 32 -> k + n + as_n + 4 < 2 ^ 63 ->
  Connections.inv n as_n k q (Connections.Ghost c (s1 :: s2 :: l) act) ->
  exists q1 q2, accept s1 session q = Ok q1 /\ reject s1 q1 = Ok q2 /\
    Connections.inv n as_n (k + 2) q2 (Connections.Ghost (s2 :: c) l act) /\
    at_ (v_requested_ q2) (reset_admin s2) = at_ (v_requested_ q) (reset_admin s2).
Proof.
  intros Hn Has Hs Hk Hi. set (g := Connections.Ghost c (s1 :: s2 :: l) act) in *.
  assert (forall s, s ∈ Connections.held g -> 0 <= reset_admin s < n + as_n) as Hsl.
  { intros s Hin. pose proof Hi as [(free & Hf) _ _ _ _ _]. by eapply Free.held_slot. }
  assert (reset_admin s2 <> reset_admin s1) as Hne.
  { pose proof (held_nodup _ _ _ _ _ Hi) as Hnd. unfold Connections.held, g in Hnd. cbn in Hnd. rewrite map_app in Hnd.
    apply NoDup_app in Hnd as (_ & _ & Hnd). cbn in Hnd. apply NoDup_cons in Hnd as [Hnot _]. set_solver. }
  assert (0 <= reset_admin s1 < n + as_n) as B1 by (apply Hsl; set_solver).
  assert (0 <= reset_admin s2 < n + as_n) as B2 by (apply Hsl; set_solver).
  destruct (Connections.exec_spec n as_n Hn Has Hs k q g (Connections.L_accept session) Hi) as [(q1 & g1 & E & Hi1)|(e & ad & ? & _)];
    [done|lia| |done].
  destruct (Connections.pending_slot n as_n Hn Has Hs k q g s1 (s2 :: l) (Element.accept session) Hi eq_refl ltac:(lia)) as (Hslot & v & Ev & Hv & _).
  cbn [Connections.exec] in E. rewrite Hslot in E. unfold accept in E |- *. cbn [mbind res_bind] in E. rewrite Ev in E |- *.
  cbn [mbind res_bind] in E. injection E as <- <-.
  set (q1 := with_elements v (with_requested (IndexQueue.pop (q_requested_ q)) q)) in *. exists q1.
  destruct (Connections.requested_pop n as_n (k + 1) (q_requested_ q1) s2 l) as [_ Hr]; [apply Hi1|lia|].
  pose proof Hi1 as [_ _ _ _ _ He1].
  destruct (Connections.update_element_ok Element.reject s1 (with_requested (IndexQueue.pop (q_requested_ q1)) q1)) as (v2 & Ev2 & Hv2);
    [cbn [v_requested_ with_requested]; rewrite He1; lia|].
  destruct (Connections.disconnect_inv n as_n Hn Has Hs (k + 1) q1 _ (with_elements v2 (with_requested (IndexQueue.pop (q_requested_ q1)) q1))
    (Connections.Ghost (s2 :: c) l act) s1 Hi1) as (q2 & Ed & Hi2); try done.
  { unfold Connections.held. cbn. solve_Permutation. }
  { lia. }
  exists q2. split; [done|]. unfold reject. rewrite Ev2. cbn [mbind res_bind]. split; [done|]. replace (k + 2) with (k + 1 + 1) by lia. split; [done|].
  assert (v_requested_ q2 = v2) as ->.
  { unfold disconnect in Ed. destruct (IndexQueue.push _ _ _); cbn [mbind res_bind] in Ed; simplify_eq. done. }
  transitivity (at_ (v_requested_ q1) (reset_admin s2)).
  - apply (update_element_other _ _ _ _ _ Ev2); lia.
  - apply (update_element_other _ _ _ _ _ Ev); lia.
Qed.

(** When the thread of a session cannot be made after the session was accepted, the
    rejection takes the request behind it out of the queue as well, whose client is not
    answered: two requests are gone, the element the second client waits on is as before, and
    the worker that has no thread stays in its slot of [workers_]. *)
Theorem invoke_failure_drops_request n as_n k s id session s1 s2 :
  0 <= n -> 0 < as_n < 256 -> n + as_n < 2 ^ 32 -> reachable n as_n k s -> Z.of_nat k < 2 ^ 62 ->
  2 <= pending_requests (queue s) -> slot (queue s) = Ok s1 ->
  IndexQueue.front (IndexQueue.pop (q_requested_ (queue s))) = Ok s2 ->
  exists s', make_session Invoke_failed id session s1 s = Ok s' /\
    pending_requests (queue s') = pending_requests (queue s) - 2 /\
    at_ (v_requested_ (queue s')) (reset_admin s2) = at_ (v_requested_ (queue s)) (reset_admin s2) /\
    workers_ (pool_ s') !z reset_admin s1 = Some (Some id).
Proof.
  intros Hn Has Hs Hr Hk Hp Hs1 Hs2. pose proof (listener_reachable_inv n as_n Hn Has Hs k s Hr ltac:(lia)) as Hl.
  pose proof Hl as [(pend & act & Hi & Ha) H2 H3 H4]. pose proof (pending_count _ _ _ _ _ Hi ltac:(lia)) as Hc. cbn in Hc. rewrite Hc in Hp |- *.
  destruct pend as [|t1 [|t2 l]]; [by change (zlen []) with 0 in Hp|by change (zlen [t1]) with 1 in Hp|].
  destruct (Connections.pending_slot n as_n Hn Has Hs _ _ _ t1 (t2 :: l) (fun x => x) Hi eq_refl ltac:(lia)) as (Hsl & _ & _ & _ & Hro).
  rewrite Hs1 in Hsl. injection Hsl as ->. destruct (Connections.requested_pop n as_n _ _ t2 l Hro ltac:(lia)) as [Hf _].
  rewrite Hs2 in Hf. injection Hf as ->.
  pose proof (next_slot_free n as_n Hn Has Hs _ s _ act t1 (t2 :: l) Hl Hi Ha eq_refl) as Hw.
  destruct (accept_reject n as_n (Z.of_nat k) (queue s) (clients s) t1 t2 l act session Hn Has Hs ltac:(lia) Hi) as (q1 & q2 & E1 & E2 & Hi2 & Hat).
  unfold make_session. rewrite Hw. cbn [queue with_pool]. rewrite E1. cbn [mbind res_bind queue with_count with_queue with_pool]. rewrite E2.
  eexists. split; [done|]. split_and!; [|exact Hat|].
  - cbn [queue with_queue]. rewrite (pending_count _ _ _ _ _ Hi2 ltac:(lia)). cbn. rewrite !zlen_cons. lia.
  - cbn. apply list_lookup_insert_eq. by eapply lookup_lt_Some.
Qed.

End IpcListener.

(** * A concrete run *)
Module IpcListenerDemo.
Import IpcListener.

(** the state after the action, where the step is defined *)
Definition next (a : action) (s : t) : t := match step a s with Ok s' => s' | _ => s end.

(** two clients request a session; the first is accepted, and its worker ends *)
Definition s0 : t := create 2 1.
Definition s1 : t := Eval vm_compute in next (Client_take false) s0.
Definition s2 : t := Eval vm_compute in next (Client_take false) s1.
Definition s3 : t := Eval vm_compute in next (Client_enqueue 0) s2.
Definition s4 : t := Eval vm_compute in next (Client_enqueue 0) s3.
Definition s5 : t := Eval vm_compute in next (Li_turn Made 10 false) s4.
Definition s6 : t := Eval vm_compute in next (Th_retire 10) s5.
Definition s7 : t := Eval vm_compute in next (Th_disconnect 10) s6.
Definition s8 : t := Eval vm_compute in next (Th_hook 10) s7.
Definition s9 : t := Eval vm_compute in next (Th_finish 10) s8.
Definition s10 : t := Eval vm_compute in next Li_terminate s9.
Definition s11 : t := Eval vm_compute in next (Li_turn Made 11 true) s10.

Ltac by_step s a := apply (reach_action _ _ _ s a); [|first [exact I|done|split; [done|vm_compute; reflexivity]]|vm_compute; reflexivity].

Lemma s4_reachable : reachable 2 1 4 s4.
Proof. by_step s3 (Client_enqueue 0). by_step s2 (Client_enqueue 0). by_step s1 (Client_take false). by_step s0 (Client_take false). apply reach_create. Qed.
Lemma s5_reachable : reachable 2 1 5 s5.
Proof. by_step s4 (Li_turn Made 10 false). apply s4_reachable. Qed.
Lemma s11_reachable : reachable 2 1 11 s11.
Proof.
  by_step s10 (Li_turn Made 11 true). by_step s9 Li_terminate. by_step s8 (Th_finish 10). by_step s7 (Th_hook 10).
  by_step s6 (Th_disconnect 10). by_step s5 (Th_retire 10). apply s5_reachable.
Qed.

Lemma ipc_listener_slots_witness :
  reachable 2 1 5 s5 /\ slot_id <$> threads (pool_ s5) !! 10%nat = Some 0 /\ ConnectionQueue.slot (queue s5) = Ok 1 /\
  workers_ (pool_ s5) !z reset_admin 1 = Some None /\ session_count_ s5 = zlen (collect live (threads (pool_ s5))) /\ session_count_ s5 = 1.
Proof.
  destruct (ipc_listener_slots 2 1 5 s5 ltac:(lia) ltac:(lia) ltac:(lia) s5_reachable ltac:(lia)) as (H1 & H2 & _).
  split; [exact s5_reachable|]. split; [reflexivity|]. split; [reflexivity|]. split; [apply H1; reflexivity|]. split; [exact H2|reflexivity].
Defined.

Lemma ipc_listener_stops_witness :
  lphase s11 = Confirming /\ exists s12 s13, step Li_confirm s11 = Ok s12 /\ step Li_undertake s12 = Ok s13 /\ lphase s13 = Stopped.
Proof.
  destruct (ipc_listener_stops 2 1 11 s11 ltac:(lia) ltac:(lia) ltac:(lia) s11_reachable ltac:(lia)) as [_ H].
  split; [reflexivity|]. apply H; [reflexivity|]. intros id th Ht.
  assert (map_Forall (fun _ th => stg th = Finished /\ completed th = true) (threads (pool_ s11))) as Hall
    by (apply (bool_decide_unpack _); vm_compute; exact I).
  exact (Hall id th Ht).
Defined.

Lemma invoke_failure_drops_request_witness :
  exists s', make_session Invoke_failed 10 1 0 s4 = Ok s' /\ ConnectionQueue.pending_requests (queue s4) = 2 /\
    ConnectionQueue.pending_requests (queue s') = 0 /\ at_ (ConnectionQueue.v_requested_ (queue s')) 1 = Ok 0.
Proof.
  destruct (invoke_failure_drops_request 2 1 4 s4 10 1 0 1 ltac:(lia) ltac:(lia) ltac:(lia) s4_reachable ltac:(lia) ltac:(vm_compute; congruence)
    eq_refl eq_refl) as (s' & H1 & H2 & H3 & _).
  exists s'. split; [exact H1|]. split; [reflexivity|]. split; [exact H2|exact H3].
Defined.

End IpcListenerDemo.
