(* ===== verification/StreamListener.v ===== *)
(** The listener of the stream endpoint (endpoint/stream/bootstrap/stream_listener.h): the pool
    of workers of WorkerPool.v, the search for a free slot, surplus sessions and session ids. *)
From stdpp Require Import gmap.
From S2P Require Import Prelude Session WorkerPool.

Module StreamListener.

Record t : Type := Lst {
  pool_ : pool;
  session_id_ : Z;
  (** stream_metrics: the number of sessions *)
  session_count_ : Z;
  lphase : listener_phase
}.
Definition with_pool (p : pool) (s : t) : t := Lst p (session_id_ s) (session_count_ s) (lphase s).

(** the constructor's workers_.resize, and the first session id of operator() *)
Definition initial_session_id : Z := 1152921504606846976.
Definition create (threads_ : Z) : t := Lst (Pool (replicate (Z.to_nat threads_) None) ∅ ∅ ∅) initial_session_id 0 Listening.

(** the search for the first slot without a worker *)
Fixpoint find_slot (l : list (option nat)) : option nat :=
  match l with
  | [] => None
  | None :: _ => Some O
  | Some _ :: l => S <$> find_slot l
  end.

(** what accept() gives: a connection ([started]: its thread can be made), nothing once the
    termination is requested, or an exception *)
Inductive accepted : Type := Acc_stream (started : bool) | Acc_terminate | Acc_exception.

(** one turn of operator(); [id]: the worker object *)
Definition turn (a : accepted) (id : nat) (graceful_ : bool) (s : t) : t :=
  let p := pool_ s in
  match a with
  | Acc_exception => s
  | Acc_terminate => Lst (terminate_workers graceful_ p) (session_id_ s) (session_count_ s) Confirming
  | Acc_stream started =>
      match find_slot (workers_ p) with
      | None =>
          let th := Thread (session_id_ s) (zlen (workers_ p)) (if started then Declined else Unstarted) nothing true in
          with_pool (Pool (workers_ p) ({[id]} ∪ undertakers_ p) (<[id := th]> (threads p)) (destroyed p)) s
      | Some i =>
          let th := Thread (session_id_ s) (Z.of_nat i) (if started then Running else Unstarted) nothing true in
          Lst (Pool (<[i := Some id]> (workers_ p)) (undertakers_ p) (<[id := th]> (threads p)) (destroyed p))
            (if started then u64 (session_id_ s + 1) else session_id_ s) (session_count_ s + 1) (lphase s)
      end
  end.

Inductive action : Type :=
| Li_care
| Li_turn (a : accepted) (id : nat) (graceful_ : bool)
| Li_confirm
| Li_undertake
| Th_retire (id : nat)
| Th_finish (id : nat)
| Th_declined (id : nat)
| Th_completed (id : nat) (b : bool).

Definition thread_step (id : nat) (from to : stage) (k : thread -> t -> t) (s : t) : t :=
  match threads (pool_ s) !! id with
  | Some th => if bool_decide (stg th = from) then k th (with_pool (on_thread (set_stage to) id (pool_ s)) s) else s
  | None => s
  end.

Definition step (a : action) (s : t) : t :=
  match a with
  | Li_care => with_pool (snd (care_undertakers (pool_ s))) s
  | Li_turn a id graceful_ => match lphase s with Listening => turn a id graceful_ s | _ => s end
  | Li_confirm =>
      match lphase s with
      | Confirming => if worker_remain (pool_ s) then s else Lst (pool_ s) (session_id_ s) (session_count_ s) Undertaking
      | _ => s
      end
  | Li_undertake =>
      match lphase s with
      | Undertaking =>
          let '(empty, p) := care_undertakers (pool_ s) in
          Lst p (session_id_ s) (session_count_ s) (if (empty : bool) then Stopped else Undertaking)
      | _ => s
      end
  | Th_retire id => thread_step id Running Retired (fun th s => with_pool (retire (slot_id th) (pool_ s)) s) s
  | Th_finish id => thread_step id Retired Finished (fun _ s => Lst (pool_ s) (session_id_ s) (session_count_ s - 1) (lphase s)) s
  | Th_declined id => thread_step id Declined Finished (fun _ s => s) s
  | Th_completed id b => with_pool (on_thread (set_completed b) id (pool_ s)) s
  end.

(** ** Admission and session ids *)

Definition idx (th : thread) : nat := Z.to_nat (slot_id th).

Lemma find_slot_spec l :
  match find_slot l with
  | Some i => l !! i = Some None
  | None => forall i, (i < length l)%nat -> exists id, l !! i = Some (Some id)
  end.
Proof.
  induction l as [|[id|] l IH]; cbn [find_slot]; [intros i Hi; cbn in Hi; lia| |done].
  destruct (find_slot l) as [i|]; [done|]. cbn. intros [|i] Hi; [by exists id|]. apply IH. cbn in Hi. lia.
Qed.

Definition enabled (a : action) (s : t) : Prop :=
  match a with
  | Li_turn (Acc_stream started) id _ => started = true /\ threads (pool_ s) !! id = None
  | _ => True
  end.
Inductive reachable (n : Z) : nat -> t -> Prop :=
| reach_create : reachable n 0 (create n)
| reach_action k s a : reachable n k s -> enabled a s -> reachable n (S k) (step a s).

(** the session id of a worker that was given one of the [n] slots, and of those the threads that have not ended *)
Definition served (n : Z) (th : thread) : option Z := if slot_id th <? n then Some (session_id th) else None.
Definition live (n : Z) (th : thread) : option Z := match stg th with Finished => None | _ => served n th end.

Record sinv (n k : Z) (s : t) : Prop := {
  si_pool : pinv idx (pool_ s);
  si_len : zlen (workers_ (pool_ s)) = n;
  si_next : initial_session_id <= session_id_ s <= initial_session_id + k;
  si_ids : NoDup (collect (served n) (threads (pool_ s)));
  si_used x : x ∈ collect (served n) (threads (pool_ s)) -> x < session_id_ s;
  si_declined id th : threads (pool_ s) !! id = Some th -> stg th = Declined \/ stg th = Unstarted -> n <= slot_id th;
  si_live id th : threads (pool_ s) !! id = Some th -> stg th = Running \/ stg th = Retired -> slot_id th < n;
  si_count : session_count_ s = zlen (collect (live n) (threads (pool_ s)))
}.

Section Sessions.
Context (n : Z) (Hn : 0 <= n).

Lemma sinv_create : sinv n 0 (create n).
Proof using Hn.
  split; cbn [create pool_ workers_ threads session_id_ session_count_]; try done; try lia.
  - apply pinv_initial.
  - unfold zlen. rewrite length_replicate. lia.
  - apply NoDup_nil_2.
  - set_solver.
Qed.

Lemma sinv_later k s : sinv n k s -> sinv n (k + 1) s.
Proof. intros []. split; try done. lia. Qed.

(** steps of the threads *)
Lemma sinv_thread k s f id p l c :
  sinv n k s -> pinv idx p -> zlen (workers_ p) = n -> threads p = alter f id (threads (pool_ s)) ->
  (forall th, threads (pool_ s) !! id = Some th -> served n (f th) = served n th /\ slot_id (f th) = slot_id th /\
     (stg (f th) = Declined \/ stg (f th) = Unstarted -> stg th = Declined \/ stg th = Unstarted) /\
     (stg (f th) = Running \/ stg (f th) = Retired -> stg th = Running \/ stg th = Retired)) ->
  c = zlen (collect (live n) (threads p)) -> sinv n k (Lst p (session_id_ s) c l).
Proof.
  intros [H1 H2 H3 H4 H5 H6 H7 H8] Hp Hl Et Hf Hc.
  assert (collect (served n) (threads p) ≡ₚ collect (served n) (threads (pool_ s))) as Ec by (rewrite Et; apply collect_same; intros; by apply Hf).
  split; cbn [pool_ session_id_ session_count_]; try done.
  - by rewrite Ec.
  - intros x. rewrite Ec. apply H5.
  - rewrite Et. intros id' th [(<- & th0 & Ht & ->)|[_ Ht]]%lookup_alter_Some; [|by eapply H6].
    destruct (Hf _ Ht) as (_ & -> & F3 & _). intros Hd%F3. by eapply H6.
  - rewrite Et. intros id' th [(<- & th0 & Ht & ->)|[_ Ht]]%lookup_alter_Some; [|by eapply H7].
    destruct (Hf _ Ht) as (_ & -> & _ & F4). intros Hd%F4. by eapply H7.
Qed.

(** steps that leave the threads alone *)
Lemma sinv_pool k s p l :
  sinv n k s -> pinv idx p -> zlen (workers_ p) = n -> threads p = threads (pool_ s) -> sinv n k (Lst p (session_id_ s) (session_count_ s) l).
Proof. intros [H1 H2 H3 H4 H5 H6 H7 H8] Hp Hl Et. split; cbn [pool_ session_id_ session_count_]; rewrite ?Et; done. Qed.

Lemma sinv_terminate k s gr l : sinv n k s -> sinv n k (Lst (terminate_workers gr (pool_ s)) (session_id_ s) (session_count_ s) l).
Proof.
  intros [H1 H2 H3 H4 H5 H6 H7 H8].
  assert (forall id th, threads (terminate_workers gr (pool_ s)) !! id = Some th ->
    exists th0, threads (pool_ s) !! id = Some th0 /\ stg th = stg th0 /\ slot_id th = slot_id th0) as Ht.
  { unfold terminate_workers. generalize (workers_ (pool_ s)) at 1. intros ws. clear. generalize (pool_ s).
    induction ws as [|[id'|] ws IH]; intros p id th; cbn [foldl]; [by eauto| |by apply IH].
    intros (th0 & Ht & E1 & E2)%IH. cbn [threads on_thread with_threads] in Ht.
    apply lookup_alter_Some in Ht as [(<- & th1 & Ht & ->)|[_ Ht]]; [|by eauto]. exists th1. by rewrite E1, E2. }
  split; cbn [pool_ session_id_ session_count_]; try done.
  - by apply pinv_terminate.
  - by rewrite terminate_workers_slots.
  - by rewrite collect_terminate.
  - intros x. rewrite collect_terminate by done. apply H5.
  - intros id th (th0 & Ht0 & -> & ->)%Ht. by eapply H6.
  - intros id th (th0 & Ht0 & -> & ->)%Ht. by eapply H7.
  - rewrite H8. unfold zlen. by rewrite collect_terminate.
Qed.

(** a connection without a free slot *)
Lemma decline_ok k s id :
  sinv n k s -> threads (pool_ s) !! id = None ->
  sinv n k (with_pool (Pool (workers_ (pool_ s)) ({[id]} ∪ undertakers_ (pool_ s))
    (<[id := Thread (session_id_ s) (zlen (workers_ (pool_ s))) Declined nothing true]> (threads (pool_ s))) (destroyed (pool_ s))) s).
Proof.
  intros [[P1 P2 P3 P4 P5] H2 H3 H4 H5 H6 H7 H8] Hid. set (th := Thread _ _ _ _ _).
  assert (served n th = None) as Hs by (unfold served, th; cbn; rewrite H2, Z.ltb_irrefl; done).
  assert (live n th = None) as Hv by exact Hs.
  assert (forall id' th', <[id := th]> (threads (pool_ s)) !! id' = Some th' -> id' = id /\ th' = th \/ threads (pool_ s) !! id' = Some th') as Hc.
  { intros id' th' [[<- <-]|[_ ?]]%lookup_insert_Some; eauto. }
  assert (forall id' th', threads (pool_ s) !! id' = Some th' -> <[id := th]> (threads (pool_ s)) !! id' = Some th') as Hk.
  { intros id' th' Ht. rewrite lookup_insert_ne by congruence. done. }
  split; cbn [pool_ session_id_ session_count_ with_pool workers_ threads].
  - split; cbn [workers_ undertakers_ threads destroyed].
    + intros i id' (th' & Ht & ?)%P1. exists th'. by split; [apply Hk|].
    + intros id' th' [[-> ->]|Ht]%Hc; [done|by apply P2].
    + intros id' [->%elem_of_singleton|(th' & Ht & ?)%P3]%elem_of_union; [exists th; by rewrite lookup_insert_eq|exists th'; by split; [apply Hk|]].
    + intros id' th' [[-> ->]|Ht]%Hc; [set_solver|]. intros Hr. destruct (P4 _ _ Ht Hr); set_solver.
    + intros id' (th' & Ht & ?)%P5. exists th'. by split; [apply Hk|].
  - done.
  - done.
  - rewrite collect_insert, Hs by done. done.
  - intros x. rewrite collect_insert, Hs by done. apply H5.
  - intros id' th' [[-> ->]|Ht]%Hc; [intros _; unfold th; cbn; lia|by eapply H6].
  - intros id' th' [[-> ->]|Ht]%Hc; [by intros [?|?]|by eapply H7].
  - rewrite H8. unfold zlen. rewrite collect_insert, Hv by done. done.
Qed.

(** a connection with a free slot *)
Lemma admit_ok k s id i l :
  sinv n k s -> k < 2 ^ 60 -> threads (pool_ s) !! id = None -> workers_ (pool_ s) !! i = Some None ->
  sinv n (k + 1) (Lst (Pool (<[i := Some id]> (workers_ (pool_ s))) (undertakers_ (pool_ s))
    (<[id := Thread (session_id_ s) (Z.of_nat i) Running nothing true]> (threads (pool_ s))) (destroyed (pool_ s)))
    (u64 (session_id_ s + 1)) (session_count_ s + 1) l).
Proof.
  intros [H1 H2 H3 H4 H5 H6 H7 H8] Hk Hid Hi. set (th := Thread _ _ _ _ _).
  assert (Z.of_nat i < n) as Hin by (apply lookup_lt_Some in Hi; unfold zlen in H2; lia).
  assert (served n th = Some (session_id_ s)) as Hs by (unfold served, th; cbn; by rewrite (proj2 (Z.ltb_lt _ _) Hin)).
  assert (live n th = Some (session_id_ s)) as Hv by exact Hs.
  assert (u64 (session_id_ s + 1) = session_id_ s + 1) as Hu by (apply wrap_small; unfold in_range, initial_session_id in *; lia).
  split; cbn [pool_ session_id_ session_count_ workers_ threads]; rewrite ?Hu.
  - pose proof (pinv_add idx id th (pool_ s) H1 Hid) as Hp. assert (idx th = i) as Hix by apply Nat2Z.id. rewrite Hix in Hp. by apply Hp.
  - unfold zlen. rewrite length_insert. exact H2.
  - lia.
  - rewrite collect_insert, Hs by done. cbn. apply NoDup_cons. split; [|done]. intros Hx%H5. lia.
  - intros x. rewrite collect_insert, Hs by done. cbn. intros [-> |Hx%H5]%elem_of_cons; lia.
  - intros id' th' [[<- <-]|[_ Ht]]%lookup_insert_Some; [by intros [?|?]|by eapply H6].
  - intros id' th' [[<- <-]|[_ Ht]]%lookup_insert_Some; [done|by eapply H7].
  - rewrite H8. unfold zlen. rewrite collect_insert, Hv by done. cbn. lia.
Qed.

Lemma stage_ok k s from to id th c :
  sinv n k s -> threads (pool_ s) !! id = Some th -> stg th = from -> from <> Running -> from <> Finished ->
  to = Finished -> c = zlen (collect (live n) (alter (set_stage to) id (threads (pool_ s)))) ->
  sinv n k (Lst (on_thread (set_stage to) id (pool_ s)) (session_id_ s) c (lphase s)).
Proof.
  intros Hi Ht Hs H1 H2 -> Hc. eapply sinv_thread; [done| |apply Hi|done| |exact Hc].
  - apply pinv_thread; [apply Hi|]. intros th' Ht'. simplify_eq. split_and!; [done|cbn; by split|done].
  - intros th' _. split_and!; [done|done|by intros [?|?]|by intros [?|?]].
Qed.

Lemma stream_retire_ok k s id th :
  sinv n k s -> threads (pool_ s) !! id = Some th -> stg th = Running ->
  sinv n k (with_pool (retire (slot_id th) (on_thread (set_stage Retired) id (pool_ s))) s).
Proof.
  intros Hi Ht Hs. pose proof Hi as [H1 H2 H3 H4 H5 H6 H7 H8].
  destruct (pinv_retire idx id th (slot_id th) (pool_ s)) as [E Hp]; try done. rewrite E in *. unfold with_pool.
  eapply sinv_thread; [done|done| |done| |].
  - cbn. unfold zlen in *. by rewrite length_insert.
  - intros th' Ht'. simplify_eq. split_and!; [done|done|by intros [?|?]|by left].
  - rewrite H8. unfold zlen. cbn [threads]. rewrite collect_same; [done|]. intros th' Ht'. simplify_eq. unfold live. cbn. by rewrite Hs.
Qed.

Lemma sinv_step k s a : sinv n k s -> enabled a s -> k < 2 ^ 60 -> sinv n (k + 1) (step a s).
Proof.
  intros Hi Hen Hk. pose proof Hi as [H1 H2 H3 H4 H5 H6 H7 H8]. destruct a as [|a id gr| | |id|id|id|id b]; cbn [step].
  - apply sinv_later, sinv_pool; [done|by apply pinv_care|done|done].
  - destruct (lphase s); [|by apply sinv_later..]. unfold turn. destruct a as [started| |]; [|apply sinv_later; by apply sinv_terminate|by apply sinv_later].
    destruct Hen as [-> Hid]. pose proof (find_slot_spec (workers_ (pool_ s))) as Hf. destruct (find_slot _) as [i|]; [by apply admit_ok|].
    apply sinv_later. by apply decline_ok.
  - apply sinv_later. destruct (lphase s); try done. case_match; [done|]. by apply sinv_pool.
  - apply sinv_later. destruct (lphase s); try done. unfold care_undertakers.
    apply (sinv_pool k s (snd (care_undertakers (pool_ s)))); [done|by apply pinv_care|done|done].
  - apply sinv_later. unfold thread_step. destruct (threads (pool_ s) !! id) as [th|] eqn:Et; [|done].
    case_bool_decide as Hst; [|done]. exact (stream_retire_ok k s id th Hi Et Hst).
  - apply sinv_later. unfold thread_step. destruct (threads (pool_ s) !! id) as [th|] eqn:Et; [|done].
    case_bool_decide as Hst; [|done]. eapply (stage_ok k s Retired Finished id th); try done.
    cbn [session_count_ with_pool]. rewrite H8. unfold zlen.
    rewrite (collect_alter (live n) _ id th), (collect_lookup (live n) id th (threads (pool_ s))), !length_app by done.
    unfold live at 1 3. cbn [set_stage stg]. rewrite Hst. unfold served.
    rewrite (proj2 (Z.ltb_lt _ _)) by (eapply H7; eauto). cbn. lia.
  - apply sinv_later. unfold thread_step. destruct (threads (pool_ s) !! id) as [th|] eqn:Et; [|done].
    case_bool_decide as Hst; [|done]. eapply (stage_ok k s Declined Finished id th); try done.
    cbn [session_count_ with_pool]. rewrite H8. unfold zlen. rewrite collect_same; [done|]. intros th' Ht'. simplify_eq.
    unfold live. cbn [set_stage stg]. rewrite Hst. unfold served. by rewrite (proj2 (Z.ltb_ge _ _)) by (eapply H6; eauto).
  - apply sinv_later. unfold with_pool. eapply sinv_thread; [done|apply pinv_thread; [done|done]|done|done|done|].
    rewrite H8. unfold zlen. cbn [threads on_thread with_threads]. by rewrite collect_same.
Qed.

Lemma stream_listener_inv k s : reachable n k s -> Z.of_nat k <= 2 ^ 60 -> sinv n (Z.of_nat k) s.
Proof using Hn.
  induction 1 as [|k s a _ IH Hen]; intros Hk; [by apply sinv_create|].
  replace (Z.of_nat (S k)) with (Z.of_nat k + 1) by lia. apply sinv_step; [apply IH; lia|done|lia].
Qed.

(** *** The end of the listener *)

Lemma stream_ended_step k a s : sinv n k s -> ended (lphase s) (pool_ s) -> ended (lphase (step a s)) (pool_ (step a s)).
Proof.
  intros Hi Hp. destruct a as [|a id gr| | |id|id|id|id b]; cbn [step].
  - by apply ended_care.
  - destruct (lphase s) eqn:El; [|by rewrite ?El..]. unfold turn. destruct a as [started| |]; cbn; rewrite ?El; try done.
    destruct (find_slot _); cbn; by rewrite ?El.
  - destruct (lphase s) eqn:El; [by rewrite ?El| |by rewrite ?El..]. destruct (worker_remain (pool_ s)) eqn:Ew; [by rewrite ?El|].
    cbn. apply (no_worker_no_running idx); [apply Hi|done].
  - destruct (lphase s) eqn:El; [by rewrite ?El..| |by rewrite ?El]. unfold care_undertakers. case_bool_decide; cbn; [by split|done].
  - unfold thread_step. destruct (threads (pool_ s) !! id) as [th|] eqn:Et; [|done]. case_bool_decide as Hst; [|done].
    cbn [lphase with_pool]. by destruct (ended_running _ _ _ _ Hp Et Hst) as [-> | ->].
  - unfold thread_step. destruct (threads (pool_ s) !! id) as [th|] eqn:Et; [|done]. case_bool_decide as Hst; [|done]. by apply ended_thread.
  - unfold thread_step. destruct (threads (pool_ s) !! id) as [th|] eqn:Et; [|done]. case_bool_decide as Hst; [|done]. by apply ended_thread.
  - by apply ended_thread.
Qed.

Lemma stream_ended k s : reachable n k s -> Z.of_nat k <= 2 ^ 60 -> ended (lphase s) (pool_ s).
Proof using Hn.
  induction 1 as [|k s a Hr IH Hen]; intros Hk; [done|]. eapply stream_ended_step; [by apply (stream_listener_inv k); [|lia]|apply IH; lia].
Qed.

End Sessions.


(** steps of the worker threads *)
Definition thread_action (a : action) : Prop := match a with Li_turn _ _ _ => False | _ => True end.

Lemma thread_action_ids a s :
  thread_action a -> session_id_ (step a s) = session_id_ s /\
  forall id th, threads (pool_ s) !! id = Some th -> exists th', threads (pool_ (step a s)) !! id = Some th' /\ session_id th' = session_id th.
Proof.
  assert (forall f id0 (m : gmap nat thread), (forall th, session_id (f th) = session_id th) -> forall id th, m !! id = Some th ->
    exists th', alter f id0 m !! id = Some th' /\ session_id th' = session_id th) as Hal.
  { intros f id0 m Hf id th Ht. destruct (decide (id0 = id)) as [->|]; [rewrite lookup_alter_eq, Ht; eexists; by split|].
    rewrite lookup_alter_ne by done. by exists th. }
  assert (forall i p, threads (retire i p) = threads p) as Hre by (intros i p; unfold retire; by repeat case_match).
  destruct a as [|a id gr| | |id|id|id|id b]; cbn [step thread_action]; intros Ha; try done;
    unfold thread_step; repeat case_match; split; try done; try (by eauto); try (cbn [pool_ with_pool]; rewrite ?Hre; by apply Hal).
  all: intros id' th' Ht'; unfold care_undertakers in *; simplify_eq; by eauto.
Qed.

(** A declined connection does not use its session id up: the next connection that is
    given a slot gets the same id, whatever the worker threads do in between. *)
Theorem declined_session_id_reused s id1 id2 gr1 gr2 acts :
  lphase s = Listening -> find_slot (workers_ (pool_ s)) = None -> Forall thread_action acts -> id1 <> id2 ->
  let s1 := foldl (fun s a => step a s) (step (Li_turn (Acc_stream true) id1 gr1) s) acts in
  lphase s1 = Listening -> find_slot (workers_ (pool_ s1)) <> None ->
  let s2 := step (Li_turn (Acc_stream true) id2 gr2) s1 in
  exists th1 th2, threads (pool_ s2) !! id1 = Some th1 /\ threads (pool_ s2) !! id2 = Some th2 /\
    stg th2 = Running /\ session_id th1 = session_id th2.
Proof.
  intros El Hf Ha Hne s1 El1 Hf1 s2. set (s0 := step (Li_turn (Acc_stream true) id1 gr1) s) in s1.
  assert (session_id_ s0 = session_id_ s /\ exists th, threads (pool_ s0) !! id1 = Some th /\ session_id th = session_id_ s) as [Hn0 Ht0].
  { unfold s0. cbn [step]. rewrite El. unfold turn. rewrite Hf. split; [done|]. eexists. split; [apply lookup_insert_eq|done]. }
  assert (session_id_ s1 = session_id_ s /\ exists th, threads (pool_ s1) !! id1 = Some th /\ session_id th = session_id_ s) as [Hn1 (th1 & Ht1 & He1)].
  { unfold s1. clear El1 Hf1. clearbody s0. clear s1 s2. revert s0 Hn0 Ht0. induction Ha as [|a acts Ha _ IH]; intros s0 Hn0 (th & Ht & He); [by eauto|].
    cbn [foldl]. destruct (thread_action_ids a s0 Ha) as [E1 E2]. destruct (E2 _ _ Ht) as (th' & Ht' & He'). apply IH; [congruence|].
    exists th'. split; [done|congruence]. }
  unfold s2. cbn [step]. rewrite El1. unfold turn. destruct (find_slot (workers_ (pool_ s1))) as [i|]; [|done].
  cbn [pool_ threads]. eexists th1, _. rewrite lookup_insert_ne by done. split; [done|]. split; [apply lookup_insert_eq|]. split; [done|].
  cbn. congruence.
Qed.

End StreamListener.

(** * A concrete run *)
Module StreamListenerDemo.
Import StreamListener.

(** one slot: the second connection is declined, and the third takes the slot of the first *)
Definition s0 : t := create 1.
Definition s1 : t := Eval vm_compute in step (Li_turn (Acc_stream true) 10 false) s0.



Lemma declined_session_id_reused_witness :
  exists th1 th2 s2, s2 = step (Li_turn (Acc_stream true) 12 false) (step (Th_retire 10) (step (Li_turn (Acc_stream true) 11 false) s1)) /\
    threads (pool_ s2) !! 11%nat = Some th1 /\ threads (pool_ s2) !! 12%nat = Some th2 /\ stg th2 = Running /\ session_id th1 = session_id th2.
Proof.
  destruct (declined_session_id_reused s1 11 12 false false [Th_retire 10] eq_refl eq_refl ltac:(repeat constructor) ltac:(lia) eq_refl
    ltac:(vm_compute; discriminate)) as (th1 & th2 & H).
  exists th1, th2. eexists. split; [reflexivity|exact H].
Defined.

End StreamListenerDemo.
