(* ===== verification/Authentication.v ===== *)
(** Authentication (src/tateyama/authentication/resource) and what a session records
    of its user (endpoint/common: administrators.h, session_info_impl.h, alive_timer.h).

    The HTTP client, the JSON library and the JWT decoder are not part of the program: the
    replies of the authentication service, with what the JSON library makes of their
    bodies, are the parameters [http_verify] and [http_issue], and the decoder is the
    parameter [jwt_decode]. *)
From stdpp Require Import gmap.
From Stdlib Require Import Ascii.
From S2P Require Import Prelude Text Session.

(** * Diagnostics codes and authentication exceptions *)

Inductive code : Type :=
| UNKNOWN | SYSTEM_ERROR | UNSUPPORTED_OPERATION | ILLEGAL_STATE | INVALID_REQUEST | OPERATION_DENIED
| AUTHENTICATION_ERROR | ACCESS_EXPIRED | REFRESH_EXPIRED | SESSION_CLOSED | RESOURCE_LIMIT_REACHED | PERMISSION_ERROR | SERVICE_UNAVAILABLE.
#[global] Instance code_eq_dec : EqDecision code.
Proof. solve_decision. Defined.

(** a result, or an [authentication_exception] with its message and optional code *)
Inductive auth (A : Type) : Type :=
| Return (a : A)
| Raise (what : string) (c : option code).
Arguments Return {A} _.
Arguments Raise {A} _ _.

#[global] Instance auth_bind : MBind auth := fun A B f m =>
  match m with Return a => f a | Raise w c => Raise w c end.

(** * rest/client.h *)

Module Rest.

(** what the JSON library makes of an access to a parsed body that is converted to a string:
    a value, or one of its exceptions *)
Inductive get_result : Type := GotString (s : string) | JsonException.

(** a parsed body, by what it answers to [j.find(key).value()] and to [j.value(key, "")] *)
Record json : Type := Json { get_string : string -> get_result; get_string_or_empty : string -> get_result }.

(** the reply to a GET: none (timeout), an [std::invalid_argument], or a status with
    its body, [None] when the parser throws *)
Inductive reply : Type :=
| NoReply
| InvalidArgument (what : string)
| Reply (status : Z) (body : option json).

Definition malfunction {A} : auth A := Raise "the authentication service malfunction" None.

Definition json_failure {A} (status : Z) : auth A :=
  if status =? 503 then Raise "authentication service is unavailable" None
  else Raise "invalid reply from the authentication service, " None.

(** a status other than 200: the message of the service, if any *)
Definition service_error {A} (status : Z) (j : json) : auth A :=
  match get_string_or_empty j "message" with
  | JsonException => json_failure status
  | GotString message => if bool_decide (message = "") then malfunction else Raise message None
  end.

Definition get_encryption_key (r : reply) : auth (option (string * string)) :=
  match r with
  | InvalidArgument w => Raise ("cannot obtain encryption key from the authentication service, reason is le " ++ w) None
  | NoReply => Raise "cannot obtain encryption key from the authentication service due to timeout or service unavailable" None
  | Reply status None => json_failure status
  | Reply status (Some j) =>
      if status =? 200 then
        match get_string j "key_type", get_string j "key_data" with
        | GotString type, GotString data =>
            if negb (bool_decide (type = "")) && negb (bool_decide (data = "")) && bool_decide (type = "RSA")
            then Return (Some (type, data)) else malfunction
        | _, _ => json_failure status
        end
      else service_error status j
  end.

(** the common part of verify_token and verify_encrypted *)
Definition token_of (timeout failure : string) (r : reply) : auth (option string) :=
  match r with
  | InvalidArgument w => Raise (failure ++ w) None
  | NoReply => Raise timeout None
  | Reply status None => json_failure status
  | Reply status (Some j) =>
      if status =? 200 then
        match get_string j "token" with
        | GotString token => if bool_decide (token = "") then malfunction else Return (Some token)
        | JsonException => json_failure status
        end
      else service_error status j
  end.
Definition verify_token (r : reply) : auth (option string) :=
  token_of "cannot verify token by the authentication service due to timeout or service unavailable"
    "cannot verify token by the authentication service, reason is le " r.
Definition verify_encrypted (r : reply) : auth (option string) :=
  token_of "cannot verify encrypted credential by the authentication service due to timeout or service unavailable"
    "cannot verify encrypted credential by the authentication service, reason is le " r.

End Rest.

(** * jwt/token_handler.h: the claims of a decoded token *)

Inductive token_type : Type := none | access | refresh.

Record claims : Type := Claims { claim_name : option string; claim_exp : option Z; claim_sub : option string }.
Definition tsurugi_auth_name (h : option claims) : option string := h ≫= claim_name.
Definition expiration_time_of (h : option claims) : option Z := h ≫= claim_exp.
Definition token_type_of (h : option claims) : token_type :=
  match h ≫= claim_sub with
  | Some s => if bool_decide (s = "access") then access else if bool_decide (s = "refresh") then refresh else none
  | None => none
  end.

(** * authentication_adapter.h, authentication_adapter_impl.h *)

Definition MAXIMUM_USERNAME_LENGTH : Z := 1024.

Definition first_char (s : string) : option ascii := match s with EmptyString => None | String c _ => Some c end.
Fixpoint last_char (s : string) : option ascii :=
  match s with
  | EmptyString => None
  | String c EmptyString => Some c
  | String _ s => last_char s
  end.
(** [\x20-\x7E\x80-\xFF] *)
Definition name_char (c : ascii) : bool :=
  let n := Ascii.nat_of_ascii c in ((32 <=? n)%nat && (n <=? 126)%nat) || (128 <=? n)%nat.
Fixpoint all_chars (p : ascii -> bool) (s : string) : bool :=
  match s with EmptyString => true | String c s => p c && all_chars p s end.
Definition space_opt (c : option ascii) : bool := match c with Some c => Text.is_space c | None => false end.

Definition check_username (name_opt : option string) : auth (option string) :=
  match name_opt with
  | None => Return None
  | Some name =>
      if space_opt (first_char name) then Raise "invalid user name (begin with whitespace)" (Some AUTHENTICATION_ERROR)
      else if space_opt (last_char name) then Raise "invalid user name (end with whitespace)" (Some AUTHENTICATION_ERROR)
      else if MAXIMUM_USERNAME_LENGTH <? Z.of_nat (String.length name)
      then Raise "invalid user name (too long)" (Some AUTHENTICATION_ERROR)
      else if all_chars name_char name then Return name_opt
      else Raise "invalid user name (includes invalid charactor)" (Some AUTHENTICATION_ERROR)
  end.

Module Adapter.
Section Adapter.
(** the replies of the service to /verify and /issue-encrypted, the decoder, the clock in seconds *)
Variable http_verify : string -> Rest.reply.
Variable http_issue : string -> Rest.reply.
Variable jwt_decode : string -> string -> option claims.
Variable now : Z.

Record t : Type := Make { enabled_ : bool; encryption_key_ : option (string * string) }.

Definition get_encryption_key (a : t) : auth (option (string * string)) := Return (encryption_key_ a).

Definition verify_token (a : t) (token : string) : auth (option string) :=
  if enabled_ a then
    token_opt ← Rest.verify_token (http_verify token);
    match token_opt, encryption_key_ a with
    | Some _, Some key =>
        let handler := jwt_decode token (snd key) in
        if match expiration_time_of handler with Some exp => now <? exp | None => false end
        then check_username (tsurugi_auth_name handler)
        else match token_type_of handler with
             | access => Raise "access token already expired" (Some ACCESS_EXPIRED)
             | refresh => Raise "refresh token already expired" (Some REFRESH_EXPIRED)
             | none => Raise "token already expired" None
             end
    | _, _ => Raise "verify failed" None
    end
  else Return None.

Definition verify_encrypted (a : t) (encrypted_credential : string) : auth (option string) :=
  if enabled_ a then
    token_opt ← Rest.verify_encrypted (http_issue encrypted_credential);
    match token_opt, encryption_key_ a with
    | Some token, Some key => check_username (tsurugi_auth_name (jwt_decode token (snd key)))
    | _, _ => Return None
    end
  else Return None.

End Adapter.
End Adapter.

(** ** The resource: what the endpoints call *)

Class Adapter_ops : Type := {
  op_get_encryption_key : auth (option (string * string));
  op_verify_token : string -> auth (option string);
  op_verify_encrypted : string -> auth (option string);
}.

(** the adapter that asks the authentication service *)
Definition adapter_impl (http_verify http_issue : string -> Rest.reply) (jwt_decode : string -> string -> option claims)
    (now : Z) (a : Adapter.t) : Adapter_ops := {|
  op_get_encryption_key := Adapter.get_encryption_key a;
  op_verify_token := Adapter.verify_token http_verify jwt_decode now a;
  op_verify_encrypted := Adapter.verify_encrypted http_issue jwt_decode a;
|}.

Module AuthBridge.
Definition unavailable {A} : auth A := Raise "authentication service is not available" None.

Definition get_encryption_key (adapter : option Adapter_ops) : auth (option string) :=
  match adapter with
  | Some a =>
      key_opt ← op_get_encryption_key;
      match key_opt with
      | Some (type, key) => if bool_decide (type = "RSA") then Return (Some key) else unavailable
      | None => unavailable
      end
  | None => unavailable
  end.
Definition verify_token (adapter : option Adapter_ops) (token : string) : auth (option string) :=
  match adapter with Some a => op_verify_token token | None => unavailable end.
Definition verify_encrypted (adapter : option Adapter_ops) (encrypted_credential : string) : auth (option string) :=
  match adapter with Some a => op_verify_encrypted encrypted_credential | None => unavailable end.
End AuthBridge.

(** * endpoint/common/administrators.h *)

Module Administrators.

(** [boost::algorithm::split(.., is_any_of(","))] and [trim] *)
Fixpoint split (s : string) (acc : string) : list string :=
  match s with
  | EmptyString => [acc]
  | String c s => if bool_decide (c = ","%char) then acc :: split s "" else split s (acc ++ String c "")
  end.
Fixpoint trim_right (s : string) : string :=
  match s with
  | EmptyString => ""
  | String c s =>
      let r := trim_right s in
      match r with EmptyString => if Text.is_space c then "" else String c "" | _ => String c r end
  end.
Definition trim (s : string) : string := trim_right (Text.skip_space s).

Record t : Type := Make { names_ : list string; no_authentication_ : bool }.

Definition of_names (names : string) : res t :=
  if bool_decide (names = "") then Throw (runtime_error "authentication.administrators is empty")
  else if bool_decide (names = "*") then Ok (Make [] true)
  else Ok (Make (map trim (split names "")) false).

(** the configuration entries authentication.enabled and authentication.administrators *)
Definition administrator_names (enabled : option bool) (administrators : option string) : res string :=
  match enabled with
  | Some true =>
      match administrators with
      | Some names => Ok names
      | None => Throw (runtime_error "cannot find authentication.administrators in tsurugi.ini")
      end
  | Some false => Ok "*"
  | None => Throw (runtime_error "cannot find authentication.enabled in tsurugi.ini")
  end.

Definition is_administrator (name : string) (a : t) : bool :=
  no_authentication_ a || bool_decide (name ∈ names_ a).

End Administrators.

(** * endpoint/common/session_info_impl.h *)

Definition new_session_info (id : Z) (con_type con_info : string) (start_at : Z) : session_info :=
  Info id "" "" None start_at con_type con_info administrator.

Definition user_type_of (admins : Administrators.t) (user_name_opt : option string) : user_type :=
  match user_name_opt with
  | Some name => if Administrators.is_administrator name admins then administrator else standard
  | None => administrator
  end.

Definition set_label (s : string) (i : session_info) : session_info :=
  Info (id i) s (application_name i) (username i) (start_at i) (connection_type_name i) (connection_information i) (user_type_ i).
Definition set_application_name (s : string) (i : session_info) : session_info :=
  Info (id i) (label i) s (username i) (start_at i) (connection_type_name i) (connection_information i) (user_type_ i).
Definition set_connection_information (s : string) (i : session_info) : session_info :=
  Info (id i) (label i) (application_name i) (username i) (start_at i) (connection_type_name i) s (user_type_ i).
(** the user type is computed from the name on every access *)
Definition set_user_name (admins : Administrators.t) (s : string) (i : session_info) : session_info :=
  Info (id i) (label i) (application_name i) (Some s) (start_at i) (connection_type_name i) (connection_information i)
    (user_type_of admins (Some s)).

(** * endpoint/common/alive_timer.h; times in milliseconds *)

Module AliveTimer.

Record t : Type := Timer { timeout_ : Z; enable_timeout_ : bool; expiration_time_opt_ : option Z }.

Definition update_expiration_time (force : bool) (now : Z) (a : t) : t :=
  if enable_timeout_ a then
    let new_until_time := now + timeout_ a in
    if force then Timer (timeout_ a) (enable_timeout_ a) (Some new_until_time)
    else match expiration_time_opt_ a with
         | Some e => if e <? new_until_time then Timer (timeout_ a) (enable_timeout_ a) (Some new_until_time) else a
         | None => a
         end
  else a.
(** [timeout] in seconds *)
Definition create (timeout now : Z) : t :=
  let a := Timer (timeout * 1000) (0 <? timeout) None in
  if enable_timeout_ a then update_expiration_time true now a else a.
Definition is_expiration_time_over (now : Z) (a : t) : bool :=
  match expiration_time_opt_ a with Some e => e <? now | None => false end.
Definition next_expiration (a : t) : Z :=
  match expiration_time_opt_ a with Some e => if enable_timeout_ a then u64 e else 0 | None => 0 end.

End AliveTimer.
