(* ===== verification/Metrics.v ===== *)
(** The metrics store and service: src/tateyama/metrics (metrics_store_impl.h/.cpp, resource and
    service cores), include/tateyama/metrics, and the users of the store in the endpoints,
    ipc_metrics.h and stream_metrics.h.

    Items are kept per key in maps that are ordered by their metadata.  The values are of type
    double, about which only what is used of IEEE arithmetic is assumed. *)
From stdpp Require Import gmap.
From Stdlib Require Import Strings.String Structures.OrdersEx.
From S2P Require Import Prelude Authentication.

(** * Doubles: whole numbers up to 2^53 are represented exactly *)

Class Double (D : Type) : Type := {
  of_long : Z -> D;
  dadd : D -> D -> D;
  dsub : D -> D -> D;
  dmul : D -> D -> D
}.
Definition exact (x : Z) : Prop := - 2 ^ 53 <= x <= 2 ^ 53.
Class DoubleLaws (D : Type) `{Double D} : Prop := {
  dadd_exact x y : exact x -> exact y -> exact (x + y) -> dadd (of_long x) (of_long y) = of_long (x + y);
  dsub_exact x y : exact x -> exact y -> exact (x - y) -> dsub (of_long x) (of_long y) = of_long (x - y);
  dmul_exact x y : 0 <= x -> 0 <= y -> exact (x * y) -> dmul (of_long x) (of_long y) = of_long (x * y)
}.

(** * Metadata and its order *)

Definition attribute : Type := string * string.
Record metadata : Type := Metadata {
  key : string;
  description : string;
  attributes : list attribute;
  group_keys : list string;
  is_visible : bool
}.

(** [std::tuple]'s operator< *)
Definition attribute_less (a b : attribute) : bool :=
  String.ltb a.1 b.1 || (negb (String.ltb b.1 a.1) && String.ltb a.2 b.2).
(** The test of the sizes compares a size with itself and never fails.  [None]: [b_attrs.at(i)]
    throws out of a noexcept function. *)
Fixpoint attributes_less (a b : list attribute) : option bool :=
  match a, b with
  | [], _ => Some false
  | _ :: _, [] => None
  | x :: a, y :: b => if attribute_less x y then Some true else attributes_less a b
  end.
Definition metadata_less (a b : metadata) : option bool :=
  if String.ltb (key a) (key b) then Some true else attributes_less (attributes a) (attributes b).

(** what std::map requires of its comparison on the keys it is used with *)
Definition less (a b : metadata) : bool := default false (metadata_less a b).
Definition incomparable (a b : metadata) : bool := negb (less a b) && negb (less b a).
Definition strict_weak_order (l : list metadata) : bool :=
  forallb (fun a => forallb (fun b => bool_decide (is_Some (metadata_less a b))) l) l &&
  forallb (fun a => negb (less a a)) l &&
  forallb (fun a => forallb (fun b => forallb (fun c =>
    implb (less a b && less b c) (less a c) && implb (incomparable a b && incomparable b c) (incomparable a c)) l) l) l.

(** * The store *)

Section Store.
Context {D : Type} `{Double D}.

(** an entry of the inner map: the item's slot, which its user refers to, with the value *)
Record item : Type := Item { md : metadata; slot : nat; value : D }.
Definition group : Type := list item.
Definition metrics_map : Type := list (string * group).

Inductive result : Type := Number (v : D) | Elements (l : list (D * list attribute)).
(** metrics_aggregator; the flag is [ipc_correction] of the calling thread *)
Record aggregator : Type := Aggregator {
  agg_state : Type;
  agg_start : agg_state;
  agg_add : metadata -> D -> agg_state -> agg_state;
  agg_aggregate : bool -> agg_state -> result * agg_state
}.
Record aggregation : Type := Aggregation {
  group_key : string;
  agg_description : string;
  create_aggregator : aggregator
}.

(** [next]: the name of the next slot *)
Record store : Type := Store {
  metrics_ : metrics_map;
  invisible_metrics_ : metrics_map;
  aggregations_ : list (string * aggregation);
  next : nat
}.
Definition new_store : store := Store [] [] [] 0.

(** [std::map] with strings as keys: an association list in the order of the keys *)
Fixpoint lookup_key {V} (k : string) (m : list (string * V)) : option V :=
  match m with [] => None | (k', v) :: m => if bool_decide (k = k') then Some v else lookup_key k m end.
Fixpoint emplace_key {V} (k : string) (v : V) (m : list (string * V)) : list (string * V) :=
  match m with
  | [] => [(k, v)]
  | (k', v') :: m => if String.ltb k k' then (k, v) :: (k', v') :: m else (k', v') :: emplace_key k v m
  end.
Definition replace_key {V} (k : string) (v : V) (m : list (string * V)) : list (string * V) :=
  map (fun e => if bool_decide (e.1 = k) then (k, v) else e) m.
Definition put_key {V} (k : string) (v : V) (m : list (string * V)) : list (string * V) :=
  match lookup_key k m with Some _ => replace_key k v m | None => emplace_key k v m end.

(** the inner map *)
Definition find_item (m : metadata) (g : group) : option item := List.find (fun i => incomparable m (md i)) g.
Fixpoint insert_item (i : item) (g : group) : group :=
  match g with [] => [i] | j :: g => if less (md j) (md i) then j :: insert_item i g else i :: j :: g end.

Definition register_item_internal (m : metadata) (slot : nat) (metrics : metrics_map) : res metrics_map :=
  let fmap := default [] (lookup_key (key m) metrics) in
  if strict_weak_order (m :: map md fmap) then
    match find_item m fmap with
    | Some _ => Throw (runtime_error "already exist")
    | None => Ok (put_key (key m) (insert_item (Item m slot (of_long 0)) fmap) metrics)
    end
  else Undefined.
Definition register_item (m : metadata) (s : store) : res (nat * store) :=
  if is_visible m then
    metrics ← register_item_internal m (next s) (metrics_ s);
    Ok (next s, Store metrics (invisible_metrics_ s) (aggregations_ s) (S (next s)))
  else
    metrics ← register_item_internal m (next s) (invisible_metrics_ s);
    Ok (next s, Store (metrics_ s) metrics (aggregations_ s) (S (next s))).

Definition register_aggregation (a : aggregation) (s : store) : res store :=
  match lookup_key (group_key a) (aggregations_ s) with
  | Some _ => Throw (runtime_error "aggregation is already registered")
  | None => Ok (Store (metrics_ s) (invisible_metrics_ s) (put_key (group_key a) a (aggregations_ s)) (next s))
  end.


(** [metrics_item_slot::set] through the reference that register_item returned; the slot is
    destroyed with its entry *)
Definition set_value (sl : nat) (v : D) (i : item) : item := if bool_decide (slot i = sl) then Item (md i) (slot i) v else i.
Definition set_in (sl : nat) (v : D) (m : metrics_map) : metrics_map := map (fun e => (e.1, map (set_value sl v) e.2)) m.
Definition items (m : metrics_map) : list item := concat (map snd m).
Definition set_slot (sl : nat) (v : D) (s : store) : res store :=
  if bool_decide (sl ∈ map slot (items (metrics_ s) ++ items (invisible_metrics_ s)))
  then Ok (Store (set_in sl v (metrics_ s)) (set_in sl v (invisible_metrics_ s)) (aggregations_ s) (next s))
  else Undefined.

Definition enumerate_aggregations (s : store) : list aggregation := map snd (aggregations_ s).

(** * MetricsInformation: what list and show fill in *)

(** the oneof of MetricsValue, and the map of the attributes of an element *)
Definition element : Type := D * gmap string string.
Inductive metrics_value : Type := V_value (v : D) | V_array (l : list element).
Record metrics_item : Type := MetricsItem { i_key : string; i_description : string; i_value : option metrics_value }.
Definition attribute_map (l : list attribute) : gmap string string := foldl (fun m a => <[a.1 := a.2]> m) ∅ l.
(** mutable_array() replaces a number by an empty array *)
Definition add_elements (l : list element) (v : option metrics_value) : option metrics_value :=
  Some (V_array (match v with Some (V_array l0) => l0 | _ => [] end ++ l)).

Definition set_item_description (s : store) : list metrics_item :=
  map (fun e => MetricsItem e.1 (match e.2 with i :: _ => description (md i) | [] => "" end) None) (metrics_ s) ++
  map (fun e => MetricsItem e.1 (agg_description e.2) None) (aggregations_ s).

Definition show_entry (mi : metrics_item) (i : item) : metrics_item :=
  MetricsItem (i_key mi) (description (md i))
    (match attributes (md i) with
     | [] => Some (V_value (value i))
     | attrs => add_elements [(value i, attribute_map attrs)] (i_value mi)
     end).
Definition show_group (e : string * group) : metrics_item := foldl show_entry (MetricsItem e.1 "" None) e.2.

Definition encode (r : result) (v : option metrics_value) : option metrics_value :=
  match r with
  | Number x => Some (V_value x)
  | Elements l => add_elements (map (fun e => (e.1, attribute_map e.2)) l) v
  end.
(** aggregate_internal *)
Definition aggregate_internal (correction : bool) (a : string * aggregation) (metrics : metrics_map)
    (st : agg_state (create_aggregator a.2)) (v : option metrics_value) : agg_state (create_aggregator a.2) * option metrics_value :=
  let ag := create_aggregator a.2 in
  let st := foldl (fun st i => if bool_decide (a.1 ∈ group_keys (md i)) then agg_add ag (md i) (value i) st else st) st (items metrics) in
  let '(r, st) := agg_aggregate ag correction st in
  (st, encode r v).
Definition show_aggregation (correction : bool) (s : store) (a : string * aggregation) : metrics_item :=
  let '(st, v) := aggregate_internal correction a (metrics_ s) (agg_start (create_aggregator a.2)) None in
  let '(_, v) := aggregate_internal correction a (invisible_metrics_ s) st v in
  MetricsItem a.1 (agg_description a.2) v.

Definition set_item_value (correction : bool) (s : store) : list metrics_item :=
  map show_group (metrics_ s) ++ map (show_aggregation correction s) (aggregations_ s).

(** * The service *)

Inductive command : Type := Cmd_list | Cmd_show | Cmd_not_set.
Inductive service_reply : Type := No_reply | Reply_error (message : string) | Reply_body (info : list metrics_item).
(** [request]: the parsed request; [ipc]: whether the session is an ipc session *)
Definition service (administrator ipc : bool) (request : option command) (s : store) : service_reply * bool :=
  if negb administrator then (Reply_error "administrator privilege is required", false)
  else match request with
       | None => (No_reply, false)
       | Some Cmd_list => (Reply_body (set_item_description s), true)
       | Some Cmd_show => (Reply_body (set_item_value ipc s), true)
       | Some Cmd_not_set => (No_reply, false)
       end.

(** * ipc_metrics and stream_metrics *)

Definition session_count_aggregator : aggregator :=
  Aggregator D (of_long 0) (fun _ v st => dadd st v) (fun _ st => (Number (dsub st (of_long 1)), st)).
Definition ipc_memory_aggregator (fixed proportional : Z) : aggregator :=
  Aggregator D (of_long 0) (fun _ v _ => v)
    (fun correction n =>
       (Number (dadd (of_long fixed) (dmul (if (correction : bool) then dsub n (of_long 1) else n) (of_long proportional))), n)).

Definition ipc_session_count_metadata : metadata :=
  Metadata "ipc_session_count" "number of active ipc sessions" [] ["session_count"; "ipc_buffer_size"] false.
Definition stream_session_count_metadata : metadata :=
  Metadata "stream_session_count" "number of active ipc sessions" [] ["session_count"] false.

Definition ipc_metrics (s : store) : res (nat * store) :=
  '(sl, s) ← register_item ipc_session_count_metadata s;
  s ← register_aggregation (Aggregation "session_count" "number of active sessions" session_count_aggregator) s;
  Ok (sl, s).
Definition set_memory_parameters (f p : Z) (s : store) : res store :=
  register_aggregation (Aggregation "ipc_buffer_size" "allocated buffer size for all IPC sessions" (ipc_memory_aggregator f p)) s.
Definition stream_metrics (s : store) : res (nat * store) := register_item stream_session_count_metadata s.

(** * What the store promises

    The registered items, in the order of their registration. *)



(** ** The maps *)
















Lemma swo_defined l a b : strict_weak_order l = true -> a ∈ l -> b ∈ l -> metadata_less a b = Some (less a b) /\ less a a = false.
Proof.
  unfold strict_weak_order. rewrite !andb_true_iff, !forallb_forall. intros [[Hd Hi] _] Ha Hb. rewrite list_elem_of_In in Ha, Hb. split.
  - specialize (Hd a Ha). rewrite forallb_forall in Hd. specialize (Hd b Hb). apply bool_decide_eq_true in Hd as [x Hx].
    unfold less. by rewrite Hx.
  - specialize (Hi a Ha). by apply negb_true_iff.
Qed.

Lemma less_same_key a b : key a = key b -> metadata_less a b = attributes_less (attributes a) (attributes b).
Proof.
  unfold metadata_less. intros ->. replace (String.ltb (key b) (key b)) with false; [done|].
  unfold String.ltb. pose proof (String.compare_antisym (key b) (key b)). by destruct (String.compare _ _).
Qed.



(** ** The store refines the list of registered items *)











(** ** When the comparison orders the metadata *)

Lemma ltb_trans (a b c : string) : String.ltb a b = true -> String.ltb b c = true -> String.ltb a c = true.
Proof.
  assert (Hlt : forall x y, String.ltb x y = true <-> String_as_OT.lt x y).
  { intros x y. unfold String.ltb, String_as_OT.lt. replace (String_as_OT.compare x y) with (String.compare x y).
    - destruct (String.compare x y); split; done.
    - revert y. induction x as [|h x IH]; intros [|h' y]; simpl; try done. }
  rewrite !Hlt. apply (StrictOrder_Transitive (R := String_as_OT.lt)).
Qed.
Lemma ltb_irrefl (a : string) : String.ltb a a = false.
Proof. unfold String.ltb. pose proof (String.compare_antisym a a). by destruct (String.compare a a). Qed.
Lemma ltb_asym (a b : string) : String.ltb a b = true -> String.ltb b a = false.
Proof. intros H1. destruct (String.ltb b a) eqn:H2; [|done]. pose proof (ltb_trans _ _ _ H1 H2) as H3. by rewrite ltb_irrefl in H3. Qed.







(** * The sessions of the endpoints *)

(** the listeners' constructors, and the counts they have set since *)
Definition endpoint_metrics (f p ipc_sessions stream_sessions : Z) : res store :=
  '(ipc_slot, s) ← ipc_metrics new_store;
  s ← set_memory_parameters f p s;
  '(stream_slot, s) ← stream_metrics s;
  s ← set_slot ipc_slot (of_long ipc_sessions) s;
  set_slot stream_slot (of_long stream_sessions) s.

(** C27: an administrator that asks for the metrics is shown the number of sessions of both
    endpoints without its own, and the memory of the ipc sessions: the fixed part and a part
    per ipc session, its own left out when it is one. *)
Theorem session_counts_shown `{!DoubleLaws D} f p n m ipc s :
  endpoint_metrics f p n m = Ok s ->
  let own := if (ipc : bool) then 1 else 0 in
  own <= n < 2 ^ 31 -> 0 <= m < 2 ^ 31 -> 0 <= f -> 0 <= p -> f + n * p <= 2 ^ 53 ->
  service true ipc (Some Cmd_show) s =
    (Reply_body [MetricsItem "ipc_buffer_size" "allocated buffer size for all IPC sessions" (Some (V_value (of_long (f + (n - own) * p))));
                 MetricsItem "session_count" "number of active sessions" (Some (V_value (of_long (n + m - 1))))], true).
Proof.
  intros Hs own Hn Hm Hf Hp Hfit.
  assert (Hshow : set_item_value ipc s =
    [MetricsItem "ipc_buffer_size" "allocated buffer size for all IPC sessions" (Some (V_value
       (dadd (of_long f) (dmul (if ipc then dsub (of_long n) (of_long 1) else of_long n) (of_long p)))));
     MetricsItem "session_count" "number of active sessions" (Some (V_value (dsub (dadd (dadd (of_long 0) (of_long n)) (of_long m)) (of_long 1))))]).
  { vm_compute in Hs. injection Hs as <-. vm_compute. reflexivity. }
  unfold service. cbn [negb]. rewrite Hshow. clear Hshow Hs.
  assert (Hq : 0 <= own) by (subst own; by destruct ipc).
  rewrite (dadd_exact 0 n), (dadd_exact (0 + n) m), (dsub_exact (0 + n + m) 1) by (unfold exact; lia).
  replace (if ipc then dsub (of_long n) (of_long 1) else of_long n) with (of_long (D := D) (n - own)).
  - clearbody own.
    pose proof (Z.mul_nonneg_nonneg own p Hq Hp). pose proof (Z.mul_nonneg_nonneg (n - own) p ltac:(lia) Hp).
    assert (Hb : (n - own) * p <= n * p) by lia.
    rewrite dmul_exact, dadd_exact by (unfold exact; lia). done.
  - subst own. destruct ipc; [by rewrite dsub_exact by (unfold exact; lia)|]. by rewrite Z.sub_0_r.
Qed.

Lemma swo_asym l a b : strict_weak_order l = true -> a ∈ l -> b ∈ l -> less a b = true -> less b a = false.
Proof.
  intros Ho Ha Hb Hab. apply not_true_iff_false. intros Hba. destruct (swo_defined l a b Ho Ha Hb) as [_ Hirr].
  unfold strict_weak_order in Ho. rewrite !andb_true_iff, !forallb_forall in Ho. destruct Ho as [_ Ht]. rewrite list_elem_of_In in Ha, Hb.
  specialize (Ht a Ha). rewrite forallb_forall in Ht. specialize (Ht b Hb). rewrite forallb_forall in Ht. specialize (Ht a Ha).
  by rewrite Hab, Hba, Hirr in Ht.
Qed.

(** The comparison of metadata is no order: of two items with the same key and two
    attributes each may be less than the other, and with different numbers of attributes the
    comparison may end the process; registering the second item is then undefined. *)
Theorem metadata_order_broken s sl s' m1 m2 :
  lookup_key (key m1) (metrics_ s) = None -> is_visible m1 = true -> is_visible m2 = true -> key m1 = key m2 ->
  register_item m1 s = Ok (sl, s') ->
  (forall a1 a2 b1 b2, attributes m1 = [a1; a2] -> attributes m2 = [b1; b2] ->
     attribute_less a1 b1 = true -> attribute_less b1 a1 = false -> attribute_less b2 a2 = true ->
     metadata_less m1 m2 = Some true /\ metadata_less m2 m1 = Some true /\ register_item m2 s' = Undefined) /\
  (attributes m1 = [] -> attributes m2 <> [] -> metadata_less m2 m1 = None /\ register_item m2 s' = Undefined).
Proof.
  intros Hl Hv1 Hv2 Hk Hr.
  assert (Hs' : strict_weak_order [m2; m1] = false -> register_item m2 s' = Undefined).
  { intros Ho. unfold register_item in Hr. rewrite Hv1 in Hr. unfold register_item_internal in Hr. rewrite Hl in Hr. cbn [default from_option id map] in Hr.
    destruct (strict_weak_order [m1]); [|done]. cbn [find_item List.find insert_item mbind res_bind] in Hr. injection Hr as <- <-.
    unfold register_item, register_item_internal. rewrite Hv2. cbn [metrics_]. unfold put_key. rewrite Hl, <- Hk.
    replace (lookup_key (key m1) (emplace_key (key m1) [Item m1 (next s) (of_long 0)] (metrics_ s))) with (Some [Item m1 (next s) (of_long 0)]).
    - cbn [default from_option id map md]. by rewrite Ho.
    - clear - Hl. induction (metrics_ s) as [|[k v] l IH]; cbn [emplace_key lookup_key] in *; [by rewrite bool_decide_true|].
      case_bool_decide as Hkk; [done|]. destruct (String.ltb (key m1) k); cbn [lookup_key]; [by rewrite bool_decide_true|].
      rewrite bool_decide_false by done. by apply IH. }
  split.
  - intros a1 a2 b1 b2 Ha Hb H1 H2 H3. assert (Hm1 : metadata_less m1 m2 = Some true) by (rewrite less_same_key, Ha, Hb by done; simpl; by rewrite H1).
    assert (Hm2 : metadata_less m2 m1 = Some true) by (rewrite less_same_key, Ha, Hb by done; simpl; by rewrite H2, H3).
    split_and!; [done..|]. apply Hs', not_true_iff_false. intros Ho. pose proof (swo_asym _ m1 m2 Ho ltac:(set_solver) ltac:(set_solver)) as Hasym.
    unfold less in Hasym. rewrite Hm1, Hm2 in Hasym. by specialize (Hasym eq_refl).
  - intros Ha Hb. assert (Hm : metadata_less m2 m1 = None) by (rewrite less_same_key, Ha by done; by destruct (attributes m2)).
    split; [done|]. apply Hs', not_true_iff_false. intros Ho.
    destruct (swo_defined _ m2 m1 Ho ltac:(set_solver) ltac:(set_solver)) as [Hd _]. congruence.
Qed.

End Store.

(** * Concurrent updates of a session count

    increase() and decrease() of ipc_metrics and stream_metrics: the counter is changed, read
    again, and what was read is stored in the slot.  Workers call decrease() as they end, each
    on its own thread. *)

Inductive updater : Type := Updating (delta : Z) | Loading | Storing (v : Z) | Updated.
Record counter : Type := Counter { session_count : Z; shown : Z; updaters : list updater }.
Definition update_step (i : nat) (c : counter) : counter :=
  match updaters c !! i with
  | Some (Updating d) => Counter (session_count c + d) (shown c) (<[i := Loading]> (updaters c))
  | Some Loading => Counter (session_count c) (shown c) (<[i := Storing (session_count c)]> (updaters c))
  | Some (Storing v) => Counter (session_count c) v (<[i := Updated]> (updaters c))
  | _ => c
  end.
Definition update_run (sched : list nat) (c : counter) : counter := foldl (fun c i => update_step i c) c sched.
Definition one_by_one (n : nat) : list nat := concat (map (fun i => [i; i; i]) (seq 0 n)).

Lemma update_one d us n c v : us !! n = Some (Updating d) ->
  update_run [n; n; n] (Counter c v us) = Counter (c + d) (c + d) (<[n := Updated]> us).
Proof.
  intros Hn. assert (Hlt : (n < length us)%nat) by by eapply lookup_lt_Some.
  unfold update_run, update_step. cbn [foldl updaters session_count shown]. rewrite Hn. cbn [updaters session_count shown].
  rewrite list_lookup_insert_eq by done. cbn [updaters session_count shown]. rewrite list_insert_insert_eq.
  rewrite list_lookup_insert_eq by done. cbn [updaters session_count shown]. by rewrite list_insert_insert_eq.
Qed.

(** The slot shows the count when the sessions end one after the other; but when two end at
    the same time it may show one session more than there are, for as long as none begins or
    ends. *)
Theorem session_count_race c :
  (forall ds, update_run (one_by_one (length ds)) (Counter c c (map Updating ds)) =
     Counter (c + foldr Z.add 0 ds) (c + foldr Z.add 0 ds) (replicate (length ds) Updated)) /\
  exists sched, update_run sched (Counter c c [Updating (-1); Updating (-1)]) = Counter (c - 2) (c - 1) [Updated; Updated].
Proof.
  split.
  - intros ds. assert (Hgen : forall done ds c, update_run (concat (map (fun i => [i; i; i]) (seq (length done) (length ds)))) (Counter c c (done ++ map Updating ds)) =
      Counter (c + foldr Z.add 0 ds) (c + foldr Z.add 0 ds) (done ++ replicate (length ds) Updated)).
    { clear. intros dn ds. revert dn. induction ds as [|d ds IH]; intros dn c; [by cbn; rewrite Z.add_0_r|].
      cbn [length seq map concat]. unfold update_run. rewrite foldl_app. fold (update_run [length dn; length dn; length dn] (Counter c c (dn ++ Updating d :: map Updating ds))).
      rewrite (update_one d) by (rewrite lookup_app_r by lia; by rewrite Nat.sub_diag).
      rewrite insert_app_r_alt, Nat.sub_diag by lia. cbn [list_insert insert]. 
      specialize (IH (dn ++ [Updated]) (c + d)). rewrite length_app in IH. cbn [length] in IH. rewrite Nat.add_1_r in IH.
      rewrite <- !app_assoc in IH. cbn [app] in IH. unfold update_run in IH. rewrite IH. cbn [foldr replicate]. f_equal; lia. }
    exact (Hgen [] ds c).
  - exists [0; 0; 1; 1; 1; 0]%nat. unfold update_run, update_step. cbn. f_equal; lia.
Qed.

(** * Examples *)

Module MetricsDemo.

#[local] Instance Z_double : Double Z := {| of_long := fun x => x; dadd := Z.add; dsub := Z.sub; dmul := Z.mul |}.
#[local] Instance Z_double_laws : DoubleLaws Z.
Proof. split; reflexivity. Qed.



Definition counted : store := match endpoint_metrics 4096 1000 3 2 with Ok s => s | _ => new_store end.
Lemma session_counts_shown_witness :
  service true true (Some Cmd_show) counted =
    (Reply_body [MetricsItem "ipc_buffer_size" "allocated buffer size for all IPC sessions" (Some (V_value 6096));
                 MetricsItem "session_count" "number of active sessions" (Some (V_value 4))], true).
Proof.
  etransitivity; [apply (session_counts_shown 4096 1000 3 2 true counted); [vm_compute; reflexivity|lia..]|vm_compute; reflexivity].
Defined.

Definition index (table_name name : string) : metadata :=
  Metadata "index_size" "size of each index" [("table", table_name); ("index", name)] [] true.
Definition one_index : store := match register_item (index "A" "Y") new_store with Ok (_, s) => s | _ => new_store end.
Lemma metadata_order_broken_witness :
  metadata_less (index "A" "Y") (index "B" "X") = Some true /\ register_item (index "B" "X") one_index = Undefined.
Proof.
  destruct (metadata_order_broken new_store 0 one_index (index "A" "Y") (index "B" "X")) as [H _]; try (vm_compute; reflexivity).
  destruct (H ("table", "A") ("index", "Y") ("table", "B") ("index", "X")) as (H1 & _ & H2); try (vm_compute; reflexivity). by split.
Defined.

End MetricsDemo.
