(* ===== verification/DataStore.v ===== *)
(** The components over the log store (the limestone library): the data-store resource and its
    service (src/tateyama/datastore), the service that hands out the files of blobs
    (src/tateyama/blob_relay_privilege/service), and the key-value store resource
    (framework/transactional_kvs_resource.cpp, over the sharksfin library).

    The libraries are parameters: classes of operations on a state [W].  Events for the
    altimeter logger are left out. *)
From stdpp Require Import gmap.
From S2P Require Import Prelude Text Configuration Authentication.

(** * What a service does with a response *)

Inductive answer (B : Type) : Type :=
| Set_session_id (i : Z)
| Body (b : B)
| Error (c : code) (message : string).
Arguments Set_session_id {B} _.
Arguments Body {B} _.
Arguments Error {B} _ _.
(** the answers that end a response *)
Definition final {B} (a : answer B) : bool := match a with Set_session_id _ => false | _ => true end.
Definition finals {B} (l : list (answer B)) : list (answer B) := List.filter final l.

(** * limestone *)

Inductive status : Type := ok | err_not_found | err_permission_error | err_broken_data | other_status.
Record detail_entry : Type := DetailEntry { source_path : string; destination_path : string; is_mutable : bool; is_detached : bool }.
Record detail : Type := Detail { log_start : Z; log_finish : Z; image_finish : option Z; entries : list detail_entry }.
Record file_set_entry : Type := FileSetEntry { fs_source : string; fs_destination : string; fs_detached : bool }.

(** backups are numbered; [status_zero] is the value of [limestone::status rc{}] *)
Class Limestone (W : Type) : Type := {
  open_datastore : string -> Z -> string -> option W;
  begin_backup : W -> res (nat * list string * W);
  begin_backup_detail : bool -> W -> res (nat * detail * W);
  notify_end_backup : nat -> W -> res W;
  restore_directory : string -> bool -> W -> res (status * W);
  restore_entries : string -> list file_set_entry -> W -> res (status * W);
  generate_reference_tag : Z -> Z -> W -> res Z;
  get_blob_file : Z -> W -> res string;
  status_zero : status
}.

(** * The resource *)

Module DataStoreResource.
Section Resource.
Context {W : Type} `{Limestone W}.
(** conversions and paths, as in Configuration *)
Context (to_int : string -> option Z) (is_absolute : string -> bool) (append_path : string -> string -> string).

(** location, number of recovery threads, instance id *)
Record t : Type := Resource { config_ : option (string * Z * string); datastore_ : option W; deactivated_ : bool }.
Definition create : t := Resource None None false.

(** [instance_id]: of the configuration provider, when there is one; an exception is caught *)
Definition extract_config (instance_id : option string) (w : whole) : option (string * Z * string) * bool :=
  let read : res (option (string * Z)) :=
    match get_section "datastore" w with
    | None => Ok (Some ("", 0))
    | Some ds =>
        location ← get_path is_absolute append_path "log_location" ds w;
        if bool_decide (location = Some "") then Ok None
        else
          par ← Configuration.get to_int "recover_max_parallelism" ds w;
          Ok (Some (default "" location, match par with Some sz => if 0 <? sz then sz else 0 | None => 0 end))
    end in
  match read with
  | Ok (Some (location, par)) => (Some (location, par, default "" instance_id), bool_decide (is_Some instance_id))
  | _ => (None, false)
  end.
Definition setup (instance_id : option string) (w : whole) (r : t) : bool * t :=
  let '(c, success) := extract_config instance_id w in
  (success, Resource (match c with Some _ => c | None => config_ r end) (datastore_ r) (deactivated_ r)).
Definition start (r : t) : bool * t :=
  let '(location, par, id) := default ("", 0, "") (config_ r) in
  match open_datastore location par id with
  | Some w => (true, Resource (config_ r) (Some w) (deactivated_ r))
  | None => (false, r)
  end.
Definition shutdown (r : t) : t := Resource (config_ r) None true.
Definition end_backup (w : W) : W := w.
End Resource.
End DataStoreResource.

(** * The service *)

Module DataStoreService.
Section Service.
Context {W : Type} `{Limestone W}.

Definition SERVICE_MESSAGE_VERSION_MAJOR : Z := 0.
Definition SERVICE_MESSAGE_VERSION_MINOR : Z := 0.
Definition this_request_does_not_use_session_id : Z := 2 ^ 64 - 2.

Inductive restore_source : Type := kBackupDirectory (dir : string) | kTagName (tag : string) | kEntries (dir : string) (l : list file_set_entry) | SOURCE_NOT_SET.
Inductive command : Type :=
| kBackupBegin
| kBackupDetailBegin (standard : bool)
| kBackupEnd (id : Z)
| kBackupEstimate
| kRestoreBegin (source : restore_source) (keep_backup : bool)
| kTagList | kTagAdd | kTagGet | kTagRemove | kRestoreStatus | kRestoreCancel | kRestoreDispose
| COMMAND_NOT_SET.
Record request : Type := Request { version_major : Z; version_minor : Z; req_command : command }.

Inductive body : Type :=
| B_begin (id : Z) (files : list string)
| B_begin_detail (id log_begin log_end : Z) (image_finish : option Z) (files : list detail_entry)
| B_end
| B_estimate (files bytes : Z)
| B_restore (s : status).

Record core : Type := Core { backup_ : option nat; backup_id_ : Z; backup_detail_ : option nat }.
Definition new_core : core := Core None 0 None.

Definition end_one (b : option nat) (w : W) : res W := match b with Some n => notify_end_backup n w | None => Ok w end.

(** the state of the core also after an exception of the library: the counter of backups is
    increased before it is called, and the end of a backup is recorded after that *)
Definition run_command (sid : Z) (cmd : command) (c : core) (w : W) : core * res (list (answer body) * W) :=
  match cmd with
  | kBackupBegin =>
      let id := u64 (backup_id_ c + 1) in
      match begin_backup w with
      | Ok (n, files, w) => (Core (Some n) id (backup_detail_ c), Ok ([Set_session_id sid; Body (B_begin id files)], w))
      | Throw e => (Core (backup_ c) id (backup_detail_ c), Throw e)
      | Undefined => (c, Undefined)
      end
  | kBackupDetailBegin standard =>
      match begin_backup_detail standard w with
      | Ok (n, d, w) =>
          (Core (backup_ c) (backup_id_ c) (Some n),
           Ok ([Set_session_id sid; Body (B_begin_detail (backup_id_ c) (log_start d) (log_finish d) (image_finish d) (entries d))], w))
      | Throw e => (c, Throw e)
      | Undefined => (c, Undefined)
      end
  | kBackupEnd _ =>
      let w := DataStoreResource.end_backup w in
      match backup_ c, backup_detail_ c with
      | None, None => (c, Ok ([], w))
      | b, d =>
          match (w ← end_one b w; end_one d w) with
          | Ok w => (Core None (backup_id_ c) None, Ok ([Set_session_id sid; Body B_end], w))
          | Throw e => (c, Throw e)
          | Undefined => (c, Undefined)
          end
      end
  | kBackupEstimate => (c, Ok ([Set_session_id this_request_does_not_use_session_id; Body (B_estimate 123 456)], w))
  | kRestoreBegin source keep =>
      (c, '(rc, w) ← match source with
                     | kBackupDirectory dir => restore_directory dir keep w
                     | kTagName _ => Ok (status_zero, w)
                     | kEntries dir l => restore_entries dir l w
                     | SOURCE_NOT_SET => Ok (status_zero, w)
                     end;
          Ok ([Set_session_id this_request_does_not_use_session_id; Body (B_restore rc)], w))
  | kTagList | kTagAdd | kTagGet | kTagRemove | kRestoreStatus | kRestoreCancel | kRestoreDispose | COMMAND_NOT_SET => (c, Ok ([], w))
  end.

Definition unsupported (r : request) : bool :=
  (SERVICE_MESSAGE_VERSION_MAJOR <? version_major r) ||
  ((version_major r =? SERVICE_MESSAGE_VERSION_MAJOR) && (SERVICE_MESSAGE_VERSION_MINOR <? version_minor r)).

(** [rq]: the parsed request; the answers, and whether the service returned true *)
Definition service (administrator : bool) (sid : Z) (rq : option request) (c : core) (w : W) : core * res (list (answer body) * bool * W) :=
  if negb administrator then (c, Ok ([Error PERMISSION_ERROR "administrator privilege is required"], false, w))
  else match rq with
       | None => (c, Ok ([], false, w))
       | Some r =>
           if unsupported r then (c, Ok ([Error INVALID_REQUEST "unsupported message version"], false, w))
           else let '(c, o) := run_command sid (req_command r) c w in
                (c, '(a, w) ← o; Ok (a, true, w))
       end.

(** the commands whose handler answers *)
Definition answers (cmd : command) (c : core) : bool :=
  match cmd with
  | kBackupBegin | kBackupDetailBegin _ | kBackupEstimate | kRestoreBegin _ _ => true
  | kBackupEnd _ => bool_decide (is_Some (backup_ c)) || bool_decide (is_Some (backup_detail_ c))
  | _ => false
  end.

(** A request of an administrator in a supported version is answered with exactly one final
    message when its command is one of beginning, estimating and restoring a backup, or the
    ending of a backup that was begun.  For ending a backup that was not begun, and for every
    other command, nothing is answered at all, although the service reports success. *)
Theorem datastore_answers sid r c w c' a b w' :
  service true sid (Some r) c w = (c', Ok (a, b, w')) ->
  (length (finals a) = if unsupported r || answers (req_command r) c then 1 else 0)%nat /\ b = negb (unsupported r) /\
  (answers (req_command r) c = false -> c' = c /\ w' = w).
Proof.
  unfold service. cbn [negb]. destruct (unsupported r) eqn:Hu; [intros [= <- <- <- <-]; done|]. cbn [orb negb].
  destruct (run_command sid (req_command r) c w) as [c1 o] eqn:Hr. destruct o as [[a1 w1]| |]; cbn [mbind res_bind]; [|done..].
  intros [= <- <- <- <-]. destruct (req_command r) as [|st|id| |src keep| | | | | | | |]; cbn [run_command answers] in *; try by injection Hr as <- <- <-.
  - destruct (begin_backup w) as [[[n files] w2]| |]; [|done..]. by injection Hr as <- <- <-.
  - destruct (begin_backup_detail st w) as [[[n d] w2]| |]; [|done..]. by injection Hr as <- <- <-.
  - unfold DataStoreResource.end_backup in Hr. destruct (backup_ c) as [n|], (backup_detail_ c) as [m|]; cbn [bool_decide orb] in *;
      try (by injection Hr as <- <- <-); destruct (w2 ← end_one _ w; end_one _ w2) as [w3| |]; try done; by injection Hr as <- <- <-.
  - destruct (match src with kBackupDirectory _ => _ | _ => _ end) as [[rc w2]| |]; cbn [mbind res_bind] in Hr; [|done..]. by injection Hr as <- <- <-.
Qed.

(** a second beginning replaces the backup of the first, which is not ended *)
Lemma backup_replaced sid id c w c1 a1 w1 c2 a2 w2 c3 a3 w3 :
  backup_detail_ c = None ->
  run_command sid kBackupBegin c w = (c1, Ok (a1, w1)) -> run_command sid kBackupBegin c1 w1 = (c2, Ok (a2, w2)) ->
  run_command sid (kBackupEnd id) c2 w2 = (c3, Ok (a3, w3)) ->
  exists n files, begin_backup w1 = Ok (n, files, w2) /\ notify_end_backup n w2 = Ok w3 /\ backup_ c3 = None.
Proof.
  intros Hd. cbn [run_command]. destruct (begin_backup w) as [[[n f] v]| |]; [|done..]. intros [= <- <- <-].
  destruct (begin_backup v) as [[[n2 f2] v2]| |] eqn:Hb; [|done..]. intros [= <- <- <-]. cbn [backup_ backup_detail_]. rewrite Hd.
  cbn [end_one mbind res_bind]. destruct (notify_end_backup n2 (DataStoreResource.end_backup v2)) as [v3| |] eqn:He; cbn [mbind res_bind]; [|done..].
  intros [= <- <- <-]. exists n2, f2. done.
Qed.

(** restoring from a tag, or from nothing, does nothing and reports the value-initialised status *)
Lemma restore_not_done sid src keep c w :
  (match src with kTagName _ | SOURCE_NOT_SET => True | _ => False end) ->
  run_command sid (kRestoreBegin src keep) c w =
    (c, Ok ([Set_session_id this_request_does_not_use_session_id; Body (B_restore status_zero)], w)).
Proof. by destruct src. Qed.
End Service.
End DataStoreService.

(** * The service that hands out the files of blobs *)

Module BlobRelayPrivilege.
Section Privilege.
Context {W : Type} `{Limestone W}.
Context (iequals : string -> string -> bool).

Definition LIMESTONE_BLOB_STORE : Z := 1.
Record core : Type := Core { activated_ : bool; datastore_resource_ : bool }.

(** an exception of the configuration leaves the constructor *)
Definition create (w : option whole) : res core :=
  match w ≫= fun w => (fun s => (w, s)) <$> get_section "ipc_endpoint" w with
  | None => Ok (Core false false)
  | Some (w, s) => b ← get_bool iequals "allow_blob_privileged" s w; Ok (Core (default false b) false)
  end.
(** [found]: whether there is a data-store resource *)
Definition start (found : bool) (c : core) : bool * core := if found then (true, Core (activated_ c) true) else (false, Core false false).

Inductive command : Type := kGetBlob (transaction storage_id object_id tag : Z) | COMMAND_NOT_SET.
Inductive body : Type := B_path (path : string) | B_error (c : code) (message : string).

Definition handle (cmd : command) (c : core) (w : W) : res (list (answer body) * bool) :=
  match cmd with
  | kGetBlob tid storage_id object_id tag =>
      if negb (storage_id =? LIMESTONE_BLOB_STORE) then Ok ([Body (B_error INVALID_REQUEST "storage_id must be LIMESTONE_BLOB_STORE")], false)
      else if negb (datastore_resource_ c) then Undefined
      else
        ctag ← generate_reference_tag object_id tid w;
        if negb (tag =? ctag) then Ok ([Body (B_error PERMISSION_ERROR "tag mismatch")], false)
        else path ← get_blob_file object_id w; Ok ([Body (B_path path)], true)
  | COMMAND_NOT_SET => Ok ([Error INVALID_REQUEST "no valid command"], false)
  end.
(** only [std::runtime_error] is caught *)
Definition service (rq : option command) (c : core) (w : W) : res (list (answer body) * bool) :=
  if negb (activated_ c) then Ok ([Error SERVICE_UNAVAILABLE "ipc_endpoint.allow_blob_privileged in the configuration is false"], false)
  else match rq with
       | None => Ok ([Error SYSTEM_ERROR "request parse error"], false)
       | Some cmd =>
           try_catch (handle cmd c w) (fun e =>
             match e with runtime_error what => Ok ([Error PERMISSION_ERROR what], false) | e => Throw e end)
       end.

(** *** The component: its core is made only when the configuration allows privileged access

    [None] for the configuration is a null pointer, which [setup] dereferences *)
Definition component : Type := option core.
Definition component_setup (w : option whole) : res component :=
  match w with
  | None => Undefined
  | Some wh =>
      match get_section "ipc_endpoint" wh with
      | None => Ok None
      | Some s =>
          allow ← get_bool iequals "allow_blob_privileged" s wh;
          if default false allow then c ← create w; Ok (Some c) else Ok None
      end
  end.
Definition component_start (found : bool) (k : component) : bool * component :=
  match k with Some c => let '(b, c) := start found c in (b, Some c) | None => (true, None) end.
Definition component_call (rq : option command) (k : component) (w : W) : res (list (answer body) * bool) :=
  match k with Some c => service rq c w | None => Ok ([], false) end.

Definition allowed (conf : option whole) : Prop :=
  exists wh s, conf = Some wh /\ get_section "ipc_endpoint" wh = Some s /\ get_bool iequals "allow_blob_privileged" s wh = Ok (Some true).

Lemma setup_allowed conf k : component_setup conf = Ok k ->
  (allowed conf /\ k = Some (Core true false)) \/ (~ allowed conf /\ k = None).
Proof.
  unfold component_setup, allowed. destruct conf as [wh|]; [|done]. destruct (get_section "ipc_endpoint" wh) as [s|] eqn:Hs.
  - destruct (get_bool iequals "allow_blob_privileged" s wh) as [o| |] eqn:Hg; cbn [mbind res_bind]; try done.
    destruct o as [[]|]; cbn [default]; intros E.
    + left. unfold create in E. cbn in E. rewrite Hs in E. cbn in E. rewrite Hg in E. cbn in E. injection E as <-. split; [by exists wh, s|done].
    + right. injection E as <-. split; [|done]. intros (wh' & s' & [= <-] & Hs' & Hg'). congruence.
    + right. injection E as <-. split; [|done]. intros (wh' & s' & [= <-] & Hs' & Hg'). congruence.
  - intros [= <-]. right. split; [|done]. intros (wh' & s' & [= <-] & Hs' & Hg'). congruence.
Qed.

(** a core that was started *)
Lemma service_privileged found rq w a b :
  service rq (snd (start found (Core true false))) w = Ok (a, b) ->
  exists x, a = [x] /\ final x = true /\
    match x with
    | Body (B_path path) =>
        b = true /\ found = true /\
        exists tid object_id tag, rq = Some (kGetBlob tid LIMESTONE_BLOB_STORE object_id tag) /\
          generate_reference_tag object_id tid w = Ok tag /\ get_blob_file object_id w = Ok path
    | _ => b = false
    end.
Proof.
  unfold service, start. destruct found; cbn [snd activated_ negb]; intros Hv; [|injection Hv as <- <-; by eexists].
  destruct rq as [cmd|]; [|injection Hv as <- <-; by eexists].
  destruct (handle cmd _ w) as [[a1 b1]|e|] eqn:Hh; cbn [try_catch] in Hv; [|destruct e; try done; injection Hv as <- <-; by eexists|done].
  injection Hv as <- <-. destruct cmd as [tid st obj tag|]; cbn [handle] in Hh; [|injection Hh as <- <-; by eexists].
  destruct (Z.eqb_spec st LIMESTONE_BLOB_STORE) as [->|]; cbn [negb] in Hh; [|injection Hh as <- <-; by eexists].
  cbn [datastore_resource_ negb] in Hh.
  destruct (generate_reference_tag obj tid w) as [ct| |] eqn:Hg; cbn [mbind res_bind] in Hh; [|done..].
  destruct (Z.eqb_spec tag ct) as [->|]; cbn [negb] in Hh; [|injection Hh as <- <-; by eexists].
  destruct (get_blob_file obj w) as [path| |] eqn:Hf; cbn [mbind res_bind] in Hh; [|done..]. injection Hh as <- <-.
  exists (Body (B_path path)). split_and!; try done. by exists tid, obj, ct.
Qed.

(** C18: the component, set up and started, tells the path of the file of a blob only when the
    configuration allows privileged access and there is a data store, and only to a request
    whose tag is the one the store generates for this blob and this transaction.  When the
    configuration allows privileged access, every call that returns has answered with exactly
    one message, an error unless the path was told; when it does not, the component answers
    nothing at all and returns false. *)
Theorem blob_path_privileged conf k0 found started k rq w a b :
  component_setup conf = Ok k0 -> component_start found k0 = (started, k) -> component_call rq k w = Ok (a, b) ->
  (~ allowed conf /\ a = [] /\ b = false) \/
  (allowed conf /\ exists x, a = [x] /\ final x = true /\
     match x with
     | Body (B_path path) =>
         b = true /\ found = true /\
         exists tid object_id tag, rq = Some (kGetBlob tid LIMESTONE_BLOB_STORE object_id tag) /\
           generate_reference_tag object_id tid w = Ok tag /\ get_blob_file object_id w = Ok path
     | _ => b = false
     end).
Proof.
  intros Hc Hs Hv. destruct (setup_allowed conf k0 Hc) as [[Ha ->]|[Ha ->]].
  - right. split; [done|]. apply service_privileged. cbn in Hs. destruct (start found (Core true false)) as [b0 c] eqn:Es.
    injection Hs as <- <-. exact Hv.
  - left. injection Hs as <- <-. by injection Hv as <- <-.
Qed.
End Privilege.
End BlobRelayPrivilege.

(** * The key-value store resource *)

Module TransactionalKvs.
Section Kvs.
(** [database_open]: the handle, unless it fails; [maintenance]: whether the server was booted
    for maintenance *)
Context (database_open : gmap string string -> option nat).
Context (to_size : string -> option Z) (iequals : string -> string -> bool) (is_absolute : string -> bool) (append_path : string -> string -> string).

Record t : Type := Kvs { options_ : gmap string string; database_handle_ : nat; db_opened_ : bool }.
Definition create : t := Kvs ∅ 0 false.

(** an attribute of a positive number *)
Definition size_attribute (name key : string) (s : section) (w : whole) (o : gmap string string) : res (gmap string string) :=
  v ← Configuration.get to_size name s w;
  Ok (match v with Some sz => if 0 <? sz then <[key := Text.to_string sz]> o else o | None => o end).

(** the options as far as they were set, and the result; an exception is caught *)
Definition datastore_options (w : whole) (o : gmap string string) : res (gmap string string * bool) :=
  match get_section "datastore" w with
  | None => Ok (o, true)
  | Some ds =>
      location ← get_path is_absolute append_path "log_location" ds w;
      match location with
      | None => Ok (o, true)
      | Some "" => Ok (o, false)
      | Some l => Ok (<["location" := l]> o, true)
      end
  end.
Definition cc_options (w : whole) (o : gmap string string) : res (gmap string string) :=
  match get_section "cc" w with
  | None => Ok o
  | Some cc =>
      o ← size_attribute "epoch_duration" "epoch_duration" cc w o;
      o ← size_attribute "waiting_resolver_threads" "waiting_resolver_threads" cc w o;
      o ← size_attribute "index_restore_threads" "index_restore_threads" cc w o;
      b ← get_bool iequals "dev_iterator_based_scan" cc w;
      Ok (match b with Some b => <["iterator_based_scan" := if (b : bool) then "true" else "false"]> o | None => o end)
  end.
Definition extract_config (maintenance : bool) (w : whole) (o : gmap string string) : option (gmap string string) :=
  if maintenance then Some o
  else match datastore_options w o with
       | Ok (o, true) => match cc_options w o with Ok o => Some o | _ => None end
       | _ => None
       end.
(** after a failure the server does not start, and the options are not used *)
Definition setup (maintenance : bool) (w : whole) (k : t) : bool * t :=
  match extract_config maintenance w (options_ k) with
  | Some o => (true, Kvs o (database_handle_ k) (db_opened_ k))
  | None => (false, k)
  end.

Inductive call : Type := Open (handle : nat) | Close (handle : nat) | Dispose (handle : nat).
(** [datastore]: whether the data-store resource is there and has started *)
Definition start (maintenance datastore : bool) (k : t) : bool * t * list call :=
  if maintenance then (true, k, [])
  else if negb datastore then (false, k, [])
  else match database_open (options_ k) with
       | Some h => (true, Kvs (options_ k) h true, [Open h])
       | None => (false, k, [])
       end.
Definition shutdown (k : t) : t * list call :=
  if negb (db_opened_ k) then (k, [])
  else (Kvs (options_ k) (database_handle_ k) false, [Close (database_handle_ k); Dispose (database_handle_ k)]).

(** whatever the order of the calls, the handle that is closed and disposed of is the one
    opened last, and only when it is open *)
Inductive event : Type := Ev_start (maintenance datastore : bool) | Ev_shutdown.
Definition step (e : event) (s : t * list call) : t * list call :=
  match e with
  | Ev_start m d => let '(_, k, l) := start m d s.1 in (k, s.2 ++ l)
  | Ev_shutdown => let '(k, l) := shutdown s.1 in (k, s.2 ++ l)
  end.
Definition opens (l : list call) : list nat := omap (fun c => match c with Open h => Some h | _ => None end) l.
Lemma shutdown_closes evs k : db_opened_ k = false ->
  let '(k', l) := foldl (fun s e => step e s) (k, []) (evs ++ [Ev_shutdown]) in
  db_opened_ k' = false /\ (opens l <> [] -> exists h l', last (opens l) = Some h /\ l = l' ++ [Close h; Dispose h]).
Proof.
  intros Hk. rewrite foldl_app. cbn [foldl].
  assert (Hinv : forall evs, let '(k', l) := foldl (fun s e => step e s) (k, []) evs in
    if db_opened_ k' then last (opens l) = Some (database_handle_ k')
    else opens l = [] \/ exists h l', last (opens l) = Some h /\ l = l' ++ [Close h; Dispose h]).
  { clear evs. intros evs. induction evs as [|e evs IH] using rev_ind; [cbn [foldl]; rewrite Hk; by left|]. rewrite foldl_app. cbn [foldl].
    destruct (foldl _ (k, []) evs) as [k1 l]. destruct e as [m d|]; cbn [step fst snd].
    - unfold start. destruct m; [by rewrite app_nil_r|]. destruct d; cbn [negb]; [|by rewrite app_nil_r].
      destruct (database_open (options_ k1)) as [h|]; [|by rewrite app_nil_r]. cbn [db_opened_ database_handle_]. unfold opens. rewrite omap_app. cbn [omap list_omap].
      by rewrite last_snoc.
    - unfold shutdown. destruct (db_opened_ k1) eqn:Ho; cbn [negb]; [|by rewrite Ho, app_nil_r]. cbn [db_opened_].
      right. exists (database_handle_ k1), l. split; [|done]. unfold opens. rewrite omap_app. cbn [omap list_omap]. by rewrite app_nil_r. }
  specialize (Hinv (evs ++ [Ev_shutdown])). rewrite foldl_app in Hinv. cbn [foldl] in Hinv. destruct (foldl _ (k, []) evs) as [k1 l]. cbn [step fst snd] in *.
  unfold shutdown in *. destruct (db_opened_ k1) eqn:Ho; cbn [negb db_opened_] in *; (split; [done|]).
  - intros Hne. by destruct Hinv.
  - rewrite Ho in Hinv. intros Hne. by destruct Hinv.
Qed.
End Kvs.
End TransactionalKvs.

(** * Examples *)

Module DataStoreDemo.

(** a store that records what is done to it *)
Inductive event : Type := Begun (n : nat) | Ended (n : nat) | Restored (dir : string).
#[local] Instance list_limestone : Limestone (list event) := {|
  open_datastore := fun _ _ _ => Some [];
  begin_backup := fun w => Ok (length w, ["log"], w ++ [Begun (length w)]);
  begin_backup_detail := fun _ w => Ok (length w, Detail 1 2 None [], w ++ [Begun (length w)]);
  notify_end_backup := fun n w => Ok (w ++ [Ended n]);
  restore_directory := fun dir _ w => Ok (ok, w ++ [Restored dir]);
  restore_entries := fun dir _ w => Ok (ok, w ++ [Restored dir]);
  generate_reference_tag := fun o t _ => Ok (o + t);
  get_blob_file := fun o _ => Ok ("/blob/" +:+ Text.to_string o);
  status_zero := ok
|}.

Lemma datastore_answers_witness :
  let r := DataStoreService.Request 0 0 (DataStoreService.kBackupEnd 1) in
  exists a, DataStoreService.service true 5 (Some r) DataStoreService.new_core [] = (DataStoreService.new_core, Ok (a, true, [])) /\ length (finals a) = 0%nat.
Proof.
  cbn zeta. eexists. split; [reflexivity|].
  apply (DataStoreService.datastore_answers 5 (DataStoreService.Request 0 0 (DataStoreService.kBackupEnd 1)) DataStoreService.new_core [] DataStoreService.new_core _ true []).
  reflexivity.
Defined.

(** a configuration that allows privileged access *)
Definition conf : whole :=
  match from_stream (fun str => if bool_decide (str = "ini") then Some [("ipc_endpoint", [("allow_blob_privileged", "true")])] else None) "ini" "ini" with Ok w => w | _ => Whole [] [] false false false None [] end.
Definition iequals (a b : string) : bool := bool_decide (a = b).
Definition privilege : BlobRelayPrivilege.component := Some (BlobRelayPrivilege.Core true true).
Lemma blob_path_privileged_witness :
  exists a, BlobRelayPrivilege.component_call (Some (BlobRelayPrivilege.kGetBlob 3 1 4 7)) privilege ([] : list event) = Ok (a, true) /\ length a = 1%nat.
Proof.
  eexists. split; [vm_compute; reflexivity|].
  destruct (BlobRelayPrivilege.blob_path_privileged iequals (Some conf) (Some (BlobRelayPrivilege.Core true false)) true true privilege
    (Some (BlobRelayPrivilege.kGetBlob 3 1 4 7)) ([] : list event) [Body (BlobRelayPrivilege.B_path "/blob/4")] true)
    as [(_ & E & _)|(_ & x & E & _)]; [vm_compute; reflexivity|reflexivity|vm_compute; reflexivity|discriminate E|].
  rewrite E. reflexivity.
Defined.

End DataStoreDemo.
