(* ===== verification/Services.v ===== *)
(** The smaller services of the server: altimeter settings (src/tateyama/altimeter/service),
    system information (src/tateyama/system/service), authentication
    (src/tateyama/authentication/service) and debugging (src/tateyama/debug/service.cpp).

    A service gets the parsed request and returns what it does with the response; what it does
    besides is a list of calls. *)
From S2P Require Import Prelude Authentication DataStore.

(** conversion of an unsigned number to a signed type of [w] bits *)
Definition to_signed (w x : Z) : Z := let y := wrap w x in if y <? 2 ^ (w - 1) then y else y - 2 ^ w.

(** * Altimeter *)

Module AltimeterService.

Record log_settings : Type := LogSettings { enabled : option bool; level : option Z; statement_duration : option Z }.
Inductive category : Type := EVENT | AUDIT | OTHER_CATEGORY.
Inductive command : Type := kConfigure (event_log audit_log : option log_settings) | kLogRotate (c : category) | COMMAND_NOT_SET.
Inductive body : Type := B_configured | B_rotated | B_error (message : string).

(** the calls of the altimeter library, by way of altimeter_helper_direct *)
Inductive call : Type :=
| Set_enabled (type : string) (v : bool)
| Set_level (type : string) (v : Z)
| Set_stmt_duration_threshold (v : Z)
| Rotate_all (type : string).

Definition opt {A} (f : A -> call) (o : option A) : list call := match o with Some a => [f a] | None => [] end.
Definition set_event (s : log_settings) : list call :=
  opt (Set_enabled "event") (enabled s) ++ opt (fun v => Set_level "event" (to_signed 32 v)) (level s) ++
  opt (fun v => Set_stmt_duration_threshold (to_signed 64 v)) (statement_duration s).
Definition set_audit (s : log_settings) : list call :=
  opt (Set_enabled "audit") (enabled s) ++ opt (fun v => Set_level "audit" (to_signed 32 v)) (level s).

Definition service (administrator : bool) (sid : Z) (rq : option command) : list call * list (answer body) * bool :=
  if negb administrator then ([], [Error PERMISSION_ERROR "administrator privilege is required"], false)
  else match rq with
       | None => ([], [], true)
       | Some (kConfigure event audit) =>
           (match event with Some s => set_event s | None => [] end ++ match audit with Some s => set_audit s | None => [] end,
            [Set_session_id sid; Body B_configured], true)
       | Some (kLogRotate EVENT) => ([Rotate_all "event"], [Set_session_id sid; Body B_rotated], true)
       | Some (kLogRotate AUDIT) => ([Rotate_all "audit"], [Set_session_id sid; Body B_rotated], true)
       | Some (kLogRotate OTHER_CATEGORY) => ([], [Set_session_id sid; Body (B_error "log type for LogRotate is invalid")], true)
       | Some COMMAND_NOT_SET => ([], [Set_session_id sid; Error INVALID_REQUEST "request for altimeter is invalid"], true)
       end.

(** levels keep their value up to 2^31 and are cut to 32 bits beyond that *)
Lemma to_signed_small w x : 0 < w -> 0 <= x < 2 ^ (w - 1) -> to_signed w x = x.
Proof.
  intros Hw Hx. unfold to_signed. assert (2 ^ (w - 1) < 2 ^ w) by (apply Z.pow_lt_mono_r; lia).
  rewrite wrap_small by (unfold in_range; lia). destruct (Z.ltb_spec x (2 ^ (w - 1))); lia.
Qed.
End AltimeterService.

(** * System information *)

Module SystemService.

(** what nlohmann::json makes of the file: its members, when it is a JSON object *)
Inductive json : Type := J_string (s : string) | J_other.
Record info : Type := Info { name_ : string; version_ : string; date_ : string; url_ : string; error_message_ : string; error_ : bool }.
Definition no_info : info := Info "" "" "" "" "" false.

(** one member: converting anything but a string throws *)
Fixpoint member (k : string) (j : list (string * json)) : option json :=
  match j with [] => None | (k', v) :: j => if bool_decide (k = k') then Some v else member k j end.
Definition read_member (k : string) (set : string -> info -> info) (j : list (string * json)) (i : info) : info * bool :=
  match member k j with Some (J_string s) => (set s i, true) | Some J_other => (i, false) | None => (i, true) end.
Definition set_name (s : string) (i : info) : info := Info s (version_ i) (date_ i) (url_ i) (error_message_ i) (error_ i).
Definition set_version (s : string) (i : info) : info := Info (name_ i) s (date_ i) (url_ i) (error_message_ i) (error_ i).
Definition set_date (s : string) (i : info) : info := Info (name_ i) (version_ i) s (url_ i) (error_message_ i) (error_ i).
Definition set_url (s : string) (i : info) : info := Info (name_ i) (version_ i) (date_ i) s (error_message_ i) (error_ i).
Definition set_error (s : string) (i : info) : info := Info (name_ i) (version_ i) (date_ i) (url_ i) s true.

Definition members : list (string * (string -> info -> info)) := [("name", set_name); ("version", set_version); ("date", set_date); ("url", set_url)].
Fixpoint read_members (ms : list (string * (string -> info -> info))) (j : list (string * json)) (i : info) : info * bool :=
  match ms with
  | [] => (i, true)
  | (k, set) :: ms => let '(i, success) := read_member k set j i in if success then read_members ms j i else (i, false)
  end.

(** [file]: [None] when there is no file, [Some None] when it cannot be parsed *)
Definition parse_info (path : string) (file : option (option (list (string * json)))) : info :=
  match file with
  | None => set_error ("cannot find system information file, file name: " +:+ path) no_info
  | Some None => set_error ("broken json, file = " +:+ path) no_info
  | Some (Some j) =>
      let '(i, success) := read_members members j no_info in
      if success then i else set_error ("broken json, file = " +:+ path) i
  end.
(** [append]: joining of paths; [exe]: the directory above that of the executable *)
Definition info_file_path (append : string -> string -> string) (tsurugi_home : option string) (exe : string) : string :=
  append (default exe tsurugi_home) "lib/tsurugi-info.json".

Inductive command : Type := kGetSystemInfo | COMMAND_NOT_SET.
Record request : Type := Request { version_major : Z; version_minor : Z; req_command : command }.
Inductive body : Type := B_info (name version date url : string) | B_not_found (message : string).

Definition unsupported (r : request) : bool := (0 <? version_major r) || ((version_major r =? 0) && (0 <? version_minor r)).
Definition service (i : info) (sid : Z) (rq : option request) : list (answer body) * bool :=
  match rq with
  | None => ([], false)
  | Some r =>
      if unsupported r
      then ([Error INVALID_REQUEST "unsupported message version"], false)
      else match req_command r with
           | kGetSystemInfo =>
               if negb (error_ i) then ([Set_session_id sid; Body (B_info (name_ i) (version_ i) (date_ i) (url_ i))], true)
               else ([Set_session_id sid; Body (B_not_found "cannot find system information")], true)
           | COMMAND_NOT_SET => ([Set_session_id sid], false)
           end
  end.

(** a file whose members are strings is told to every client; any other is reported missing *)
Lemma system_info_told path file sid minor :
  minor <= 0 ->
  fst (service (parse_info path file) sid (Some (Request 0 minor kGetSystemInfo))) =
    [Set_session_id sid;
     Body match file with
          | Some (Some j) =>
              if forallb (fun k => match member k j with Some J_other => false | _ => true end) ["name"; "version"; "date"; "url"]
              then let get k := match member k j with Some (J_string s) => s | _ => "" end in B_info (get "name") (get "version") (get "date") (get "url")
              else B_not_found "cannot find system information"
          | _ => B_not_found "cannot find system information"
          end].
Proof.
  intros Hm. unfold service, unsupported. cbn [version_major version_minor req_command]. replace (0 <? minor) with false by lia. cbn [Z.ltb Z.compare Z.eqb andb orb].
  destruct file as [[j|]|]; [|done..]. unfold parse_info. cbn [members read_members]. unfold read_member. cbn [forallb].
  destruct (member "name" j) as [[?|]|], (member "version" j) as [[?|]|], (member "date" j) as [[?|]|], (member "url" j) as [[?|]|]; done.
Qed.
End SystemService.

(** * Authentication and debugging *)

Module AuthenticationService.
Inductive command : Type := kAuthInfo | COMMAND_NOT_SET.
Inductive body : Type := B_unknown_error.
Definition service (sid : Z) (rq : option command) : list (answer body) * bool :=
  match rq with
  | None => ([], false)
  | Some kAuthInfo => ([Set_session_id sid; Body B_unknown_error], false)
  | Some COMMAND_NOT_SET => ([Set_session_id sid], false)
  end.
End AuthenticationService.

Module DebugService.
Inductive level : Type := NOT_SPECIFIED | INFO | WARN | ERROR | OTHER_LEVEL.
Inductive command : Type := kLogging (l : level) (message : string) | COMMAND_NOT_SET.
Inductive body : Type := B_success | B_unknown_error (message : string).
Inductive severity : Type := LOG_INFO | LOG_WARNING | LOG_ERROR.
(** what is logged and answered, and the result of operator() *)
Definition service (sid : Z) (rq : option command) : list (severity * string) * list (answer body) * res bool :=
  match rq with
  | None => ([], [Set_session_id sid; Body (B_unknown_error "parse error with request body")], Ok false)
  | Some COMMAND_NOT_SET => ([], [Set_session_id sid; Body (B_unknown_error "unknown command_case")], Ok true)
  | Some (kLogging l message) =>
      match l with
      | NOT_SPECIFIED | INFO => ([(LOG_INFO, message)], [Set_session_id sid; Body B_success], Ok true)
      | WARN => ([(LOG_WARNING, message)], [Set_session_id sid; Body B_success], Ok true)
      | ERROR => ([(LOG_ERROR, message)], [Set_session_id sid; Body B_success], Ok true)
      | OTHER_LEVEL => ([], [Set_session_id sid], Throw (other_exception "unknown Logging_Level value"))
      end
  end.
End DebugService.

(** ** Every request is answered, or not, as follows *)

(** The services answer a request at most once, and leave it without an answer exactly when
    it could not be parsed (other than by the debug service), when it has no command (system
    and authentication services) or when debugging is asked to log at an unknown level, which
    is an exception. *)
Lemma services_answer_once administrator sid a s i au d :
  let n {B} (l : list (answer B)) := length (finals l) in
  n (snd (fst (AltimeterService.service administrator sid a))) = (if administrator then match a with None => 0 | Some _ => 1 end else 1)%nat /\
  n (fst (SystemService.service i sid s)) =
    (match s with
     | None => 0
     | Some r => match SystemService.req_command r with
                 | SystemService.kGetSystemInfo => 1
                 | SystemService.COMMAND_NOT_SET => if SystemService.unsupported r then 1 else 0
                 end
     end)%nat /\
  n (fst (AuthenticationService.service sid au)) = (match au with Some AuthenticationService.kAuthInfo => 1 | _ => 0 end)%nat /\
  n (snd (fst (DebugService.service sid d))) = (match snd (DebugService.service sid d) with Ok _ => 1 | _ => 0 end)%nat.
Proof.
  cbn zeta. split_and!.
  - destruct administrator; [|done]. by destruct a as [[? ?|[]|]|].
  - destruct s as [[ma mi []]|]; [..|done]; unfold SystemService.service; cbn [SystemService.req_command];
      destruct (SystemService.unsupported _); try done. by destruct (negb (SystemService.error_ i)).
  - by destruct au as [[]|].
  - by destruct d as [[[]|]|].
Qed.
