(* ===== verification/Loopback.v ===== *)
(** The loopback endpoint (src/tateyama/endpoint/loopback, src/tateyama/loopback), by which a
    process sends requests to its own services, and the store of session data
    (include/tateyama/api/server/session_store.h).

    Writers and channels are shared objects: they live in heaps, and a pointer is the number of
    an object.  The services behind the endpoint are a parameter: what one does with its
    response is a list of operations. *)
From stdpp Require Import gmap.
From S2P Require Import Prelude Authentication.

Module Loopback.

(** * Writers, channels, responses *)

Inductive status : Type := ok | not_found | unknown.
#[global] Instance status_eq_dec : EqDecision status.
Proof. solve_decision. Defined.

Record data_writer : Type := DataWriter { current_data_ : list byte; w_committed : list (list byte) }.
Record data_channel : Type := DataChannel { name_ : string; writers_ : list nat; c_committed : list (list byte) }.
Record response : Type := Response {
  session_id_ : Z;
  body_head_ : list byte;
  body_ : list byte;
  error_rec_ : option (code * string);
  channel_map_ : gmap string nat;
  committed_data_map_ : gmap string (list (list byte))
}.
(** a response with the channels and writers made for it *)
Record t : Type := Loop { rsp : response; channels : gmap nat data_channel; writers : gmap nat data_writer }.
Definition create : t := Loop (Response 0 [] [] None ∅ ∅) ∅ ∅.

Definition with_rsp (f : response -> response) (l : t) : t := Loop (f (rsp l)) (channels l) (writers l).
Definition on_writer (w : nat) (f : data_writer -> data_writer) (l : t) : t := Loop (rsp l) (channels l) (alter f w (writers l)).
Definition on_channel (c : nat) (f : data_channel -> data_channel) (l : t) : t := Loop (rsp l) (alter f c (channels l)) (writers l).

Definition write (data : list byte) (w : data_writer) : data_writer :=
  if 0 <? zlen data then DataWriter (current_data_ w ++ data) (w_committed w) else w.
Definition commit (w : data_writer) : data_writer :=
  if bool_decide (current_data_ w = []) then w else DataWriter [] (w_committed w ++ [current_data_ w]).
Definition writer_release_committed (w : data_writer) : list (list byte) * data_writer := (w_committed w, DataWriter (current_data_ w) []).

(** loopback_data_channel::acquire; [w]: the new writer *)
Definition acquire (w : nat) (c : nat) (l : t) : t :=
  let l := Loop (rsp l) (channels l) (<[w := DataWriter [] []]> (writers l)) in
  on_channel c (fun ch => DataChannel (name_ ch) (writers_ ch ++ [w]) (c_committed ch)) l.
(** the writer is removed where it first occurs *)
Fixpoint remove_first (w : nat) (ws : list nat) : option (list nat) :=
  match ws with [] => None | x :: ws => if (x =? w)%nat then Some ws else (fun r => x :: r) <$> remove_first w ws end.
Definition release (w : nat) (c : nat) (l : t) : status * t :=
  match channels l !! c with
  | None => (not_found, l)
  | Some ch =>
      match remove_first w (writers_ ch), writers l !! w with
      | Some ws, Some wr =>
          let '(data, wr) := writer_release_committed wr in
          (ok, Loop (rsp l) (<[c := DataChannel (name_ ch) ws (c_committed ch ++ data)]> (channels l)) (<[w := wr]> (writers l)))
      | _, _ => (not_found, l)
      end
  end.

(** loopback_response *)
Definition UINT8_MAX : Z := 255.
Definition set_channels (m : gmap string nat) (r : response) : response :=
  Response (session_id_ r) (body_head_ r) (body_ r) (error_rec_ r) m (committed_data_map_ r).
Definition set_committed (m : gmap string (list (list byte))) (r : response) : response :=
  Response (session_id_ r) (body_head_ r) (body_ r) (error_rec_ r) (channel_map_ r) m.
Definition acquire_channel (name : string) (c : nat) (max_writer_count : Z) (l : t) : status * t :=
  if UINT8_MAX + 1 <? max_writer_count then (unknown, l)
  else match channel_map_ (rsp l) !! name with
       | Some _ => (not_found, l)
       | None => (ok, Loop (set_channels (<[name := c]> (channel_map_ (rsp l))) (rsp l)) (<[c := DataChannel name [] []]> (channels l)) (writers l))
       end.
(** [try_emplace] keeps what is there; the data of the channel is given up in any case *)
Definition release_channel (c : nat) (l : t) : status * t :=
  match channels l !! c with
  | None => (not_found, l)
  | Some ch =>
      if bool_decide (channel_map_ (rsp l) !! name_ ch = Some c) then
        let r := set_channels (delete (name_ ch) (channel_map_ (rsp l))) (rsp l) in
        let m := match committed_data_map_ r !! name_ ch with
                 | Some _ => committed_data_map_ r
                 | None => <[name_ ch := c_committed ch]> (committed_data_map_ r)
                 end in
        (ok, Loop (set_committed m r) (<[c := DataChannel (name_ ch) (writers_ ch) []]> (channels l)) (writers l))
      else (not_found, l)
  end.
Definition release_all_committed_data (r : response) : gmap string (list (list byte)) * response := (committed_data_map_ r, set_committed ∅ r).

(** * The endpoint *)

(** what a service does with its response *)
Inductive operation : Type :=
| Session_id (i : Z)
| Body_head (b : list byte)
| Body (b : list byte)
| Error (c : code) (message : string)
| Acquire_channel (name : string) (c : nat) (max_writer_count : Z)
| Release_channel (c : nat)
| Acquire (w c : nat)
| Release (w c : nat)
| Write (w : nat) (data : list byte)
| Commit (w : nat).
Definition exec (o : operation) (l : t) : t :=
  match o with
  | Session_id i => with_rsp (fun r => Response i (body_head_ r) (body_ r) (error_rec_ r) (channel_map_ r) (committed_data_map_ r)) l
  | Body_head b => with_rsp (fun r => Response (session_id_ r) b (body_ r) (error_rec_ r) (channel_map_ r) (committed_data_map_ r)) l
  | Body b => with_rsp (fun r => Response (session_id_ r) (body_head_ r) b (error_rec_ r) (channel_map_ r) (committed_data_map_ r)) l
  | Error c m => with_rsp (fun r => Response (session_id_ r) (body_head_ r) (body_ r) (Some (c, m)) (channel_map_ r) (committed_data_map_ r)) l
  | Acquire_channel name c n => snd (acquire_channel name c n l)
  | Release_channel c => snd (release_channel c l)
  | Acquire w c => acquire w c l
  | Release w c => snd (release w c l)
  | Write w data => on_writer w (write data) l
  | Commit w => on_writer w commit l
  end.
Definition run (ops : list operation) (l : t) : t := foldl (fun l o => exec o l) l ops.

Record buffered_response : Type := Buffered {
  b_session_id : Z; b_body_head : list byte; b_body : list byte; b_data : gmap string (list (list byte)); b_error : option (code * string)
}.
(** [service]: the routing service, with the operations on the response and its result *)
Definition request (service : Z -> Z -> list byte -> list operation * bool) (session_id service_id : Z) (payload : list byte) : buffered_response :=
  let '(ops, result) := service session_id service_id payload in
  let r := rsp (run ops create) in
  if result then Buffered (session_id_ r) (body_head_ r) (body_ r) (fst (release_all_committed_data r)) None
  else Buffered session_id [] [] ∅ (error_rec_ r).
Definition has_channel (name : string) (b : buffered_response) : bool := bool_decide (is_Some (b_data b !! name)).
Definition channel (name : string) (b : buffered_response) : res (list (list byte)) :=
  match b_data b !! name with Some d => Ok d | None => Throw (invalid_argument ("invalid channel name: " +:+ name)) end.

(** * What a channel delivers *)

(** the data of one record: pieces, then a commit *)
Definition record_ops (w : nat) (pieces : list (list byte)) : list operation := map (Write w) pieces ++ [Commit w].
Definition writer_ops (c w : nat) (records : list (list (list byte))) : list operation :=
  [Acquire w c] ++ concat (map (record_ops w) records) ++ [Release w c].
Definition records_data (records : list (list (list byte))) : list (list byte) := filter (fun d => d <> []) (map (fun r => concat r) records).

Lemma run_app a b l : run (a ++ b) l = run b (run a l).
Proof. apply foldl_app. Qed.

Lemma write_nonempty data w : write data w = DataWriter (current_data_ w ++ data) (w_committed w).
Proof.
  unfold write, zlen. destruct data as [|x data]; cbn [length]; [destruct w; cbn; by rewrite app_nil_r|].
  destruct (Z.ltb_spec 0 (Z.of_nat (S (length data)))); [done|lia].
Qed.

Lemma run_writes w l pieces wr :
  writers l !! w = Some wr ->
  run (map (Write w) pieces) l = Loop (rsp l) (channels l) (<[w := DataWriter (current_data_ wr ++ concat pieces) (w_committed wr)]> (writers l)).
Proof.
  revert l wr. induction pieces as [|p pieces IH]; intros l wr Hw; cbn [map concat].
  - rewrite app_nil_r. destruct l as [r ch ws], wr as [cur com]. cbn in *. by rewrite insert_id.
  - cbn [run foldl exec]. fold (run (map (Write w) pieces) (on_writer w (write p) l)).
    rewrite (IH _ (write p wr)); [|unfold on_writer; cbn; by rewrite lookup_alter_eq, Hw].
    unfold on_writer. cbn [rsp channels writers]. rewrite write_nonempty. cbn [current_data_ w_committed]. rewrite <- app_assoc. f_equal.
    apply map_eq. intros i. destruct (decide (i = w)) as [->|]; [by rewrite !lookup_insert_eq|]. by rewrite !lookup_insert_ne, lookup_alter_ne by done.
Qed.

Lemma run_record w l pieces com :
  writers l !! w = Some (DataWriter [] com) ->
  run (record_ops w pieces) l = Loop (rsp l) (channels l) (<[w := DataWriter [] (com ++ records_data [pieces])]> (writers l)).
Proof.
  intros Hw. unfold record_ops. rewrite run_app, (run_writes w l pieces _ Hw). cbn [current_data_ w_committed app]. cbn [run foldl exec]. unfold on_writer. cbn [rsp channels writers].
  f_equal. apply map_eq. intros i. destruct (decide (i = w)) as [->|]; [|by rewrite lookup_alter_ne, !lookup_insert_ne by done].
  rewrite lookup_alter_eq, !lookup_insert_eq. cbn [fmap option_fmap option_map]. f_equal. unfold commit, records_data. cbn [current_data_ w_committed map].
  rewrite filter_cons, filter_nil. case_bool_decide as He; case_decide; try done. by rewrite He, app_nil_r.
Qed.

Lemma run_records w l records com :
  writers l !! w = Some (DataWriter [] com) ->
  run (concat (map (record_ops w) records)) l = Loop (rsp l) (channels l) (<[w := DataWriter [] (com ++ records_data records)]> (writers l)).
Proof.
  revert l com. induction records as [|r records IH]; intros l com Hw; cbn [map concat].
  - unfold records_data. cbn. rewrite app_nil_r. destruct l as [? ? ws]. cbn in *. by rewrite insert_id.
  - rewrite run_app, (run_record w l r com Hw), (IH _ (com ++ records_data [r])) by (cbn; by rewrite lookup_insert_eq). cbn [rsp channels writers].
    rewrite insert_insert_eq, <- app_assoc. do 4 f_equal. unfold records_data. cbn [map]. rewrite !filter_cons, filter_nil. by case_decide.
Qed.

Lemma run_writer c w l records name ws com :
  channels l !! c = Some (DataChannel name ws com) -> w ∉ ws ->
  exists m, run (writer_ops c w records) l = Loop (rsp l) (<[c := DataChannel name ws (com ++ records_data records)]> (channels l)) m.
Proof.
  intros Hc Hw. unfold writer_ops. rewrite !run_app. cbn [run foldl exec]. unfold acquire.
  fold (run (concat (map (record_ops w) records)) (on_channel c (fun ch => DataChannel (name_ ch) (writers_ ch ++ [w]) (c_committed ch))
    (Loop (rsp l) (channels l) (<[w := DataWriter [] []]> (writers l))))).
  rewrite (run_records w _ records []) by (cbn; by rewrite lookup_insert_eq). cbn [rsp channels writers on_channel app].
  unfold release. cbn [channels writers rsp]. rewrite lookup_alter_eq, Hc. cbn [fmap option_fmap option_map writers_ name_ c_committed].
  assert (Hr : remove_first w (ws ++ [w]) = Some ws).
  { clear - Hw. induction ws as [|x ws IH]; cbn; [by rewrite Nat.eqb_refl|]. destruct (Nat.eqb_spec x w) as [->|]; [set_solver|].
    rewrite IH by set_solver. done. }
  rewrite Hr, lookup_insert_eq. cbn [writer_release_committed snd w_committed]. eexists. f_equal.
  apply map_eq. intros i. destruct (decide (i = c)) as [->|]; [by rewrite !lookup_insert_eq|]. by rewrite !lookup_insert_ne, lookup_alter_ne by done.
Qed.

Lemma run_writers c l (wss : list (nat * list (list (list byte)))) name com :
  channels l !! c = Some (DataChannel name [] com) ->
  exists m, run (concat (map (fun e => writer_ops c e.1 e.2) wss)) l =
    Loop (rsp l) (<[c := DataChannel name [] (com ++ concat (map (fun e => records_data e.2) wss))]> (channels l)) m.
Proof.
  revert l com. induction wss as [|[w records] wss IH]; intros l com Hc; cbn [map concat fst snd].
  - rewrite app_nil_r. destruct l as [? ch ws]. cbn in *. exists ws. by rewrite insert_id.
  - rewrite run_app. destruct (run_writer c w l records name [] com Hc) as (m & ->); [set_solver|].
    destruct (IH (Loop (rsp l) (<[c := DataChannel name [] (com ++ records_data records)]> (channels l)) m) (com ++ records_data records)) as (m' & ->).
    + cbn. by rewrite lookup_insert_eq.
    + cbn [rsp channels]. exists m'. by rewrite insert_insert_eq, app_assoc.
Qed.

(** The data a client of the loopback endpoint finds under the name of a channel is, for the
    first channel of that name, the committed records of its writers, without empty ones, in
    the order in which the writers were released; what a second channel of the same name, made
    after the first was released, delivers is lost. *)
Theorem loopback_channel_data name c1 c2 ws1 ws2 :
  let use c ws := [Acquire_channel name c 1] ++ concat (map (fun e => writer_ops c e.1 e.2) ws) ++ [Release_channel c] in
  let data := concat (map (fun e => records_data e.2) ws1) in
  forall sid, b_data (request (fun _ _ _ => (use c1 ws1, true)) sid 0 []) = {[name := data]} /\
    channel name (request (fun _ _ _ => (use c1 ws1 ++ use c2 ws2, true)) sid 0 []) = Ok data.
Proof.
  intros use data sid.
  assert (Huse : forall c ws l, channel_map_ (rsp l) = ∅ -> exists ch m,
    run (use c ws) l = Loop (set_committed (match committed_data_map_ (rsp l) !! name with Some _ => committed_data_map_ (rsp l)
      | None => <[name := concat (map (fun e => records_data e.2) ws)]> (committed_data_map_ (rsp l)) end) (rsp l)) ch m).
  { intros c ws l Hm. unfold use. rewrite !run_app. change (run [Acquire_channel name c 1] l) with (snd (acquire_channel name c 1 l)).
    unfold acquire_channel. rewrite Hm, lookup_empty. change (UINT8_MAX + 1 <? 1) with false. cbn [snd].
    destruct (run_writers c (Loop (set_channels (<[name := c]> ∅) (rsp l)) (<[c := DataChannel name [] []]> (channels l)) (writers l)) ws name []) as (m & ->);
      [cbn; by rewrite lookup_insert_eq|]. cbn [run foldl exec].
    unfold release_channel. cbn [channels rsp]. rewrite lookup_insert_eq. cbn [name_ c_committed app]. cbn [channel_map_ set_channels]. rewrite bool_decide_true by by rewrite lookup_insert_eq.
    cbn [committed_data_map_ set_channels set_committed]. rewrite delete_insert_eq. destruct l as [[? ? ? ? cm dm] ? ?]. cbn in *. subst cm.
    destruct (dm !! name); cbn; eauto. }
  split.
  - unfold request. destruct (Huse c1 ws1 create eq_refl) as (ch & m & ->). cbn. done.
  - unfold request, channel. rewrite run_app. destruct (Huse c1 ws1 create eq_refl) as (ch & m & H1). 
    destruct (Huse c2 ws2 (run (use c1 ws1) create)) as (ch2 & m2 & ->); [by rewrite H1|]. rewrite H1.
    cbn [rsp set_committed committed_data_map_ create fst release_all_committed_data b_data]. rewrite lookup_empty, lookup_insert_eq.
    cbn [set_committed committed_data_map_]. by rewrite lookup_insert_eq.
Qed.

End Loopback.
