(* ===== verification/Handshake.v ===== *)
(** The endpoint's side of a session: configuration, establishment and the endpoint
    and core requests (endpoint/common/worker_configuration.h, worker_common.h).

    Requests are the parsed protobuf messages; [None] is a message that does not
    parse.  A response body is the message it is the serialization of.  Times are in
    milliseconds. *)
From stdpp Require Import gmap.
From Stdlib Require Import Ascii.
From S2P Require Import Prelude Text Session Authentication.

(** * The messages *)

Inductive credential : Type :=
| kEncryptedCredential (s : string)
| kRememberMeCredential (s : string)
| CREDENTIAL_OPT_NOT_SET.

Inductive wire_information : Type :=
| kIpcInformation (connection_information : string)
| kStreamInformation (maximum_concurrent_result_sets : Z)
| WIRE_INFORMATION_NOT_SET.
Definition wire_information_case (w : wire_information) : Z :=
  match w with kIpcInformation _ => 1 | kStreamInformation _ => 2 | WIRE_INFORMATION_NOT_SET => 0 end.

(** BlobTransferType; proto3 enums are open *)
Inductive BlobTransferType : Type := DOES_NOT_USE | PRIVILEGED | RELAY | OTHER_TRANSFER.

Record handshake_message : Type := HandshakeMessage {
  connection_label : string;
  application : string;
  hs_credential : credential;
  blob_transfer_media : list BlobTransferType;
  wire_info : wire_information
}.

Inductive endpoint_command : Type :=
| kHandshake (h : handshake_message)
| kCancel
| kEncryptionKey
| kUpdateAuthentication (c : credential)
| kGetAuthenticationExpirationTime
| ENDPOINT_COMMAND_NOT_SET.
Definition command_case (c : endpoint_command) : Z :=
  match c with
  | kHandshake _ => 11 | kCancel => 12 | kEncryptionKey => 13 | kUpdateAuthentication _ => 14
  | kGetAuthenticationExpirationTime => 15 | ENDPOINT_COMMAND_NOT_SET => 0
  end.
Record endpoint_request : Type := EndpointRequest {
  service_message_version_major : Z;
  service_message_version_minor : Z;
  command_ : endpoint_command
}.

Inductive success_mode : Type := no_blob | privileged_mode | blob_relay (blob_session_id : Z).

Inductive reply : Type :=
| R_handshake_error (c : code) (message : string)
| R_handshake_success (session_id : Z) (user_name : option string) (mode : success_mode)
| R_encryption_key (key : string)
| R_encryption_key_error (c : code) (message : string)
| R_update_authentication_success
| R_update_authentication_error (c : code) (message : string)
| R_expiration_time (t : Z)
| R_expiration_time_error (c : code) (message : string)
| R_update_expiration_time_success
| R_shutdown
| R_service (payload : list byte)
| R_diagnostics (c : code) (message : string).

(** * worker_configuration.h *)

Inductive connection_type : Type := undefined | ipc | stream.

Definition connection_label_of (con : connection_type) : string :=
  match con with ipc => "ipc" | stream => "tcp" | undefined => "" end.

Record configuration : Type := Configuration {
  con_ : connection_type;
  auth_ : option (option Adapter_ops);
  administrators_ : Administrators.t;
  enable_timeout_ : bool;
  allow_blob_privileged_ : bool;
  refresh_timeout_ : Z;
  max_refresh_timeout_ : Z;
  authentication_timeout_ : Z;
  blob_relay_enabled_ : bool;
  blob_relay_service_ : bool
}.

Definition set_timeout (refresh_timeout max_refresh_timeout : Z) (c : configuration) : res configuration :=
  if refresh_timeout <? 120
  then Throw (runtime_error "section.refresh_timeout should be greater than or equal to 120")
  else if max_refresh_timeout <? 120
  then Throw (runtime_error "section.max_refresh_timeout should be greater than or equal to 120")
  else Ok (Configuration (con_ c) (auth_ c) (administrators_ c) true (allow_blob_privileged_ c) refresh_timeout
             max_refresh_timeout (authentication_timeout_ c) (blob_relay_enabled_ c) (blob_relay_service_ c)).

Inductive blob_transfer_type : Type := does_not_use | privileged | blob_relay_streaming.

(** what a session has been told: the resources of the worker *)
Record resources : Type := Resources {
  session_info_ : session_info;
  max_result_sets_ : Z;
  blob_session_ : option Z;
  blob_transfer_ : blob_transfer_type
}.
Definition new_resources (c : configuration) (session_id : Z) (conn_info : string) (now : Z) : resources :=
  Resources (new_session_info session_id (connection_label_of (con_ c)) conn_info now) 0 None does_not_use.

Definition with_info (f : session_info -> session_info) (r : resources) : resources :=
  Resources (f (session_info_ r)) (max_result_sets_ r) (blob_session_ r) (blob_transfer_ r).
Definition with_max_result_sets (n : Z) (r : resources) : resources :=
  Resources (session_info_ r) n (blob_session_ r) (blob_transfer_ r).
Definition blob_session (s : Z) (r : resources) : resources :=
  Resources (session_info_ r) (max_result_sets_ r) (Some s) (blob_transfer_ r).
Definition blob_transfer (t : blob_transfer_type) (r : resources) : resources :=
  Resources (session_info_ r) (max_result_sets_ r) (blob_session_ r) t.

(** * worker_common::handshake *)

Definition service_id_routing : Z := 0.
Definition service_id_endpoint_broker : Z := 1.
Definition ENDPOINT_BROKER_SERVICE_MESSAGE_VERSION_MAJOR : Z := 0.
Definition ENDPOINT_BROKER_SERVICE_MESSAGE_VERSION_MINOR : Z := 2.

(** how handshake ends: a return, or the exception that asks for another message (the
    only other exceptions, those of the adapter, are caught inside) *)
Inductive outcome : Type := Done (established : bool) | Continue.

Definition result : Type := resources * list reply * outcome.

(** [handshake_error(..); return false] *)
Definition refuse (c : code) (message : string) (r : resources) (out : list reply) : result :=
  (r, out ++ [R_handshake_error c message], Done false).

(** the loop over the requested media: the first one available is taken *)
Fixpoint choose_medium (cfg : configuration) (new_session : Z) (media : list BlobTransferType) (r : resources)
    : option (success_mode * resources) :=
  match media with
  | [] => None
  | PRIVILEGED :: media =>
      if allow_blob_privileged_ cfg then Some (privileged_mode, blob_transfer privileged r)
      else choose_medium cfg new_session media r
  | RELAY :: media =>
      if blob_relay_enabled_ cfg && blob_relay_service_ cfg
      then Some (blob_relay new_session, blob_transfer blob_relay_streaming (blob_session new_session r))
      else choose_medium cfg new_session media r
  | DOES_NOT_USE :: _ => Some (no_blob, r)
  | OTHER_TRANSFER :: media => choose_medium cfg new_session media r
  end.

Definition medium_name (t : BlobTransferType) : string :=
  match t with PRIVILEGED => "PRIVILEGED" | RELAY => "RELAY" | DOES_NOT_USE => "DOES_NOT_USE" | OTHER_TRANSFER => "" end.
Definition media_names (media : list BlobTransferType) : string :=
  match media with
  | [] => ""
  | m :: media => foldl (fun s m => s ++ " or " ++ medium_name m)%string (medium_name m) media
  end.

(** blob handling and the success reply; below version 0.2 privileged mode is implied *)
Definition handshake_blobs (cfg : configuration) (new_session : Z) (rq : endpoint_request) (h : handshake_message)
    (r : resources) (out : list reply) : result :=
  let chosen :=
    if (service_message_version_major rq =? 0) && (service_message_version_minor rq <? 2) then
      if allow_blob_privileged_ cfg then Some (privileged_mode, blob_transfer privileged r) else Some (no_blob, r)
    else choose_medium cfg new_session (blob_transfer_media h) r in
  match chosen with
  | None => refuse UNSUPPORTED_OPERATION
              ("the requested blob transfer method (" ++ media_names (blob_transfer_media h) ++ ") is unavailable")%string r out
  | Some (mode, r) =>
      (r, out ++ [R_handshake_success (id (session_info_ r)) (username (session_info_ r)) mode], Done true)
  end.

Definition bad_wire (w : wire_information) (r : resources) (out : list reply) : result :=
  refuse INVALID_REQUEST ("bad wire information (handshake in endpoint): " ++ Text.to_string (wire_information_case w))%string r out.

Definition handshake_wire (cfg : configuration) (new_session : Z) (rq : endpoint_request) (h : handshake_message)
    (r : resources) (out : list reply) : result :=
  match con_ cfg, wire_info h with
  | ipc, kIpcInformation info =>
      handshake_blobs cfg new_session rq h (with_info (set_connection_information info) r) out
  | stream, kStreamInformation n => handshake_blobs cfg new_session rq h (with_max_result_sets n r) out
  | undefined, _ => refuse INVALID_REQUEST "illegal connection type: 0" r out
  | _, w => bad_wire w r out
  end.

(** authentication, when it is on.  A credential that verifies to no user is reported
    to the client; only in the case of a token does the function then return. *)
Definition handshake_credential (cfg : configuration) (adapter : option Adapter_ops) (new_session : Z) (rq : endpoint_request)
    (h : handshake_message) (r : resources) (out : list reply) : result :=
  match hs_credential h with
  | kEncryptedCredential s =>
      match AuthBridge.verify_encrypted adapter s with
      | Return (Some name) => handshake_wire cfg new_session rq h (with_info (set_user_name (administrators_ cfg) name) r) out
      | Return None =>
          handshake_wire cfg new_session rq h r (out ++ [R_handshake_error AUTHENTICATION_ERROR "user or password is incorrect"])
      | Raise what _ => refuse AUTHENTICATION_ERROR what r out
      end
  | kRememberMeCredential s =>
      match AuthBridge.verify_token adapter s with
      | Return (Some name) => handshake_wire cfg new_session rq h (with_info (set_user_name (administrators_ cfg) name) r) out
      | Return None => refuse AUTHENTICATION_ERROR "token is incorrect" r out
      | Raise what c => refuse (default AUTHENTICATION_ERROR c) what r out
      end
  | CREDENTIAL_OPT_NOT_SET => refuse AUTHENTICATION_ERROR "no valid credential" r out
  end.

Definition encryption_key (cfg : configuration) (r : resources) : result :=
  match auth_ cfg with
  | Some adapter =>
      match AuthBridge.get_encryption_key adapter with
      | Return (Some key) => (r, [R_encryption_key key], Continue)
      | Return None => (r, [R_encryption_key_error SYSTEM_ERROR "get_encryption_key() failed"], Done false)
      | Raise what _ => (r, [R_encryption_key_error SYSTEM_ERROR what], Done false)
      end
  | None => (r, [R_encryption_key_error UNSUPPORTED_OPERATION "authentication is off"], Continue)
  end.

Definition colon_first (s : string) : bool := match s with String ":" _ => true | _ => false end.

(** [new_session]: the id of the blob session the relay service would create *)
Definition handshake (cfg : configuration) (new_session : Z) (service_id : Z) (message : option endpoint_request) (r : resources) : result :=
  if negb (service_id =? service_id_endpoint_broker) then
    refuse ILLEGAL_STATE ("handshake operation is required to establish sessions (service ID=" ++ Text.to_string service_id ++ ").")%string r []
  else match message with
  | None => refuse INVALID_REQUEST "request parse error" r []
  | Some rq =>
      let smvm := service_message_version_major rq in
      if (ENDPOINT_BROKER_SERVICE_MESSAGE_VERSION_MAJOR <? smvm)
         || (smvm =? ENDPOINT_BROKER_SERVICE_MESSAGE_VERSION_MAJOR)
            && (ENDPOINT_BROKER_SERVICE_MESSAGE_VERSION_MINOR <? service_message_version_minor rq)
      then refuse INVALID_REQUEST "unsupported service message version" r []
      else match command_ rq with
      | kEncryptionKey => encryption_key cfg r
      | kHandshake h =>
          if colon_first (connection_label h) then refuse INVALID_REQUEST "invalid connection label" r []
          else
            let r := with_info (fun i => set_application_name (application h) (set_label (connection_label h) i)) r in
            match auth_ cfg with
            | Some adapter => handshake_credential cfg adapter new_session rq h r []
            | None => handshake_wire cfg new_session rq h r []
            end
      | c => refuse INVALID_REQUEST ("bad request (handshake in endpoint): " ++ Text.to_string (command_case c))%string r []
      end
  end.

(** * Authentication of an established session: kUpdateAuthentication and
    kGetAuthenticationExpirationTime of worker_common::endpoint_service *)

(** the error message, its code, and the user the credential verifies to *)
Definition check_credential (adapter : option Adapter_ops) (c : credential) : string * code * option string :=
  match c with
  | kEncryptedCredential s =>
      match AuthBridge.verify_encrypted adapter s with
      | Return (Some name) => ("", AUTHENTICATION_ERROR, Some name)
      | Return None => ("user or password is incorrect", AUTHENTICATION_ERROR, None)
      | Raise what _ => (what, AUTHENTICATION_ERROR, None)
      end
  | kRememberMeCredential s =>
      match AuthBridge.verify_token adapter s with
      | Return (Some name) => ("", AUTHENTICATION_ERROR, Some name)
      | Return None => ("token is incorrect", AUTHENTICATION_ERROR, None)
      | Raise what (Some c) => (("token is incorrect: " ++ what)%string, c, None)
      | Raise what None => ("", AUTHENTICATION_ERROR, None)
      end
  | CREDENTIAL_OPT_NOT_SET => ("no credential", AUTHENTICATION_ERROR, None)
  end.

Definition update_authentication (cfg : configuration) (c : credential) (user : option string) (now : Z)
    (timer : AliveTimer.t) : AliveTimer.t * reply :=
  match auth_ cfg with
  | Some adapter =>
      let '(error_message, code, username_opt) := check_credential adapter c in
      let error_message :=
        match username_opt with
        | Some name => if bool_decide (Some name = user) then error_message else "UpdateAuthentication with differnt user"
        | None => error_message
        end in
      if bool_decide (error_message = "")
      then (AliveTimer.update_expiration_time false now timer, R_update_authentication_success)
      else (timer, R_update_authentication_error code error_message)
  | None => (timer, R_update_authentication_success)
  end.

Definition get_authentication_expiration_time (cfg : configuration) (timer : AliveTimer.t) : reply :=
  match auth_ cfg with
  | Some _ =>
      let ne := AliveTimer.next_expiration timer in
      if 0 <? ne then R_expiration_time ne
      else R_expiration_time_error UNSUPPORTED_OPERATION "authentication expiration timer is off"
  | None => R_expiration_time_error UNSUPPORTED_OPERATION "authentication is off"
  end.

(** * Lemmas *)

(** the user a credential is good for *)
Definition verified (adapter : option Adapter_ops) (c : credential) : option string :=
  match c with
  | kEncryptedCredential s => match AuthBridge.verify_encrypted adapter s with Return u => u | Raise _ _ => None end
  | kRememberMeCredential s => match AuthBridge.verify_token adapter s with Return u => u | Raise _ _ => None end
  | CREDENTIAL_OPT_NOT_SET => None
  end.

Lemma choose_medium_info cfg n media r mode r' :
  choose_medium cfg n media r = Some (mode, r') -> session_info_ r' = session_info_ r.
Proof.
  induction media as [|m media IH]; cbn [choose_medium]; [done|].
  destruct m; repeat case_match; intros; simplify_eq; try done; by apply IH.
Qed.

(** past the credentials, a session is only established with the success reply, for the
    user recorded so far *)
Lemma handshake_wire_true cfg n rq h r out r' out' :
  handshake_wire cfg n rq h r out = (r', out', Done true) ->
  username (session_info_ r') = username (session_info_ r) /\ user_type_ (session_info_ r') = user_type_ (session_info_ r) /\
  exists mode, out' = out ++ [R_handshake_success (id (session_info_ r)) (username (session_info_ r)) mode].
Proof.
  assert (forall r out, handshake_blobs cfg n rq h r out = (r', out', Done true) ->
    session_info_ r' = session_info_ r /\
    exists mode, out' = out ++ [R_handshake_success (id (session_info_ r)) (username (session_info_ r)) mode]) as Hb.
  { clear. intros r out. unfold handshake_blobs, refuse. intros H. repeat case_match; simplify_eq; try (split; [done|by eexists]).
    match goal with Hc : choose_medium _ _ _ _ = Some _ |- _ => apply choose_medium_info in Hc as Hi end.
    split; [done|]. rewrite Hi. by eexists. }
  unfold handshake_wire, bad_wire, refuse. intros H. repeat case_match; simplify_eq; apply Hb in H as [Hi Ho]; rewrite Hi;
    (split_and!; [done|done|exact Ho]).
Qed.

(** C17: with authentication on, a session is established only for a verified user, with
    one exception.  When handshake returns true, the client sent a handshake message, and
    either its credential verified to a user, who is recorded with the user type the list
    of administrators gives, and the only reply is the success; or the credential was an
    encrypted one that verified to nobody, no user is recorded, and the authentication
    error was replied first. *)
Theorem handshake_authenticates cfg adapter n service_id message r r' out :
  auth_ cfg = Some adapter -> handshake cfg n service_id message r = (r', out, Done true) ->
  exists rq h, message = Some rq /\ command_ rq = kHandshake h /\
  let i := session_info_ r' in
  (exists name mode, verified adapter (hs_credential h) = Some name /\ username i = Some name /\
     user_type_ i = user_type_of (administrators_ cfg) (Some name) /\
     out = [R_handshake_success (id (session_info_ r)) (Some name) mode]) \/
  (exists s mode, hs_credential h = kEncryptedCredential s /\ AuthBridge.verify_encrypted adapter s = Return None /\
     username i = username (session_info_ r) /\ user_type_ i = user_type_ (session_info_ r) /\
     out = [R_handshake_error AUTHENTICATION_ERROR "user or password is incorrect";
            R_handshake_success (id (session_info_ r)) (username (session_info_ r)) mode]).
Proof.
  intros Ha. unfold handshake, refuse, encryption_key. rewrite Ha. intros H. repeat case_match; simplify_eq.
  match goal with Hc : command_ ?rq = kHandshake ?h |- _ => exists rq, h; split; [done|]; split; [done|] end.
  unfold handshake_credential, refuse in H. cbn zeta. destruct (hs_credential _) as [s|s|] eqn:Ec; [| |by simplify_eq].
  - destruct (AuthBridge.verify_encrypted adapter s) as [[name|]|what c] eqn:Ev; [| |by simplify_eq].
    + left. apply handshake_wire_true in H as (Hu & Ht & mode & ->). exists name, mode. cbn [verified]. by rewrite Ev.
    + right. apply handshake_wire_true in H as (Hu & Ht & mode & ->). by exists s, mode.
  - destruct (AuthBridge.verify_token adapter s) as [[name|]|what c] eqn:Ev; [|by simplify_eq..].
    left. apply handshake_wire_true in H as (Hu & Ht & mode & ->). exists name, mode. cbn [verified]. by rewrite Ev.
Qed.

(** C37: an encrypted credential that verifies to no user gets an administrator's session.
    With authentication on, take an otherwise acceptable handshake with an encrypted
    credential.  When the authentication service rejects the password, or fails, the
    verification throws and the handshake is refused.  But when the service issues a token that
    cannot be decoded or names no user, verify_encrypted returns nothing: the client is told
    that user or password is incorrect, and handshake returns true all the same: the session
    runs with no user name, and such a session has the user type administrator. *)
Theorem unnamed_credential_admits cfg adapter n rq h s info media now :
  con_ cfg = ipc -> auth_ cfg = Some adapter ->
  command_ rq = kHandshake h -> service_message_version_major rq = 0 -> service_message_version_minor rq <= 2 ->
  colon_first (connection_label h) = false -> hs_credential h = kEncryptedCredential s ->
  wire_info h = kIpcInformation info -> blob_transfer_media h = DOES_NOT_USE :: media ->
  let '(r', replies, o) := handshake cfg n service_id_endpoint_broker (Some rq) (new_resources cfg 7 "" now) in
  match AuthBridge.verify_encrypted adapter s with
  | Raise what _ => o = Done false /\ replies = [R_handshake_error AUTHENTICATION_ERROR what]
  | Return None =>
      o = Done true /\ username (session_info_ r') = None /\ user_type_ (session_info_ r') = administrator /\
      head replies = Some (R_handshake_error AUTHENTICATION_ERROR "user or password is incorrect")
  | Return (Some name) => o = Done true /\ username (session_info_ r') = Some name
  end.
Proof.
  intros Hcon Ha Hc Hmaj Hmin Hl Hcr Hw Hm. unfold handshake. cbn [negb Z.eqb service_id_endpoint_broker].
  rewrite Hmaj, Hc, Hl, Ha. cbn [Pos.eqb negb]. unfold ENDPOINT_BROKER_SERVICE_MESSAGE_VERSION_MAJOR, ENDPOINT_BROKER_SERVICE_MESSAGE_VERSION_MINOR.
  replace ((0 <? 0) || (0 =? 0) && (2 <? service_message_version_minor rq)) with false by lia.
  unfold handshake_credential. rewrite Hcr. unfold handshake_wire. rewrite Hcon, Hw.
  unfold handshake_blobs. rewrite Hmaj, Hm. cbn [choose_medium].
  destruct (AuthBridge.verify_encrypted adapter s) as [[name|]|what c]; repeat case_match; unfold refuse in *; simplify_eq; done.
Qed.

(** the two ways a case of the next theorem ends *)
Ltac accept := cbv beta iota zeta; match goal with |- (_ <-> ?P) /\ _ /\ _ => assert P as HP by (naive_solver eauto); tauto end.
Ltac reject := cbv beta iota zeta; match goal with |- (_ <-> ?P) /\ _ /\ _ => assert (~ P) as HP by (intros [(?&?&?)|[(?&?&?&?)|(?&?&?&?)]]; simplify_eq; congruence); split; [split; [done|tauto]|tauto] end.

(** When the authentication of a session is extended.  With authentication on, the
    reply to UpdateAuthentication is a success, and the expiration time is moved, exactly
    when the credential verifies to the user of the session, or the verification failed
    with an exception that leaves no message: one without a code for a token, one with an
    empty text for an encrypted credential.  So a token the authentication service
    refuses with a plain error extends the session. *)
Theorem update_authentication_spec cfg adapter c user now timer :
  auth_ cfg = Some adapter ->
  let '(timer', rep) := update_authentication cfg c user now timer in
  let accepted :=
    (exists name, verified adapter c = Some name /\ user = Some name) \/
    (exists s what, c = kRememberMeCredential s /\ AuthBridge.verify_token adapter s = Raise what None) \/
    (exists s cd, c = kEncryptedCredential s /\ AuthBridge.verify_encrypted adapter s = Raise "" cd) in
  (rep = R_update_authentication_success <-> accepted) /\
  (accepted -> timer' = AliveTimer.update_expiration_time false now timer) /\ (~ accepted -> timer' = timer).
Proof.
  intros Ha. unfold update_authentication. rewrite Ha.
  destruct c as [s|s|]; cbn [check_credential verified].
  - destruct (AuthBridge.verify_encrypted adapter s) as [[name|]|what cd] eqn:Ev.
    + destruct (decide (Some name = user)) as [Hu|Hu].
      * rewrite (bool_decide_true (Some name = user)), bool_decide_true by done. accept.
      * rewrite (bool_decide_false (Some name = user)), bool_decide_false by done. reject.
    + rewrite bool_decide_false by done. reject.
    + case_bool_decide; [subst; accept|reject].
  - destruct (AuthBridge.verify_token adapter s) as [[name|]|what [cd|]] eqn:Ev.
    + destruct (decide (Some name = user)) as [Hu|Hu].
      * rewrite (bool_decide_true (Some name = user)), bool_decide_true by done. accept.
      * rewrite (bool_decide_false (Some name = user)), bool_decide_false by done. reject.
    + rewrite bool_decide_false by done. reject.
    + rewrite bool_decide_false by done. reject.
    + rewrite bool_decide_true by done. accept.
  - rewrite bool_decide_false by done. reject.
Qed.

(** * Concrete sessions

    The authentication service issues a token the server cannot decode for the password
    "bad", refuses the token "expired" with status 401 and a message, and knows alice. *)

Module HandshakeDemo.

Definition field (key value : string) : Rest.json :=
  Rest.Json (fun k => if bool_decide (k = key) then Rest.GotString value else Rest.JsonException)
    (fun k => if bool_decide (k = key) then Rest.GotString value else Rest.GotString "").
Definition http_verify (token : string) : Rest.reply :=
  if bool_decide (token = "expired") then Rest.Reply 401 (Some (field "message" "token revoked"))
  else Rest.Reply 200 (Some (field "token" token)).
Definition http_issue (c : string) : Rest.reply := Rest.Reply 200 (Some (field "token" c)).
Definition jwt_decode (token key : string) : option claims :=
  if bool_decide (token = "bad") then None else Some (Claims (Some "alice") (Some 1000) (Some "access")).
Definition adapter : option Adapter_ops :=
  Some (adapter_impl http_verify http_issue jwt_decode 10 (Adapter.Make true (Some ("RSA", "key")))).
Definition cfg : configuration :=
  Configuration ipc (Some adapter) (Administrators.Make ["root"] false) false false 300 10800 60 false false.
Definition message (c : credential) : endpoint_request :=
  EndpointRequest 0 2 (kHandshake (HandshakeMessage "job" "app" c [DOES_NOT_USE] (kIpcInformation "1234"))).
Definition r0 : resources := new_resources cfg 7 "" 0.

Lemma handshake_authenticates_witness :
  exists r' out, handshake cfg 0 1 (Some (message (kEncryptedCredential "alice-pw"))) r0 = (r', out, Done true) /\
  username (session_info_ r') = Some "alice" /\
  exists rq h, Some (message (kEncryptedCredential "alice-pw")) = Some rq /\ command_ rq = kHandshake h.
Proof.
  eexists _, _. split; [reflexivity|]. split; [reflexivity|].
  destruct (handshake_authenticates cfg adapter 0 1 (Some (message (kEncryptedCredential "alice-pw"))) r0 _ _ eq_refl eq_refl)
    as (rq & h & H1 & H2 & _). by exists rq, h.
Defined.

Lemma unnamed_credential_admits_witness :
  let '(r', replies, o) := handshake cfg 0 1 (Some (message (kEncryptedCredential "bad"))) (new_resources cfg 7 "" 0) in
  o = Done true /\ username (session_info_ r') = None /\ user_type_ (session_info_ r') = administrator /\
  head replies = Some (R_handshake_error AUTHENTICATION_ERROR "user or password is incorrect").
Proof.
  exact (unnamed_credential_admits cfg adapter 0 (message (kEncryptedCredential "bad"))
    (HandshakeMessage "job" "app" (kEncryptedCredential "bad") [DOES_NOT_USE] (kIpcInformation "1234")) "bad" "1234" [] 0
    eq_refl eq_refl eq_refl eq_refl ltac:(cbn; lia) eq_refl eq_refl eq_refl eq_refl).
Defined.

Definition timer : AliveTimer.t := AliveTimer.create 60 0.

Lemma update_authentication_spec_witness :
  update_authentication cfg (kRememberMeCredential "expired") (Some "alice") 5000 timer =
    (AliveTimer.update_expiration_time false 5000 timer, R_update_authentication_success) /\
  AliveTimer.expiration_time_opt_ (AliveTimer.update_expiration_time false 5000 timer) = Some 65000 /\
  (exists s what, kRememberMeCredential "expired" = kRememberMeCredential s /\
     AuthBridge.verify_token adapter s = Raise what None).
Proof.
  split; [reflexivity|]. split; [reflexivity|].
  destruct (update_authentication_spec cfg adapter (kRememberMeCredential "expired") (Some "alice") 5000 timer eq_refl) as [H _].
  destruct (proj1 H eq_refl) as [(name & Hv & _)|[Ha|(s & cd & Hs & _)]]; [discriminate Hv|exact Ha|discriminate Hs].
Defined.

End HandshakeDemo.
