(* ===== verification/EndpointConfig.v ===== *)
(** The endpoints' configuration: the constructors of endpoint/common/worker_configuration.h,
    endpoint/ipc/bootstrap/ipc_listener.h and endpoint/stream/bootstrap/stream_listener.h, over
    the configuration of Configuration.v. *)
From stdpp Require Import gmap strings.
From S2P Require Import Prelude Configuration SimpleWire Connection Session WorkerPool IpcListener StreamListener Authentication Handshake.

Section EndpointConfig.
Context (iequals : string -> string -> bool).
(** [boost::lexical_cast<std::size_t>] and [<int>] *)
Context (to_size to_int : string -> option Z).

Abbreviation bool_of := (get_bool iequals).
Abbreviation size_of := (get to_size).

(** a property that has to be there *)
Definition required {A} (what : string) (r : res (option A)) : res A :=
  o ← r; match o with Some a => Ok a | None => Throw (runtime_error what) end.

(** * worker_configuration.h *)

(** the administrators of the configuration; a null section is dereferenced *)
Definition administrators_of (w : whole) : res Administrators.t :=
  match get_section "authentication" w with
  | None => Undefined
  | Some s =>
      enabled ← bool_of "enabled" s w;
      names ← Administrators.administrator_names enabled (get_string "administrators" s w);
      Administrators.of_names names
  end.

(** [bridge]: the authentication resource of the repository *)
Definition authentication_bridge (bridge : option (option Adapter_ops)) (w : whole) : res (option (option Adapter_ops)) :=
  match get_section "authentication" w with
  | None => Undefined
  | Some s =>
      enabled ← bool_of "enabled" s w;
      Ok (match enabled with Some true => bridge | _ => None end)
  end.

(** the blob relay: enabled, the endpoint of the server, whether it is secure, the parameters *)
Record blob_relay_setting : Type := BlobRelay { relay_endpoint : string; relay_secure : bool; relay_params : list (string * string) }.
Definition blob_relay_of (w : whole) : res (option blob_relay_setting) :=
  match get_section "grpc_server" w with
  | None => Ok None
  | Some grpc =>
      grpc_enabled ← bool_of "enabled" grpc w;
      let endpoint := get_string "endpoint" grpc w in
      secure ← bool_of "secure" grpc w;
      match grpc_enabled, endpoint, secure, get_section "blob_relay" w with
      | Some _, Some endpoint, Some secure, Some relay =>
          enabled ← bool_of "enabled" relay w;
          Ok (match enabled with
              | Some true =>
                  Some (BlobRelay endpoint secure
                          (match get_string "stream_chunk_size" relay w with Some v => [("stream_chunk_size", v)] | None => [] end))
              | _ => None
              end)
      | _, _, _, _ => Ok None
      end
  end.

(** the constructor; [blob_service]: whether the repository has a blob relay service *)
Definition new_configuration (con : connection_type) (bridge : option (option Adapter_ops)) (blob_service : bool) (w : whole) : res configuration :=
  auth ← authentication_bridge bridge w;
  admins ← administrators_of w;
  relay ← blob_relay_of w;
  Ok (Configuration con auth admins false false 0 0 0 (match relay with Some _ => true | None => false end) blob_service).

Definition set_authentication_timeout (timeout : Z) (c : configuration) : configuration :=
  Configuration (con_ c) (auth_ c) (administrators_ c) (enable_timeout_ c) (allow_blob_privileged_ c) (refresh_timeout_ c)
    (max_refresh_timeout_ c) timeout (blob_relay_enabled_ c) (blob_relay_service_ c).
Definition allow_blob_privileged (allow : bool) (c : configuration) : configuration :=
  Configuration (con_ c) (auth_ c) (administrators_ c) (enable_timeout_ c) allow (refresh_timeout_ c)
    (max_refresh_timeout_ c) (authentication_timeout_ c) (blob_relay_enabled_ c) (blob_relay_service_ c).

(** the timeouts of the section "session", with the messages for the two refresh timeouts *)
Definition session_timeouts (no_refresh no_max : string) (w : whole) (c : configuration) : res configuration :=
  match get_section "session" w with
  | None => Ok c
  | Some s =>
      enable_timeout ← required "cannot find enable_timeout at the session section in the configuration" (bool_of "enable_timeout" s w);
      c ← (if (enable_timeout : bool) then
             refresh ← required no_refresh (size_of "refresh_timeout" s w);
             max_refresh ← required no_max (size_of "max_refresh_timeout" s w);
             set_timeout refresh max_refresh c
           else Ok c);
      timeout ← required "cannot find authentication_timeout at the session section in the configuration" (size_of "authentication_timeout" s w);
      Ok (set_authentication_timeout timeout c)
  end.

(** * ipc_listener::ipc_listener *)

Record ipc_listener : Type := IpcListener_ {
  conf_ : configuration;
  database_name_ : string;
  datachannel_buffer_size_ : Z;
  max_datachannel_buffers_ : Z;
  maximum_sessions_ : Z;
  listener : IpcListener.t
}.

Definition at_ipc (name : string) : string := "cannot find " ++ name ++ " at the ipc_endpoint section in the configuration".

Definition new_ipc_listener (conf : configuration) (w : whole) : res ipc_listener :=
  match get_section "ipc_endpoint" w with
  | None => Throw (runtime_error "cannot find ipc_endpoint section in the configuration")
  | Some s =>
      database_name ← required (at_ipc "database_name") (Ok (get_string "database_name" s w));
      if bool_decide (database_name = "") then Throw (runtime_error "database_name in ipc_endpoint section should not be empty")
      else
        threads ← required (at_ipc "thread_pool_size") (size_of "threads" s w);
        buffer_size ← required (at_ipc "datachannel_buffer_size") (size_of "datachannel_buffer_size" s w);
        max_buffers ← required (at_ipc "max_datachannel_buffers") (size_of "max_datachannel_buffers" s w);
        admin_sessions ← required (at_ipc "admin_sessions") (size_of "admin_sessions" s w);
        if 255 <? admin_sessions then Throw (runtime_error "admin_sessions should be less than or equal to UINT8_MAX")
        else
          allow ← required (at_ipc "allow_blob_privileged") (bool_of "allow_blob_privileged" s w);
          conf ← session_timeouts "cannot find refresh_timeout at the session section in the configuration"
                   "cannot find max_refresh_timeout at the session section in the configuration" w (allow_blob_privileged allow conf);
          Ok (IpcListener_ conf database_name (u64 (buffer_size * 1024)) max_buffers (u64 (threads + admin_sessions))
                (IpcListener.create threads admin_sessions))
  end.

(** * stream_listener::stream_listener: a missing section, port or number of threads ends the process *)

Inductive constructed (A : Type) : Type := Constructed (r : res A) | Exit (status : Z).
Arguments Constructed {A} _.
Arguments Exit {A} _.

Record stream_listener : Type := StreamListener_ {
  sconf_ : configuration;
  port_ : Z;
  slistener : StreamListener.t
}.

(** a property, or exit(1) *)
Definition or_exit {A B} (r : res (option A)) (k : A -> constructed B) : constructed B :=
  match r with
  | Ok (Some a) => k a
  | Ok None => Exit 1
  | Throw e => Constructed (Throw e)
  | Undefined => Constructed Undefined
  end.

Definition new_stream_listener (conf : configuration) (w : whole) : constructed stream_listener :=
  match get_section "stream_endpoint" w with
  | None => Exit 1
  | Some s =>
      or_exit (get to_int "port" s w) (fun port =>
      or_exit (size_of "threads" s w) (fun threads =>
      Constructed (
        allow ← required (at_ipc "allow_blob_privileged") (bool_of "allow_blob_privileged" s w);
        conf ← session_timeouts "cannot find thread_pool_size at the session section in the configuration"
                 "cannot find thread_pool_size at the session section in the configuration" w (allow_blob_privileged allow conf);
        Ok (StreamListener_ conf port (StreamListener.create threads)))))
  end.

(** * What a listener that could be made is like *)

Lemma required_ok {A} what (r : res (option A)) a : required what r = Ok a -> r = Ok (Some a).
Proof. unfold required. destruct r as [[b|]|e|]; cbn; by intros [= ->]. Qed.

Lemma get_size_bounds name s w v :
  (forall str x, to_size str = Some x -> 0 <= x < 2 ^ 64) -> size_of name s w = Ok (Some v) -> 0 <= v < 2 ^ 64.
Proof.
  intros Hb Hg. unfold get, convert in Hg. repeat case_match; simplify_eq; by eapply Hb.
Qed.

(** timeouts that are on are at least two minutes *)
Definition timeouts_ok (c : configuration) : Prop := enable_timeout_ c = true -> 120 <= refresh_timeout_ c /\ 120 <= max_refresh_timeout_ c.

Lemma set_timeout_ok r m c c' : set_timeout r m c = Ok c' -> timeouts_ok c'.
Proof. unfold set_timeout. destruct (r <? 120) eqn:E1; [done|]. destruct (m <? 120) eqn:E2; [done|]. intros [= <-] _. cbn. lia. Qed.

Lemma session_timeouts_ok m1 m2 w c c' :
  session_timeouts m1 m2 w c = Ok c' -> timeouts_ok c ->
  timeouts_ok c' /\ auth_ c' = auth_ c /\ administrators_ c' = administrators_ c /\ allow_blob_privileged_ c' = allow_blob_privileged_ c.
Proof.
  unfold session_timeouts. destruct (get_section "session" w) as [s|]; [|by intros [= <-]].
  destruct (required _ (bool_of "enable_timeout" s w)) as [en| |]; cbn [mbind res_bind]; [|done..]. intros Hs Hc.
  assert (exists c1, (if en then refresh ← required m1 (size_of "refresh_timeout" s w); max_refresh ← required m2 (size_of "max_refresh_timeout" s w);
    set_timeout refresh max_refresh c else Ok c) = Ok c1 /\
    timeouts_ok c1 /\ auth_ c1 = auth_ c /\ administrators_ c1 = administrators_ c /\ allow_blob_privileged_ c1 = allow_blob_privileged_ c) as (c1 & E & H).
  { destruct en; [|by exists c]. destruct (required m1 _) as [r| |]; cbn [mbind res_bind] in *; [|done..].
    destruct (required m2 _) as [m| |]; cbn [mbind res_bind] in *; [|done..].
    destruct (set_timeout r m c) as [c1| |] eqn:Es; [|done..]. exists c1. split; [done|]. split; [by eapply set_timeout_ok|].
    unfold set_timeout in Es. repeat case_match; simplify_eq; done. }
  rewrite E in Hs. cbn [mbind res_bind] in Hs. destruct (required _ (size_of "authentication_timeout" s w)) as [t| |]; cbn [mbind res_bind] in Hs; [|done..].
  injection Hs as <-. exact H.
Qed.

(** C28: an IPC listener that its constructor has made has a name, at most 255 administrator
    sessions, the blob privilege and the buffer size (in bytes, as a size_t) of its section, and
    refresh timeouts that are off or at least two minutes.  All its slots are empty, and there
    are as many as the size_t sum of normal and administrator sessions: one per session, unless
    the number of threads in the configuration makes the sum wrap around, when there are fewer
    than administrator sessions. *)
Theorem ipc_listener_configured conf w l :
  (forall str x, to_size str = Some x -> 0 <= x < 2 ^ 64) -> timeouts_ok conf ->
  new_ipc_listener conf w = Ok l ->
  exists s threads admin_sessions buffer_size,
    get_section "ipc_endpoint" w = Some s /\ size_of "threads" s w = Ok (Some threads) /\ size_of "admin_sessions" s w = Ok (Some admin_sessions) /\
    size_of "datachannel_buffer_size" s w = Ok (Some buffer_size) /\
    database_name_ l <> "" /\ 0 <= threads /\ 0 <= admin_sessions < 256 /\
    listener l = IpcListener.create threads admin_sessions /\
    Forall (fun o => o = None) (workers_ (IpcListener.pool_ (listener l))) /\
    zlen (workers_ (IpcListener.pool_ (listener l))) = u64 (threads + admin_sessions) /\
    (if threads + admin_sessions <? 2 ^ 64
     then zlen (workers_ (IpcListener.pool_ (listener l))) = threads + admin_sessions
     else zlen (workers_ (IpcListener.pool_ (listener l))) < admin_sessions) /\
    datachannel_buffer_size_ l = u64 (buffer_size * 1024) /\
    bool_of "allow_blob_privileged" s w = Ok (Some (allow_blob_privileged_ (conf_ l))) /\
    timeouts_ok (conf_ l) /\ auth_ (conf_ l) = auth_ conf.
Proof.
  intros Hb Hc. unfold new_ipc_listener. destruct (get_section "ipc_endpoint" w) as [s|]; [|done].
  destruct (required _ (Ok (get_string "database_name" s w))) as [name| |] eqn:E1; cbn [mbind res_bind]; [|done..]. case_bool_decide as Hn; [done|].
  destruct (required _ (size_of "threads" s w)) as [threads| |] eqn:E2; cbn [mbind res_bind]; [|done..].
  destruct (required _ (size_of "datachannel_buffer_size" s w)) as [size| |] eqn:E3; cbn [mbind res_bind]; [|done..].
  destruct (required _ (size_of "max_datachannel_buffers" s w)) as [maxb| |] eqn:E4; cbn [mbind res_bind]; [|done..].
  destruct (required _ (size_of "admin_sessions" s w)) as [admin| |] eqn:E5; cbn [mbind res_bind]; [|done..].
  destruct (255 <? admin) eqn:E6; [done|].
  destruct (required _ (bool_of "allow_blob_privileged" s w)) as [allow| |] eqn:E7; cbn [mbind res_bind]; [|done..].
  destruct (session_timeouts _ _ _ _) as [conf'| |] eqn:E8; cbn [mbind res_bind]; [|done..]. intros [= <-].
  apply required_ok in E2, E3, E5, E7. apply session_timeouts_ok in E8 as (T1 & T2 & T3 & T4); [|done].
  pose proof (get_size_bounds _ _ _ _ Hb E2). pose proof (get_size_bounds _ _ _ _ Hb E5).
  exists s, threads, admin, size. cbn [database_name_ listener datachannel_buffer_size_ conf_ IpcListener.pool_ IpcListener.create workers_].
  rewrite T4. pose proof (wrap_range 64 (threads + admin) ltac:(lia)) as Hw. unfold in_range in Hw.
  assert (zlen (replicate (Z.to_nat (u64 (threads + admin))) (None : option nat)) = u64 (threads + admin)) as El
    by (unfold zlen; rewrite length_replicate; lia).
  split_and!; try done; try lia; [by apply Forall_replicate|].
  rewrite El. destruct (Z.ltb_spec (threads + admin) (2 ^ 64)); [by apply wrap_small; unfold in_range; lia|].
  unfold wrap. rewrite <- (Z.mod_add _ (-1)) by lia. rewrite Z.mod_small by lia. lia.
Qed.

End EndpointConfig.

(** * A concrete configuration *)
Module EndpointConfigDemo.
Import ConfigurationDemo.

Fixpoint digits (acc : Z) (s : string) : option Z :=
  match s with
  | EmptyString => Some acc
  | String c s =>
      let d := Z.of_nat (Ascii.nat_of_ascii c) - 48 in
      if (0 <=? d) && (d <=? 9) && (acc * 10 + d <? 2 ^ 64) then digits (acc * 10 + d) s else None
  end.
Definition to_size (s : string) : option Z := digits 0 s.
Definition iequals (a b : string) : bool := bool_decide (a = b).

Lemma digits_bounds acc s x : 0 <= acc < 2 ^ 64 -> digits acc s = Some x -> 0 <= x < 2 ^ 64.
Proof.
  revert acc. induction s as [|c s IH]; intros acc Ha; cbn [digits]; [intros [= <-]; done|].
  destruct (_ && _) eqn:E; [|done]. apply andb_true_iff in E as [[E1 E2]%andb_true_iff E3]. apply IH. lia.
Qed.

(** the name is set, as the file of the demonstration leaves it empty *)
Definition w1 : whole := Eval vm_compute in snd (set "database_name" "db" ConfigurationDemo.ipc ConfigurationDemo.w).
Definition conf : configuration := Configuration Handshake.ipc None (Administrators.Make [] true) false false 0 0 0 false false.
Definition l : ipc_listener :=
  Eval vm_compute in match new_ipc_listener iequals to_size conf w1 with
                     | Ok l => l | _ => IpcListener_ conf "" 0 0 0 (IpcListener.create 0 0) end.

Lemma ipc_listener_configured_witness :
  new_ipc_listener iequals to_size conf w1 = Ok l /\ datachannel_buffer_size_ l = 65536 /\
  zlen (workers_ (IpcListener.pool_ (listener l))) = 9 /\ timeouts_ok (conf_ l) /\ refresh_timeout_ (conf_ l) = 300.
Proof.
  assert (new_ipc_listener iequals to_size conf w1 = Ok l) as Hl by (vm_compute; reflexivity).
  destruct (ipc_listener_configured iequals to_size conf w1 l ltac:(intros str x; apply digits_bounds; lia) ltac:(intros H; discriminate H) Hl)
    as (s & threads & admin & size & _ & _ & _ & _ & _ & _ & _ & _ & _ & _ & _ & _ & _ & H & _).
  split; [exact Hl|]. split; [reflexivity|]. split; [reflexivity|]. split; [exact H|reflexivity].
Defined.

End EndpointConfigDemo.
