(* ===== verification/Endpoint.v ===== *)
(** The endpoints as components of the server (src/tateyama/endpoint/ipc/bootstrap/ipc_endpoint.h,
    src/tateyama/endpoint/stream/bootstrap/stream_endpoint.h) and the diagnostics resource they
    use (src/tateyama/diagnostic/resource/diagnostic_resource.cpp).

    An endpoint makes its listener when it is set up, runs it on a thread of its own when it is
    started, and when it is shut down asks it to terminate and joins the thread.  Between, it
    registers the listener with the request service and a callback with the diagnostics
    resource.  The listener is any instance of the class [Listener]; those of IpcListener and
    StreamListener are instances. *)
From stdpp Require Import gmap strings.
From S2P Require Import Prelude Configuration SimpleWire Connection Session WorkerPool IpcListener StreamListener Authentication Handshake EndpointConfig.

Arguments Constructed {A} _.
Arguments Exit {A} _.

(** * diagnostic_resource *)

Module Diagnostic.
Section Diagnostic.
(** a callback *)
Context {F : Type}.

Definition add_print_callback (id : string) (func : F) (handlers_ : list (string * F)) : list (string * F) :=
  if existsb (fun e => bool_decide (e.1 = id)) handlers_ then handlers_ else handlers_ ++ [(id, func)].
Definition remove_print_callback (id : string) (handlers_ : list (string * F)) : list (string * F) := filter (fun e => e.1 <> id) handlers_.

(** [print_diagnostics]: the callbacks in the order of their registration, when nobody else runs *)
Fixpoint print_diagnostics {St} (call : F -> St -> res St) (handlers_ : list (string * F)) (out : St) : res St :=
  match handlers_ with [] => Ok out | e :: l => out ← call e.2 out; print_diagnostics call l out end.

(** [print_diagnostics] goes over [handlers_] without the mutex of the other two: between two
    callbacks, with those still to be called, or within a callback *)
Inductive printer : Type := Idle | Next (rest : list (string * F)) | Within (f : F) (rest : list (string * F)).
(** a callback is called, and returns: [call] tells what becomes of its uses of the pointer *)
Definition print_step (call : F -> res unit) (p : printer) : option (res printer) :=
  match p with
  | Idle => None
  | Next [] => Some (Ok Idle)
  | Next (e :: rest) => Some (_ ← call e.2; Ok (Within e.2 rest))
  | Within f rest => Some (_ ← call f; Ok (Next rest))
  end.
(** the vector changes: a data race with an iteration that is under way *)
Definition modify (p : printer) (before after : list (string * F)) : res (list (string * F)) :=
  match p with Idle => Ok after | _ => if (length after =? length before)%nat then Ok before else Undefined end.

Lemma add_names id f h : map fst (add_print_callback id f h) = (if decide (id ∈ map fst h) then map fst h else map fst h ++ [id]).
Proof.
  unfold add_print_callback. destruct (existsb _ h) eqn:E.
  - apply existsb_exists in E as (e & Hin & Hb%bool_decide_eq_true). rewrite decide_True; [done|]. subst id.
    apply list_elem_of_In, in_map, Hin.
  - rewrite decide_False; [by rewrite map_app|]. intros (e & -> & Hin)%list_elem_of_fmap. apply not_true_iff_false in E. apply E.
    apply existsb_exists. exists e. split; [by apply list_elem_of_In|]. by apply bool_decide_eq_true.
Qed.
Lemma remove_names id h : id ∉ map fst (remove_print_callback id h).
Proof. intros (e & -> & Hin)%list_elem_of_fmap. by apply list_elem_of_filter in Hin as [? _]. Qed.
(** a name has one callback at most *)
Lemma add_unique id f h : NoDup (map fst h) -> NoDup (map fst (add_print_callback id f h)).
Proof.
  intros Hn. rewrite add_names. case_decide as Hin; [done|]. apply NoDup_app. split_and!; [done|set_solver|]. apply NoDup_singleton.
Qed.
Lemma remove_unique id h : NoDup (map fst h) -> NoDup (map fst (remove_print_callback id h)).
Proof.
  unfold remove_print_callback. induction h as [|e h IH]; [done|]. cbn [map]. rewrite NoDup_cons. intros [He Hn].
  rewrite filter_cons. case_decide; [|by apply IH]. cbn [map]. apply NoDup_cons. split; [|by apply IH].
  intros (e' & Ee & [_ Hin]%list_elem_of_filter)%list_elem_of_fmap. apply He. rewrite Ee. by apply list_elem_of_fmap_2.
Qed.
End Diagnostic.
End Diagnostic.

(** * What an endpoint needs of its listener *)

Class Listener (L : Type) := {
  (** a step of the listener's thread or of one of its sessions *)
  lstep : L -> L -> Prop;
  terminate : L -> L;
  (** operator() has returned; no session has a thread *)
  stopped : L -> bool;
  quiet : L -> Prop;
  reached : nat -> L -> Prop;
  reached_step k l l' : reached k l -> lstep l l' -> reached (S k) l';
  reached_terminate k l : reached k l -> reached (S k) (terminate l);
  stopped_quiet k l : Z.of_nat k <= 2 ^ 60 -> reached k l -> stopped l = true -> quiet l
}.

Definition is_stopped (p : listener_phase) : bool := match p with Stopped => true | _ => false end.
Definition all_finished (p : pool) : Prop := forall id th, threads p !! id = Some th -> stg th = Finished.

Program Instance ipc_Listener (n as_n : Z) (H : 0 <= n /\ 0 < as_n < 256 /\ n + as_n < 2 ^ 32) : Listener IpcListener.t := {|
  lstep s s' := exists a, IpcListener.enabled a s /\ IpcListener.step a s = Ok s';
  terminate s := IpcListener.with_queue (ConnectionQueue.request_terminate (IpcListener.queue s)) s;
  stopped s := is_stopped (IpcListener.lphase s);
  quiet s := all_finished (IpcListener.pool_ s);
  reached k s := IpcListener.reachable n as_n k s
|}.
Next Obligation. intros n as_n _ k l l' Hr (a & He & Hs). by eapply IpcListener.reach_action. Qed.
Next Obligation. intros n as_n _ k l Hr. by eapply (IpcListener.reach_action n as_n k l IpcListener.Li_terminate). Qed.
Next Obligation.
  cbn. intros n as_n (H1 & H2 & H3) k l Hk Hr Hs id th Ht.
  pose proof (IpcListener.listener_reachable_inv n as_n H1 H2 H3 k l Hr ltac:(lia)) as Hl.
  pose proof (IpcListener.reachable_phase n as_n H1 H2 H3 k l Hr ltac:(lia)) as Hp. unfold IpcListener.phase_ok in Hp.
  destruct (IpcListener.lphase l); try done. by eapply (ended_stopped IpcListener.idx); [apply Hl|done|].
Qed.

(** the termination of the stream listener goes through a pipe, which its accept() sees *)
Program Instance stream_Listener (n : Z) (H : 0 <= n) : Listener StreamListener.t := {|
  lstep s s' := exists a, StreamListener.enabled a s /\ StreamListener.step a s = s';
  terminate s := s;
  stopped s := is_stopped (StreamListener.lphase s);
  quiet s := all_finished (StreamListener.pool_ s);
  reached k s := exists k', (k' <= k)%nat /\ StreamListener.reachable n k' s
|}.
Next Obligation. intros n _ k l l' (k' & Hk & Hr) (a & He & <-). exists (S k'). split; [lia|]. by eapply StreamListener.reach_action. Qed.
Next Obligation. intros n _ k l (k' & Hk & Hr). exists k'. split; [lia|done]. Qed.
Next Obligation.
  cbn. intros n H k l Hk (k' & Hle & Hr) Hs id th Ht.
  pose proof (StreamListener.stream_listener_inv n H k' l Hr ltac:(lia)) as Hl.
  pose proof (StreamListener.stream_ended n H k' l Hr ltac:(lia)) as Hp.
  destruct (StreamListener.lphase l); try done. by eapply (ended_stopped StreamListener.idx); [apply Hl|done|].
Qed.

(** * The components *)

Section Endpoint.
Context {L : Type} {HL : Listener L}.
(** the name of the callback, and whether the repositories have the request service and the
    diagnostics resource *)
Context (name : string) (request_service diagnostic_resource : bool).

(** where the thread that calls setup(), start() and shutdown() is: before setup(), after it,
    in start() (at the barrier, at the registration with the request service and with the
    diagnostics resource), after it, in shutdown() (waiting for the thread, at the reset of the
    pointer, at the removal of the callback), and after it *)
Inductive call_phase : Type :=
| New | Ready | Failed
| Starting | Registering | Adding | Started
| Joining | Resetting | Removing | Down.
#[global] Instance call_phase_eq : EqDecision call_phase := ltac:(solve_decision).

Record t : Type := Make {
  enabled_ : bool;
  listener_ : bool;                        (* the pointer is not null *)
  object : option L;                       (* the listener made *)
  listener_thread_ : bool;                 (* joinable *)
  phase : call_phase;
  listeners_ : list string;                (* the request service's listeners *)
  handlers_ : list (string * string);      (* the callbacks; that of the endpoint [name] uses its pointer *)
  ticks : nat;
  ran : bool;                              (* the thread was made *)
  printer_ : Diagnostic.printer (F := string)  (* the thread that prints diagnostics *)
}.

Definition goto (p : call_phase) (s : t) : t :=
  Make (enabled_ s) (listener_ s) (object s) (listener_thread_ s) p (listeners_ s) (handlers_ s) (ticks s) (ran s) (printer_ s).

(** setup(): std::make_shared of the listener; an exception makes it return false *)
Definition made (r : res L) (s : t) : res (bool * t) :=
  match r with
  | Ok l => Ok (true, Make (enabled_ s) true (Some l) (listener_thread_ s) Ready (listeners_ s) (handlers_ s) 0 (ran s) (printer_ s))
  | Throw _ => Ok (false, goto Failed s)
  | Undefined => Undefined
  end.
Definition ipc_setup (new_listener : res L) (s : t) : res (bool * t) := made new_listener s.

(** the stream endpoint: a null section is dereferenced; the constructor may end the process *)
Definition stream_setup (iequals : string -> string -> bool) (w : whole) (new_listener : constructed L) (s : t) : constructed (bool * t) :=
  match get_section "stream_endpoint" w with
  | None => Constructed Undefined
  | Some sec =>
      match get_bool iequals "enabled" sec w with
      | Undefined => Constructed Undefined
      | Throw _ => Constructed (Ok (false, goto Failed s))
      | Ok o =>
          let s := Make (default (enabled_ s) o) (listener_ s) (object s) (listener_thread_ s) (phase s) (listeners_ s) (handlers_ s) (ticks s) (ran s) (printer_ s) in
          if enabled_ s then
            match new_listener with Constructed r => Constructed (made r s) | Exit status => Exit status end
          else Constructed (Ok (true, goto Ready s))
      end
  end.

(** start(): the thread; a null listener is dereferenced *)
Definition start (s : t) : res t :=
  if enabled_ s then
    if listener_ s then Ok (Make true true (object s) true Starting (listeners_ s) (handlers_ s) (ticks s) true (printer_ s)) else Undefined
  else Ok (goto Started s).
Definition register (s : t) : t :=
  Make (enabled_ s) (listener_ s) (object s) (listener_thread_ s) Adding
    (if request_service then listeners_ s ++ [name] else listeners_ s) (handlers_ s) (ticks s) (ran s) (printer_ s).
Definition with_handlers (p : call_phase) (hs : list (string * string)) (s : t) : t :=
  Make (enabled_ s) (listener_ s) (object s) (listener_thread_ s) p (listeners_ s) hs (ticks s) (ran s) (printer_ s).
Definition add_callback (s : t) : res t :=
  hs ← Diagnostic.modify (printer_ s) (handlers_ s)
         (if diagnostic_resource then Diagnostic.add_print_callback name name (handlers_ s) else handlers_ s);
  Ok (with_handlers Started hs s).

(** shutdown(): terminate(), then join() *)
Definition shutdown (s : t) : t :=
  if enabled_ s then
    if listener_thread_ s then
      Make true (listener_ s) (if listener_ s then terminate <$> object s else object s) true Joining (listeners_ s) (handlers_ s) (S (ticks s)) (ran s) (printer_ s)
    else goto Resetting s
  else goto Down s.
Definition joined (s : t) : t :=
  Make (enabled_ s) (listener_ s) (object s) false Resetting (listeners_ s) (handlers_ s) (ticks s) (ran s) (printer_ s).
Definition reset (s : t) : t :=
  Make (enabled_ s) false (object s) (listener_thread_ s) Removing (listeners_ s) (handlers_ s) (ticks s) (ran s) (printer_ s).
Definition remove_callback (s : t) : res t :=
  hs ← Diagnostic.modify (printer_ s) (handlers_ s)
         (if diagnostic_resource then Diagnostic.remove_print_callback name (handlers_ s) else handlers_ s);
  Ok (with_handlers Down hs s).

(** print_diagnostics() on another thread: the callback of this endpoint uses its pointer, when
    it is called and until it returns *)
Definition callback (s : t) (owner : string) (out : list string) : res (list string) :=
  if bool_decide (owner = name) then (if listener_ s then Ok (out ++ [owner]) else Undefined) else Ok (out ++ [owner]).
Definition print (s : t) : res (list string) := Diagnostic.print_diagnostics (callback s) (handlers_ s) [].
Definition use (s : t) (owner : string) : res unit := _ ← callback s owner []; Ok tt.
Definition with_printer (p : Diagnostic.printer) (s : t) : t :=
  Make (enabled_ s) (listener_ s) (object s) (listener_thread_ s) (phase s) (listeners_ s) (handlers_ s) (ticks s) (ran s) p.
Definition print_begin (s : t) : option (res t) :=
  match printer_ s with Diagnostic.Idle => Some (Ok (with_printer (Diagnostic.Next (handlers_ s)) s)) | _ => None end.
Definition print_next (s : t) : option (res t) :=
  match Diagnostic.print_step (use s) (printer_ s) with Some r => Some (p ← r; Ok (with_printer p s)) | None => None end.

Inductive label : Type :=
| Main                       (* the next step of the call, or the next call *)
| Early_shutdown             (* shutdown() instead of start() *)
| Listen (l' : L)            (* a step of the listener *)
| Print                      (* diagnostics are printed, all in one step *)
| Print_begin | Print_next.  (* the same, one callback after the other *)

(** the framework calls start() after a successful setup(), and shutdown() at any time between
    two calls, also again *)
Definition step (l : label) (s : t) : option (res t) :=
  match l, phase s with
  | Main, New | Main, Failed | Main, Started | Main, Down => Some (Ok (shutdown s))
  | Main, Ready => Some (start s)
  | Early_shutdown, Ready => Some (Ok (shutdown s))
  | Main, Starting => Some (Ok (goto Registering s))
  | Main, Registering => Some (Ok (register s))
  | Main, Adding => Some (add_callback s)
  | Main, Joining => match object s with Some o => if stopped o then Some (Ok (joined s)) else None | None => None end
  | Main, Resetting => Some (Ok (reset s))
  | Main, Removing => Some (remove_callback s)
  | Listen l', _ =>
      if listener_thread_ s
      then Some (Ok (Make (enabled_ s) (listener_ s) (Some l') true (phase s) (listeners_ s) (handlers_ s) (S (ticks s)) (ran s) (printer_ s))) else None
  | Print, _ => Some (_ ← print s; Ok s)
  | Print_begin, _ => print_begin s
  | Print_next, _ => print_next s
  | _, _ => None
  end.
Definition label_ok (l : label) (s : t) : Prop :=
  match l with Listen l' => exists o, object s = Some o /\ lstep o l' | _ => True end.

(** setup() of either endpoint, then any execution *)
Definition new_endpoint (ls : list string) (hs : list (string * string)) : t := Make true false None false New ls hs 0 false Diagnostic.Idle.

Inductive reachable (s0 : t) : t -> Prop :=
| reach_initial : reachable s0 s0
| reach_step s l s' : reachable s0 s -> label_ok l s -> step l s = Some (Ok s') -> reachable s0 s'.

(** ** Properties *)

(** the callbacks of others have other names, and use other pointers *)
Definition proper (hs : list (string * string)) : Prop := Forall (fun e => e.1 = name <-> e.2 = name) hs.
Definition has_callback (s : t) : Prop := (name, name) ∈ handlers_ s.

(** what setup() of either endpoint leaves *)
Definition set_up (s : t) : Prop :=
  listener_thread_ s = false /\ ran s = false /\ ticks s = 0%nat /\ printer_ s = Diagnostic.Idle /\ proper (handlers_ s) /\
  name ∉ map fst (handlers_ s) /\
  match phase s with
  | Ready => if enabled_ s then listener_ s = true /\ exists l, object s = Some l /\ reached 0 l else listener_ s = false /\ object s = None
  | New | Failed => listener_ s = false /\ object s = None
  | _ => False
  end.

Lemma made_set_up r ls hs b s :
  proper hs -> name ∉ map fst hs -> (forall l, r = Ok l -> reached 0 l) -> made r (new_endpoint ls hs) = Ok (b, s) -> set_up s.
Proof.
  intros Hp Hn Hr. destruct r as [l| |]; cbn; intros [= <- <-]; split_and!; try done. cbn. split; [done|]. exists l. auto.
Qed.
Lemma stream_set_up iequals w r ls hs b s :
  proper hs -> name ∉ map fst hs -> (forall l, r = Constructed (Ok l) -> reached 0 l) ->
  stream_setup iequals w r (new_endpoint ls hs) = Constructed (Ok (b, s)) -> set_up s.
Proof.
  intros Hp Hn Hr. unfold stream_setup. destruct (get_section _ w) as [sec|]; [|done].
  destruct (get_bool iequals "enabled" sec w) as [o| |]; try done.
  - cbn. destruct (default true o); [|intros [= <- <-]; by split_and!].
    destruct r as [r|]; [|done]. destruct r as [l| |]; cbn; intros [= <- <-]; split_and!; try done. cbn. split; [done|]. exists l. auto.
  - intros [= <- <-]. by split_and!.
Qed.

Definition runs (s : t) : Prop := enabled_ s = true /\ listener_thread_ s = true /\ listener_ s = true /\ is_Some (object s) /\ ran s = true.
Definition over (s : t) : Prop := listener_thread_ s = false /\ (ran s = true -> exists l, object s = Some l /\ stopped l = true).

Record inv (s : t) : Prop := {
  i_reached : forall l, object s = Some l -> reached (ticks s) l;
  i_proper : proper (handlers_ s);
  i_phase :
    match phase s with
    | New | Failed => over s /\ ran s = false /\ listener_ s = false /\ ~ has_callback s
    | Ready => over s /\ ran s = false /\ ~ has_callback s /\ (if enabled_ s then listener_ s = true /\ is_Some (object s) else listener_ s = false)
    | Starting | Registering | Adding => runs s /\ ~ has_callback s
    | Started => if enabled_ s then runs s else over s /\ listener_ s = false /\ ~ has_callback s
    | Joining => runs s
    | Resetting => over s /\ (has_callback s -> listener_ s = true)
    | Removing => over s /\ listener_ s = false
    | Down => over s /\ listener_ s = false /\ (diagnostic_resource = true -> ~ has_callback s)
    end;
  i_callback : diagnostic_resource = false -> ~ has_callback s;
  (** what is still to be called is registered *)
  i_printer :
    match printer_ s with
    | Diagnostic.Idle => True
    | Diagnostic.Next rest => rest ⊆ handlers_ s
    | Diagnostic.Within f rest => (f = name -> has_callback s) /\ rest ⊆ handlers_ s
    end
}.

Lemma set_up_inv s : set_up s -> inv s.
Proof.
  intros (H1 & H2 & H3 & H0 & H4 & H5 & H6). assert (~ has_callback s) as Hc.
  { intros Hc. apply H5. apply list_elem_of_fmap. by exists (name, name). }
  assert (over s) by (split; [done|by rewrite H2]). split; try done.
  - intros l Hl. rewrite H3. destruct (phase s), (enabled_ s); naive_solver.
  - destruct (phase s); try naive_solver. destruct (enabled_ s); naive_solver.
  - by rewrite H0.
Qed.

(** the vector is changed by nobody else: it is as asked for, or an iteration is under way *)
Lemma modify_cases (p : Diagnostic.printer (F := string)) before after :
  (exists hs, Diagnostic.modify p before after = Ok hs /\ (p = Diagnostic.Idle /\ hs = after \/ hs = before /\ length after = length before)) \/
  (p <> Diagnostic.Idle /\ Diagnostic.modify p before after = Undefined).
Proof.
  destruct p; cbn [Diagnostic.modify]; [left; eauto|..]; destruct (Nat.eqb_spec (length after) (length before)); [left; eauto|by right|left; eauto|by right].
Qed.

Lemma callback_added s : proper (handlers_ s) -> ~ has_callback s ->
  proper (Diagnostic.add_print_callback name name (handlers_ s)) /\ (name, name) ∈ Diagnostic.add_print_callback name name (handlers_ s).
Proof.
  intros Hp Hc. unfold Diagnostic.add_print_callback. destruct (existsb _ _) eqn:E.
  - apply existsb_exists in E as (e & Hin%list_elem_of_In & He%bool_decide_eq_true). destruct Hc. unfold has_callback, proper in *.
    rewrite Forall_forall in Hp. destruct (Hp e Hin) as [Hp1 _]. destruct e as [a b]. cbn in *. by rewrite He, (Hp1 He) in Hin.
  - split; [apply Forall_app; split; [done|by apply Forall_singleton]|]. apply elem_of_app. right. by apply list_elem_of_singleton.
Qed.
Lemma callback_removed hs : proper hs ->
  proper (Diagnostic.remove_print_callback name hs) /\ (name, name) ∉ Diagnostic.remove_print_callback name hs.
Proof.
  intros Hp. unfold Diagnostic.remove_print_callback. split; [|by intros [? _]%list_elem_of_filter].
  unfold proper in *. rewrite Forall_forall in *. intros e [_ He]%list_elem_of_filter. by apply Hp.
Qed.

Lemma print_ok s : proper (handlers_ s) -> (has_callback s -> listener_ s = true) -> exists out, print s = Ok out.
Proof.
  unfold print, has_callback, proper. generalize (@nil string). generalize (handlers_ s). induction l as [|[a b] l IH]; intros out Hp Hc; cbn [Diagnostic.print_diagnostics snd]; [by eexists|].
  apply Forall_cons in Hp as [He Hp]. cbn [fst snd] in He.
  assert (callback s b out = Ok (out ++ [b])) as ->.
  { unfold callback. destruct (bool_decide_reflect (b = name)) as [Eb|Eb]; [|done].
    rewrite Hc; [done|]. rewrite Eb, (proj2 He Eb). set_solver. }
  cbn [mbind res_bind]. apply IH; [done|]. intros. apply Hc. set_solver.
Qed.
Lemma print_race s : has_callback s -> listener_ s = false -> print s = Undefined.
Proof.
  unfold print, has_callback. intros Hc Hl. revert Hc. generalize (@nil string). generalize (handlers_ s).
  induction l as [|[a b] l IH]; intros out; [set_solver|]. cbn [Diagnostic.print_diagnostics snd].
  destruct (decide (b = name)) as [Eb|Eb].
  - assert (callback s b out = Undefined) as -> by (unfold callback; by rewrite bool_decide_true, Hl). done.
  - assert (callback s b out = Ok (out ++ [b])) as -> by (unfold callback; by rewrite bool_decide_false).
    intros [[= <- <-]|?]%elem_of_cons; [done|]. by apply IH.
Qed.

Lemma inv_shutdown s : inv s ->
  match phase s with New | Ready | Failed | Started | Down => True | _ => False end -> inv (shutdown s).
Proof.
  intros [Hr Hp Hph Hc Hpr] Hx. unfold shutdown. destruct (enabled_ s) eqn:Ee; [destruct (listener_thread_ s) eqn:Et|].
  - destruct (phase s) eqn:Ep; try done; try (by destruct Hph as [[? _] _]; congruence).
    destruct Hph as (_ & _ & Hl & (o & Ho) & Hran). rewrite Hl, Ho. split; cbn; try done.
    intros l [= <-]. apply reached_terminate. by apply Hr.
  - assert (over s /\ ~ has_callback s) as [Ho Hn].
    { destruct (phase s); try done; try tauto; [destruct Hph as (_ & ? & _); congruence|]. destruct diagnostic_resource; tauto. }
    by split.
  - assert (over s /\ listener_ s = false /\ ~ has_callback s) as (Ho & Hl & Hn).
    { destruct (phase s); try done; try tauto. destruct diagnostic_resource; tauto. }
    by split.
Qed.

Lemma inv_start s : inv s -> phase s = Ready -> exists s', start s = Ok s' /\ inv s'.
Proof.
  intros [Hr Hp Hph Hc Hpr] Ep. rewrite Ep in Hph. destruct Hph as (Hov & Hran & Hnc & Hx). unfold start.
  destruct (enabled_ s) eqn:Ee; [destruct Hx as [-> Ho]|]; eexists; (split; [done|]); split; cbn; rewrite ?Ee; done.
Qed.
Lemma inv_add s : inv s -> phase s = Adding ->
  (exists s', add_callback s = Ok s' /\ inv s') \/ (printer_ s <> Diagnostic.Idle /\ add_callback s = Undefined).
Proof.
  intros [Hr Hp Hph Hc Hpr] Ep. rewrite Ep in Hph. destruct Hph as [Hrun Hnc]. destruct (callback_added s Hp Hnc) as [Ha1 Ha2].
  unfold add_callback. destruct (modify_cases (printer_ s) (handlers_ s)
    (if diagnostic_resource then Diagnostic.add_print_callback name name (handlers_ s) else handlers_ s)) as [(hs & -> & Hm)|[? ->]]; [left|by right].
  eexists. split; [done|]. pose proof Hrun as (He & _). assert (proper hs) as Hph by (destruct Hm as [[_ ->]|[-> _]]; by try destruct diagnostic_resource).
  split; cbn; try done; [by rewrite He|..].
  - intros Hd. unfold has_callback in *. cbn. rewrite Hd in *. destruct Hm as [[_ ->]|[-> _]]; by apply Hc.
  - destruct Hm as [[-> _]|[-> _]]; [done|]. by destruct (printer_ s).
Qed.
Lemma inv_join s l : inv s -> phase s = Joining -> object s = Some l -> stopped l = true -> inv (joined s).
Proof.
  intros [Hr Hp Hph Hc Hpr] Ep Eo Es. rewrite Ep in Hph. destruct Hph as (? & ? & Hl & _ & _). split; cbn; try done.
  split; [|by intros]. split; [done|]. cbn. intros _. by exists l.
Qed.
Lemma inv_remove s : inv s -> phase s = Removing ->
  (exists s', remove_callback s = Ok s' /\ inv s') \/ (printer_ s <> Diagnostic.Idle /\ remove_callback s = Undefined).
Proof.
  intros [Hr Hp Hph Hc Hpr] Ep. rewrite Ep in Hph. destruct Hph as [? ?]. destruct (callback_removed (handlers_ s) Hp) as [Hr1 Hr2].
  unfold remove_callback. destruct (modify_cases (printer_ s) (handlers_ s)
    (if diagnostic_resource then Diagnostic.remove_print_callback name (handlers_ s) else handlers_ s)) as [(hs & -> & Hm)|[? ->]]; [left|by right].
  eexists. split; [done|]. assert (proper hs) as Hph by (destruct Hm as [[_ ->]|[-> _]]; by try destruct diagnostic_resource).
  split; cbn; try done.
  - split_and!; try done. intros Hd. unfold has_callback. cbn. rewrite Hd in Hm. destruct Hm as [[_ ->]|[-> Hl]]; [done|].
    intros Hin. pose proof (length_filter_lt (fun e : string * string => e.1 <> name) (handlers_ s) (name, name) Hin ltac:(by intros [])) as Hlt.
    unfold Diagnostic.remove_print_callback in Hl. lia.
  - intros Hd. unfold has_callback in *. cbn. rewrite Hd in *. destruct Hm as [[_ ->]|[-> _]]; by apply Hc.
  - destruct Hm as [[-> _]|[-> _]]; [done|]. by destruct (printer_ s).
Qed.
Lemma inv_listen s l l' : inv s -> object s = Some l -> lstep l l' -> listener_thread_ s = true ->
  inv (Make (enabled_ s) (listener_ s) (Some l') true (phase s) (listeners_ s) (handlers_ s) (S (ticks s)) (ran s) (printer_ s)).
Proof.
  intros [Hr Hp Hph Hc Hpr] Ho Hs Et. split; cbn; try done.
  - intros x [= <-]. eapply reached_step; [by apply Hr|done].
  - destruct (phase s); unfold runs, over in *; cbn in *; try (by destruct Hph as [[? _] _]; congruence);
      try (by destruct Hph as ((? & ? & ? & ? & ?) & ?); eauto 10); try (by destruct Hph as (? & ? & ? & ? & ?); eauto 10).
    destruct (enabled_ s); [by destruct Hph as (? & ? & ? & ? & ?); eauto 10|]. by destruct Hph as [[? _] _]; congruence.
Qed.
(** only between the reset of the pointer and the removal of the callback *)
Lemma inv_print s : inv s -> phase s <> Removing -> exists out, print s = Ok out.
Proof.
  intros [Hr Hp Hph Hc Hpr] Er. apply (print_ok s Hp). intros Hcb. destruct (phase s); try done; try tauto; try (by destruct Hph as [(_ & _ & ? & _) ?]).
  - destruct (enabled_ s); [by destruct Hph as (_ & _ & ? & _)|tauto].
  - by destruct Hph as (_ & _ & ? & _).
  - destruct diagnostic_resource; tauto.
Qed.

(** a step of the thread that prints *)
Lemma use_ok s owner : (owner = name -> listener_ s = true) -> use s owner = Ok tt.
Proof.
  intros Hl. unfold use, callback. destruct (bool_decide_reflect (owner = name)) as [E|]; [|done]. by rewrite (Hl E).
Qed.
Lemma use_cases s owner : use s owner = Ok tt \/ use s owner = Undefined.
Proof. unfold use, callback. repeat case_match; cbn; auto. Qed.
Lemma registered s e : proper (handlers_ s) -> e ∈ handlers_ s -> e.2 = name -> has_callback s.
Proof.
  unfold proper, has_callback. rewrite Forall_forall. intros Hp Hin He. pose proof (proj2 (Hp e Hin) He) as Ha. destruct e as [a b]. cbn in *. by subst.
Qed.
Lemma inv_print_next s x : inv s -> print_next s = Some x ->
  (exists s', x = Ok s' /\ inv s') \/ (phase s = Removing /\ x = Undefined).
Proof.
  intros Hi. pose proof Hi as [Hr Hp Hph Hc Hpr]. unfold print_next.
  assert (forall owner, (owner = name -> has_callback s) -> use s owner = Ok tt \/ (phase s = Removing /\ use s owner = Undefined)) as Hu.
  { intros owner Ho. destruct (decide (phase s = Removing)) as [Er|Er]; [by destruct (use_cases s owner); auto|left].
    apply use_ok. intros Hcb%Ho. destruct (phase s); try done; try tauto; try (by destruct Hph as [(_ & _ & ? & _) ?]).
    - destruct (enabled_ s); [by destruct Hph as (_ & _ & ? & _)|tauto].
    - by destruct Hph as (_ & _ & ? & _).
    - destruct diagnostic_resource; tauto. }
  destruct (printer_ s) as [|[|e rest]|f rest] eqn:Epr; cbn [Diagnostic.print_step]; intros [= <-]; [..|].
  - left. eexists. split; [done|]. by split.
  - destruct (Hu e.2) as [->|[? ->]]; [|left|by right].
    + apply registered; [done|]. apply Hpr. set_solver.
    + eexists. split; [done|]. split; try done. cbn. split; [|set_solver]. apply (registered s); [done|]. apply Hpr. set_solver.
  - destruct Hpr as [Hf Hrest]. destruct (Hu f Hf) as [->|[? ->]]; [left|by right]. eexists. split; [done|]. by split.
Qed.

(** a step that goes wrong: one of the printing thread, or one that meets it *)
Definition hazard (l : label) (s : t) : Prop :=
  match l with
  | Print | Print_next => phase s = Removing
  | Main => (phase s = Adding \/ phase s = Removing) /\ printer_ s <> Diagnostic.Idle
  | _ => False
  end.

Lemma endpoint_inv_step s l x : inv s -> label_ok l s -> step l s = Some x ->
  (exists s', x = Ok s' /\ inv s') \/ (hazard l s /\ x = Undefined).
Proof.
  intros Hi Hok. pose proof Hi as [Hr Hp Hph Hc Hpr]. destruct l as [| |l'| | |]; cbn [step].
  - destruct (phase s) eqn:Ep; intros E;
      try (left; injection E as <-; eexists; split; [done|]; apply inv_shutdown; [done|by rewrite Ep]).
    + injection E as <-. left. by apply inv_start.
    + injection E as <-. left. eexists. split; [done|]. by split.
    + injection E as <-. left. eexists. split; [done|]. by split.
    + injection E as <-. destruct (inv_add s Hi Ep) as [?|[? ?]]; [by left|right]. cbn. auto.
    + destruct (object s) as [o|] eqn:Eo; [|done]. destruct (stopped o) eqn:Es; [|done]. injection E as <-. left. eexists. split; [done|]. by eapply inv_join.
    + injection E as <-. left. eexists. split; [done|]. split; cbn; try done. by destruct Hph.
    + injection E as <-. destruct (inv_remove s Hi Ep) as [?|[? ?]]; [by left|right]. cbn. auto.
  - destruct (phase s) eqn:Ep; try done. intros [= <-]. left. eexists. split; [done|]. apply inv_shutdown; [done|by rewrite Ep].
  - destruct (listener_thread_ s) eqn:Et; [|by destruct (phase s)]. destruct Hok as (o & Ho & Hs). intros E. left.
    exists (Make (enabled_ s) (listener_ s) (Some l') true (phase s) (listeners_ s) (handlers_ s) (S (ticks s)) (ran s) (printer_ s)).
    split; [by destruct (phase s); injection E as <-|by eapply inv_listen].
  - intros E. assert (x = (_ ← print s; Ok s)) as -> by (by destruct (phase s); injection E as <-).
    destruct (decide (phase s = Removing)) as [Er|Er]; [|destruct (inv_print s Hi Er) as [out ->]; left; eauto].
    destruct (decide ((name, name) ∈ handlers_ s)) as [H|H].
    + rewrite Er in Hph. destruct Hph as [_ Hl]. right. by rewrite (print_race s H Hl).
    + destruct (print_ok s Hp ltac:(done)) as [out ->]. left. eauto.
  - intros E. left. assert (print_begin s = Some x) as E' by (by destruct (phase s)). unfold print_begin in E'.
    destruct (printer_ s) eqn:Epr; try done. injection E' as <-. eexists. split; [done|]. split; try done. by cbn.
  - intros E. assert (print_next s = Some x) as E' by (by destruct (phase s)). exact (inv_print_next s x Hi E').
Qed.

Lemma endpoint_inv s0 s : set_up s0 -> reachable s0 s -> inv s.
Proof.
  intros H0. induction 1 as [|s l s' _ IH Hok Hs]; [by apply set_up_inv|].
  by destruct (endpoint_inv_step s l _ IH Hok Hs) as [(s1 & [= <-] & ?)|(_ & ?)].
Qed.

(** C24: shutdown() of an endpoint leaves nothing behind.  Whether setup() and start() were
    called, and however often shutdown() is: when shutdown() has returned, the endpoint has no
    listener, no joinable thread and no callback of the diagnostics resource; and if the
    listener had been started, it has ended and none of its sessions has a thread.  No step
    before goes wrong, but for those that meet a printing of diagnostics, which goes over the
    callbacks without the mutex: start() or shutdown() changes the vector of callbacks while it
    is gone over, or a callback uses the pointer that shutdown() has reset ([hazard]). *)
Theorem endpoint_shutdown s0 s :
  set_up s0 -> reachable s0 s -> Z.of_nat (ticks s) <= 2 ^ 60 ->
  (phase s = Down -> listener_ s = false /\ listener_thread_ s = false /\ ~ has_callback s /\
     (ran s = true -> exists l, object s = Some l /\ stopped l = true /\ quiet l)) /\
  (forall l x, label_ok l s -> step l s = Some x -> (exists s', x = Ok s') \/ hazard l s).
Proof.
  intros H0 Hr Hk. pose proof (endpoint_inv s0 s H0 Hr) as Hi. pose proof Hi as [Hre _ Hph Hc _]. split.
  - intros Ep. rewrite Ep in Hph. destruct Hph as ((Ht & Ho) & Hl & Hn). split_and!; try done.
    + destruct diagnostic_resource; [by apply Hn|by apply Hc].
    + intros (l & Hob & Hst)%Ho. exists l. split_and!; try done. eapply stopped_quiet; [done|by apply Hre|done].
  - intros l x Hok Hs. destruct (endpoint_inv_step s l x Hi Hok Hs) as [(s' & -> & _)|(? & _)]; [left; eauto|by right].
Qed.

(** C40: shutdown() resets the pointer to the listener before it removes the callback that uses
    it: diagnostics printed between these steps dereference a null pointer. *)
Theorem diagnostics_race s0 s :
  set_up s0 -> reachable s0 s -> phase s = Resetting -> has_callback s ->
  exists s', step Main s = Some (Ok s') /\ phase s' = Removing /\ step Print s' = Some Undefined.
Proof.
  intros H0 Hr Ep Hc. unfold step at 1. rewrite Ep. eexists. split; [done|]. split; [done|].
  unfold step. cbn [phase reset]. by rewrite (print_race (reset s)).
Qed.
End Endpoint.

(** A stream endpoint that is started and shut down. *)
Module EndpointDemo.

Definition lis (n : nat) : StreamListener.t :=
  foldl (fun s a => StreamListener.step a s) (StreamListener.create 1)
    (take n [StreamListener.Li_turn StreamListener.Acc_terminate 0 true; StreamListener.Li_confirm; StreamListener.Li_undertake]).
Local Instance listener : Listener StreamListener.t := stream_Listener 1 ltac:(lia).

Definition name : string := "tateyama_stream_endpoint".
Definition s0 : t := Make true true (Some (lis 0)) false Ready [] [("others", "others")] 0 false Diagnostic.Idle.
Lemma s0_set_up : set_up name s0.
Proof.
  split_and!; try done; [|set_solver|].
  - apply Forall_singleton. by split.
  - split; [done|]. exists (lis 0). split; [done|]. exists 0%nat. split; [lia|]. constructor.
Qed.

Definition trace : list label :=
  [Main; Main; Main; Main; Print; Main; Listen (lis 1); Listen (lis 2); Listen (lis 3); Main; Main; Main].
Fixpoint exec (ls : list label) (s : t) : option t :=
  match ls with [] => Some s | l :: ls => match step name true true l s with Some (Ok s') => exec ls s' | _ => None end end.
Definition state (n : nat) : t := default s0 (exec (take n trace) s0).

Lemma next n l : step name true true l (state n) = Some (Ok (state (S n))) -> label_ok l (state n) ->
  reachable name true true s0 (state n) -> reachable name true true s0 (state (S n)).
Proof. intros Hs Hok Hr. by eapply reach_step. Qed.

Ltac run_main := eapply (next _ Main); [vm_compute; reflexivity|exact I|].
Ltac run_listen k a := eapply (next _ (Listen (lis (S k)))); [vm_compute; reflexivity|exists (lis k); split; [vm_compute; reflexivity|exists a; split; [exact I|vm_compute; reflexivity]]|].

Lemma resetting : reachable name true true s0 (state 10).
Proof.
  run_main. run_listen 2%nat StreamListener.Li_undertake. run_listen 1%nat StreamListener.Li_confirm.
  run_listen 0%nat (StreamListener.Li_turn StreamListener.Acc_terminate 0 true). run_main.
  eapply (next _ Print); [vm_compute; reflexivity|exact I|]. do 4 run_main. apply reach_initial.
Qed.

Lemma endpoint_shutdown_witness : phase (state 12) = Down /\ exists l, object (state 12) = Some l /\ stopped l = true /\ quiet l.
Proof.
  assert (reachable name true true s0 (state 12)) as Hr by (run_main; run_main; exact resetting).
  split; [reflexivity|]. refine (proj2 (proj2 (proj2 (proj1 (endpoint_shutdown name true true s0 (state 12) s0_set_up Hr _) eq_refl))) eq_refl).
  vm_compute. discriminate.
Defined.

Lemma diagnostics_race_witness :
  exists s', step name true true Main (state 10) = Some (Ok s') /\ phase s' = Removing /\ step name true true Print s' = Some Undefined.
Proof.
  apply (diagnostics_race name true true s0 (state 10) s0_set_up resetting); [reflexivity|].
  unfold has_callback. apply (bool_decide_unpack _). vm_compute. exact I.
Defined.

(** start() adds its callback while diagnostics are printed: the vector changes under the loop. *)
Lemma start_race :
  exists s, exec [Main; Main; Main; Print_begin; Print_next] s0 = Some s /\ phase s = Adding /\
    printer_ s = Diagnostic.Within "others" [] /\ step name true true Main s = Some Undefined.
Proof. eexists. split; [vm_compute; reflexivity|]. split_and!; vm_compute; reflexivity. Qed.
(** a listing that ends before the pointer is reset does no harm *)
Example printed_before_shutdown :
  exists s, exec ([Main; Main; Main; Main; Print_begin] ++ replicate 5 Print_next) s0 = Some s /\ printer_ s = Diagnostic.Idle.
Proof. eexists. split; vm_compute; reflexivity. Qed.
End EndpointDemo.
