(* ===== verification/Request.v ===== *)
(** Request objects (src/tateyama/endpoint/common/request.h): the framework header of a
    request and the blobs that come with it.

    The file system and the blob sessions of the blob relay are not part of the program:
    what they answer is given by the parameters of the section. *)
From stdpp Require Import gmap strings.
From S2P Require Import Prelude Text Session Authentication Handshake.

Inductive blob_error : Type := ok | not_allowed | not_found | not_accessible | not_regular_file | tag_mismatch.
#[global] Instance blob_error_eq_dec : EqDecision blob_error.
Proof. solve_decision. Defined.

#[global] Instance blob_transfer_type_eq_dec : EqDecision blob_transfer_type.
Proof. solve_decision. Defined.

Definition FRAMEWORK_SERVICE_MESSAGE_VERSION_MAJOR : Z := 2.
Definition FRAMEWORK_SERVICE_MESSAGE_VERSION_MINOR : Z := 1.

Definition to_string_view (e : blob_error) : string :=
  match e with
  | ok => "ok" | not_allowed => "not_allowed" | not_found => "not_found" | not_accessible => "not_accessible"
  | not_regular_file => "not_regular_file" | tag_mismatch => "tag_mismatch"
  end.

(** a blob of a request: a path, or a reference to an object of the blob relay with its tag *)
Inductive blob_value : Type := B_path (p : string) | B_relay (object_id tag : Z).

(** the header of a request, when it can be parsed *)
Record header : Type := Header_ {
  h_version_major : Z;
  h_version_minor : Z;
  h_session_id : Z;
  h_service_id : Z;
  h_blobs : list (string * (blob_value * bool))
}.

Record request : Type := Request_ {
  session_id_ : Z;
  service_id_ : Z;
  blobs_ : gmap string (string * bool);
  blob_error_ : blob_error;
  causing_file_ : string
}.
Definition new_request : request := Request_ 0 0 ∅ ok "".
Definition with_ids (i j : Z) (r : request) : request := Request_ i j (blobs_ r) (blob_error_ r) (causing_file_ r).
Definition with_blob (name path : string) (temporary : bool) (r : request) : request :=
  Request_ (session_id_ r) (service_id_ r) (match blobs_ r !! name with Some _ => blobs_ r | None => <[name := (path, temporary)]> (blobs_ r) end)
    (blob_error_ r) (causing_file_ r).
Definition with_error (e : blob_error) (r : request) : request :=
  Request_ (session_id_ r) (service_id_ r) (blobs_ r) e (causing_file_ r).
Definition with_file (p : string) (r : request) : request :=
  Request_ (session_id_ r) (service_id_ r) (blobs_ r) (blob_error_ r) p.

Section Blobs.
(** [None]: the call sets the error code *)
Context (exists_ is_regular_file is_symlink : string -> option bool) (is_readable : string -> bool).
(** the blob session: the two lookups of one object need not agree *)
Context (find find_again : Z -> option string) (compute_tag : Z -> Z).
Context (cfg : configuration) (res_ : resources).

(** blob_handler::check_blob_path *)
Definition check_blob_path (p : string) (r : request) : blob_error * request :=
  if bool_decide (exists_ p = Some true) then
    if is_readable p then
      if bool_decide (is_regular_file p = Some true) && bool_decide (is_symlink p = Some false) then (ok, r)
      else (not_regular_file, with_file p r)
    else (not_accessible, with_file p r)
  else (not_found, with_file p r).

(** blob_handler::operator() on a path *)
Definition handle_path (name value : string) (temporary : bool) (r : request) : blob_error * request :=
  if negb (allow_blob_privileged_ cfg) || negb (bool_decide (blob_transfer_ res_ = privileged)) then (not_allowed, r)
  else
    let '(e, r) := check_blob_path value r in
    if bool_decide (e = ok) then (ok, with_blob name value temporary r) else (e, with_file value r).

(** blob_handler::operator() on a reference *)
Definition handle_relay (name : string) (object_id tag : Z) (temporary : bool) (r : request) : blob_error * request :=
  if negb (bool_decide (blob_transfer_ res_ = blob_relay_streaming)) then (not_allowed, r)
  else match find object_id with
       | Some blob_path =>
           let '(e, r) := check_blob_path blob_path r in
           let r := with_error e r in
           if bool_decide (e = ok) then
             if compute_tag object_id =? tag then
               match find_again object_id with
               | Some path => (ok, with_blob name path temporary r)
               | None => (not_found, with_file blob_path r)
               end
             else (tag_mismatch, with_file blob_path r)
           else (e, with_file blob_path r)
       | None => (not_found, with_error not_found r)
       end.

Definition handle (name : string) (v : blob_value) (temporary : bool) (r : request) : blob_error * request :=
  match v with
  | B_path p => handle_path name p temporary r
  | B_relay o t => handle_relay name o t temporary r
  end.

(** the loop over the blobs *)
Fixpoint handle_blobs (bs : list (string * (blob_value * bool))) (r : request) : request :=
  match bs with
  | [] => r
  | (name, (v, temporary)) :: bs =>
      let '(e, r) := handle name v temporary r in
      let r := with_error e r in
      if bool_decide (e <> ok) then r else handle_blobs bs r
  end.

Definition parse_framework_header (h : option header) (r : request) : res request :=
  match h with
  | None => Throw (runtime_error "error occurred while parsing a request message in Protocol Buffers")
  | Some h =>
      if (h_version_major h >? FRAMEWORK_SERVICE_MESSAGE_VERSION_MAJOR)
         || (h_version_major h =? FRAMEWORK_SERVICE_MESSAGE_VERSION_MAJOR) && (h_version_minor h >? FRAMEWORK_SERVICE_MESSAGE_VERSION_MINOR)
      then Throw (runtime_error ("unacceptable service message version (" ++ Text.to_string (h_version_major h) ++ "."
             ++ Text.to_string (h_version_minor h) ++ ")"))
      else Ok (handle_blobs (h_blobs h) (with_ids (h_session_id h) (h_service_id h) r))
  end.

Definition has_blob (channel_name : string) (r : request) : bool :=
  if bool_decide (blob_error_ r <> ok) then false else bool_decide (is_Some (blobs_ r !! channel_name)).
Definition get_blob (name : string) (r : request) : res (string * bool) :=
  if bool_decide (blob_error_ r <> ok) then Throw (runtime_error (to_string_view (blob_error_ r)))
  else match blobs_ r !! name with
       | Some b => Ok b
       | None => Throw (runtime_error "not found any blob entry with the given name")
       end.

Definition blob_transfer_mode : string :=
  match blob_transfer_ res_ with
  | privileged => "privileged"
  | blob_relay_streaming => "blob_relay_streaming"
  | does_not_use => "do not use"
  end.
(** a path is printed in double quotes *)
Definition blob_error_message (r : request) : string :=
  let received (what : string) : string := ("tsurugidb failed to receive BLOB file in " ++ blob_transfer_mode ++ " mode (" ++ what ++ ")"
    ++ (if bool_decide (causing_file_ r = "") then "" else ": " ++ String (Ascii.ascii_of_nat 34) (causing_file_ r ++ String (Ascii.ascii_of_nat 34) "")))%string in
  match blob_error_ r with
  | ok => ""
  | not_allowed => ("BLOB handling in " ++ blob_transfer_mode ++ " mode is not allowed")%string
  | not_found => received "file not found"
  | not_accessible => received "cannot read file"
  | not_regular_file => received "not regular file"
  | tag_mismatch => received "tag mismatch"
  end.

(** ** Which blobs a service gets to see *)

(** an existing, readable, regular file that is no symbolic link *)
Definition sound_file (p : string) : Prop :=
  exists_ p = Some true /\ is_readable p = true /\ is_regular_file p = Some true /\ is_symlink p = Some false.

(** the blob may be used, and is found at [path] *)
Definition usable (v : blob_value) (path : string) : Prop :=
  match v with
  | B_path p => path = p /\ allow_blob_privileged_ cfg = true /\ blob_transfer_ res_ = privileged /\ sound_file p
  | B_relay o tag => exists p, blob_transfer_ res_ = blob_relay_streaming /\ find o = Some p /\ sound_file p /\ compute_tag o = tag /\ find_again o = Some path
  end.

Lemma check_blob_path_ok p r e r' : check_blob_path p r = (e, r') ->
  blobs_ r' = blobs_ r /\ (e = ok <-> sound_file p).
Proof.
  unfold check_blob_path, sound_file. repeat case_match; repeat case_bool_decide; cbn [andb] in *; intros; simplify_eq; split; try done;
    split; naive_solver.
Qed.

Lemma handle_ok name v temporary r e r' : handle name v temporary r = (e, r') ->
  (e = ok -> exists path, usable v path /\ blobs_ r' = match blobs_ r !! name with Some _ => blobs_ r | None => <[name := (path, temporary)]> (blobs_ r) end) /\
  (e <> ok -> blobs_ r' = blobs_ r /\ forall path, ~ usable v path).
Proof.
  destruct v as [p|o t]; cbn [handle usable].
  - unfold handle_path. destruct (negb (allow_blob_privileged_ cfg) || _) eqn:E.
    + intros [= <- <-]. split; [done|]. intros _. split; [done|]. intros path (-> & H1 & H2 & _).
      by rewrite H1, H2, bool_decide_true in E by done.
    + apply orb_false_iff in E as [E1%negb_false_iff E2%negb_false_iff%bool_decide_eq_true].
      destruct (check_blob_path p r) as [e1 r1] eqn:Ec. apply check_blob_path_ok in Ec as [Eb Eo].
      case_bool_decide; intros [= <- <-]; (split; [intros|]); try done.
      * exists p. cbn. rewrite Eb. naive_solver.
      * intros _. cbn. split; [done|]. naive_solver.
  - unfold handle_relay. case_bool_decide as E; cbn [negb].
    2:{ intros [= <- <-]. split; [done|]. intros _. split; [done|]. naive_solver. }
    destruct (find o) as [bp|] eqn:Ef; [|intros [= <- <-]; split; [done|]; intros _; split; [done|]; naive_solver].
    destruct (check_blob_path bp r) as [e1 r1] eqn:Ec. apply check_blob_path_ok in Ec as [Eb Eo].
    case_bool_decide as Ee; [|intros [= <- <-]; split; [done|]; intros _; cbn; split; [done|]; naive_solver].
    destruct (Z.eqb_spec (compute_tag o) t) as [Et|Et]; [|intros [= <- <-]; split; [done|]; intros _; cbn; split; [done|]; naive_solver].
    destruct (find_again o) as [path|] eqn:Eg; intros [= <- <-]; (split; [intros|]); try done.
    + exists path. cbn. rewrite Eb. naive_solver.
    + intros _. cbn. split; [done|]. naive_solver.
Qed.

Lemma handle_blobs_ok bs r :
  NoDup (map fst bs) -> (forall name, name ∈ map fst bs -> blobs_ r !! name = None) -> blob_error_ r = ok ->
  let r' := handle_blobs bs r in
  (blob_error_ r' = ok -> forall name v temporary, (name, (v, temporary)) ∈ bs -> exists path, usable v path /\ blobs_ r' !! name = Some (path, temporary)) /\
  (forall name, name ∉ map fst bs -> blobs_ r' !! name = blobs_ r !! name) /\
  (blob_error_ r' <> ok -> exists name v temporary, (name, (v, temporary)) ∈ bs /\ forall path, ~ usable v path).
Proof.
  revert r. induction bs as [|[name [v temporary]] bs IH]; intros r Hd Hf He; cbn [handle_blobs].
  { split_and!; [set_solver|done|done]. }
  cbn [map fst] in *. apply NoDup_cons in Hd as [Hn Hd]. destruct (handle name v temporary r) as [e r1] eqn:Eh.
  apply handle_ok in Eh as [H1 H2]. case_bool_decide as Ee.
  - destruct (H2 Ee) as [Hb Hu]. cbn [blob_error_ blobs_ with_error]. split_and!; [done|by intros; rewrite Hb|].
    intros _. exists name, v, temporary. split; [set_solver|done].
  - assert (e = ok) as -> by (by destruct (decide (e = ok))). destruct (H1 eq_refl) as (path & Hu & Hb).
    rewrite (Hf name) in Hb by set_solver.
    destruct (IH (with_error ok r1)) as (I1 & I2 & I3); [done| |done|].
    { intros n' Hn'. cbn. rewrite Hb, lookup_insert_ne by set_solver. apply Hf. set_solver. }
    cbn zeta in *. split_and!.
    + intros Hok n' v' t' [[= -> -> ->]|Hin]%elem_of_cons; [|by apply I1].
      exists path. split; [done|]. rewrite I2 by done. cbn. by rewrite Hb, lookup_insert_eq.
    + intros n' Hn'. rewrite I2 by set_solver. cbn. rewrite Hb, lookup_insert_ne by set_solver. done.
    + intros Hne. destruct (I3 Hne) as (n' & v' & t' & Hin & Hno). exists n', v', t'. split; [set_solver|done].
Qed.

(** C16: a service sees the blobs of a request all or none.  When the header of a request
    is accepted, either every blob it names may be used in the mode of the session and is
    available: a path only in the privileged mode, a reference of the blob relay only in
    the relay mode and with the right tag, each to an existing, readable, regular file; or
    some blob may not be used, and then no blob of the request is available at all. *)
Theorem blobs_all_or_none h r' :
  NoDup (map fst (h_blobs h)) -> parse_framework_header (Some h) new_request = Ok r' ->
  (blob_error_ r' = ok /\
   (forall name v temporary, (name, (v, temporary)) ∈ h_blobs h -> exists path, usable v path /\ get_blob name r' = Ok (path, temporary)) /\
   (forall name, has_blob name r' = true <-> name ∈ map fst (h_blobs h))) \/
  ((exists name v temporary, (name, (v, temporary)) ∈ h_blobs h /\ forall path, ~ usable v path) /\
   forall name, has_blob name r' = false /\ get_blob name r' = Throw (runtime_error (to_string_view (blob_error_ r')))).
Proof.
  intros Hd. unfold parse_framework_header. destruct (_ || _); [done|]. intros [= <-].
  set (r := with_ids _ _ _). destruct (handle_blobs_ok (h_blobs h) r Hd) as (H1 & H2 & H3); [done|done|]. cbn zeta in *.
  set (r' := handle_blobs (h_blobs h) r) in *. destruct (decide (blob_error_ r' = ok)) as [Ho|Ho].
  - left. split_and!; [done|..].
    + intros name v t Hin. destruct (H1 Ho _ _ _ Hin) as (path & Hu & Hb). exists path. split; [done|].
      unfold get_blob. rewrite bool_decide_false by tauto. by rewrite Hb.
    + intros name. unfold has_blob. rewrite bool_decide_false by tauto. rewrite bool_decide_eq_true. split.
      * intros [b Hb]. destruct (decide (name ∈ map fst (h_blobs h))) as [|Hn]; [done|]. by rewrite H2 in Hb.
      * intros ([name' [v t]] & -> & Hin)%list_elem_of_fmap. destruct (H1 Ho _ _ _ Hin) as (path & _ & Hb). exists (path, t). exact Hb.
  - right. split; [by apply H3|]. intros name. unfold has_blob, get_blob. by rewrite bool_decide_true.
Qed.

End Blobs.

(** * A concrete request

    The session uses the privileged mode; /data/a is a regular file, /data/link a symbolic link. *)
Module RequestDemo.

Definition regular (p : string) : option bool := Some true.
Definition link (p : string) : option bool := Some (bool_decide (p = "/data/link")).
Definition cfg : configuration :=
  Configuration ipc None (Administrators.Make ["root"] false) false true 300 10800 60 false false.
Definition session : resources := blob_transfer privileged (new_resources cfg 7 "" 0).
Definition good : header := Header_ 2 1 7 3 [("a", (B_path "/data/a", false))].
Definition bad : header := Header_ 2 1 7 3 [("a", (B_path "/data/a", false)); ("b", (B_path "/data/link", true))].
Definition parse (h : header) : res request :=
  parse_framework_header regular regular link (fun _ => true) (fun _ => None) (fun _ => None) (fun _ => 0) cfg session (Some h) new_request.

Lemma blobs_all_or_none_witness :
  exists r r', parse good = Ok r /\ get_blob "a" r = Ok ("/data/a", false) /\
    parse bad = Ok r' /\ forall name, has_blob name r' = false.
Proof.
  eexists _, _. split; [reflexivity|]. split; [reflexivity|]. split; [reflexivity|].
  destruct (blobs_all_or_none regular regular link (fun _ => true) (fun _ => None) (fun _ => None) (fun _ => 0) cfg session bad _
    ltac:(apply (bool_decide_unpack _); vm_compute; exact I) eq_refl) as [(H & _)|[_ H]]; [discriminate H|]. intros name. apply H.
Defined.

End RequestDemo.
