(* ===== verification/Framing.v ===== *)
(** Framing of requests and responses: a header and a body, both with their length in front
    (src/tateyama/utils/protobuf_utils.cpp, endpoint/common/endpoint_proto_utils.h).

    Protobuf is not part of the program: its coded streams and the serialised header are
    classes, with the behaviour its documentation gives them as laws.  Input is a stream over
    one array, as in parse_header. *)
From stdpp Require Import gmap.
From Stdlib Require Import Strings.String.
From S2P Require Import Prelude Request.

(** * Coded streams *)

(** [unread]: the bytes before the current limit; [beyond]: those after it *)
Class CodedInput (S : Type) : Type := {
  input_of : list byte -> S;
  ReadVarint32 : S -> option Z * S;
  CurrentPosition : S -> Z;
  PushLimit : Z -> S -> S;
  PopLimit : S -> S -> S;
  GetDirectBufferPointer : S -> option (list byte);
  Skip : Z -> S -> bool * S;
  (** the stream after the CodedInputStream was destroyed, which gives back what was not read *)
  released : S -> S;
  unread : S -> list byte;
  beyond : S -> list byte;
  WriteVarint32 : Z -> list byte
}.
Class CodedLaws (S : Type) `{CodedInput S} : Prop := {
  input_unread bs : unread (input_of bs) = bs /\ beyond (input_of bs) = [];
  varint_read s n rest : 0 <= n < 2 ^ 32 -> unread s = WriteVarint32 n ++ rest ->
    let '(r, s') := ReadVarint32 s in r = Some n /\ unread s' = rest /\ beyond s' = beyond s;
  limit_pushed s n : 0 <= n <= zlen (unread s) ->
    unread (PushLimit n s) = take (Z.to_nat n) (unread s) /\ beyond (PushLimit n s) = drop (Z.to_nat n) (unread s) ++ beyond s /\
    CurrentPosition (PushLimit n s) = CurrentPosition s;
  limit_popped s n s' : 0 <= n <= zlen (unread s) -> beyond s = [] -> unread s' = [] -> beyond s' = drop (Z.to_nat n) (unread s) ->
    unread (PopLimit s s') = drop (Z.to_nat n) (unread s) /\ beyond (PopLimit s s') = [];
  (** always a non-empty buffer, or nothing *)
  direct_buffer s : GetDirectBufferPointer s = match unread s with [] => None | bs => Some bs end;
  skipped s n : 0 <= n <= zlen (unread s) ->
    let '(r, s') := Skip n s in r = true /\ unread s' = drop (Z.to_nat n) (unread s) /\ beyond s' = beyond s /\ CurrentPosition s' = CurrentPosition s + n;
  released_unread s : beyond s = [] -> unread (released s) = unread s /\ beyond (released s) = []
}.

(** a message type: merging reads the stream up to its limit *)
Class Message (S M : Type) `{CodedInput S} : Type := {
  Serialize : M -> list byte;
  MergeFromCodedStream : S -> option M * S;
  ConsumedEntireMessage : S -> bool
}.
Class MessageLaws (S M : Type) `{Message S M} : Prop := {
  merged s m : unread s = Serialize m ->
    let '(r, s') := MergeFromCodedStream s in
    r = Some m /\ ConsumedEntireMessage s' = true /\ unread s' = [] /\ beyond s' = beyond s /\ CurrentPosition s' = CurrentPosition s + zlen (Serialize m)
}.

Section Framing.
Context {S : Type} `{CodedInput S}.

(** ** Reading *)




(** ** Writing *)

Definition INT_MAX : Z := 2 ^ 31 - 1.
(** what is written; [None]: the message is too long *)
Definition SerializeDelimitedToCodedStream {M} `{!Message S M} (m : M) : option (list byte) :=
  let size := zlen (Serialize m) in
  if size >? INT_MAX then None else Some (WriteVarint32 size ++ Serialize m).
Definition PutDelimitedBodyToCodedStream (input : list byte) : option (list byte) :=
  let size := zlen input in
  if size >? INT_MAX then None else Some (WriteVarint32 size ++ input).

(** * Headers *)

Inductive blob_location : Type := kPath (p : string) | kBlob (object_id tag : Z) | BLOB_LOCATION_NOT_SET.
Record blob_info : Type := BlobInfo { channel_name : string; location : blob_location; temporary : bool }.
Record request_header : Type := RequestHeader {
  service_message_version_major : Z;
  service_message_version_minor : Z;
  session_id : Z;
  service_id : Z;
  blobs : list blob_info
}.



Inductive payload_type : Type := UNKNOWN | SERVICE_RESULT | SERVER_DIAGNOSTICS.
Record response_header : Type := ResponseHeader { r_session_id : Z; r_payload_type : payload_type; r_blobs : list (string * string * bool) }.
(** [blobs]: name, path and whether temporary, of the blobs of the response *)
Definition append_response_header `{!Message S response_header} (body : list byte) (sid : Z) (blobs : option (list (string * string * bool))) (type : payload_type) : option (list byte) :=
  let hdr := ResponseHeader sid type (match type, blobs with SERVICE_RESULT, Some l => l | _, _ => [] end) in
  h ← SerializeDelimitedToCodedStream hdr;
  b ← PutDelimitedBodyToCodedStream body;
  Some (h ++ b).

(** ** Round trips *)

Section RoundTrip.
Context `{!CodedLaws S}.






End RoundTrip.

End Framing.

(** * An instance *)

Module FramingDemo.

Record stream : Type := Stream { s_unread : list byte; s_beyond : list byte; s_position : Z }.
Definition advance (n : nat) (s : stream) : stream := Stream (drop n (s_unread s)) (s_beyond s) (s_position s + Z.of_nat n).
#[local] Instance stream_input : CodedInput stream := {|
  input_of bs := Stream bs [] 0;
  ReadVarint32 s := if decide (4 <= length (s_unread s))%nat then (Some (le_Z (take 4 (s_unread s))), advance 4 s) else (None, s);
  CurrentPosition := s_position;
  PushLimit n s := Stream (take (Z.to_nat n) (s_unread s)) (drop (Z.to_nat n) (s_unread s) ++ s_beyond s) (s_position s);
  PopLimit _ s := Stream (s_unread s ++ s_beyond s) [] (s_position s);
  GetDirectBufferPointer s := match s_unread s with [] => None | bs => Some bs end;
  Skip n s := (true, advance (Z.to_nat n) s);
  released s := s;
  unread := s_unread;
  beyond := s_beyond;
  WriteVarint32 := le_bytes 4
|}.

#[local] Instance stream_laws : CodedLaws stream.
Proof.
  split.
  - done.
  - intros s n rest Hn Hu. cbn in Hu. unfold ReadVarint32. cbn [stream_input]. rewrite decide_True by (rewrite Hu; cbn; lia). cbn. rewrite Hu.
    split_and!; [|done..]. f_equal. change (take 4 _) with (le_bytes 4 n). rewrite le_Z_bytes. by apply Z.mod_small.
  - intros s n Hn. done.
  - intros s n s' Hn Hb Hu Hb'. cbn in *. by rewrite Hu, Hb'.
  - done.
  - intros s n Hn. cbn in *. split_and!; try done. lia.
  - done.
Qed.

Fixpoint bits (p : positive) : list byte := match p with xH => [] | xO p => 0 :: bits p | xI p => 1 :: bits p end.
Fixpoint of_bits (l : list byte) : positive := match l with [] => xH | b :: l => if b =? 0 then xO (of_bits l) else xI (of_bits l) end.
Lemma of_bits_bits p : of_bits (bits p) = p.
Proof. induction p as [p IH|p IH|]; cbn; by rewrite ?IH. Qed.

Definition header_tuple (h : request_header) : list Z * list (string * (string + (Z * Z) + unit) * bool) :=
  ([service_message_version_major h; service_message_version_minor h; session_id h; service_id h],
   map (fun b => (channel_name b, match location b with kPath p => inl (inl p) | kBlob o t => inl (inr (o, t)) | BLOB_LOCATION_NOT_SET => inr tt end, temporary b)) (blobs h)).
Definition tuple_header (t : list Z * list (string * (string + (Z * Z) + unit) * bool)) : option request_header :=
  match t with
  | ([a; b; c; d], l) =>
      Some (RequestHeader a b c d (map (fun e => BlobInfo e.1.1 (match e.1.2 with inl (inl p) => kPath p | inl (inr (o, t)) => kBlob o t | inr _ => BLOB_LOCATION_NOT_SET end) e.2) l))
  | _ => None
  end.
Lemma tuple_header_tuple h : tuple_header (header_tuple h) = Some h.
Proof.
  destruct h as [a b c d l]. unfold header_tuple, tuple_header. cbn. do 2 f_equal. induction l as [|[n [] t] l IH]; cbn; [done|..]; by rewrite IH.
Qed.

#[local] Instance header_message : Message stream request_header := {|
  Serialize h := bits (encode (header_tuple h));
  MergeFromCodedStream s := (decode (of_bits (s_unread s)) ≫= tuple_header, advance (length (s_unread s)) s);
  ConsumedEntireMessage s := bool_decide (s_unread s = [])
|}.
#[local] Instance header_laws : MessageLaws stream request_header.
Proof.
  split. intros s m Hu. cbn in *. rewrite Hu, of_bits_bits, decode_encode, drop_all. cbn [mbind option_bind]. by rewrite tuple_header_tuple, bool_decide_true.
Qed.

Definition h : request_header := RequestHeader 1 0 7 3 [BlobInfo "b" (kPath "/tmp/b") true; BlobInfo "a" (kBlob 5 6) false].

End FramingDemo.
