(* ===== verification/Response.v ===== *)
(** Response objects (endpoint/common/response.h, endpoint/ipc/ipc_response.cpp).

    The response wire is the list of the messages written to it.  Formatting of the
    framework header (append_response_header, protobuf) is the parameter [format].  The
    set of result-set wires behind a data channel is a parameter too, with the
    operations the channel calls on it. *)
From stdpp Require Import gmap.
From S2P Require Import Prelude Session Authentication.

(** * endpoint/common/response.h *)

Inductive channel_state : Type :=
| no_data_channel | to_be_used | acquired | released | acquire_failed | release_failed.

Definition state_label (s : channel_state) : string :=
  match s with
  | no_data_channel => "data channel is not used"
  | to_be_used => "data channel is to be used"
  | acquired => "data channel is acquired"
  | released => "data channel is released"
  | acquire_failed => "acqure_channel failed"
  | release_failed => "release_channel failed"
  end.

(** tateyama::status *)
Inductive status : Type := ok | unknown | operation_denied.

(** RESPONSE_BODY, RESPONSE_BODYHEAD *)
Inductive msg_type : Type := RESPONSE_BODY | RESPONSE_BODYHEAD.
#[global] Instance msg_type_eq_dec : EqDecision msg_type.
Proof. solve_decision. Defined.

(** * Data channels *)

Section Channel.
(** W: a set of result-set wires, R: the writer obtained from it *)
Context {W R : Type}.

(** what the channel calls on the result-set wires *)
Class Wires_ops : Type := {
  wires_acquire : W -> res (R * W);
  wires_set_eor : W -> W;
  wires_is_closed : W -> bool;
  writer_write : list byte -> R -> res R;
  writer_flush : R -> R;
  (** the wire moves to the released writers of the set it came from *)
  wires_release : R -> W -> W;
}.

(** ** ipc_writer *)
Record ipc_writer : Type := Wrt { resultset_wire_ : R; released_ : bool }.

Section Writer.
Context `{Wires_ops}.
Definition writer_write_ (data : list byte) (w : ipc_writer) : res (status * ipc_writer) :=
  if released_ w then Ok (unknown, w)
  else match writer_write data (resultset_wire_ w) with
       | Ok r => Ok (ok, Wrt r (released_ w))
       | Throw _ => Ok (unknown, w)
       | Undefined => Undefined
       end.
Definition writer_commit (w : ipc_writer) : status * ipc_writer :=
  if released_ w then (unknown, w) else (ok, Wrt (writer_flush (resultset_wire_ w)) (released_ w)).
Definition writer_release (w : ipc_writer) : ipc_writer := Wrt (resultset_wire_ w) true.
End Writer.

(** ** ipc_data_channel

    [data_writers_] is the set of pointers to the writers it holds; the writer objects, which
    the services share, are in [writers]. *)
Record ipc_data_channel : Type := Channel {
  resultset_wires_ : option W;
  data_writers_ : gset nat;
  writers : gmap nat ipc_writer
}.

Section DataChannel.
Context `{Wires_ops}.

Definition channel_acquire (p : nat) (c : ipc_data_channel) : res (status * option nat * ipc_data_channel) :=
  match resultset_wires_ c with
  | None => Undefined
  | Some w =>
      match wires_acquire w with
      | Ok (r, w) => Ok (ok, Some p, Channel (Some w) ({[p]} ∪ data_writers_ c) (<[p := Wrt r false]> (writers c)))
      | Throw _ => Ok (unknown, None, c)
      | Undefined => Undefined
      end
  end.

(** release of a writer the channel holds: its release(), and the erasure *)
Definition release_writer (p : nat) (c : ipc_data_channel) : ipc_data_channel :=
  match writers c !! p with
  | Some w =>
      Channel (wires_release (resultset_wire_ w) <$> resultset_wires_ c) (data_writers_ c ∖ {[p]})
        (<[p := writer_release w]> (writers c))
  | None => c
  end.
Definition channel_release (p : nat) (c : ipc_data_channel) : status * ipc_data_channel :=
  if bool_decide (p ∈ data_writers_ c) then (ok, release_writer p c) else (unknown, c).

(** the writers are released; wires the client has not closed go to the garbage collector *)
Definition channel_shutdown (c : ipc_data_channel) : ipc_data_channel * list W :=
  match resultset_wires_ c with
  | Some w =>
      let c := foldr release_writer (Channel (Some (wires_set_eor w)) (data_writers_ c) (writers c)) (elements (data_writers_ c)) in
      (Channel None (data_writers_ c) (writers c),
       match resultset_wires_ c with Some w => if negb (wires_is_closed w) then [w] else [] | None => [] end)
  | None => (c, [])
  end.

(** *** A writer that is no longer in the channel takes no more records *)

(** the writers in the channel are the ones not released *)
Definition channel_ok (c : ipc_data_channel) : Prop :=
  forall p, p ∈ data_writers_ c <-> exists w, writers c !! p = Some w /\ released_ w = false.

Lemma release_writer_ok p c : channel_ok c -> channel_ok (release_writer p c).
Proof.
  intros Hc q. unfold release_writer. destruct (writers c !! p) as [w|] eqn:E; [|apply Hc].
  cbn [data_writers_ writers]. destruct (decide (q = p)) as [->|Hne].
  - rewrite lookup_insert_eq. split; [set_solver|]. by intros (w' & [= <-] & ?).
  - rewrite lookup_insert_ne by done. specialize (Hc q). set_solver.
Qed.
Lemma channel_acquire_ok p c st x c' :
  channel_ok c -> writers c !! p = None -> channel_acquire p c = Ok (st, x, c') -> channel_ok c'.
Proof.
  intros Hc Hp. unfold channel_acquire. destruct (resultset_wires_ c) as [w|]; [|done].
  destruct (wires_acquire w) as [[r w']|?|]; intros [= <- <- <-]; [|done].
  intros q. cbn [data_writers_ writers]. destruct (decide (q = p)) as [->|Hne].
  - rewrite lookup_insert_eq. split; [by eauto|set_solver].
  - rewrite lookup_insert_ne by done. specialize (Hc q). set_solver.
Qed.
Lemma channel_release_ok p c : channel_ok c -> channel_ok (snd (channel_release p c)).
Proof. intros Hc. unfold channel_release. case_bool_decide; [by apply release_writer_ok|done]. Qed.
Lemma release_writer_data p c : channel_ok c -> data_writers_ (release_writer p c) = data_writers_ c ∖ {[p]}.
Proof.
  intros Hc. unfold release_writer. destruct (writers c !! p) as [w|] eqn:E; [done|].
  assert (p ∉ data_writers_ c); [|set_solver]. intros (w & Hw & _)%Hc. congruence.
Qed.
Lemma release_all_ok l c : channel_ok c ->
  channel_ok (foldr release_writer c l) /\ data_writers_ (foldr release_writer c l) = data_writers_ c ∖ list_to_set l.
Proof.
  intros Hc. induction l as [|q l [IH1 IH2]]; cbn [foldr]; [split; [done|set_solver]|].
  split; [by apply release_writer_ok|]. rewrite release_writer_data, IH2 by done. set_solver.
Qed.

(** a channel that has been shut down holds no writer, and every writer it handed out refuses data *)
Lemma channel_shutdown_released c p w data : channel_ok c -> resultset_wires_ c <> None ->
  let c' := fst (channel_shutdown c) in
  resultset_wires_ c' = None /\ data_writers_ c' = ∅ /\
  (writers c' !! p = Some w -> writer_write_ data w = Ok (unknown, w) /\ writer_commit w = (unknown, w)).
Proof.
  intros Hc Hw. unfold channel_shutdown. destruct (resultset_wires_ c) as [v|]; [|done]. cbn [fst resultset_wires_ data_writers_ writers].
  set (c0 := Channel (Some (wires_set_eor v)) (data_writers_ c) (writers c)).
  assert (channel_ok c0) as H0 by exact Hc. destruct (release_all_ok (elements (data_writers_ c)) c0 H0) as [H1 H2].
  assert (data_writers_ (foldr release_writer c0 (elements (data_writers_ c))) = ∅) as He.
  { rewrite H2, list_to_set_elements_L. change (data_writers_ c0) with (data_writers_ c). set_solver. }
  split_and!; [done|done|]. intros Hp. destruct (released_ w) eqn:Er.
  - unfold writer_write_, writer_commit. by rewrite Er.
  - assert (p ∈ data_writers_ (foldr release_writer c0 (elements (data_writers_ c)))) as Hin by (apply H1; eauto). set_solver.
Qed.

End DataChannel.
End Channel.
Arguments Wires_ops : clear implicits.
Arguments ipc_writer : clear implicits.
Arguments ipc_data_channel : clear implicits.

(** * ipc_response *)

Section Response.
Context {W R : Type} {WO : Wires_ops W R}.
(** the contents of responses, and the formatted message they are sent as *)
Context {B : Type} (format : Z -> list string -> B -> option (list byte)).

Record ipc_response : Type := Response {
  index_ : Z;
  session_id_ : Z;
  data_channel_ : option (ipc_data_channel W R);
  complete_gate_ : bool;
  blobs_ : list string;
  cancel_ : bool;
  completed_ : bool;
  state_ : channel_state;
  wire : list (msg_type * list byte);
  cleaned : nat;
  garbage : list W
}.

Definition new_response (index : Z) : ipc_response := Response index 0 None false [] false false no_data_channel [] 0 [].

Definition set_session_id (i : Z) (r : ipc_response) : ipc_response :=
  Response (index_ r) i (data_channel_ r) (complete_gate_ r) (blobs_ r) (cancel_ r) (completed_ r) (state_ r) (wire r) (cleaned r) (garbage r).
Definition set_gate (r : ipc_response) : ipc_response :=
  Response (index_ r) (session_id_ r) (data_channel_ r) true (blobs_ r) (cancel_ r) (completed_ r) (state_ r) (wire r) (cleaned r) (garbage r).
Definition set_channel (c : option (ipc_data_channel W R)) (r : ipc_response) : ipc_response :=
  Response (index_ r) (session_id_ r) c (complete_gate_ r) (blobs_ r) (cancel_ r) (completed_ r) (state_ r) (wire r) (cleaned r) (garbage r).
Definition set_state (s : channel_state) (r : ipc_response) : ipc_response :=
  Response (index_ r) (session_id_ r) (data_channel_ r) (complete_gate_ r) (blobs_ r) (cancel_ r) (completed_ r) s (wire r) (cleaned r) (garbage r).
Definition send (ty : msg_type) (m : list byte) (r : ipc_response) : ipc_response :=
  Response (index_ r) (session_id_ r) (data_channel_ r) (complete_gate_ r) (blobs_ r) (cancel_ r) (completed_ r) (state_ r)
    (wire r ++ [(ty, m)]) (cleaned r) (garbage r).
Definition clean_up (r : ipc_response) : ipc_response :=
  Response (index_ r) (session_id_ r) (data_channel_ r) (complete_gate_ r) (blobs_ r) (cancel_ r) (completed_ r) (state_ r)
    (wire r) (S (cleaned r)) (garbage r).

Definition cancel (r : ipc_response) : ipc_response :=
  Response (index_ r) (session_id_ r) (data_channel_ r) (complete_gate_ r) (blobs_ r) true (completed_ r) (state_ r) (wire r) (cleaned r) (garbage r).
Definition check_cancel (r : ipc_response) : bool := cancel_ r.
Definition set_completed (r : ipc_response) : ipc_response :=
  Response (index_ r) (session_id_ r) (data_channel_ r) (complete_gate_ r) (blobs_ r) (cancel_ r) true (state_ r) (wire r) (cleaned r) (garbage r).
Definition is_completed (r : ipc_response) : bool :=
  completed_ r && match data_channel_ r with Some _ => false | None => true end.
Definition add_blob (allow_blob_privileged : bool) (b : string) (r : ipc_response) : status * ipc_response :=
  if negb allow_blob_privileged then (operation_denied, r)
  else (ok, Response (index_ r) (session_id_ r) (data_channel_ r) (complete_gate_ r) (blobs_ r ++ [b]) (cancel_ r)
              (completed_ r) (state_ r) (wire r) (cleaned r) (garbage r)).

Definition collect (g : list W) (r : ipc_response) : ipc_response :=
  Response (index_ r) (session_id_ r) (data_channel_ r) (complete_gate_ r) (blobs_ r) (cancel_ r) (completed_ r) (state_ r)
    (wire r) (cleaned r) (garbage r ++ g).

(** "Guard against improper operation": a channel still open is shut down *)
Definition drop_channel (r : ipc_response) : ipc_response :=
  match data_channel_ r with
  | Some c => collect (snd (channel_shutdown c)) (set_channel None r)
  | None => r
  end.

(** ** body, error: the part after the gate has been won *)
Definition body_after_gate (b : B) (r : ipc_response) : status * ipc_response :=
  let r := drop_channel r in
  match format (session_id_ r) (blobs_ r) b with
  | None => (unknown, r)
  | Some m => (ok, clean_up (set_completed (send RESPONSE_BODY m r)))
  end.
Definition body (b : B) (r : ipc_response) : status * ipc_response :=
  if complete_gate_ r then (unknown, r) else body_after_gate b (set_gate r).

Definition body_head (b : B) (r : ipc_response) : status * ipc_response :=
  if check_cancel r then (unknown, r)
  else match format (session_id_ r) [] b with
       | None => (unknown, r)
       | Some m => (ok, set_state to_be_used (send RESPONSE_BODYHEAD m r))
       end.

Definition server_diagnostics (b : B) (r : ipc_response) : ipc_response :=
  match format (session_id_ r) [] b with None => r | Some m => send RESPONSE_BODY m r end.
Definition error_after_gate (b : B) (r : ipc_response) : ipc_response :=
  clean_up (set_completed (server_diagnostics b (drop_channel r))).
Definition error (b : B) (r : ipc_response) : ipc_response :=
  if complete_gate_ r then r else error_after_gate b (set_gate r).

(** [create]: the outcome of create_resultset_wires *)
Definition acquire_channel (max_writer_count : Z) (create : res W) (r : ipc_response) : status * ipc_response :=
  if complete_gate_ r then (unknown, set_state acquire_failed r)
  else if 255 + 1 <? max_writer_count then (unknown, set_state acquire_failed r)
  else match create with
       | Ok w => (ok, set_state acquired (set_channel (Some (Channel (Some w) ∅ ∅)) r))
       | _ => (unknown, set_state acquire_failed r)
       end.
(** [mine]: the channel passed is the one this response holds *)
Definition release_channel (mine : bool) (r : ipc_response) : status * ipc_response :=
  match data_channel_ r with
  | Some c =>
      if mine then (ok, set_state released (collect (snd (channel_shutdown c)) (set_channel None r))) else (unknown, set_state release_failed r)
  | None => (unknown, set_state release_failed r)
  end.

(** * Any number of threads answering one response

    Threads that call [body] or [error] are before the compare-exchange, past it, or
    back; the other operations run in between. *)

Inductive answer : Type := A_body (b : B) | A_error (b : B).
Inductive caller : Type := Calling (a : answer) | Sending (a : answer) | Back (won : bool).

Definition finish (a : answer) (r : ipc_response) : ipc_response :=
  match a with A_body b => snd (body_after_gate b r) | A_error b => error_after_gate b r end.

Inductive other : ipc_response -> ipc_response -> Prop :=
| o_cancel r : other r (cancel r)
| o_session_id i r : other r (set_session_id i r)
| o_add_blob allow b r : other r (snd (add_blob allow b r))
| o_body_head b r : other r (snd (body_head b r))
| o_acquire n w r : other r (snd (acquire_channel n w r))
| o_release mine r : other r (snd (release_channel mine r)).

Inductive step : ipc_response * list caller -> ipc_response * list caller -> Prop :=
| s_call r cs a : step (r, cs) (r, cs ++ [Calling a])
| s_lose r cs k a : complete_gate_ r = true -> cs !! k = Some (Calling a) -> step (r, cs) (r, <[k := Back false]> cs)
| s_win r cs k a : complete_gate_ r = false -> cs !! k = Some (Calling a) ->
    step (r, cs) (set_gate r, <[k := Sending a]> cs)
| s_finish r cs k a : cs !! k = Some (Sending a) -> step (r, cs) (finish a r, <[k := Back true]> cs)
| s_other r r' cs : other r r' -> step (r, cs) (r', cs).

(** final messages on the wire; callers that are sending; callers that won the gate *)
Definition bodies (r : ipc_response) : nat :=
  sum_of (fun m => if bool_decide (m.1 = RESPONSE_BODY) then 1 else 0)%nat (wire r).
Definition sending (cs : list caller) : nat := sum_of (fun c => match c with Sending _ => 1 | _ => 0 end)%nat cs.
Definition winners (cs : list caller) : nat :=
  sum_of (fun c => match c with Sending _ | Back true => 1 | _ => 0 end)%nat cs.

(** the gate is won once; who won it and is back has sent the final message, completed
    the response and run the clean-up *)
Record once (st : ipc_response * list caller) : Prop := {
  once_gate : winners st.2 = if complete_gate_ st.1 then 1%nat else 0%nat;
  once_bodies : (bodies st.1 + sending st.2 = winners st.2)%nat;
  once_cleaned : cleaned st.1 = bodies st.1;
  once_completed : completed_ st.1 = (0 <? bodies st.1)%nat;
  once_back : forall k won, st.2 !! k = Some (Back won) -> complete_gate_ st.1 = true
}.

Lemma bodies_send ty m r : bodies (send ty m r) = (bodies r + if bool_decide (ty = RESPONSE_BODY) then 1 else 0)%nat.
Proof.
  unfold bodies. change (wire (send ty m r)) with (wire r ++ [(ty, m)]). rewrite sum_of_app, sum_of_cons. cbn [fst].
  change (sum_of _ []) with 0%nat. lia.
Qed.

Lemma other_frame r r' : other r r' ->
  complete_gate_ r' = complete_gate_ r /\ completed_ r' = completed_ r /\ cleaned r' = cleaned r /\ bodies r' = bodies r.
Proof.
  intros []; unfold add_blob, body_head, acquire_channel, release_channel; repeat case_match; try done.
  split_and!; try done. cbn [snd]. transitivity (bodies (send RESPONSE_BODYHEAD l r0)); [done|].
  rewrite bodies_send, bool_decide_false by done. lia.
Qed.

Lemma drop_frame r :
  complete_gate_ (drop_channel r) = complete_gate_ r /\ cleaned (drop_channel r) = cleaned r /\
  bodies (drop_channel r) = bodies r /\ session_id_ (drop_channel r) = session_id_ r /\ blobs_ (drop_channel r) = blobs_ r.
Proof. unfold drop_channel. by destruct (data_channel_ r). Qed.

Section Total.
Hypothesis format_total : forall i l b, format i l b <> None.

Lemma finish_spec a r :
  complete_gate_ (finish a r) = complete_gate_ r /\ completed_ (finish a r) = true /\
  cleaned (finish a r) = S (cleaned r) /\ bodies (finish a r) = S (bodies r).
Proof using format_total.
  destruct (drop_frame r) as (H1 & H2 & H3 & H4 & H5).
  destruct a as [b|b]; cbn [finish]; [unfold body_after_gate|unfold error_after_gate, server_diagnostics]; rewrite H4, ?H5.
  - destruct (format (session_id_ r) (blobs_ r) b) as [m|] eqn:E; [|by apply format_total in E]. cbn [snd].
    unfold clean_up, set_completed. cbn [complete_gate_ completed_ cleaned]. split_and!; try done; [by rewrite <- H2|].
    transitivity (bodies (send RESPONSE_BODY m (drop_channel r))); [done|]. rewrite bodies_send, H3, bool_decide_true by done. lia.
  - destruct (format (session_id_ r) [] b) as [m|] eqn:E; [|by apply format_total in E].
    unfold clean_up, set_completed. cbn [complete_gate_ completed_ cleaned]. split_and!; try done; [by rewrite <- H2|].
    transitivity (bodies (send RESPONSE_BODY m (drop_channel r))); [done|]. rewrite bodies_send, H3, bool_decide_true by done. lia.
Qed.

Ltac counts cs k y Hk :=
  pose proof (sum_of_insert (fun c => match c with Sending _ | Back true => 1 | _ => 0 end)%nat cs k _ y Hk);
  pose proof (sum_of_insert (fun c => match c with Sending _ => 1 | _ => 0 end)%nat cs k _ y Hk).

Lemma once_step st st' : once st -> step st st' -> once st'.
Proof using format_total.
  intros [H1 H2 H3 H4 H5] Hs.
  destruct Hs as [r cs a|r cs k a Hg Hk|r cs k a Hg Hk|r cs k a Hk|r r' cs Ho]; cbn [fst snd] in *.
  - split; cbn [fst snd]; unfold winners, sending in *; rewrite ?sum_of_app; cbn; try (lia || done).
    intros k won [Hk|[_ Hk]]%lookup_app_Some; [by eapply H5|]. apply list_lookup_singleton_Some in Hk as [_ ?]. done.
  - counts cs k (@Back false) Hk. split; cbn [fst snd]; unfold winners, sending in *; lia || done.
  - counts cs k (Sending a) Hk. rewrite Hg in H1.
    split; cbn [fst snd complete_gate_ completed_ cleaned set_gate]; unfold winners, sending, bodies in *; cbn [wire set_gate]; lia || done.
  - counts cs k (@Back true) Hk. destruct (finish_spec a r) as (F1 & F2 & F3 & F4).
    assert (complete_gate_ r = true) as Hg.
    { destruct (complete_gate_ r); [done|]. pose proof (sum_of_elem (fun c => match c with Sending _ => 1 | _ => 0 end)%nat cs k _ Hk).
      unfold sending, winners in *. lia. }
    split; cbn [fst snd]; rewrite ?F1, ?F2, ?F3, ?F4; unfold winners, sending in *; lia || done.
  - destruct (other_frame r r' Ho) as (F1 & F2 & F3 & F4). split; cbn [fst snd]; rewrite ?F1, ?F2, ?F3, ?F4; done.
Qed.

Lemma once_reachable index st : rtc step (new_response index, []) st -> once st.
Proof using format_total.
  intros Hr. eapply (rtc_ind_r (fun st => once st)); [|intros; by eapply once_step|exact Hr].
  by split.
Qed.

(** C6: a request is answered exactly once.  However many threads call body and error
    on one response, interleaved with the channel and cancel operations, at most one
    final message is written, by the thread that won the gate; once some caller is back
    and nobody is sending, exactly one has been written, the response is completed and
    its clean-up has run exactly once. *)
Theorem response_exactly_once index st :
  rtc step (new_response index, []) st ->
  (bodies st.1 <= 1)%nat /\
  (sending st.2 = 0%nat -> (exists k won, st.2 !! k = Some (Back won)) ->
   bodies st.1 = 1%nat /\ completed_ st.1 = true /\ cleaned st.1 = 1%nat).
Proof using format_total.
  intros Hr. destruct (once_reachable _ _ Hr) as [H1 H2 H3 H4 H5].
  split; [destruct (complete_gate_ st.1); lia|]. intros Hs (k & won & Hk). rewrite (H5 _ _ Hk) in H1.
  assert (bodies st.1 = 1%nat) as Hb by lia. rewrite H4, Hb. split_and!; [done|done|lia].
Qed.

End Total.

End Response.
Arguments ipc_response : clear implicits.

(** * A concrete run

    A body and an error race; the body wins the gate. *)
Module ResponseDemo.

#[local] Instance no_wires : Wires_ops unit unit :=
  {| wires_acquire _ := Throw (runtime_error "full"); wires_set_eor w := w; wires_is_closed _ := true;
     writer_write _ r := Ok r; writer_flush r := r; wires_release _ w := w |}.
Definition format (i : Z) (l : list string) (b : byte) : option (list byte) := Some [i; b].

Definition final : ipc_response unit unit * list (caller (B := byte)) :=
  (finish format (A_body 5) (set_gate (set_session_id 7 (new_response 3))), [Back true; Back false]).

Lemma race : rtc (step format) (new_response 3, []) final.
Proof.
  eapply rtc_l; [apply s_other, (o_session_id _ 7)|]. eapply rtc_l; [apply (s_call _ _ _ (A_body 5))|].
  eapply rtc_l; [apply (s_call _ _ _ (A_error 6))|]. eapply rtc_l; [apply (s_win _ _ _ 0 (A_body 5)); done|].
  eapply rtc_l; [apply (s_lose _ _ _ 1 (A_error 6)); done|]. eapply rtc_l; [apply (s_finish _ _ _ 0 (A_body 5)); done|]. done.
Qed.

Lemma response_exactly_once_witness :
  bodies final.1 = 1%nat /\ completed_ final.1 = true /\ cleaned final.1 = 1%nat /\ wire final.1 = [(RESPONSE_BODY, [7; 5])].
Proof.
  destruct (response_exactly_once format ltac:(done) 3 final race) as [_ H].
  destruct (H eq_refl ltac:(by exists 1%nat, false)) as (H1 & H2 & H3). split_and!; [exact H1|exact H2|exact H3|reflexivity].
Defined.

End ResponseDemo.
