(* ===== verification/WorkerTable.v ===== *)
(** The table of outstanding requests of a session (endpoint/common/worker_common.h after
    the handshake), which the workers of both endpoints share.

    Response objects live in a heap, with the slot whose table entry their clean-up
    removes; what they write to, the socket of the session for the stream endpoint, is
    [env].  Requests and responses are shared: besides the table [reqreses_] (and
    [shutdown_response_]), [held_req] and [held_res] are the objects somebody else, a
    service or the loop itself, has a shared pointer to; a use count above one is
    membership there.

    The worker reaches a response only through the virtual functions of
    tateyama::endpoint::common::response: they are the class [Responses], and what the
    theorems need of them the class [ResponseLaws].  Worker.v instantiates both with
    ipc_response, StreamWorker.v with stream_response. *)
From stdpp Require Import gmap.
From S2P Require Import Prelude Session Authentication Handshake.

(** * Response objects *)

(** [o_cleaned] counts the runs of the clean-up, [o_bodies] the final messages handed over for sending *)
Class Responses (O Env : Type) : Type := {
  o_new : Z -> O;
  o_gate : O -> bool;
  o_completed : O -> bool;
  o_is_completed : O -> bool;
  o_cleaned : O -> nat;
  o_bodies : O -> nat;
  o_body : reply -> O -> Env -> O * Env;
  o_error : reply -> O -> Env -> O * Env;
  o_cancel : O -> O;
  o_set_completed : O -> O;
  o_set_session_id : Z -> O -> O
}.

Section Laws.
Context {O Env : Type} {RO : Responses O Env}.

Abbreviation act := (O -> Env -> O * Env).
(** an operation that sends nothing *)
Definition silent (f : O -> O) : act := fun r e => (f r, e).

(** operations that leave the gate alone, and operations that answer *)
Definition benign (f : act) : Prop := forall r e, let r' := fst (f r e) in
  o_gate r' = o_gate r /\ o_bodies r' = o_bodies r /\ o_cleaned r' = o_cleaned r /\ o_completed r' = o_completed r.
Definition answering (f : act) : Prop := forall r e, let r' := fst (f r e) in
  if o_gate r then r' = r
  else o_gate r' = true /\ o_bodies r' = S (o_bodies r) /\ o_cleaned r' = S (o_cleaned r).

(** what the worker relies on *)
Class ResponseLaws : Prop := {
  new_unanswered i : o_gate (o_new i) = false /\ o_completed (o_new i) = false /\ o_bodies (o_new i) = 0%nat;
  body_answering b : answering (o_body b);
  error_answering b : answering (o_error b);
  cancel_benign : benign (silent o_cancel);
  session_id_benign i : benign (silent (o_set_session_id i));
  set_completed_frame r : o_gate (o_set_completed r) = o_gate r /\ o_bodies (o_set_completed r) = o_bodies r /\
    o_cleaned (o_set_completed r) = o_cleaned r;
  is_completed_completed r : o_is_completed r = true -> o_completed r = true
}.
End Laws.
Arguments ResponseLaws O Env {RO}.

Section Table.
Context {O Env : Type} {RO : Responses O Env}.

Abbreviation act := (O -> Env -> O * Env).

(** * The table of outstanding requests *)

Record table : Type := Table {
  env : Env;
  heap : gmap nat (O * option Z);
  reqreses_ : gmap Z (nat * nat);
  shutdown_response_ : gmap Z nat;
  cancel_requested_to_all_responses_ : bool;
  complete_shutdown_from_client_ : bool;
  held_req : gset nat;
  held_res : gset nat;
  (** responses erased from the table without an answer, by [foreach_reqreses] *)
  lost : gset nat
}.
Definition empty_table (e : Env) : table := Table e ∅ ∅ ∅ false false ∅ ∅ ∅.

Definition with_heap (h : gmap nat (O * option Z)) (t : table) : table :=
  Table (env t) h (reqreses_ t) (shutdown_response_ t) (cancel_requested_to_all_responses_ t) (complete_shutdown_from_client_ t)
    (held_req t) (held_res t) (lost t).
Definition with_env (e : Env) (t : table) : table :=
  Table e (heap t) (reqreses_ t) (shutdown_response_ t) (cancel_requested_to_all_responses_ t) (complete_shutdown_from_client_ t)
    (held_req t) (held_res t) (lost t).
Definition with_reqreses (m : gmap Z (nat * nat)) (t : table) : table :=
  Table (env t) (heap t) m (shutdown_response_ t) (cancel_requested_to_all_responses_ t) (complete_shutdown_from_client_ t)
    (held_req t) (held_res t) (lost t).
Definition with_shutdown_response (m : gmap Z nat) (t : table) : table :=
  Table (env t) (heap t) (reqreses_ t) m (cancel_requested_to_all_responses_ t) (complete_shutdown_from_client_ t)
    (held_req t) (held_res t) (lost t).
Definition with_cancel_requested (t : table) : table :=
  Table (env t) (heap t) (reqreses_ t) (shutdown_response_ t) true (complete_shutdown_from_client_ t) (held_req t) (held_res t) (lost t).
Definition with_complete_shutdown (t : table) : table :=
  Table (env t) (heap t) (reqreses_ t) (shutdown_response_ t) (cancel_requested_to_all_responses_ t) true (held_req t) (held_res t) (lost t).
Definition with_held (a b : gset nat) (t : table) : table :=
  Table (env t) (heap t) (reqreses_ t) (shutdown_response_ t) (cancel_requested_to_all_responses_ t) (complete_shutdown_from_client_ t)
    a b (lost t).
Definition with_lost (l : gset nat) (t : table) : table :=
  Table (env t) (heap t) (reqreses_ t) (shutdown_response_ t) (cancel_requested_to_all_responses_ t) (complete_shutdown_from_client_ t)
    (held_req t) (held_res t) l.

(** [use_count() > 1] *)
Definition req_shared (p : nat) (t : table) : bool := bool_decide (p ∈ held_req t).
Definition res_shared (q : nat) (t : table) : bool :=
  bool_decide (q ∈ held_res t) || existsb (fun e => (e.2 =? q)%nat) (map_to_list (shutdown_response_ t)).

Definition remove_reqres (slot : Z) (t : table) : table := with_reqreses (delete slot (reqreses_ t)) t.

(** an operation of the response object [q]; when it runs the clean-up, so does its callback *)
Definition on_response (q : nat) (f : act) (t : table) : table :=
  match heap t !! q with
  | Some (r, cb) =>
      let '(r', e) := f r (env t) in
      let t' := with_env e (with_heap (<[q := (r', cb)]> (heap t)) t) in
      if (o_cleaned r <? o_cleaned r')%nat
      then match cb with Some slot => remove_reqres slot t' | None => t' end
      else t'
  | None => t
  end.
Definition respond (q : nat) (b : reply) : table -> table := on_response q (o_body b).
Definition notify_client (q : nat) (c : code) (message : string) : table -> table :=
  on_response q (o_error (R_diagnostics c message)).

(** [blob_error]: the message of a request whose blobs were refused *)
Definition register_reqres (slot : Z) (p q : nat) (blob_error : option string) (t : table) : bool * table :=
  let t := with_reqreses (<[slot := (p, q)]> (delete slot (reqreses_ t))) t in
  match blob_error with
  | Some message => (false, notify_client q OPERATION_DENIED message t)
  | None => (true, t)
  end.

(** entries nobody else refers to *)
Definition abandoned (t : table) (e : Z * (nat * nat)) : bool :=
  negb (req_shared e.2.1 t) && negb (res_shared e.2.2 t).
Definition erase_abandoned (t : table) : table :=
  with_reqreses (filter (fun e => abandoned t e = false) (reqreses_ t)) t.
Definition abandoned_responses (t : table) : list nat :=
  map (fun e => e.2.2) (map_to_list (filter (fun e => abandoned t e = true) (reqreses_ t))).
Definition shared_responses (t : table) : list nat :=
  map (fun e => e.2.2) (map_to_list (filter (fun e => res_shared e.2.2 t = true) (reqreses_ t))).
Definition completed_at (t : table) (q : nat) : bool :=
  match heap t !! q with Some (r, _) => o_is_completed r | None => true end.
Definition answered_at (t : table) (q : nat) : bool :=
  match heap t !! q with Some (r, _) => o_gate r | None => true end.

Definition care_reqreses (t : table) : table :=
  let targets := filter (fun q => completed_at t q = false) (abandoned_responses t) in
  foldl (fun t q => notify_client q UNKNOWN "request dissipated" t) (erase_abandoned t) targets.

(** [lost] records the unanswered entries this erases: when all requests are cancelled, and
    whenever [has_incomplete_response] asks for the state of the requests (print_diagnostic) *)
Definition foreach_reqreses (f : act) (t : table) : table :=
  let gone := filter (fun q => answered_at t q = false) (abandoned_responses t) in
  foldl (fun t q => on_response q f t) (with_lost (lost t ∪ list_to_set gone) (erase_abandoned t)) (shared_responses t).

(** [has_incomplete_response]: over the same targets, with the same erasure *)
Definition has_incomplete_response (t : table) : bool * table :=
  (existsb (fun q => negb (completed_at t q)) (shared_responses t), foreach_reqreses (silent (fun r => r)) t).

(** [incomplete_resultset]: the outcome of has_incomplete_resultset(); [terminated]: the thread has ended *)
Definition is_all_request_completed (incomplete_resultset : bool) (t : table) : bool * table :=
  let '(incomplete, t) := has_incomplete_response t in (negb incomplete && negb incomplete_resultset, t).
Definition is_quiet (terminated incomplete_resultset : bool) (t : table) : bool * table :=
  let '(completed, t) := is_all_request_completed incomplete_resultset t in (completed && terminated, t).

Definition is_completed_ (incomplete_resultset : bool) (t : table) : bool :=
  if incomplete_resultset then false
  else if bool_decide (shutdown_response_ t = ∅) then bool_decide (reqreses_ t = ∅)
  else forallb (fun e => bool_decide (is_Some (shutdown_response_ t !! e.1))) (map_to_list (reqreses_ t)).

Definition shutdown_complete (t : table) : table :=
  let targets := map snd (map_to_list (shutdown_response_ t)) in
  let t := with_shutdown_response ∅ t in
  match targets with
  | [] => t
  | _ => with_complete_shutdown (foldl (fun t q => respond q R_shutdown t) t targets)
  end.

(** * The worker *)

Record worker : Type := Worker_ {
  resources_ : resources;
  variables : VariableSet.t;
  shutdown_ : shutdown_request_type;
  expiration_ : option Z;
  authentication_timer_ : AliveTimer.t;
  tbl : table
}.
Definition with_table (f : table -> table) (w : worker) : worker :=
  Worker_ (resources_ w) (variables w) (shutdown_ w) (expiration_ w) (authentication_timer_ w) (f (tbl w)).
Definition with_expiration (t : Z) (w : worker) : worker :=
  Worker_ (resources_ w) (variables w) (shutdown_ w) (Some t) (authentication_timer_ w) (tbl w).
Definition with_timer (a : AliveTimer.t) (w : worker) : worker :=
  Worker_ (resources_ w) (variables w) (shutdown_ w) (expiration_ w) a (tbl w).
Definition with_shutdown (s : shutdown_request_type) (w : worker) : worker :=
  Worker_ (resources_ w) (variables w) s (expiration_ w) (authentication_timer_ w) (tbl w).
(** the session context refers to the information and the variables of the worker *)
Definition context_of (w : worker) : session_context :=
  Context_ (session_info_ (resources_ w)) (variables w) (shutdown_ w) (expiration_ w).

Definition cancel_all (w : worker) : worker :=
  if cancel_requested_to_all_responses_ (tbl w) then w
  else with_table (fun t => with_cancel_requested (foreach_reqreses (silent o_cancel) t)) w.

Definition check_shutdown_request (w : worker) : bool * worker :=
  let sr := shutdown_ w in
  let w := if bool_decide (sr = forceful) then cancel_all w else w in
  (bool_decide (sr = graceful) || bool_decide (sr = forceful), w).

Definition request_shutdown (type : shutdown_request_type) (w : worker) : bool * worker :=
  let w := if bool_decide (type = forceful) then cancel_all w else w in
  let '(b, c) := shutdown_request type (context_of w) in (b, with_shutdown (shutdown_request_ c) w).

Section Config.
Context (cfg : configuration).

Definition update_expiration_time (force : bool) (now : Z) (w : worker) : worker :=
  if enable_timeout_ cfg then
    let new_until_time := now + refresh_timeout_ cfg * 1000 in
    if force then with_expiration new_until_time w
    else match expiration_ w with
         | Some e => if e <? new_until_time then with_expiration new_until_time w else w
         | None => w
         end
  else w.

Definition is_expiration_time_over (now : Z) (w : worker) : bool :=
  match expiration_ w with Some e => e <? now | None => false end
  || match auth_ cfg with Some _ => AliveTimer.is_expiration_time_over now (authentication_timer_ w) | None => false end.

(** the constructor; [vars]: the variables of the session, [e]: what its responses write to *)
Definition new_worker (session_id : Z) (conn_info : string) (vars : VariableSet.t) (now : Z) (e : Env) : worker :=
  update_expiration_time true now
    (Worker_ (new_resources cfg session_id conn_info now) vars nothing None (AliveTimer.create (authentication_timeout_ cfg) now) (empty_table e)).

Definition endpoint_service (now : Z) (slot : Z) (q : nat) (message : option endpoint_request) (w : worker) : bool * worker :=
  match message with
  | None => (false, with_table (notify_client q INVALID_REQUEST "request parse error") w)
  | Some rq =>
      match command_ rq with
      | kCancel =>
          let w := with_table (on_response q (silent o_set_completed)) w in
          (true, match reqreses_ (tbl w) !! slot with
                 | Some (_, q') => with_table (on_response q' (silent o_cancel)) w
                 | None => w
                 end)
      | kUpdateAuthentication c =>
          let '(timer, rep) := update_authentication cfg c (username (session_info_ (resources_ w))) now (authentication_timer_ w) in
          (true, with_table (respond q rep) (with_timer timer w))
      | kGetAuthenticationExpirationTime =>
          (true, with_table (respond q (get_authentication_expiration_time cfg (authentication_timer_ w))) w)
      | c => (false, with_table (notify_client q INVALID_REQUEST ("bad request for endpoint: " ++ Text.Text.to_string (command_case c))) w)
      end
  end.

Inductive core_command : Type :=
| kShutdown (type : shutdown_type_field)
| kUpdateExpirationTime (expiration_time : option Z)
| CORE_COMMAND_NOT_SET.

Definition extended_expiration (now et : Z) : Z :=
  let et := if et <? refresh_timeout_ cfg * 1000 then refresh_timeout_ cfg * 1000 else et in
  let et := if max_refresh_timeout_ cfg * 1000 <? et then max_refresh_timeout_ cfg * 1000 else et in
  now + et.

(** [rsid]: the session id of the request *)
Definition routing_service_chain (now : Z) (index : Z) (q : nat) (rsid : Z) (message : option core_command) (w : worker) : bool * worker :=
  match message with
  | None => (false, with_table (notify_client q INVALID_REQUEST "request parse error") w)
  | Some (kShutdown ty) =>
      match (match ty with
             | SESSION_SHUTDOWN_TYPE_NOT_SET => Some forceful
             | GRACEFUL => Some graceful
             | FORCEFUL => Some forceful
             | UNKNOWN_SHUTDOWN_TYPE => None
             end) with
      | None => (false, w)
      | Some type =>
          let '(_, w) := request_shutdown type w in
          (true, with_table (fun t =>
             match shutdown_response_ t !! index with
             | Some _ => t
             | None => with_shutdown_response (<[index := q]> (shutdown_response_ t)) t
             end) w)
      end
  | Some (kUpdateExpirationTime et) =>
      let w := match et with
               | Some et =>
                   let new_until_time := extended_expiration now et in
                   match expiration_ w with
                   | Some e => if e <? new_until_time then with_expiration new_until_time w else w
                   | None => w
                   end
               | None => update_expiration_time false now w
               end in
      (true, with_table (fun t => respond q R_update_expiration_time_success (on_response q (silent (o_set_session_id rsid)) t)) w)
  | Some CORE_COMMAND_NOT_SET => (false, w)
  end.

(** * Requests as the loops of the workers see them *)

(** how a service answers *)
Inductive service_answer : Type := Ans_body (b : reply) | Ans_error (b : reply).
Definition give_answer (a : service_answer) : act :=
  match a with Ans_body b => o_body b | Ans_error b => o_error b end.

(** a request as the loop sees it, and what the routing service does with it: whether it
    answers at once, keeps its shared pointers, and what it returns *)
Record request_event : Type := RequestEvent {
  req_id : nat;
  res_id : nat;
  slot : Z;
  service_id : Z;
  req_session_id : Z;
  endpoint_message : option endpoint_request;
  core_message : option core_command;
  blob_error : option string;
  svc_answer : option service_answer;
  svc_keeps : bool;
  svc_returns : bool
}.

(** create the objects; the loop has pointers to them *)
Definition create_objects (e : request_event) (cb : option Z) (t : table) : table :=
  with_held ({[req_id e]} ∪ held_req t) ({[res_id e]} ∪ held_res t)
    (with_heap (<[res_id e := (o_new (slot e), cb)]> (heap t)) t).
(** the pointers of the loop are gone; those of a service stay *)
Definition drop_objects (kept : bool) (e : request_event) (t : table) : table :=
  if kept then t else with_held (held_req t ∖ {[req_id e]}) (held_res t ∖ {[res_id e]}) t.

Definition call_service (e : request_event) (t : table) : table :=
  match svc_answer e with Some a => on_response (res_id e) (give_answer a) t | None => t end.

(** a request for a service ([default:]): the worker afterwards, whether the service keeps it,
    and whether the loop is left *)
Definition serve_request (e : request_event) (w : worker) : worker * bool * bool :=
  let w := with_table (create_objects e (Some (slot e))) w in
  let '(sd, w) := check_shutdown_request w in
  if negb sd then
    let '(registered, t) := register_reqres (slot e) (req_id e) (res_id e) (blob_error e) (tbl w) in
    let w := with_table (fun _ => t) w in
    if negb registered then (w, false, false)
    else (with_table (call_service e) w, svc_keeps e, negb (svc_returns e))
  else (with_table (notify_client (res_id e) SESSION_CLOSED "this session is already shutdown") w, false, false).

End Config.

(** * Nothing gets lost *)

Context {Laws : ResponseLaws O Env}.

(** [D]: responses erased from the table that are still to be notified *)
Record tinv (D : gset nat) (t : table) : Prop := {
  i_once q r cb : heap t !! q = Some (r, cb) -> o_bodies r = if o_gate r then 1%nat else 0%nat;
  i_completed q r s : heap t !! q = Some (r, Some s) -> o_completed r = true -> o_gate r = true;
  i_place q r s : heap t !! q = Some (r, Some s) -> o_gate r = false ->
    (exists p, reqreses_ t !! s = Some (p, q)) \/ q ∈ lost t \/ q ∈ D;
  i_table s p q : reqreses_ t !! s = Some (p, q) -> exists r, heap t !! q = Some (r, Some s);
  i_lost q : q ∈ lost t -> q ∉ held_res t /\
    (exists r s, heap t !! q = Some (r, Some s) /\ o_gate r = false) /\
    (forall s p, reqreses_ t !! s <> Some (p, q));
  i_pending q : q ∈ D -> q ∉ lost t /\ exists r s, heap t !! q = Some (r, Some s) /\ reqreses_ t !! s = None;
  i_shutdown s q : shutdown_response_ t !! s = Some q -> exists p, reqreses_ t !! s = Some (p, q)
}.

Lemma tinv_empty e : tinv ∅ (empty_table e).
Proof. split; set_solver. Qed.

(** a response object replaced by one with the same gate *)
Lemma tinv_heap D t q r r' cb e :
  tinv D t -> heap t !! q = Some (r, cb) -> o_gate r' = o_gate r -> o_bodies r' = o_bodies r ->
  (cb <> None -> o_completed r' = o_completed r) -> tinv D (with_env e (with_heap (<[q := (r', cb)]> (heap t)) t)).
Proof.
  intros [H1 H2 H3 H4 H5 H6 H7] Hq Hg Hb Hc. split; cbn [heap reqreses_ lost held_res shutdown_response_ with_heap with_env].
  - intros q1 r1 cb1 [[<- [= <- <-]]|[_ Hq1]]%lookup_insert_Some; [rewrite Hg, Hb|]; by eapply H1.
  - intros q1 r1 s1 [[<- [= <- ->]]|[_ Hq1]]%lookup_insert_Some; [|by eapply H2].
    rewrite Hg, Hc by done. by eapply H2.
  - intros q1 r1 s1 [[<- [= <- ->]]|[_ Hq1]]%lookup_insert_Some; [rewrite Hg|]; by eapply H3.
  - intros s1 p1 q1 Ht. destruct (H4 _ _ _ Ht) as [r1 Hr1]. destruct (decide (q = q1)) as [<-|].
    + rewrite lookup_insert_eq. simplify_eq. by eexists.
    + rewrite lookup_insert_ne by done. by eexists.
  - intros q1 Hl. destruct (H5 _ Hl) as (Ha & (r1 & s1 & Hr1 & Hg1) & Hn). split_and!; [done| |done].
    destruct (decide (q = q1)) as [<-|]; [|by exists r1, s1; rewrite lookup_insert_ne].
    exists r', s1. rewrite lookup_insert_eq. simplify_eq. by rewrite Hg.
  - intros q1 Hd. destruct (H6 _ Hd) as (Ha & r1 & s1 & Hr1 & Hn). split; [done|].
    destruct (decide (q = q1)) as [<-|]; [|by exists r1, s1; rewrite lookup_insert_ne].
    exists r', s1. rewrite lookup_insert_eq. by simplify_eq.
  - done.
Qed.

Lemma tinv_benign D t q f : benign f -> tinv D t -> tinv D (on_response q f t).
Proof.
  intros Hf Hi. unfold on_response. destruct (heap t !! q) as [[r cb]|] eqn:E; [|done].
  destruct (Hf r (env t)) as (H1 & H2 & H3 & H4). destruct (f r (env t)) as [r' e]. cbn [fst] in *.
  replace (o_cleaned r <? o_cleaned r')%nat with false by (symmetry; apply Nat.ltb_ge; lia).
  by eapply tinv_heap.
Qed.

Lemma tinv_shrink D t q : tinv D t -> (forall r s, heap t !! q = Some (r, Some s) -> o_gate r = true) -> tinv (D ∖ {[q]}) t.
Proof.
  intros [H1 H2 H3 H4 H5 H6 H7] Hq. split; try done; [|set_solver].
  intros q1 r1 s1 Hq1 Hg. destruct (H3 _ _ _ Hq1 Hg) as [?|[?|?]]; [by left|by right; left|right; right].
  apply elem_of_difference. split; [done|]. intros ->%elem_of_singleton. by rewrite (Hq _ _ Hq1) in Hg.
Qed.

Lemma tinv_answer D t q f :
  answering f -> tinv D t -> q ∉ lost t -> (forall s, shutdown_response_ t !! s <> Some q) ->
  tinv (D ∖ {[q]}) (on_response q f t).
Proof.
  intros Hf Hi Hnl Hns. unfold on_response. destruct (heap t !! q) as [[r cb]|] eqn:E.
  2:{ apply tinv_shrink; [done|]. intros ? ? ?. congruence. }
  specialize (Hf r (env t)). destruct (f r (env t)) as [r' e]. cbn [fst] in Hf. destruct (o_gate r) eqn:Eg.
  { rewrite Hf, Nat.ltb_irrefl. apply tinv_shrink.
    - eapply tinv_heap; done.
    - cbn [heap with_heap with_env]. rewrite lookup_insert_eq. intros ? ? [= <- ->]. done. }
  destruct Hf as (F1 & F2 & F3). replace (o_cleaned r <? o_cleaned r')%nat with true by (symmetry; apply Nat.ltb_lt; lia).
  destruct Hi as [H1 H2 H3 H4 H5 H6 H7]. pose proof (H1 _ _ _ E) as Hb0. rewrite Eg in Hb0.
  (** the entry at the slot of [q], if any, is its own *)
  assert (forall s p' q', cb = Some s -> reqreses_ t !! s = Some (p', q') -> q' = q) as Hown.
  { intros s p' q' -> Ht. destruct (H3 _ _ _ E Eg) as [[p Hp]|[?|Hd]]; [congruence|done|].
    destruct (H6 _ Hd) as (_ & r1 & s1 & ? & ?). congruence. }
  set (t1 := with_env e (with_heap (<[q := (r', cb)]> (heap t)) t)).
  assert (forall s x, reqreses_ (match cb with Some s => remove_reqres s t1 | None => t1 end) !! s = Some x ->
    reqreses_ t !! s = Some x) as Hsub.
  { intros s x. destruct cb as [s0|]; [|done]. cbn [reqreses_ remove_reqres with_reqreses]. intros Hx. by apply lookup_delete_Some in Hx as [_ Hx]. }
  assert (forall s p' q', q' <> q -> reqreses_ t !! s = Some (p', q') ->
    reqreses_ (match cb with Some s => remove_reqres s t1 | None => t1 end) !! s = Some (p', q')) as Hkeep.
  { intros s p' q' Hne Ht. destruct cb as [s0|]; [|done]. cbn [reqreses_ remove_reqres with_reqreses].
    apply lookup_delete_Some. split; [|done]. intros ->. by apply Hne, (Hown s p' q'). }
  assert (heap (match cb with Some s => remove_reqres s t1 | None => t1 end) = <[q := (r', cb)]> (heap t)) as Hh by by destruct cb.
  assert (lost (match cb with Some s => remove_reqres s t1 | None => t1 end) = lost t) as Hlo by by destruct cb.
  assert (held_res (match cb with Some s => remove_reqres s t1 | None => t1 end) = held_res t) as Hhe by by destruct cb.
  assert (shutdown_response_ (match cb with Some s => remove_reqres s t1 | None => t1 end) = shutdown_response_ t) as Hsh by by destruct cb.
  split; rewrite ?Hh, ?Hlo, ?Hhe, ?Hsh.
  - intros q1 r1 cb1 [[<- [= <- <-]]|[_ Hq1]]%lookup_insert_Some; [rewrite F1, F2; lia|by eapply H1].
  - intros q1 r1 s1 [[<- [= <- ->]]|[_ Hq1]]%lookup_insert_Some; [done|by eapply H2].
  - intros q1 r1 s1 [[<- [= <- ->]]|[Hne Hq1]]%lookup_insert_Some; [by rewrite F1|]. intros Hg1.
    destruct (H3 _ _ _ Hq1 Hg1) as [[p Hp]|[?|?]]; [left; exists p; by apply Hkeep|by right; left|right; right; set_solver].
  - intros s1 p1 q1 Ht%Hsub. destruct (H4 _ _ _ Ht) as [r1 Hr1]. destruct (decide (q = q1)) as [<-|].
    + rewrite lookup_insert_eq. simplify_eq. by eexists.
    + rewrite lookup_insert_ne by done. by eexists.
  - intros q1 Hl. assert (q <> q1) by set_solver. destruct (H5 _ Hl) as (Ha & (r1 & s1 & Hr1 & Hg1) & Hn).
    split_and!; [done|exists r1, s1; by rewrite lookup_insert_ne|]. intros s2 p2 Ht%Hsub. by eapply Hn.
  - intros q1 [Hd Hne]%elem_of_difference. assert (q <> q1) by set_solver. destruct (H6 _ Hd) as (Ha & r1 & s1 & Hr1 & Hn).
    split; [done|]. exists r1, s1. rewrite lookup_insert_ne by done. split; [done|].
    apply eq_None_not_Some. intros [x Hx%Hsub]. congruence.
  - intros s1 q1 Hs1. assert (q1 <> q) by (intros ->; by eapply Hns). destruct (H7 _ _ Hs1) as [p Hp].
    exists p. by apply Hkeep.
Qed.

(** operations that keep the pointers and the shutdown responses *)
Definition same (t t' : table) : Prop :=
  held_req t' = held_req t /\ held_res t' = held_res t /\ shutdown_response_ t' = shutdown_response_ t.
#[global] Instance same_preorder : PreOrder same.
Proof. split; [done|]. intros t1 t2 t3 (? & ? & ?) (? & ? & ?). split_and!; congruence. Qed.

Lemma on_response_same q f t : same t (on_response q f t) /\ lost (on_response q f t) = lost t.
Proof. unfold on_response. destruct (heap t !! q) as [[r [s|]]|]; repeat case_match; done. Qed.

Lemma benign_reqreses q f t : benign f -> reqreses_ (on_response q f t) = reqreses_ t.
Proof.
  intros Hf. unfold on_response. destruct (heap t !! q) as [[r cb]|]; [|done]. pose proof (Hf r (env t)) as (_ & _ & Hc & _).
  destruct (f r (env t)) as [r' e]. cbn [fst] in Hc. by rewrite Hc, Nat.ltb_irrefl.
Qed.

Lemma fold_benign D l f t : benign f -> tinv D t -> let t' := foldl (fun t q => on_response q f t) t l in
  tinv D t' /\ same t t' /\ reqreses_ t' = reqreses_ t.
Proof.
  intros Hf. revert t. induction l as [|q l IH]; intros t Hi; cbn [foldl]; [done|].
  destruct (IH (on_response q f t)) as (H1 & H2 & H3); [by apply tinv_benign|].
  destruct (on_response_same q f t) as [H4 _]. cbn zeta in *. rewrite H3, benign_reqreses by done.
  split_and!; [done|by etransitivity|done].
Qed.

Lemma fold_answer D l f t :
  (forall q, answering (f q)) -> tinv D t -> (forall q, q ∈ l -> q ∉ lost t /\ forall s, shutdown_response_ t !! s <> Some q) ->
  tinv (D ∖ list_to_set l) (foldl (fun t q => on_response q (f q) t) t l) /\
  same t (foldl (fun t q => on_response q (f q) t) t l) /\ lost (foldl (fun t q => on_response q (f q) t) t l) = lost t.
Proof.
  intros Hf. revert D t. induction l as [|q l IH]; intros D t Hi Hl; cbn [foldl].
  - split_and!; [|done|done]. replace (D ∖ list_to_set []) with D by set_solver. done.
  - destruct (on_response_same q (f q) t) as [Hs Ho]. destruct (Hl q ltac:(set_solver)) as [Hq1 Hq2].
    destruct (IH (D ∖ {[q]}) (on_response q (f q) t)) as (H1 & H2 & H3).
    + by apply tinv_answer.
    + intros q' Hq'. rewrite Ho. destruct Hs as (_ & _ & ->). apply Hl. set_solver.
    + replace (D ∖ list_to_set (q :: l)) with (D ∖ {[q]} ∖ list_to_set l) by set_solver.
      split_and!; [done|by etransitivity|congruence].
Qed.

Lemma elem_of_abandoned t q :
  q ∈ abandoned_responses t <-> exists s p, reqreses_ t !! s = Some (p, q) /\ abandoned t (s, (p, q)) = true.
Proof.
  unfold abandoned_responses. rewrite list_elem_of_fmap. split.
  - intros ([s [p q']] & -> & He). apply elem_of_map_to_list, map_lookup_filter_Some in He as [? ?]. by exists s, p.
  - intros (s & p & H1 & H2). exists (s, (p, q)). split; [done|]. by apply elem_of_map_to_list, map_lookup_filter_Some.
Qed.

Lemma res_shared_shutdown t s q : shutdown_response_ t !! s = Some q -> res_shared q t = true.
Proof.
  intros Hs. unfold res_shared. apply orb_true_iff. right. apply existsb_exists. exists (s, q). cbn.
  split; [by apply list_elem_of_In, elem_of_map_to_list|by apply Nat.eqb_eq].
Qed.
Lemma res_shared_held t q : q ∈ held_res t -> res_shared q t = true.
Proof. intros Hq. unfold res_shared. by rewrite bool_decide_true. Qed.

(** the table after the abandoned entries are erased, with [L] added to the lost and [D'] pending *)
Lemma tinv_erase D t L D' :
  tinv D t -> L ⊆ list_to_set (abandoned_responses t) -> D' ⊆ list_to_set (abandoned_responses t) -> L ## D' ->
  (forall q, q ∈ L -> answered_at t q = false) ->
  (forall q, q ∈ abandoned_responses t -> answered_at t q = false -> q ∈ L \/ q ∈ D') ->
  tinv (D ∪ D') (with_lost (lost t ∪ L) (erase_abandoned t)).
Proof.
  intros [H1 H2 H3 H4 H5 H6 H7] HL HD Hdis HLa Hcov. split; cbn [heap reqreses_ lost held_res shutdown_response_ with_lost erase_abandoned with_reqreses].
  - done.
  - done.
  - intros q r s Hq Hg. destruct (H3 _ _ _ Hq Hg) as [[p Hp]|[?|?]]; [|set_solver..].
    destruct (abandoned t (s, (p, q))) eqn:Ea.
    + assert (q ∈ L \/ q ∈ D') as [?|?]; [|set_solver..].
      apply Hcov; [apply elem_of_abandoned; by exists s, p|unfold answered_at; by rewrite Hq].
    + left. exists p. by apply map_lookup_filter_Some.
  - intros s p q [Ht _]%map_lookup_filter_Some. by eapply H4.
  - intros q [Hl|Hl]%elem_of_union.
    + destruct (H5 _ Hl) as (? & ? & Hn). split_and!; [done|done|]. intros s p [Ht _]%map_lookup_filter_Some. by eapply Hn.
    + pose proof (HL _ Hl) as Ha%elem_of_list_to_set. apply elem_of_abandoned in Ha as (s & p & Ht & Ha).
      destruct (H4 _ _ _ Ht) as [r Hr]. split_and!.
      * intros Hh. unfold abandoned in Ha. cbn in Ha. rewrite res_shared_held in Ha by done. by destruct (req_shared p t).
      * exists r, s. split; [done|]. specialize (HLa _ Hl). unfold answered_at in HLa. by rewrite Hr in HLa.
      * intros s' p' [Ht' Ha']%map_lookup_filter_Some. destruct (H4 _ _ _ Ht') as [r' Hr']. simplify_eq; congruence.
  - intros q [Hd|Hd]%elem_of_union.
    + destruct (H6 _ Hd) as (Hn & r & s & Hr & Hs). split.
      * intros [?|Hl]%elem_of_union; [done|]. pose proof (HL _ Hl) as Ha%elem_of_list_to_set.
        apply elem_of_abandoned in Ha as (s' & p & Ht & _). destruct (H4 _ _ _ Ht) as [r' Hr']. simplify_eq; congruence.
      * exists r, s. split; [done|]. apply map_lookup_filter_None. by left.
    + pose proof (HD _ Hd) as Ha%elem_of_list_to_set. apply elem_of_abandoned in Ha as (s & p & Ht & Ha).
      destruct (H4 _ _ _ Ht) as [r Hr]. split.
      * intros [Hl|?]%elem_of_union; [|set_solver]. destruct (H5 _ Hl) as (_ & _ & Hn). by eapply Hn.
      * exists r, s. split; [done|]. apply map_lookup_filter_None. right. intros x Hx. simplify_eq; congruence.
  - intros s q Hs. destruct (H7 _ _ Hs) as [p Hp]. exists p. apply map_lookup_filter_Some. split; [done|].
    unfold abandoned. cbn. rewrite (res_shared_shutdown _ _ _ Hs). apply andb_false_r.
Qed.

Lemma completed_answered t q r s : tinv ∅ t -> heap t !! q = Some (r, Some s) -> completed_at t q = true -> answered_at t q = true.
Proof using Laws.
  intros Hi Hq. unfold completed_at, answered_at. rewrite Hq. intros Hc%is_completed_completed. by eapply (i_completed _ _ Hi).
Qed.

Lemma care_ok t : tinv ∅ t -> tinv ∅ (care_reqreses t) /\ same t (care_reqreses t).
Proof using Laws.
  intros Hi. unfold care_reqreses. set (targets := filter (fun q => completed_at t q = false) (abandoned_responses t)).
  assert (tinv (list_to_set targets) (erase_abandoned t)) as He.
  { replace (erase_abandoned t) with (with_lost (lost t ∪ ∅) (erase_abandoned t))
      by (rewrite union_empty_r_L; by destruct t).
    replace (list_to_set targets : gset nat) with (∅ ∪ list_to_set targets : gset nat) by set_solver.
    apply tinv_erase; [done|set_solver| |set_solver|set_solver|].
    - intros q. rewrite !elem_of_list_to_set. by intros [_ ?]%list_elem_of_filter.
    - intros q Hq Ha. right. rewrite elem_of_list_to_set. apply list_elem_of_filter. split; [|done].
      pose proof Hq as (s & p & Ht & _)%elem_of_abandoned. destruct (i_table _ _ Hi _ _ _ Ht) as [r Hr].
      destruct (completed_at t q) eqn:Ec; [|done]. by rewrite (completed_answered _ _ _ _ Hi Hr Ec) in Ha. }
  destruct (fold_answer (list_to_set targets) targets (fun _ => o_error (R_diagnostics UNKNOWN "request dissipated"))
    (erase_abandoned t)) as (H1 & H2 & _).
  - intros. apply error_answering.
  - done.
  - intros q Hq. split; [by eapply (i_pending _ _ He), elem_of_list_to_set|]. intros s Hs.
    apply list_elem_of_filter in Hq as [_ Hq]. apply elem_of_abandoned in Hq as (s' & p & _ & Ha).
    unfold abandoned in Ha. cbn in Ha. change (shutdown_response_ t !! s = Some q) in Hs.
    rewrite (res_shared_shutdown _ _ _ Hs) in Ha. by destruct (req_shared p t).
  - replace (list_to_set targets ∖ list_to_set targets : gset nat) with (∅ : gset nat) in H1 by set_solver.
    split; [exact H1|exact H2].
Qed.

Lemma foreach_ok D f t : benign f -> tinv D t ->
  tinv D (foreach_reqreses f t) /\ same t (foreach_reqreses f t) /\
  (forall s p q, reqreses_ t !! s = Some (p, q) -> q ∈ held_res t -> reqreses_ (foreach_reqreses f t) !! s = Some (p, q)).
Proof.
  intros Hf Hi. unfold foreach_reqreses. set (gone := filter (fun q => answered_at t q = false) (abandoned_responses t)).
  assert (tinv D (with_lost (lost t ∪ list_to_set gone) (erase_abandoned t))) as He.
  { replace D with (D ∪ ∅) by set_solver. apply tinv_erase; [done| |set_solver|set_solver| |].
    - intros q. rewrite !elem_of_list_to_set. by intros [_ ?]%list_elem_of_filter.
    - intros q. rewrite elem_of_list_to_set. by intros [? _]%list_elem_of_filter.
    - intros q Hq Ha. left. rewrite elem_of_list_to_set. by apply list_elem_of_filter. }
  destruct (fold_benign D (shared_responses t) f _ Hf He) as (H1 & H2 & H3). cbn zeta in *.
  split_and!; [exact H1|exact H2|]. intros s p q Ht Hq. rewrite H3. cbn [reqreses_ with_lost erase_abandoned with_reqreses].
  apply map_lookup_filter_Some. split; [done|]. unfold abandoned. cbn. rewrite res_shared_held by done. apply andb_false_r.
Qed.

(** ** The worker's operations *)

Definition keeps (q : nat) (t t' : table) : Prop :=
  same t t' /\ forall s p, reqreses_ t !! s = Some (p, q) -> q ∈ held_res t -> reqreses_ t' !! s = Some (p, q).

Lemma cancel_all_ok D q w : tinv D (tbl w) -> tinv D (tbl (cancel_all w)) /\ keeps q (tbl w) (tbl (cancel_all w)).
Proof.
  intros Hi. unfold cancel_all. destruct (cancel_requested_to_all_responses_ (tbl w)); [done|]. cbn [tbl with_table].
  destruct (foreach_ok D (silent o_cancel) (tbl w) cancel_benign Hi) as (H1 & H2 & H3). split.
  - destruct H1. by split.
  - split; [done|]. intros s p. apply H3.
Qed.
Lemma check_shutdown_ok D q w : tinv D (tbl w) ->
  tinv D (tbl (snd (check_shutdown_request w))) /\ keeps q (tbl w) (tbl (snd (check_shutdown_request w))).
Proof. intros Hi. unfold check_shutdown_request. cbn [snd]. case_bool_decide; [by apply cancel_all_ok|done]. Qed.
Lemma request_shutdown_ok D q ty w : tinv D (tbl w) ->
  tinv D (tbl (snd (request_shutdown ty w))) /\ keeps q (tbl w) (tbl (snd (request_shutdown ty w))).
Proof.
  intros Hi. unfold request_shutdown. destruct (shutdown_request ty _) as [b c]. cbn [snd tbl with_shutdown].
  case_bool_decide; [by apply cancel_all_ok|done].
Qed.

(** ** One request *)

(** the loop has a pointer to [q], which waits for no shutdown *)
Definition ready (q : nat) (t : table) : Prop :=
  tinv ∅ t /\ q ∈ held_res t /\ forall s, shutdown_response_ t !! s <> Some q.

Lemma ready_same q t t' : ready q t -> tinv ∅ t' -> same t t' -> ready q t'.
Proof. intros (_ & H2 & H3) Hi (Ha & Hb & Hc). split_and!; [done|by rewrite Hb|by rewrite Hc]. Qed.
Lemma ready_answer q f t : answering f -> ready q t -> ready q (on_response q f t).
Proof.
  intros Hf Hr. pose proof Hr as (Hi & Hq & Hs). eapply ready_same; [done| |apply on_response_same].
  replace (∅ : gset nat) with (∅ ∖ {[q]} : gset nat) by set_solver. apply tinv_answer; try done.
  intros Hl. by destruct (i_lost _ _ Hi _ Hl) as [? _].
Qed.
Lemma ready_benign q q' f t : benign f -> ready q t -> ready q (on_response q' f t).
Proof. intros Hf Hr. eapply ready_same; [done|apply tinv_benign; [done|apply Hr]|apply on_response_same]. Qed.

Definition fresh (e : request_event) (t : table) : Prop :=
  heap t !! res_id e = None /\ res_id e ∉ held_res t /\ reqreses_ t !! slot e = None.

Lemma create_objects_ok e cb t :
  tinv ∅ t -> fresh e t -> cb = None \/ cb = Some (slot e) ->
  tinv (if cb then {[res_id e]} else ∅) (create_objects e cb t).
Proof.
  intros [H1 H2 H3 H4 H5 H6 H7] (F1 & F2 & F3) Hcb. destruct (new_unanswered (slot e)) as (N1 & N2 & N3).
  split; cbn [heap reqreses_ lost held_res shutdown_response_ create_objects with_held with_heap].
  - intros q r c [[<- [= <- <-]]|[_ Hq]]%lookup_insert_Some; [by rewrite N1, N3|by eapply H1].
  - intros q r s [[<- [= <- ->]]|[_ Hq]]%lookup_insert_Some; [by rewrite N2|by eapply H2].
  - intros q r s [[<- [= <- ->]]|[_ Hq]]%lookup_insert_Some; [intros _; right; right; set_solver|].
    intros Hg. destruct (H3 _ _ _ Hq Hg) as [?|[?|?]]; [by left|by right; left|set_solver].
  - intros s p q Ht. destruct (H4 _ _ _ Ht) as [r Hr]. exists r. rewrite lookup_insert_ne by congruence. done.
  - intros q Hl. destruct (H5 _ Hl) as (Ha & (r & s & Hr & Hg) & Hn). assert (res_id e <> q) by congruence.
    split_and!; [set_solver|exists r, s; by rewrite lookup_insert_ne|done].
  - intros q. destruct cb as [s|]; [|set_solver]. intros ->%elem_of_singleton. destruct Hcb as [|[= ->]]; [done|]. split.
    + intros Hl. destruct (H5 _ Hl) as (_ & (r & s' & Hr & _) & _). congruence.
    + exists (o_new (slot e)), (slot e). by rewrite lookup_insert_eq.
  - done.
Qed.

Lemma create_ready e t : tinv ∅ t -> fresh e t -> forall s, shutdown_response_ t !! s <> Some (res_id e).
Proof.
  intros Hi (F1 & _ & _) s Hs. destruct (i_shutdown _ _ Hi _ _ Hs) as [p Hp].
  destruct (i_table _ _ Hi _ _ _ Hp) as [r Hr]. congruence.
Qed.

Lemma tinv_register s p q r t :
  tinv {[q]} t -> heap t !! q = Some (r, Some s) -> reqreses_ t !! s = None ->
  tinv ∅ (with_reqreses (<[s := (p, q)]> (delete s (reqreses_ t))) t).
Proof.
  intros [H1 H2 H3 H4 H5 H6 H7] Hq Hs. rewrite delete_id by done.
  split; cbn [heap reqreses_ lost held_res shutdown_response_ with_reqreses]; try done.
  - intros q1 r1 s1 Hq1 Hg. destruct (decide (q1 = q)) as [->|Hne].
    + left. exists p. simplify_eq. apply lookup_insert_eq.
    + destruct (H3 _ _ _ Hq1 Hg) as [[p1 Hp1]|[?|?]]; [|by right; left|set_solver].
      left. exists p1. rewrite lookup_insert_ne by congruence. done.
  - intros s1 p1 q1 [[<- [= <- <-]]|[_ Ht]]%lookup_insert_Some; [by eexists|by eapply H4].
  - intros q1 Hl. destruct (H5 _ Hl) as (Ha & Hb & Hn). split_and!; [done|done|].
    intros s1 p1 [[<- [= <- <-]]|[_ Ht]]%lookup_insert_Some; [|by eapply Hn].
    by destruct (H6 q ltac:(set_solver)) as [? _].
  - intros s1 q1 Hs1. destruct (H7 _ _ Hs1) as [p1 Hp1]. exists p1. rewrite lookup_insert_ne by congruence. done.
Qed.

(** registration of a fresh request, whether or not its blobs are accepted *)
Lemma register_ok e p t0 t :
  tinv {[res_id e]} t -> heap t !! res_id e = Some (o_new (slot e), Some (slot e)) ->
  reqreses_ t !! slot e = None -> same t0 t -> res_id e ∈ held_res t0 -> (forall s, shutdown_response_ t0 !! s <> Some (res_id e)) ->
  ready (res_id e) (snd (register_reqres (slot e) p (res_id e) (blob_error e) t)) /\
  same t0 (snd (register_reqres (slot e) p (res_id e) (blob_error e) t)) /\
  (blob_error e = None ->
   reqreses_ (snd (register_reqres (slot e) p (res_id e) (blob_error e) t)) !! slot e = Some (p, res_id e)).
Proof using Laws.
  intros Hi Hq Hs (Sa & Sb & Sc) Hh Hns. unfold register_reqres.
  assert (ready (res_id e) (with_reqreses (<[slot e := (p, res_id e)]> (delete (slot e) (reqreses_ t))) t)) as Hr.
  { split_and!; [by eapply tinv_register|cbn; by rewrite Sb|cbn; by rewrite Sc]. }
  destruct (blob_error e) as [m|]; cbn [snd].
  - split_and!; [apply ready_answer; [apply error_answering|done]| |done].
    etransitivity; [|apply on_response_same]. done.
  - split_and!; [done|done|]. intros _. cbn. apply lookup_insert_eq.
Qed.

Lemma endpoint_ok cfg now sl q message w r :
  ready q (tbl w) -> heap (tbl w) !! q = Some (r, None) ->
  ready q (tbl (snd (endpoint_service cfg now sl q message w))) /\
  same (tbl w) (tbl (snd (endpoint_service cfg now sl q message w))).
Proof using Laws.
  intros Hr Hq. assert (forall f, answering f -> ready q (on_response q f (tbl w)) /\ same (tbl w) (on_response q f (tbl w))) as Ha.
  { intros f Hf. split; [by apply ready_answer|apply on_response_same]. }
  unfold endpoint_service. destruct message as [rq|]; [|apply Ha, error_answering].
  destruct (command_ rq) as [h| | |c| |]; try (apply Ha, error_answering); [|destruct (update_authentication _ _ _ _ _)|].
  - assert (ready q (on_response q (silent o_set_completed) (tbl w))) as Hc.
    { eapply ready_same; [done| |apply on_response_same]. unfold on_response. rewrite Hq. cbn [silent].
      destruct (set_completed_frame r) as (F1 & F2 & F3). rewrite F3, Nat.ltb_irrefl. eapply tinv_heap; [apply Hr|done..]. }
    cbn [snd tbl with_table]. destruct (reqreses_ _ !! sl) as [[p' q']|]; cbn [tbl with_table].
    + split; [apply ready_benign; [apply cancel_benign|done]|]. etransitivity; apply on_response_same.
    + split; [done|apply on_response_same].
  - apply Ha, body_answering.
  - apply Ha, body_answering.
Qed.

Definition post (q : nat) (t t' : table) : Prop :=
  tinv ∅ t' /\ held_res t' = held_res t /\
  forall s q', shutdown_response_ t' !! s = Some q' -> shutdown_response_ t !! s = Some q' \/ q' = q.
Lemma ready_post q t t' : ready q t' -> same t t' -> post q t t'.
Proof. intros (Hi & _) (_ & Hb & Hc). split_and!; [done|done|]. rewrite Hc. by left. Qed.
Lemma post_same q t t1 t2 : post q t t1 -> tinv ∅ t2 -> same t1 t2 -> post q t t2.
Proof. intros (_ & H2 & H3) Hi (_ & Hb & Hc). split_and!; [done|congruence|]. by rewrite Hc. Qed.

Lemma routing_ok cfg now index p q rsid message w :
  ready q (tbl w) -> reqreses_ (tbl w) !! index = Some (p, q) ->
  let '(handled, w') := routing_service_chain cfg now index q rsid message w in
  post q (tbl w) (tbl w') /\ (handled = false -> ready q (tbl w') /\ same (tbl w) (tbl w')).
Proof using Laws.
  intros Hr Hp. unfold routing_service_chain. destruct message as [[ty|et|]|].
  - destruct (match ty with SESSION_SHUTDOWN_TYPE_NOT_SET => _ | _ => _ end) as [type|];
      [|split; [by apply ready_post|done]].
    pose proof (request_shutdown_ok ∅ q type w (proj1 Hr)) as [Hi Hk]. destruct (request_shutdown type w) as [b w1]. cbn [snd] in *.
    split; [|done]. destruct Hk as [(Sa & Sb & Sc) Hk]. cbn [tbl with_table].
    destruct (shutdown_response_ (tbl w1) !! index) as [x|] eqn:Ex.
    + split_and!; [done|done|]. rewrite Sc. by left.
    + split_and!; [|done|].
      * destruct Hi as [H1 H2 H3 H4 H5 H6 H7]. split; cbn [heap reqreses_ lost held_res shutdown_response_ with_shutdown_response]; try done.
        intros s q' [[<- <-]|[_ Hs]]%lookup_insert_Some; [|by eapply H7]. exists p. apply Hk; [done|apply Hr].
      * cbn. intros s q' [[<- <-]|[_ Hs]]%lookup_insert_Some; [by right|]. left. by rewrite <- Sc.
  - set (w1 := match et with Some _ => _ | None => _ end).
    assert (tbl w1 = tbl w) as Ht.
    { unfold w1, update_expiration_time. destruct et; repeat case_match; done. }
    cbn [tbl with_table]. rewrite Ht. split; [|done]. apply ready_post.
    + apply ready_answer; [apply body_answering|]. by apply ready_benign; [apply session_id_benign|].
    + etransitivity; apply on_response_same.
  - split; [by apply ready_post|done].
  - cbn [tbl with_table]. split; [apply ready_post|]; [apply ready_answer; [apply error_answering|done]|apply on_response_same|].
    intros _. split; [apply ready_answer; [apply error_answering|done]|apply on_response_same].
Qed.

Lemma give_answer_answering a : answering (give_answer a).
Proof using Laws. destruct a; [apply body_answering|apply error_answering]. Qed.
Lemma call_service_ok e t : ready (res_id e) t -> ready (res_id e) (call_service e t) /\ same t (call_service e t).
Proof using Laws.
  intros Hr. unfold call_service. destruct (svc_answer e) as [a|]; [|done].
  split; [apply ready_answer; [apply give_answer_answering|done]|apply on_response_same].
Qed.

Lemma update_expiration_tbl cfg force now w : tbl (update_expiration_time cfg force now w) = tbl w.
Proof. unfold update_expiration_time. repeat case_match; done. Qed.

Lemma check_shutdown_false w : fst (check_shutdown_request w) = false -> snd (check_shutdown_request w) = w.
Proof.
  unfold check_shutdown_request. cbn [fst snd]. destruct (shutdown_ w); try done.
Qed.

(** what a request leaves behind: only a request that nobody keeps becomes a shutdown response *)
Definition leaves (e : request_event) (t : table) (r : worker * bool * bool) : Prop :=
  let '(w, kept, _) := r in
  tinv ∅ (tbl w) /\ held_res (tbl w) = {[res_id e]} ∪ held_res t /\
  forall s q, shutdown_response_ (tbl w) !! s = Some q -> shutdown_response_ t !! s = Some q \/ q = res_id e /\ kept = false.

Lemma leaves_ready e cb t w kept ex :
  tinv ∅ t -> ready (res_id e) (tbl w) -> same (create_objects e cb t) (tbl w) -> leaves e t (w, kept, ex).
Proof. intros _ (Hi & _) (_ & Hb & Hc). split_and!; [done|done|]. rewrite Hc. by left. Qed.
Lemma leaves_post e cb t w ex : post (res_id e) (create_objects e cb t) (tbl w) -> leaves e t (w, false, ex).
Proof. intros (Hi & Hh & Hs). split_and!; [done|done|]. intros s q Hq. destruct (Hs _ _ Hq) as [?| ->]; [by left|by right]. Qed.

(** the three cases of the switch, from a table [t0] without the request *)
Lemma endpoint_request_ok cfg now e w :
  tinv ∅ (tbl w) -> fresh e (tbl w) ->
  let '(handled, w') := endpoint_service cfg now (slot e) (res_id e) (endpoint_message e) (with_table (create_objects e None) w) in
  leaves e (tbl w) (w', false, negb handled).
Proof using Laws.
  intros Hi Hf. set (w2 := with_table (create_objects e None) w).
  assert (ready (res_id e) (tbl w2)) as Hr.
  { split_and!; [by apply (create_objects_ok e None); [| |left]|cbn; set_solver|exact (create_ready e (tbl w) Hi Hf)]. }
  destruct (endpoint_ok cfg now (slot e) (res_id e) (endpoint_message e) w2 (o_new (slot e)) Hr) as [H1 H2].
  { cbn. apply lookup_insert_eq. }
  destruct (endpoint_service _ _ _ _ _ w2) as [b w3]. by eapply (leaves_ready e None).
Qed.

(** the fresh request, registered *)
Lemma create_register_ok e t :
  tinv ∅ t -> fresh e t -> let t2 := create_objects e (Some (slot e)) t in
  let '(reg, t3) := register_reqres (slot e) (req_id e) (res_id e) (blob_error e) t2 in
  ready (res_id e) t3 /\ same t2 t3 /\ (reg = true -> reqreses_ t3 !! slot e = Some (req_id e, res_id e)).
Proof using Laws.
  intros Hi Hf t2. destruct (register_ok e (req_id e) t2 t2) as (R1 & R2 & R3); [|cbn; apply lookup_insert_eq|apply Hf|done|cbn; set_solver|exact (create_ready e t Hi Hf)|].
  - by apply (create_objects_ok e (Some (slot e))); [| |right].
  - destruct (register_reqres _ _ _ _ t2) as [reg t3] eqn:Er. cbn [snd] in *. split_and!; [done|done|].
    intros ->. apply R3. unfold register_reqres in Er. by destruct (blob_error e).
Qed.

Lemma routed_request_ok cfg now e t w4 w3 handled :
  tbl w3 = t -> tinv ∅ t -> ready (res_id e) t -> reqreses_ t !! slot e = Some (req_id e, res_id e) ->
  routing_service_chain cfg now (slot e) (res_id e) (req_session_id e) (core_message e) w3 = (handled, w4) ->
  if handled then
    let '(sd, w6) := check_shutdown_request (with_table care_reqreses w4) in post (res_id e) t (tbl w6)
  else ready (res_id e) (call_service e (tbl w4)) /\ same t (call_service e (tbl w4)).
Proof using Laws.
  intros <- Hi Hr Hp E. pose proof (routing_ok cfg now (slot e) (req_id e) (res_id e) (req_session_id e) (core_message e) w3 Hr Hp) as Hro.
  rewrite E in Hro. destruct Hro as [Hpo Hn]. destruct handled.
  - destruct (care_ok (tbl w4) (proj1 Hpo)) as [C1 C2].
    destruct (check_shutdown_ok ∅ (res_id e) (with_table care_reqreses w4) C1) as [D1 [D2 _]].
    destruct (check_shutdown_request _) as [sd w6]. cbn [snd] in *.
    eapply post_same; [|exact D1|exact D2]. eapply post_same; [|exact C1|exact C2]. done.
  - destruct (Hn eq_refl) as [Hr4 Hs]. destruct (call_service_ok e (tbl w4) Hr4) as [C1 C2]. split; [done|by etransitivity].
Qed.

(** a request refused because the session is shutting down is answered, though it was never registered *)
Lemma refused_request_ok e t w3 :
  tinv ∅ t -> fresh e t -> tinv {[res_id e]} (tbl w3) -> same (create_objects e (Some (slot e)) t) (tbl w3) ->
  let t' := notify_client (res_id e) SESSION_CLOSED "this session is already shutdown" (tbl w3) in
  ready (res_id e) t' /\ same (create_objects e (Some (slot e)) t) t'.
Proof using Laws.
  intros Hi Hf Hi3 Hs t'. pose proof Hs as (_ & Db & Dc).
  assert (tinv ({[res_id e]} ∖ {[res_id e]}) t') as Hx.
  { apply tinv_answer; [apply error_answering|done|by eapply (i_pending _ _ Hi3); set_solver|]. rewrite Dc. exact (create_ready e t Hi Hf). }
  replace ({[res_id e]} ∖ {[res_id e]} : gset nat) with (∅ : gset nat) in Hx by set_solver.
  destruct (on_response_same (res_id e) (o_error (R_diagnostics SESSION_CLOSED "this session is already shutdown")) (tbl w3)) as [S _].
  assert (same (create_objects e (Some (slot e)) t) t') as St by (by etransitivity). split; [|done].
  destruct St as (_ & Hb & Hc). split_and!; [done|rewrite Hb; cbn; set_solver|]. rewrite Hc. exact (create_ready e t Hi Hf).
Qed.

Lemma serve_request_ok e w : tinv ∅ (tbl w) -> fresh e (tbl w) -> leaves e (tbl w) (serve_request e w).
Proof using Laws.
  intros Hi Hf. unfold serve_request. pose proof (create_register_ok e (tbl w) Hi Hf) as Hreg. cbn zeta in Hreg.
  set (w2 := with_table (create_objects e (Some (slot e))) w). change (create_objects e (Some (slot e)) (tbl w)) with (tbl w2) in Hreg.
  assert (tinv {[res_id e]} (tbl w2)) as Hi2 by (apply (create_objects_ok e (Some (slot e))); [done|done|by right]).
  destruct (check_shutdown_ok {[res_id e]} (res_id e) w2 Hi2) as [D1 [D2 _]].
  pose proof (check_shutdown_false w2) as Hcf. destruct (check_shutdown_request w2) as [sd w3]. cbn [fst snd] in *. destruct sd; cbn [negb].
  - destruct (refused_request_ok e (tbl w) w3 Hi Hf D1 D2) as [H1 H2]. by eapply (leaves_ready e (Some (slot e))).
  - specialize (Hcf eq_refl). subst w3.
    destruct (register_reqres _ _ _ _ (tbl w2)) as [[] t3]; destruct Hreg as (R1 & R2 & R3); cbn [negb]; [|by eapply (leaves_ready e (Some (slot e)))].
    destruct (call_service_ok e t3 R1) as [C1 C2]. eapply (leaves_ready e (Some (slot e))); [done|exact C1|]. etransitivity; [exact R2|exact C2].
Qed.

(** ** Between two turns of a loop *)

(** between two turns, a response that waits for the shutdown is in no service's hands *)
Definition binv (t : table) : Prop :=
  tinv ∅ t /\ forall s q, shutdown_response_ t !! s = Some q -> q ∉ held_res t.

Lemma binv_same t t' : binv t -> tinv ∅ t' -> same t t' -> binv t'.
Proof. intros [_ H] Hi (_ & Hb & Hc). split; [done|]. intros s q. rewrite Hb, Hc. apply H. Qed.

Lemma tinv_drop D t a b : tinv D t -> b ⊆ held_res t -> tinv D (with_held a b t).
Proof.
  intros [H1 H2 H3 H4 H5 H6 H7] Hb. split; cbn [heap reqreses_ lost held_res shutdown_response_ with_held]; try done.
  intros q Hl. destruct (H5 _ Hl) as (Ha & Hr & Hn). split_and!; [set_solver|done|done].
Qed.
Lemma binv_drop t a b : binv t -> b ⊆ held_res t -> binv (with_held a b t).
Proof. intros [Hi Hs] Hb. split; [by apply tinv_drop|]. cbn. intros s q Hq Hin. by eapply Hs, Hb. Qed.

Lemma binv_care t : binv t -> binv (care_reqreses t).
Proof using Laws. intros Hb. destruct (care_ok t (proj1 Hb)). by eapply binv_same. Qed.
Lemma binv_check w : binv (tbl w) -> binv (tbl (snd (check_shutdown_request w))).
Proof. intros Hb. destruct (check_shutdown_ok ∅ 0%nat w (proj1 Hb)) as [? [? _]]. by eapply binv_same. Qed.
Lemma binv_request_shutdown ty w : binv (tbl w) -> binv (tbl (snd (request_shutdown ty w))).
Proof. intros Hb. destruct (request_shutdown_ok ∅ 0%nat ty w (proj1 Hb)) as [? [? _]]. by eapply binv_same. Qed.

Lemma binv_leaves e w r : binv (tbl w) -> fresh e (tbl w) -> leaves e (tbl w) r ->
  let '(w', kept, _) := r in binv (drop_objects kept e (tbl w')).
Proof using Laws.
  intros [Hi Hb] Hf Hl. destruct r as [[w' kept] ex]. destruct Hl as (Hi' & Hh & Hs). unfold drop_objects. destruct kept.
  - split; [done|]. intros s q Hq. destruct (Hs _ _ Hq) as [Hq'|[_ ?]]; [|done]. rewrite Hh.
    pose proof (Hb _ _ Hq'). pose proof (create_ready e (tbl w) Hi Hf s). assert (q <> res_id e) by congruence. set_solver.
  - split; [apply tinv_drop; [done|set_solver]|]. cbn [shutdown_response_ held_res with_held]. intros s q Hq.
    destruct (Hs _ _ Hq) as [Hq'|[-> _]]; [|set_solver]. rewrite Hh. pose proof (Hb _ _ Hq'). set_solver.
Qed.

Lemma ready_binv q f t : binv t -> q ∈ held_res t -> answering f -> binv (on_response q f t).
Proof.
  intros [Hi Hb] Hq Hf. assert (ready q t) as Hr by (split_and!; [done|done|]; intros s Hs; by apply (Hb s q)).
  eapply binv_same; [by split|apply (ready_answer q f t Hf Hr)|apply on_response_same].
Qed.

(** ** The end of the session *)

Lemma on_response_heap q f t r cb :
  heap t !! q = Some (r, cb) -> heap (on_response q f t) = <[q := (fst (f r (env t)), cb)]> (heap t).
Proof. intros E. unfold on_response. rewrite E. destruct (f r (env t)). by repeat case_match. Qed.
Lemma on_response_none q f t : heap t !! q = None -> on_response q f t = t.
Proof. intros E. unfold on_response. by rewrite E. Qed.

Lemma on_response_answered q q' f t : answering f \/ benign f -> answered_at t q = true -> answered_at (on_response q' f t) q = true.
Proof.
  intros Hf. unfold answered_at. destruct (heap t !! q') as [[r cb]|] eqn:E; [|by rewrite on_response_none].
  rewrite (on_response_heap _ _ _ _ _ E).
  destruct (decide (q = q')) as [<-|]; [|by rewrite lookup_insert_ne]. rewrite lookup_insert_eq, E. intros Hg.
  destruct Hf as [Hf|Hf]; specialize (Hf r (env t)); cbn zeta in Hf; [rewrite Hg in Hf; by rewrite Hf|]. by destruct Hf as (-> & _).
Qed.
Lemma on_response_answers q f t : answering f -> answered_at (on_response q f t) q = true.
Proof.
  intros Hf. unfold answered_at. destruct (heap t !! q) as [[r cb]|] eqn:E; [|by rewrite on_response_none, E].
  rewrite (on_response_heap _ _ _ _ _ E), lookup_insert_eq. specialize (Hf r (env t)). cbn zeta in Hf.
  destruct (o_gate r) eqn:Eg; [by rewrite Hf|by destruct Hf].
Qed.
Lemma on_response_reqreses q f t s x : reqreses_ (on_response q f t) !! s = Some x -> reqreses_ t !! s = Some x.
Proof.
  unfold on_response. destruct (heap t !! q) as [[r cb]|]; [|done]. repeat case_match; try done.
  cbn [reqreses_ remove_reqres with_reqreses with_heap]. by intros [_ ?]%lookup_delete_Some.
Qed.

Lemma fold_frame l f t : let t' := foldl (fun t q => on_response q f t) t l in
  same t t' /\ lost t' = lost t /\ cancel_requested_to_all_responses_ t' = cancel_requested_to_all_responses_ t /\
  forall q r cb, heap t !! q = Some (r, cb) -> exists r', heap t' !! q = Some (r', cb).
Proof.
  revert t. induction l as [|q l IH]; intros t; cbn [foldl]; [split_and!; [done|done|done|by eauto]|].
  destruct (IH (on_response q f t)) as (H1 & H2 & H6 & H3). destruct (on_response_same q f t) as [H4 H5].
  assert (cancel_requested_to_all_responses_ (on_response q f t) = cancel_requested_to_all_responses_ t) as H7.
  { unfold on_response. by repeat case_match. }
  split_and!; [by etransitivity|congruence|congruence|]. intros q' r' cb' Hq'.
  assert (exists r2, heap (on_response q f t) !! q' = Some (r2, cb')) as [r2 Hr2]; [|by eapply H3].
  destruct (heap t !! q) as [[r cb]|] eqn:E; [|rewrite on_response_none by done; by eauto].
  rewrite (on_response_heap _ _ _ _ _ E). destruct (decide (q' = q)) as [->|]; [|exists r'; by rewrite lookup_insert_ne].
  simplify_eq. eexists. apply lookup_insert_eq.
Qed.

Lemma fold_answers l f t : answering f ->
  let t' := foldl (fun t q => on_response q f t) t l in
  (forall q, q ∈ l \/ answered_at t q = true -> answered_at t' q = true) /\
  (forall s x, reqreses_ t' !! s = Some x -> reqreses_ t !! s = Some x).
Proof.
  intros Hf. revert t. induction l as [|q l IH]; intros t; cbn [foldl].
  - split; [|done]. intros q [?|?]; [set_solver|done].
  - destruct (IH (on_response q f t)) as [H1 H2]. split.
    + intros q' [[->|Hq]%elem_of_cons|Ha]; apply H1; [right; by apply on_response_answers|by left|right].
      apply on_response_answered; [by left|done].
    + intros s x Hx%H2. by eapply on_response_reqreses.
Qed.

Lemma shutdown_complete_fold t :
  shutdown_complete t = let targets := map snd (map_to_list (shutdown_response_ t)) in
  let t' := foldl (fun t q => respond q R_shutdown t) (with_shutdown_response ∅ t) targets in
  match targets with [] => t' | _ => with_complete_shutdown t' end.
Proof. unfold shutdown_complete. by destruct (map snd _). Qed.

Lemma shutdown_complete_clears t : shutdown_response_ (shutdown_complete t) = ∅.
Proof.
  rewrite shutdown_complete_fold. cbn zeta. set (l := map snd _).
  destruct (fold_frame l (o_body R_shutdown) (with_shutdown_response ∅ t)) as ((_ & _ & Hs) & _).
  destruct l; [done|exact Hs].
Qed.

Lemma completed_in_shutdown inc t s p q :
  tinv ∅ t -> is_completed_ inc t = true -> reqreses_ t !! s = Some (p, q) -> shutdown_response_ t !! s = Some q.
Proof.
  intros Hi Hc Ht. unfold is_completed_ in Hc. destruct inc; [done|]. case_bool_decide as Hs.
  - apply bool_decide_eq_true in Hc. rewrite Hc in Ht. set_solver.
  - rewrite forallb_forall in Hc. specialize (Hc (s, (p, q))). cbn in Hc.
    apply bool_decide_eq_true in Hc as [q' Hq']; [|by apply list_elem_of_In, elem_of_map_to_list].
    destruct (i_shutdown _ _ Hi _ _ Hq') as [p' Hp']. simplify_eq. done.
Qed.

Lemma shutdown_complete_drains inc t : tinv ∅ t -> is_completed_ inc t = true ->
  tinv ∅ (shutdown_complete t) /\ lost (shutdown_complete t) = lost t /\
  forall q r s, heap (shutdown_complete t) !! q = Some (r, Some s) -> o_gate r = true \/ q ∈ lost t.
Proof using Laws.
  intros Hi Hc. set (targets := map snd (map_to_list (shutdown_response_ t))).
  assert (forall q, q ∈ targets <-> exists s, shutdown_response_ t !! s = Some q) as Ht.
  { intros q. unfold targets. rewrite list_elem_of_fmap. split.
    - intros ([s q'] & -> & He). exists s. by apply elem_of_map_to_list.
    - intros [s Hs]. exists (s, q). by rewrite elem_of_map_to_list. }
  set (t' := foldl (fun t q => respond q R_shutdown t) (with_shutdown_response ∅ t) targets).
  assert (tinv ∅ (with_shutdown_response ∅ t)) as Hi0 by (destruct Hi; split; try done; set_solver).
  destruct (fold_answer ∅ targets (fun _ => o_body R_shutdown) (with_shutdown_response ∅ t)) as (H1 & _ & H3);
    [intros; apply body_answering|done| |].
  { intros q [s Hs]%Ht. destruct (i_shutdown _ _ Hi _ _ Hs) as [p Hp]. split; [|set_solver]. intros Hl.
    destruct (i_lost _ _ Hi _ Hl) as (_ & _ & Hn). by eapply Hn. }
  change (tinv (∅ ∖ list_to_set targets) t') in H1. change (lost t' = lost t) in H3.
  replace (∅ ∖ list_to_set targets : gset nat) with (∅ : gset nat) in H1 by set_solver.
  destruct (fold_answers targets (o_body R_shutdown) (with_shutdown_response ∅ t) (body_answering R_shutdown)) as [A1 A2].
  change (forall q, q ∈ targets \/ answered_at (with_shutdown_response ∅ t) q = true -> answered_at t' q = true) in A1.
  change (forall s x, reqreses_ t' !! s = Some x -> reqreses_ t !! s = Some x) in A2.
  assert (forall q r s, heap t' !! q = Some (r, Some s) -> o_gate r = true \/ q ∈ lost t) as Hq.
  { intros q r s Hq. destruct (o_gate r) eqn:Eg; [by left|right].
    destruct (i_place _ _ H1 _ _ _ Hq Eg) as [[p Hp]|[?|?]]; [|congruence|set_solver].
    apply A2 in Hp. pose proof (completed_in_shutdown _ _ _ _ _ Hi Hc Hp) as Hs.
    specialize (A1 q (or_introl (proj2 (Ht q) (ex_intro _ s Hs)))). unfold answered_at in A1. rewrite Hq in A1. congruence. }
  rewrite shutdown_complete_fold. cbn zeta. fold targets t'.
  destruct targets; [by split_and!|]. split_and!; [by destruct H1|done|exact Hq].
Qed.

(** the shutdown responses, once everything else is answered *)
Lemma shutdown_complete_held t : held_req (shutdown_complete t) = held_req t /\ held_res (shutdown_complete t) = held_res t.
Proof.
  rewrite shutdown_complete_fold. cbn zeta. set (l := map snd _).
  destruct (fold_frame l (o_body R_shutdown) (with_shutdown_response ∅ t)) as ((Ha & Hb & _) & _).
  destruct l; [done|]. split; [exact Ha|exact Hb].
Qed.
Lemma binv_shutdown_complete inc t : binv t -> is_completed_ inc t = true -> binv (shutdown_complete t).
Proof using Laws.
  intros [Hi _] Hc. destruct (shutdown_complete_drains inc t Hi Hc) as (H & _ & _). split; [done|].
  rewrite shutdown_complete_clears. set_solver.
Qed.
Lemma binv_env e t : binv t -> binv (with_env e t).
Proof. intros [[] Hb]. by split. Qed.
Lemma binv_benign q f t : benign f -> binv t -> binv (on_response q f t).
Proof. intros Hf Hb. eapply binv_same; [done|apply tinv_benign; [done|apply Hb]|apply on_response_same]. Qed.

(** whether the client has been told that the session is shut down is only ever set by shutdown_complete *)
Lemma fold_from_client l f t :
  complete_shutdown_from_client_ (foldl (fun t q => on_response q f t) t l) = complete_shutdown_from_client_ t.
Proof.
  revert t. induction l as [|q l IH]; intros t; cbn [foldl]; [done|]. rewrite IH. unfold on_response. by repeat case_match.
Qed.
Lemma care_from_client t : complete_shutdown_from_client_ (care_reqreses t) = complete_shutdown_from_client_ t.
Proof. apply (fold_from_client _ (o_error _) (erase_abandoned t)). Qed.
Lemma foreach_from_client f t : complete_shutdown_from_client_ (foreach_reqreses f t) = complete_shutdown_from_client_ t.
Proof. unfold foreach_reqreses. by rewrite fold_from_client. Qed.
Lemma cancel_all_from_client w : complete_shutdown_from_client_ (tbl (cancel_all w)) = complete_shutdown_from_client_ (tbl w).
Proof. unfold cancel_all. case_match; [done|]. apply foreach_from_client. Qed.
Lemma check_from_client w :
  complete_shutdown_from_client_ (tbl (snd (check_shutdown_request w))) = complete_shutdown_from_client_ (tbl w).
Proof. unfold check_shutdown_request. cbn [snd]. case_bool_decide; [apply cancel_all_from_client|done]. Qed.
Lemma request_shutdown_from_client ty w :
  complete_shutdown_from_client_ (tbl (snd (request_shutdown ty w))) = complete_shutdown_from_client_ (tbl w).
Proof.
  unfold request_shutdown. destruct (shutdown_request ty _) as [b c]. cbn [snd tbl with_shutdown].
  case_bool_decide; [apply cancel_all_from_client|done].
Qed.
Lemma shutdown_complete_from_client t :
  complete_shutdown_from_client_ (shutdown_complete t)
  = complete_shutdown_from_client_ t || negb (bool_decide (shutdown_response_ t = ∅)).
Proof.
  unfold shutdown_complete. destruct (map snd (map_to_list (shutdown_response_ t))) as [|q l] eqn:El; cbn [complete_shutdown_from_client_ with_shutdown_response with_complete_shutdown].
  - apply fmap_nil_inv, map_to_list_empty_iff in El. rewrite El, bool_decide_true by done. by rewrite orb_false_r.
  - rewrite bool_decide_false; [by rewrite orb_true_r|]. intros He. by rewrite He, map_to_list_empty in El.
Qed.

(** a table without outstanding requests stays so *)
Lemma fold_reqreses_empty l f t : reqreses_ t = ∅ -> reqreses_ (foldl (fun t q => on_response q f t) t l) = ∅.
Proof.
  revert t. induction l as [|q l IH]; intros t Ht; cbn [foldl]; [done|]. apply IH. apply map_empty. intros s.
  apply eq_None_not_Some. intros [x Hx%on_response_reqreses]. by rewrite Ht in Hx.
Qed.
Lemma erase_empty t : reqreses_ t = ∅ -> reqreses_ (erase_abandoned t) = ∅.
Proof. intros Ht. cbn. rewrite Ht. apply map_filter_empty. Qed.
Lemma care_empty t : reqreses_ t = ∅ -> reqreses_ (care_reqreses t) = ∅.
Proof. intros Ht. apply (fold_reqreses_empty _ (o_error _)). by apply erase_empty. Qed.
Lemma check_empty w : reqreses_ (tbl w) = ∅ -> reqreses_ (tbl (snd (check_shutdown_request w))) = ∅.
Proof.
  intros Ht. unfold check_shutdown_request, cancel_all. cbn [snd]. repeat case_match; try done.
  cbn [tbl with_table reqreses_ with_cancel_requested]. unfold foreach_reqreses. apply fold_reqreses_empty. by apply erase_empty.
Qed.

(** a request nobody refers to any more: lost when all requests are cancelled, answered
    when the table is cleaned up *)
Lemma shutdown_foreach_lost w s p q r :
  reqreses_ (tbl w) !! s = Some (p, q) -> abandoned (tbl w) (s, (p, q)) = true -> heap (tbl w) !! q = Some (r, Some s) ->
  o_gate r = false -> cancel_requested_to_all_responses_ (tbl w) = false ->
  let w' := snd (request_shutdown forceful w) in
  q ∈ lost (tbl w') /\ cancel_requested_to_all_responses_ (tbl w') = true.
Proof.
  intros Ht Ha Hq Hg Hn. unfold request_shutdown, cancel_all. rewrite bool_decide_true, Hn by done.
  destruct (shutdown_request _ _) as [b c]. cbn [snd tbl with_shutdown with_table lost with_cancel_requested cancel_requested_to_all_responses_].
  split; [|done]. unfold foreach_reqreses. 
  destruct (fold_frame (shared_responses (tbl w)) (silent o_cancel) (with_lost (lost (tbl w) ∪ list_to_set (filter (fun q => answered_at (tbl w) q = false)
    (abandoned_responses (tbl w)))) (erase_abandoned (tbl w)))) as (_ & -> & _). cbn [lost with_lost]. apply elem_of_union_r, elem_of_list_to_set, list_elem_of_filter.
  split; [unfold answered_at; by rewrite Hq|]. apply elem_of_abandoned. by exists s, p.
Qed.

Lemma care_answers t s p q r :
  tinv ∅ t -> reqreses_ t !! s = Some (p, q) -> abandoned t (s, (p, q)) = true -> heap t !! q = Some (r, Some s) ->
  exists r', heap (care_reqreses t) !! q = Some (r', Some s) /\ o_bodies r' = 1%nat.
Proof using Laws.
  intros Hi Ht Ha Hq. destruct (care_ok t Hi) as [Hi' _]. unfold care_reqreses in *. set (l := filter _ _) in *.
  destruct (fold_frame l (o_error (R_diagnostics UNKNOWN "request dissipated")) (erase_abandoned t)) as (_ & _ & _ & Hh).
  destruct (fold_answers l _ (erase_abandoned t) (error_answering (R_diagnostics UNKNOWN "request dissipated"))) as [Han _].
  destruct (Hh _ _ _ Hq) as [r' Hr']. exists r'. split; [exact Hr'|]. rewrite (i_once _ _ Hi' _ _ _ Hr').
  specialize (Han q). unfold answered_at in Han. rewrite Hr' in Han. rewrite Han; [done|].
  destruct (completed_at t q) eqn:Ec; [right; by apply (completed_answered _ _ _ _ Hi Hq)|left].
  apply list_elem_of_filter. split; [done|]. apply elem_of_abandoned. by exists s, p.
Qed.

(** ** Properties of the table that the handling of requests keeps *)

(** the operations of a response the worker and its services use *)
Inductive operation : act -> Prop :=
| Op_body b : operation (o_body b)
| Op_error b : operation (o_error b)
| Op_cancel : operation (silent o_cancel)
| Op_completed : operation (silent o_set_completed)
| Op_session i : operation (silent (o_set_session_id i)).

(** a property kept by the operations of responses, by making objects and by the cancellation
    of all requests, which does not depend on who refers to the objects or on the entries *)
Class Stable (P : table -> Prop) : Prop := {
  stable_response q f t : operation f -> P t -> P (on_response q f t);
  stable_frame t t' : env t' = env t -> heap t' = heap t -> lost t' = lost t ->
    cancel_requested_to_all_responses_ t' = cancel_requested_to_all_responses_ t -> P t -> P t';
  stable_create e cb t : P t -> P (create_objects e cb t);
  stable_cancel t : P t -> P (with_cancel_requested (foreach_reqreses (silent o_cancel) t))
}.

Section Stable.
Context (P : table -> Prop) `{!Stable P}.

Lemma stable_fold f l t : operation f -> P t -> P (foldl (fun t q => on_response q f t) t l).
Proof using All. intros Hf. revert t. induction l as [|q l IH]; intros t Ht; cbn [foldl]; [done|]. by apply IH, stable_response. Qed.
Lemma stable_care t : P t -> P (care_reqreses t).
Proof using All. intros Ht. apply (stable_fold (o_error _)); [constructor|]. by apply (stable_frame t). Qed.
Lemma stable_cancel_all w : P (tbl w) -> P (tbl (cancel_all w)).
Proof using All. intros Ht. unfold cancel_all. case_match; [done|]. by apply stable_cancel. Qed.
Lemma stable_check w : P (tbl w) -> P (tbl (snd (check_shutdown_request w))).
Proof using All. intros Ht. unfold check_shutdown_request. cbn [snd]. case_bool_decide; [by apply stable_cancel_all|done]. Qed.
Lemma stable_request_shutdown ty w : P (tbl w) -> P (tbl (snd (request_shutdown ty w))).
Proof using All.
  intros Ht. unfold request_shutdown. destruct (shutdown_request ty _) as [b c]. cbn [snd tbl with_shutdown].
  case_bool_decide; [by apply stable_cancel_all|done].
Qed.
Lemma stable_register sl p q b t : P t -> P (snd (register_reqres sl p q b t)).
Proof using All.
  intros Ht. unfold register_reqres. assert (P (with_reqreses (<[sl := (p, q)]> (delete sl (reqreses_ t))) t)) as H1 by by apply (stable_frame t).
  destruct b; [|done]. by apply stable_response; [constructor|].
Qed.
Lemma stable_shutdown_complete t : P t -> P (shutdown_complete t).
Proof using All.
  intros Ht. rewrite shutdown_complete_fold. cbn zeta. set (l := map snd _).
  assert (P (foldl (fun t q => respond q R_shutdown t) (with_shutdown_response ∅ t) l)) as H1.
  { apply (stable_fold (o_body R_shutdown)); [constructor|]. by apply (stable_frame t). }
  destruct l; [done|]. by eapply stable_frame, H1.
Qed.
Lemma stable_endpoint cfg now sl q message w : P (tbl w) -> P (tbl (snd (endpoint_service cfg now sl q message w))).
Proof using All.
  intros Ht. unfold endpoint_service. destruct message as [rq|]; [|by apply stable_response; [constructor|]].
  destruct (command_ rq); try (by apply stable_response; [constructor|]).
  - cbn [snd]. assert (P (on_response q (silent o_set_completed) (tbl w))) as H1 by (apply stable_response; [constructor|done]).
    case_match; [|done]. case_match. by apply stable_response; [constructor|].
  - destruct (update_authentication _ _ _ _ _) as [timer rep]. by apply stable_response; [constructor|].
Qed.
Lemma stable_routing cfg now index q rsid message w :
  P (tbl w) -> P (tbl (snd (routing_service_chain cfg now index q rsid message w))).
Proof using All.
  intros Ht. unfold routing_service_chain. destruct message as [[ty|et|]|]; [| |done|by apply stable_response; [constructor|]].
  - destruct (match ty with SESSION_SHUTDOWN_TYPE_NOT_SET => _ | _ => _ end) as [type|]; [|done].
    pose proof (stable_request_shutdown type w Ht) as H1. destruct (request_shutdown type w) as [b w1]. cbn [snd tbl with_table] in *.
    case_match; [done|]. by apply (stable_frame (tbl w1)).
  - cbn [snd tbl with_table]. apply stable_response; [constructor|]. apply stable_response; [constructor|].
    destruct et; [|by rewrite update_expiration_tbl]. by repeat case_match.
Qed.
Lemma stable_call_service e t : P t -> P (call_service e t).
Proof using All.
  intros Ht. unfold call_service. destruct (svc_answer e) as [[b|b]|]; [by apply stable_response; [constructor|]..|done].
Qed.
Lemma stable_serve e w : P (tbl w) -> P (tbl (serve_request e w).1.1).
Proof using All.
  intros Ht. unfold serve_request. pose proof (stable_check (with_table (create_objects e (Some (slot e))) w) (stable_create _ _ _ Ht)) as H1.
  destruct (check_shutdown_request _) as [sd w1]. cbn [snd] in H1. destruct sd; cbn [negb]; [by apply stable_response; [constructor|]|].
  pose proof (stable_register (slot e) (req_id e) (res_id e) (blob_error e) _ H1) as H2.
  destruct (register_reqres _ _ _ _ _) as [[] t1]; cbn [negb snd fst] in *; [by apply stable_call_service|done].
Qed.
Lemma stable_drop kept e t : P t -> P (drop_objects kept e t).
Proof using All. intros Ht. unfold drop_objects. destruct kept; [done|]. by apply (stable_frame t). Qed.
End Stable.

(** as long as the requests have not been cancelled all at once, nothing is lost *)
Definition no_loss (t : table) : Prop := cancel_requested_to_all_responses_ t = false -> lost t = ∅.
#[global] Instance no_loss_stable : Stable no_loss.
Proof.
  unfold no_loss. split; try done.
  - intros q f t _ Ht. destruct (fold_frame [q] f t) as (_ & Hl & Hc & _). cbn [foldl] in *. by rewrite Hl, Hc.
  - intros t t' _ _ Hl Hc Ht. by rewrite Hl, Hc.
Qed.

End Table.
