(* ===== verification/RequestService.v ===== *)
(** The request service, which lists the requests in progress and returns their payloads
    (src/tateyama/request/service/bridge.h, bridge.cpp), with foreach_request of the listeners
    and of the workers below it (endpoint/ipc/bootstrap/ipc_listener.h,
    endpoint/stream/bootstrap/stream_listener.h, endpoint/common/worker_common.h).

    Protobuf parsing is a parameter: requests and replies are the messages. *)
From stdpp Require Import gmap sorting.
From S2P Require Import Prelude Authentication WorkerTable.

Module RequestService.

Definition service_id_request : Z := 10.

(** what the service sees of a request; [start_at] in nanoseconds *)
Record view : Type := View {
  session_id : Z;
  local_id : Z;
  service_id : Z;
  payload : list byte;
  start_at : Z
}.

(** * foreach_request *)

(** worker_common::foreach_request: the requests of the table that somebody else refers to *)
Definition worker_requests {O Env : Type} (info : nat -> view) (t : table (O := O) (Env := Env)) : list view :=
  map info (List.filter (fun p => req_shared p t) (map (fun e => e.2.1) (map_to_list (reqreses_ t)))).

(** a worker in its slot: whether its thread has ended, and its requests *)
Record worker_view : Type := WorkerView { is_terminated : bool; requests : list view }.
Definition listener : Type := list (option worker_view).
Definition foreach_request (l : listener) : list view :=
  concat (map (fun e => match e with Some w => if is_terminated w then [] else requests w | None => [] end) l).

(** * The service *)

Definition register_endpoint_listener (l : listener) (listeners : list listener) : list listener := listeners ++ [l].
Definition foreach_endpoint (listeners : list listener) : list view := concat (map foreach_request listeners).

(** an entry of the reply *)
Record request_info : Type := RequestInfo {
  ri_session_id : Z;
  ri_request_id : Z;
  ri_service_id : Z;
  ri_payload_size : Z;
  ri_started_time : Z
}.

(** milliseconds; the division of C++ rounds toward zero, and the key is an unsigned number *)
Definition started_time (tp : Z) : Z :=
  let secs := Z.quot tp 1000000000 in
  let ns := tp - secs * 1000000000 in
  u64 (secs * 1000 + Z.quot (ns + 500000) 1000000).
Definition info_of (v : view) : request_info :=
  RequestInfo (session_id v) (local_id v) (service_id v) (zlen (payload v)) (started_time (start_at v)).
Definition is_target (service_id_opt : option Z) (v : view) : bool :=
  negb (service_id v =? service_id_request) &&
  match service_id_opt with Some i => i =? service_id v | None => true end.

(** [std::multimap::emplace]: behind the entries with the same key *)
Fixpoint emplace (r : request_info) (m : list request_info) : list request_info :=
  match m with
  | [] => [r]
  | r' :: m => if ri_started_time r' <=? ri_started_time r then r' :: emplace r m else r :: r' :: m
  end.
Definition results (service_id_opt : option Z) (vs : list view) : list request_info :=
  foldl (fun m v => if is_target service_id_opt v then emplace (info_of v) m else m) [] vs.

(** the loop that fills the reply *)
Fixpoint reply_loop (top_opt : option Z) (count : Z) (m : list request_info) : list request_info :=
  match m with
  | [] => []
  | r :: m =>
      let count := u32 (count + 1) in
      r :: match top_opt with
           | Some top => if top <=? count then [] else reply_loop top_opt count m
           | None => reply_loop top_opt count m
           end
  end.

(** the callback of GetPayload: a later match replaces an earlier one *)
Definition matching (session request : Z) (v : view) : bool := (session =? session_id v) && (request =? local_id v).
Definition find_payload (session request : Z) (vs : list view) : option (list byte) :=
  foldl (fun r v => if matching session request v then Some (payload v) else r) None vs.

Inductive command : Type :=
| List_request (top service_id : option Z)
| Get_payload (session_id request_id : Z)
| Command_not_set.
Inductive answer : Type :=
| Set_session_id (i : Z)
| Body_list (l : list request_info)
| Body_payload (data : list byte)
| Body_missing
| Error (c : code) (message : string).

Definition service (administrator : bool) (req_session_id : Z) (request : option command) (listeners : list listener) : list answer * bool :=
  if negb administrator then ([Error PERMISSION_ERROR "administrator privilege is required"], false)
  else match request with
       | None => ([], false)
       | Some c =>
           match c with
           | List_request top service_id =>
               ([Set_session_id req_session_id; Body_list (reply_loop top 0 (results service_id (foreach_endpoint listeners)))], true)
           | Get_payload session request =>
               ([Set_session_id req_session_id;
                 match find_payload session request (foreach_endpoint listeners) with Some data => Body_payload data | None => Body_missing end], true)
           | Command_not_set => ([Set_session_id req_session_id; Error INVALID_REQUEST ""], false)
           end
       end.

(** * The list of requests *)

Definition started_before (a b : request_info) : Prop := ri_started_time a <= ri_started_time b.

Lemma emplace_perm r m : emplace r m ≡ₚ r :: m.
Proof. induction m as [|r' m IH]; simpl; [done|]. destruct (_ <=? _); [|done]. rewrite IH. apply Permutation_swap. Qed.
Lemma emplace_sorted r m : Sorted started_before m -> Sorted started_before (emplace r m).
Proof.
  induction m as [|r' m IH]; simpl; intros Hs; [by repeat constructor|]. destruct (Z.leb_spec (ri_started_time r') (ri_started_time r)) as [Hle|Hlt].
  - apply Sorted_inv in Hs as [Hs Hd]. constructor; [by apply IH|]. destruct m as [|r2 m]; simpl; [by constructor|].
    apply HdRel_inv in Hd. destruct (_ <=? _); by constructor.
  - constructor; [done|]. constructor. unfold started_before. lia.
Qed.

Lemma results_spec so vs :
  Sorted started_before (results so vs) /\ results so vs ≡ₚ map info_of (List.filter (is_target so) vs).
Proof.
  unfold results. induction vs as [|v vs [IHs IHp]] using rev_ind; [by repeat constructor|].
  rewrite foldl_app. cbn [foldl]. rewrite List.filter_app. cbn [List.filter]. destruct (is_target so v).
  - split; [by apply emplace_sorted|]. rewrite emplace_perm, IHp, map_app. cbn [map]. by rewrite <- Permutation_cons_append.
  - by rewrite app_nil_r.
Qed.

Lemma reply_loop_all m count : reply_loop None count m = m.
Proof. revert count. induction m as [|r m IH]; intros count; cbn [reply_loop]; [done|]. by rewrite IH. Qed.
Lemma reply_loop_top m top count :
  0 <= count < 2 ^ 32 - 1 -> count < Z.max 1 top -> top < 2 ^ 32 ->
  reply_loop (Some top) count m = take (Z.to_nat (Z.max 1 top - count)) m.
Proof.
  revert count. induction m as [|r m IH]; intros count Hc Ht Hb; cbn [reply_loop]; [by rewrite take_nil|].
  rewrite wrap_small by (unfold in_range; lia). destruct (Z.leb_spec top (count + 1)) as [Hle|Hlt].
  - replace (Z.to_nat (Z.max 1 top - count)) with 1%nat by lia. by destruct m.
  - replace (Z.to_nat (Z.max 1 top - count)) with (S (Z.to_nat (Z.max 1 top - (count + 1)))) by lia. cbn [take]. f_equal. apply IH; lia.
Qed.

Lemma find_payload_none session request vs :
  find_payload session request vs = None <-> forall v, v ∈ vs -> matching session request v = false.
Proof.
  unfold find_payload. induction vs as [|v vs IH] using rev_ind; [set_solver|]. rewrite foldl_app. cbn [foldl].
  destruct (matching session request v) eqn:Hm.
  - split; [done|]. intros Hall. rewrite (Hall v) in Hm; [done|set_solver].
  - rewrite IH. set_solver.
Qed.
Lemma find_payload_some session request vs data :
  find_payload session request vs = Some data -> exists v, v ∈ vs /\ matching session request v = true /\ payload v = data.
Proof.
  unfold find_payload. induction vs as [|v vs IH] using rev_ind; [done|]. rewrite foldl_app. cbn [foldl].
  destruct (matching session request v) eqn:Hm; [intros [= <-]; exists v; set_solver|]. intros (v' & ? & ?)%IH. exists v'. set_solver.
Qed.

Lemma worker_requests_elem {O Env} info (t : table (O := O) (Env := Env)) v :
  v ∈ worker_requests info t <-> exists slot p q, reqreses_ t !! slot = Some (p, q) /\ p ∈ held_req t /\ v = info p.
Proof.
  unfold worker_requests, req_shared. rewrite list_elem_of_fmap. split.
  - intros (p & -> & Hp). apply list_elem_of_In, filter_In in Hp as [Hp Hh]. apply list_elem_of_In, list_elem_of_fmap in Hp as ([slot [p' q]] & -> & Hin).
    apply elem_of_map_to_list in Hin. apply bool_decide_eq_true in Hh. by exists slot, p', q.
  - intros (slot & p & q & Hin & Hh & ->). exists p. split; [done|]. apply list_elem_of_In, filter_In. split; [|by apply bool_decide_eq_true].
    apply list_elem_of_In, list_elem_of_fmap. exists (slot, (p, q)). split; [done|]. by apply elem_of_map_to_list.
Qed.

Lemma foreach_view_elem ls v :
  v ∈ foreach_endpoint ls <-> exists l w, l ∈ ls /\ Some w ∈ l /\ is_terminated w = false /\ v ∈ requests w.
Proof.
  unfold foreach_endpoint, foreach_request. rewrite list_elem_of_In, in_concat. setoid_rewrite in_map_iff. split.
  - intros (x & (l & <- & Hl) & Hv). apply in_concat in Hv as (y & Hy & Hv). apply in_map_iff in Hy as ([w|] & <- & Hw); [|done].
    destruct (is_terminated w) eqn:Ht; [done|]. exists l, w. by rewrite !list_elem_of_In.
  - intros (l & w & Hl & Hw & Ht & Hv). rewrite !list_elem_of_In in *. eexists. split; [by exists l|]. apply in_concat. exists (requests w). split; [|done].
    apply in_map_iff. exists (Some w). rewrite Ht. split; [done|]. by apply list_elem_of_In.
Qed.

(** the time in the list is that of the request in milliseconds, to the nearest *)
Lemma started_time_rounds tp : 0 <= tp < 2 ^ 63 -> Z.abs (started_time tp * 1000000 - tp) <= 500000.
Proof.
  intros Ht. unfold started_time. pose proof (Z.quot_rem' tp 1000000000). pose proof (Z.rem_bound_pos tp 1000000000 ltac:(lia) ltac:(lia)).
  set (s := tp ÷ 1000000000) in *. assert (Hs : 0 <= s) by (apply Z.quot_pos; lia).
  pose proof (Z.quot_rem' (tp - s * 1000000000 + 500000) 1000000). pose proof (Z.rem_bound_pos (tp - s * 1000000000 + 500000) 1000000 ltac:(lia) ltac:(lia)).
  rewrite wrap_small by (unfold in_range; lia). lia.
Qed.

(** The list of requests has, in the order in which they were started, exactly the requests
    of running workers that are not of the request service itself and that the filter lets
    pass: all of them, or the first as many as asked for (and one when none is asked for); and
    GetPayload returns the payload of a request in progress with these ids, and reports it
    missing only when there is none. *)
Theorem request_list_spec sid top so ls session request :
  (forall k, top = Some k -> 0 <= k < 2 ^ 32) ->
  (exists all, service true sid (Some (List_request top so)) ls =
       ([Set_session_id sid; Body_list (match top with Some k => take (Z.to_nat (Z.max 1 k)) all | None => all end)], true) /\
     Sorted started_before all /\ all ≡ₚ map info_of (List.filter (is_target so) (foreach_endpoint ls))) /\
  (exists r, service true sid (Some (Get_payload session request)) ls = ([Set_session_id sid; r], true) /\
     match r with
     | Body_payload data => exists v, v ∈ foreach_endpoint ls /\ session_id v = session /\ local_id v = request /\ payload v = data
     | _ => r = Body_missing /\ forall v, v ∈ foreach_endpoint ls -> ~ (session_id v = session /\ local_id v = request)
     end).
Proof.
  intros Htop. split.
  - destruct (results_spec so (foreach_endpoint ls)) as [Hs Hp]. exists (results so (foreach_endpoint ls)). split_and!; [|done..].
    unfold service. cbn [negb]. do 3 f_equal. destruct top as [k|]; [|by rewrite reply_loop_all].
    specialize (Htop k eq_refl). rewrite reply_loop_top by lia. by rewrite Z.sub_0_r.
  - unfold service. cbn [negb]. eexists. split; [done|]. destruct (find_payload session request (foreach_endpoint ls)) as [data|] eqn:Hf.
    + apply find_payload_some in Hf as (v & Hv & Hm & <-). unfold matching in Hm. exists v. split_and!; (done || lia).
    + split; [done|]. intros v Hv [<- <-]. rewrite find_payload_none in Hf. specialize (Hf v Hv). unfold matching in Hf. lia.
Qed.

End RequestService.

(** * Examples *)

Module RequestServiceDemo.
Import RequestService.

Definition one (i start : Z) : view := View 7 i 3 [i; i] start.
Definition listeners : list listener :=
  [[Some (WorkerView false [one 1 2000000000; one 2 1000000000]); None]; [Some (WorkerView true [one 3 500])]].

Lemma request_list_spec_witness :
  service true 9 (Some (List_request (Some 1) None)) listeners =
    ([Set_session_id 9; Body_list [RequestInfo 7 2 3 2 1000]], true) /\
  exists all, Sorted started_before all /\ all ≡ₚ map info_of (List.filter (is_target None) (foreach_endpoint listeners)).
Proof.
  split; [vm_compute; reflexivity|]. destruct (request_list_spec 9 (Some 1) None listeners 7 1) as [(all & _ & H1 & H2) _]; [|by exists all].
  intros k [= <-]. lia.
Defined.

End RequestServiceDemo.
