(* ===== verification/Worker.v ===== *)
(** The worker of a session of the IPC endpoint (the request loop of
    endpoint/ipc/bootstrap/ipc_worker.cpp), over the table of outstanding requests of
    WorkerTable.v with the response objects of Response.v. *)
From stdpp Require Import gmap.
From S2P Require Import Prelude Session Authentication Handshake Response WorkerTable.

Section Worker.
Context {W R : Type} {WO : Wires_ops W R} (format : Z -> list string -> reply -> option (list byte)).

(** * ipc_response behind the interface of the table *)

(** each response keeps its messages, so nothing is shared between them *)
#[local] Instance ipc_responses : Responses (ipc_response W R) unit := {
  o_new := new_response;
  o_gate := complete_gate_;
  o_completed := completed_;
  o_is_completed := is_completed;
  o_cleaned := cleaned;
  o_bodies := bodies;
  o_body b r e := (snd (body format b r), e);
  o_error b r e := (error format b r, e);
  o_cancel := cancel;
  o_set_completed := set_completed;
  o_set_session_id := set_session_id
}.

Abbreviation worker := (worker (O := ipc_response W R) (Env := unit)).

Record loop : Type := Loop { wk : worker; notiry_expiration_time_over : bool; running : bool }.

Section Config.
Context (cfg : configuration).

(** * ipc_worker::run up to the handshake *)

Inductive entry_phase : Type := Waiting | Established | Over.
Record ipc_entry : Type := Entry { ewk : worker; ephase : entry_phase; sent : list reply }.

(** what peep() of the request wire gives: an exception, at its timeout and when it is
    notified; the end of the connection; or a request.  [Pe_terminate]: another thread asks
    the worker to terminate. *)
Inductive ipc_entry_event : Type :=
| Pe_exception
| Pe_terminate_request
| Pe_request (new_session : Z) (service_id : Z) (message : option endpoint_request)
| Pe_terminate (type : shutdown_request_type).

Definition with_resources (r : resources) (w : worker) : worker :=
  Worker_ r (variables w) (shutdown_ w) (expiration_ w) (authentication_timer_ w) (tbl w).

(** [sent]: the bodies given to the responses of the handshake *)
Definition ipc_entry_step (ev : ipc_entry_event) (e : ipc_entry) : ipc_entry :=
  match ev with
  | Pe_terminate type => Entry (snd (request_shutdown type (ewk e))) (ephase e) (sent e)
  | _ =>
      match ephase e with
      | Waiting =>
          match ev with
          | Pe_terminate_request => Entry (ewk e) Over (sent e)
          | Pe_request new_session service_id message =>
              let '(r, replies, o) := handshake cfg new_session service_id message (resources_ (ewk e)) in
              Entry (with_resources r (ewk e)) (match o with Done true => Established | Done false => Over | Continue => Waiting end)
                (sent e ++ replies)
          | _ => e
          end
      | _ => e
      end
  end.

(** without a message of the client the worker stays in the handshake phase, also after it was asked to terminate *)
Lemma ipc_handshake_ignores_shutdown evs e :
  ephase e = Waiting -> Forall (fun ev => ev = Pe_exception \/ exists type, ev = Pe_terminate type) evs ->
  ephase (foldl (fun e ev => ipc_entry_step ev e) e evs) = Waiting.
Proof.
  intros He Hq. revert e He. induction Hq as [|ev evs [-> |[ty ->]] _ IH]; intros e He; cbn [foldl]; [done| |]; apply IH; [|done].
  cbn [ipc_entry_step]. by rewrite He.
Qed.

(** * ipc_worker::run after the handshake *)

(** one request: the worker afterwards, whether a service keeps it, and [exit_frag] *)
Definition handle_request (now : Z) (incomplete : bool) (e : request_event) (w : worker) : worker * bool * bool :=
  let w := update_expiration_time cfg false now w in
  if service_id e =? service_id_endpoint_broker then
    let w := with_table (create_objects e None) w in
    let '(handled, w) := endpoint_service cfg now (slot e) (res_id e) (endpoint_message e) w in (w, false, negb handled)
  else if service_id e =? service_id_routing then
    let w := with_table (create_objects e (Some (slot e))) w in
    let '(registered, t) := register_reqres (slot e) (req_id e) (res_id e) (blob_error e) (tbl w) in
    let w := with_table (fun _ => t) w in
    if negb registered then (w, false, false)
    else
      let '(handled, w) := routing_service_chain cfg now (slot e) (res_id e) (req_session_id e) (core_message e) w in
      if handled then
        let w := with_table care_reqreses w in
        let '(sd, w) := check_shutdown_request w in
        (w, false, sd && is_completed_ incomplete (tbl w))
      else (with_table (call_service e) w, svc_keeps e, negb (svc_returns e))
  else serve_request e w.

Inductive event : Type :=
| Ev_timeout (now : Z) (incomplete : bool)
| Ev_terminate_request (incomplete : bool)
| Ev_request (now : Z) (incomplete : bool) (e : request_event)
| Ev_malformed
| Ev_answer (q : nat) (a : service_answer)
| Ev_drop (ps qs : gset nat)
| Ev_terminate (type : shutdown_request_type)
| Ev_diagnostic.

(** one turn of the loop, or a step of another thread: a service that answers or drops
    pointers it has, terminate(), print_diagnostic() *)
Definition loop_step (ev : event) (l : loop) : loop :=
  let w := wk l in
  match ev with
  | Ev_timeout now incomplete =>
      let w := with_table care_reqreses w in
      let '(sd, w) := check_shutdown_request w in
      if sd && is_completed_ incomplete (tbl w) then Loop w (notiry_expiration_time_over l) false
      else if negb (notiry_expiration_time_over l) && is_expiration_time_over cfg now w
      then Loop (snd (request_shutdown forceful w)) true true
      else Loop w (notiry_expiration_time_over l) true
  | Ev_terminate_request incomplete =>
      let '(_, w) := request_shutdown forceful w in
      let w := with_table care_reqreses w in
      let '(sd, w) := check_shutdown_request w in
      Loop w (notiry_expiration_time_over l) (negb (sd && is_completed_ incomplete (tbl w)))
  | Ev_request now incomplete e =>
      let '(w, kept, exit_frag) := handle_request now incomplete e w in
      Loop (with_table (drop_objects kept e) w) (notiry_expiration_time_over l) (negb exit_frag)
  | Ev_malformed => Loop w (notiry_expiration_time_over l) false
  | Ev_answer q a => Loop (with_table (on_response q (give_answer a)) w) (notiry_expiration_time_over l) (running l)
  | Ev_drop ps qs =>
      Loop (with_table (fun t => with_held (held_req t ∖ ps) (held_res t ∖ qs) t) w) (notiry_expiration_time_over l) (running l)
  | Ev_terminate type => Loop (snd (request_shutdown type w)) (notiry_expiration_time_over l) (running l)
  | Ev_diagnostic =>
      Loop (with_table (fun t => snd (has_incomplete_response t)) w) (notiry_expiration_time_over l) (running l)
  end.

(** ipc_worker::delete_hook, after the loop *)
Definition delete_hook (l : loop) : table := shutdown_complete (tbl (wk l)).

End Config.

(** * Nothing gets lost *)

Hypothesis format_total : forall i l b, format i l b <> None.

Lemma ipc_body_answers b : answering (o_body b).
Proof using format_total.
  intros r e. cbn. unfold body. destruct (complete_gate_ r) eqn:Eg; [done|].
  destruct (finish_spec format format_total (A_body b) (set_gate r)) as (H1 & _ & H3 & H4). cbn [finish] in *.
  split_and!; [by rewrite H1|done|done].
Qed.
Lemma ipc_error_answers b : answering (o_error b).
Proof using format_total.
  intros r e. cbn. unfold error. destruct (complete_gate_ r) eqn:Eg; [done|].
  destruct (finish_spec format format_total (A_error b) (set_gate r)) as (H1 & _ & H3 & H4). cbn [finish] in *.
  split_and!; [by rewrite H1|done|done].
Qed.
#[local] Instance ipc_response_laws : ResponseLaws (ipc_response W R) unit.
Proof using format_total.
  split; try done; [apply ipc_body_answers|apply ipc_error_answers|]. by intros r [? _]%andb_true_iff.
Qed.

(** ** The loop *)

Lemma handle_request_ok cfg now inc e w :
  tinv ∅ (tbl w) -> fresh e (tbl w) -> leaves e (tbl w) (handle_request cfg now inc e w).
Proof using format_total.
  intros Hi Hf. unfold handle_request. set (w1 := update_expiration_time cfg false now w).
  assert (tbl w1 = tbl w) as Ht by apply update_expiration_tbl. rewrite <- Ht in *. clearbody w1. clear Ht.
  pose proof (create_register_ok e (tbl w1) Hi Hf) as Hreg. cbn zeta in Hreg.
  set (w2 := with_table (create_objects e (Some (slot e))) w1). change (create_objects e (Some (slot e)) (tbl w1)) with (tbl w2) in Hreg.
  destruct (service_id e =? service_id_endpoint_broker).
  { pose proof (endpoint_request_ok cfg now e w1 Hi Hf). by destruct (endpoint_service _ _ _ _ _ _). }
  destruct (service_id e =? service_id_routing).
  - destruct (register_reqres _ _ _ _ (tbl w2)) as [[] t3]; destruct Hreg as (R1 & R2 & R3); cbn [negb]; [|by eapply (leaves_ready e (Some (slot e)))].
    set (w3 := with_table (fun _ => t3) w2).
    destruct (routing_service_chain _ _ _ _ _ _ w3) as [handled w4] eqn:E.
    pose proof (routed_request_ok cfg now e t3 w4 w3 handled eq_refl (proj1 R1) R1 (R3 eq_refl) E) as Hro. destruct handled.
    + destruct (check_shutdown_request _) as [sd w6]. eapply (leaves_post e (Some (slot e))).
      destruct Hro as (P1 & P2 & P3), R2 as (Ra & Rb & Rc). split_and!; [done|by rewrite P2|].
      intros s q Hs. rewrite Rc in P3. by apply P3.
    + eapply (leaves_ready e (Some (slot e))); [done|apply Hro|]. etransitivity; [exact R2|apply Hro].
  - by apply serve_request_ok.
Qed.

(** events of the loop happen while it runs; a request comes with fresh objects in a free
    slot, and a service answers with a response it has *)
Definition event_ok (ev : event) (l : loop) : Prop :=
  match ev with
  | Ev_request _ _ e => running l = true /\ fresh e (tbl (wk l))
  | Ev_timeout _ _ | Ev_terminate_request _ | Ev_malformed => running l = true
  | Ev_answer q _ => q ∈ held_res (tbl (wk l))
  | Ev_drop _ _ | Ev_terminate _ | Ev_diagnostic => True
  end.

Inductive reachable (cfg : configuration) : loop -> Prop :=
| Reach_start w : tbl w = empty_table () -> reachable cfg (Loop w false true)
| Reach_step l ev : reachable cfg l -> event_ok ev l -> reachable cfg (loop_step cfg ev l).





Lemma binv_request cfg now inc e w : binv (tbl w) -> fresh e (tbl w) ->
  let '(w', kept, _) := handle_request cfg now inc e w in binv (drop_objects kept e (tbl w')).
Proof using format_total. intros Hb Hf. apply (binv_leaves e w); [done|done|]. apply handle_request_ok; [apply Hb|done]. Qed.

Lemma binv_step cfg ev l : binv (tbl (wk l)) -> event_ok ev l -> binv (tbl (wk (loop_step cfg ev l))).
Proof using format_total.
  intros Hb Hok. destruct ev as [now inc|inc|now inc e| |q a|ps qs|ty|]; cbn [loop_step].
  - pose proof (binv_check (with_table care_reqreses (wk l)) (binv_care _ Hb)) as Hc.
    destruct (check_shutdown_request _) as [sd w]. cbn [snd] in Hc.
    repeat case_match; try done. cbn [wk]. by apply binv_request_shutdown.
  - pose proof (binv_request_shutdown forceful (wk l) Hb) as Hr. destruct (request_shutdown _ _) as [b w]. cbn [snd] in Hr.
    pose proof (binv_check (with_table care_reqreses w) (binv_care _ Hr)) as Hc.
    by destruct (check_shutdown_request _) as [sd w'].
  - destruct Hok as [_ Hf]. pose proof (binv_request cfg now inc e (wk l) Hb Hf) as Hr.
    by destruct (handle_request _ _ _ _ _) as [[w kept] ex].
  - done.
  - cbn [wk tbl with_table]. eapply ready_binv; [done..|apply give_answer_answering].
  - cbn [wk tbl with_table]. apply binv_drop; [done|set_solver].
  - by apply binv_request_shutdown.
  - cbn [wk tbl with_table has_incomplete_response snd].
    destruct (foreach_ok ∅ (silent (fun r => r)) (tbl (wk l))) as (H1 & H2 & _); [done|apply Hb|]. by eapply binv_same.
Qed.

Lemma reachable_binv cfg l : reachable cfg l -> binv (tbl (wk l)).
Proof using format_total.
  induction 1 as [w Hw|l ev _ IH Hok]; [|by apply binv_step]. cbn [wk]. rewrite Hw. split; [apply tinv_empty|set_solver].
Qed.

(** ** The end of the session *)



(** C38: a request whose service dropped it without an answer, and which is still in the
    table, is answered with "request dissipated" when the table is next cleaned up; but when
    the client disconnects first, the cancellation of all requests erases it from the table,
    and the clean-up of that turn no longer sees it: it stays without an answer. *)
Theorem abandoned_request_lost cfg l s p q r :
  reachable cfg l -> running l = true ->
  reqreses_ (tbl (wk l)) !! s = Some (p, q) -> abandoned (tbl (wk l)) (s, (p, q)) = true ->
  heap (tbl (wk l)) !! q = Some (r, Some s) -> complete_gate_ r = false ->
  cancel_requested_to_all_responses_ (tbl (wk l)) = false ->
  (exists r', heap (care_reqreses (tbl (wk l))) !! q = Some (r', Some s) /\ bodies r' = 1%nat) /\
  forall inc, let t' := tbl (wk (loop_step cfg (Ev_terminate_request inc) l)) in
    q ∈ lost t' /\ (exists r' s', heap t' !! q = Some (r', Some s') /\ bodies r' = 0%nat) /\
    forall s' p', reqreses_ t' !! s' <> Some (p', q).
Proof using format_total.
  intros Hr Hrun Ht Ha Hq Hg Hn. destruct (reachable_binv _ _ Hr) as [Hi Hb]. split; [exact (care_answers (tbl (wk l)) s p q r Hi Ht Ha Hq)|].
  intros inc t'. assert (q ∈ lost t') as Hl.
  { destruct (shutdown_foreach_lost (wk l) s p q r) as [H1 H2]; try done. subst t'. cbn [loop_step].
    destruct (request_shutdown forceful (wk l)) as [b w]. cbn [snd] in *. unfold check_shutdown_request, cancel_all.
    assert (cancel_requested_to_all_responses_ (care_reqreses (tbl w)) = true) as Hc.
    { etransitivity; [apply (fold_frame _ (o_error _) (erase_abandoned (tbl w)))|done]. }
    cbn [wk tbl with_table]. rewrite Hc.
    assert (lost (care_reqreses (tbl w)) = lost (tbl w)) as Hlo by apply (fold_frame _ (o_error _) (erase_abandoned (tbl w))).
    case_bool_decide; cbn [tbl with_table]; by rewrite Hlo. }
  destruct (reachable_binv _ _ (Reach_step _ _ (Ev_terminate_request inc) Hr Hrun)) as [Hi' _].
  destruct (i_lost _ _ Hi' _ Hl) as (_ & (r' & s' & Hr' & Hg') & Hno). split_and!; [done| |done].
  exists r', s'. split; [done|]. pose proof (i_once _ _ Hi' _ _ _ Hr') as Ho. by rewrite Hg' in Ho.
Qed.

End Worker.

(** * Concrete sessions

    A service keeps the request in slot 0 while a graceful shutdown is asked for in slot 1;
    in [orderly] it answers before the loop times out, in [dropped] it gives the request up
    and the client disconnects. *)
Module WorkerDemo.

#[local] Instance no_wires : Wires_ops unit unit :=
  {| wires_acquire _ := Throw (runtime_error "full"); wires_set_eor w := w; wires_is_closed _ := true;
     writer_write _ r := Ok r; writer_flush r := r; wires_release _ w := w |}.
Definition format (i : Z) (l : list string) (b : reply) : option (list byte) :=
  Some (match b with R_service p => p | R_shutdown => [100] | _ => [200] end).
Definition cfg : configuration := HandshakeDemo.cfg.
#[local] Instance responses : Responses (ipc_response unit unit) unit := ipc_responses format.
Definition w0 : worker (O := ipc_response unit unit) (Env := unit) :=
  Worker_ HandshakeDemo.r0 ∅ nothing None HandshakeDemo.timer (empty_table ()).
Definition l0 : loop := Loop w0 false true.

Definition query : request_event := RequestEvent 10 10 0 99 7 None None None None true true.
Definition l1 : loop := loop_step format cfg (Ev_request 5 false query) l0.
Definition dropped : loop := loop_step format cfg (Ev_drop {[10%nat]} {[10%nat]}) l1.

Ltac fresh_objects := split_and!; [reflexivity|apply (bool_decide_unpack _); vm_compute; exact I|reflexivity].

Lemma l1_reachable : reachable format cfg l1.
Proof. apply Reach_step; [by apply Reach_start|]. split; [done|fresh_objects]. Qed.
Lemma dropped_reachable : reachable format cfg dropped.
Proof. apply Reach_step; [apply l1_reachable|done]. Qed.


Lemma abandoned_request_lost_witness :
  (exists r', heap (care_reqreses (tbl (wk dropped))) !! 10%nat = Some (r', Some 0) /\ bodies r' = 1%nat) /\
  let t' := tbl (wk (loop_step format cfg (Ev_terminate_request false) dropped)) in
  10%nat ∈ lost t' /\ exists r' s', heap t' !! 10%nat = Some (r', Some s') /\ bodies r' = 0%nat.
Proof.
  destruct (abandoned_request_lost format ltac:(done) cfg dropped 0 10 10 (new_response 0) dropped_reachable eq_refl eq_refl
    eq_refl eq_refl eq_refl eq_refl) as [H1 H2].
  split; [exact H1|]. destruct (H2 false) as (H3 & H4 & _). by split.
Defined.

(** Printing diagnostics loses a request as well: nothing is cancelled, and the session ends
    gracefully with a request that never got an answer. *)
Lemma diagnostics_lose_request :
  let l' := loop_step format cfg (Ev_timeout 9 false) (loop_step format cfg (Ev_terminate graceful) (loop_step format cfg Ev_diagnostic dropped)) in
  running l' = false /\ shutdown_ (wk l') = graceful /\ cancel_requested_to_all_responses_ (tbl (wk l')) = false /\
  exists r, heap (delete_hook format l') !! 10%nat = Some (r, Some 0) /\ bodies r = 0%nat.
Proof. intros l'. split_and!; [vm_compute; reflexivity..|]. eexists. split; vm_compute; reflexivity. Qed.

End WorkerDemo.
