(* ===== verification/Stream.v ===== *)
(** Sockets of the stream endpoint (src/tateyama/endpoint/stream/stream.h, stream.cpp).

    The operating system is represented by what it returns: the results of [poll] and
    [select] are lists, the input of a socket is the list of what successive [::recv] calls
    find, and a [::send] of a blocking socket takes all its bytes, so the output is the
    list of bytes sent.  The end of the input is the end of the connection. *)
From stdpp Require Import gmap.
From S2P Require Import Prelude Session Response.

(** * stream_socket *)

Module StreamSocket.

Definition REQUEST_SESSION_HELLO : byte := 1.
Definition REQUEST_SESSION_PAYLOAD : byte := 2.
Definition REQUEST_RESULT_SET_BYE_OK : byte := 3.
Definition REQUEST_SESSION_BYE : byte := 4.
Definition REQUEST_ALIVE_CHECK : byte := 5.
Definition RESPONSE_SESSION_PAYLOAD : byte := 1.
Definition RESPONSE_RESULT_SET_PAYLOAD : byte := 2.
Definition RESPONSE_SESSION_HELLO_OK : byte := 3.
Definition RESPONSE_RESULT_SET_HELLO : byte := 5.
Definition RESPONSE_RESULT_SET_BYE : byte := 6.
Definition RESPONSE_SESSION_BODYHEAD : byte := 7.
Definition RESPONSE_SESSION_BYE_OK : byte := 8.
Definition SLOT_SIZE : Z := 16.

Inductive sending_status : Type := sending | closed | finished.
#[global] Instance sending_status_eq_dec : EqDecision sending_status.
Proof. solve_decision. Defined.

Inductive await_result : Type := payload | timeout | socket_closed | termination_request | illegal_message.
#[global] Instance await_result_eq_dec : EqDecision await_result.
Proof. solve_decision. Defined.

(** what a [::recv] finds: bytes (it takes at most as many as asked for), or an error, -1 *)
Inductive arrival : Type := Data (bs : list byte) | Err.
(** what a [poll] returns: nothing, an error, urgent data (with the outcome of its recv),
    data or the end of the connection, or other events only *)
Inductive poll_result : Type := P_timeout | P_error | P_pri (received : bool) | P_in | P_other.

Record t : Type := Sock {
  input : list arrival;
  out : list byte;
  session_closed_ : bool;
  socket_closed_ : bool;
  sending_ : list sending_status;
  slot_size_ : Z
}.
Definition create (i : list arrival) : t := Sock i [] false false (replicate (Z.to_nat SLOT_SIZE) sending) SLOT_SIZE.
Definition with_input (i : list arrival) (s : t) : t :=
  Sock i (out s) (session_closed_ s) (socket_closed_ s) (sending_ s) (slot_size_ s).
Definition with_sending (l : list sending_status) (s : t) : t :=
  Sock (input s) (out s) (session_closed_ s) (socket_closed_ s) l (slot_size_ s).
Definition set_session_closed (s : t) : t :=
  Sock (input s) (out s) true (socket_closed_ s) (sending_ s) (slot_size_ s).
Definition close (s : t) : t :=
  Sock (input s) (out s) (session_closed_ s) true (sending_ s) (slot_size_ s).
(** bytes sent on a descriptor that has been closed go nowhere *)
Definition emit (bs : list byte) (s : t) : t :=
  if socket_closed_ s then s
  else Sock (input s) (out s ++ bs) (session_closed_ s) (socket_closed_ s) (sending_ s) (slot_size_ s).

(** [sending_.at(slot)] *)
Definition at_slot (slot : Z) (s : t) : res sending_status :=
  match sending_ s !z slot with Some st => Ok st | None => Throw out_of_range end.
Definition set_slot (slot : Z) (st : sending_status) (s : t) : t := with_sending (<[Z.to_nat slot := st]> (sending_ s)) s.

(** ** Output: the pieces passed to [::send] *)

Definition payload_pieces (payload : list byte) : list (list byte) :=
  let length := u32 (zlen payload) in
  if length >? 0 then [le_bytes 4 length; take (Z.to_nat length) payload] else [le_bytes 4 length].
Definition response_pieces (info : byte) (slot : Z) (payload : list byte) : list (list byte) :=
  [info] :: le_bytes 2 slot :: payload_pieces payload.
Definition record_pieces (slot : Z) (writer : byte) (payload : list byte) : list (list byte) :=
  [RESPONSE_RESULT_SET_PAYLOAD] :: le_bytes 2 slot :: [writer] :: payload_pieces payload.
Definition delimiter_pieces (slot : Z) (writer : byte) : list (list byte) :=
  [[RESPONSE_RESULT_SET_PAYLOAD]; le_bytes 2 slot; [writer]; [0; 0; 0; 0]].

Definition send_response (info : byte) (slot : Z) (payload : list byte) (force : bool) (s : t) : t :=
  if session_closed_ s && negb force then s else emit (concat (response_pieces info slot payload)) s.
Definition send (slot : Z) (payload : list byte) (body : bool) (s : t) : t :=
  if body then send_response RESPONSE_SESSION_PAYLOAD slot payload false s
  else send_response RESPONSE_SESSION_BODYHEAD slot payload false s.
(** whether [send] puts its message on the stream: after the client's goodbye, and on a closed
    descriptor, it does not *)
Definition accepts (s : t) : bool := negb (session_closed_ s) && negb (socket_closed_ s).
Definition send_result_set_hello (slot : Z) (name : list byte) (s : t) : res t :=
  st ← at_slot slot s;
  let s := if bool_decide (st <> sending) then set_slot slot sending s else s in
  Ok (send_response RESPONSE_RESULT_SET_HELLO slot name false s).
Definition send_result_set_bye (slot : Z) (s : t) : t := send_response RESPONSE_RESULT_SET_BYE slot [] false s.
Definition send_session_bye_ok (s : t) : t := send_response RESPONSE_SESSION_BYE_OK 0 [] true s.
Definition send_result_set_delimiter (slot : Z) (writer : byte) (s : t) : t := emit (concat (delimiter_pieces slot writer)) s.

(** [send(slot, writer, payload)] *)
Definition send_record (slot : Z) (writer : byte) (payload : list byte) (s : t) : res t :=
  st ← at_slot slot s;
  match st with
  | sending =>
      if session_closed_ s then Ok s
      else
        let s := if bool_decide (payload <> []) then emit (concat (record_pieces slot writer payload)) s else s in
        Ok (send_result_set_delimiter slot writer s)
  | closed =>
      Ok (set_slot slot finished (send_result_set_bye slot (send_result_set_delimiter slot writer s)))
  | finished => Ok s
  end.

Definition change_slot_size (index : Z) (s : t) : t :=
  if index + 1 >? slot_size_ s
  then Sock (input s) (out s) (session_closed_ s) (socket_closed_ s)
         (resize (Z.to_nat (index + 1)) sending (sending_ s)) (index + 1)
  else s.
Definition is_sending (slot : Z) (s : t) : res bool := st ← at_slot slot s; Ok (bool_decide (st = sending)).
Definition release_slot (slot : Z) (s : t) : res t :=
  st ← at_slot slot s;
  if bool_decide (st <> sending) then Ok s else Ok (set_slot slot closed s).

(** ** Input *)

(** [recv(to, size)] for [0 < size], from its position [received] on; [None]: the connection
    ended.  The result of a failing [::recv] is added to [received] like any other. *)
Fixpoint recv_loop (size received : Z) (acc : list byte) (i : list arrival) : res (option (list byte) * list arrival) :=
  if size <=? received then Ok (Some acc, i)
  else match i with
       | [] => Ok (None, [])
       | Err :: i => recv_loop size (received - 1) (take (Z.to_nat (received - 1)) acc) i
       | Data bs :: i =>
           if zlen bs =? 0 then Ok (None, i)
           else if received <? 0 then Undefined
           else if zlen bs <=? size - received then recv_loop size (received + zlen bs) (acc ++ bs) i
           else Ok (Some (acc ++ take (Z.to_nat (size - received)) bs), Data (drop (Z.to_nat (size - received)) bs) :: i)
       end.
Definition recv_bytes (size : Z) (i : list arrival) : res (option (list byte) * list arrival) := recv_loop size 0 [] i.

(** [recv(payload)]: the payload is assigned only when its length is not zero; [None]: false *)
Definition recv_payload (old : list byte) (i : list arrival) : res (option (list byte) * list arrival) :=
  '(buffer, i) ← recv_bytes 4 i;
  match buffer with
  | None => Ok (None, i)
  | Some buffer =>
      let length := le_Z buffer in
      if length >? 0 then recv_bytes length i else Ok (Some old, i)
  end.

(** [::recv(socket_, &info, 1, 0)]: [None] at the end of the connection *)
Definition recv_info (info : byte) (i : list arrival) : option (byte * list arrival) :=
  match i with
  | [] | Data [] :: _ => None
  | Err :: i => Some (info, i)
  | Data [b] :: i => Some (b, i)
  | Data (b :: bs) :: i => Some (b, Data bs :: i)
  end.

(** what [await] gives back: the result with [slot] and [payload], or nothing while it waits *)
Definition awaited : Type := option (await_result * Z * list byte) * t.

(** the switch over the type of the message; [inl]: return, [inr]: go on waiting *)
Definition dispatch (info : byte) (slot : Z) (pl : list byte) (s : t) : res (awaited + (list byte * t)) :=
  let over r pl s := Ok (inl (Some (r, slot, pl), s)) in
  if info =? REQUEST_SESSION_PAYLOAD then
    '(p, i) ← recv_payload pl (input s);
    match p with Some pl => over payload pl (with_input i s) | None => over socket_closed pl (with_input i s) end
  else if info =? REQUEST_RESULT_SET_BYE_OK then
    '(p, i) ← recv_payload [] (input s);
    match p with
    | Some _ => s ← release_slot slot (with_input i s); Ok (inr (pl, s))
    | None => over socket_closed pl (with_input i s)
    end
  else if info =? REQUEST_SESSION_HELLO then
    '(p, i) ← recv_payload pl (input s);
    match p with
    | Some pl => Ok (inr (pl, send_response RESPONSE_SESSION_HELLO_OK 0 [45; 49] false (with_input i s)))
    | None => Ok (inr (pl, with_input i s))
    end
  else if info =? REQUEST_SESSION_BYE then
    '(p, i) ← recv_payload pl (input s);
    match p with
    | Some pl => over termination_request pl (set_session_closed (with_input i s))
    | None => over socket_closed pl (with_input i s)
    end
  else if info =? REQUEST_ALIVE_CHECK then Ok (inr (pl, s))
  else over illegal_message pl (close s).

(** [await(info, slot, payload)]; [None] when it waits for a poll beyond [polls] *)
Fixpoint await_ (polls : list poll_result) (info : byte) (slot : Z) (pl : list byte) (s : t) : res awaited :=
  match polls with
  | [] => Ok (None, s)
  | P_timeout :: _ => Ok (Some (timeout, slot, pl), s)
  | P_error :: _ => Throw (runtime_error "error in poll")
  | P_pri received :: _ => Ok (Some (if received then timeout else socket_closed, slot, pl), s)
  | P_in :: polls =>
      match recv_info info (input s) with
      | None => Ok (Some (socket_closed, slot, pl), s)
      | Some (info, i) =>
          '(buffer, i) ← recv_bytes 2 i;
          match buffer with
          | None => Ok (Some (socket_closed, slot, pl), with_input i s)
          | Some buffer =>
              r ← dispatch info (le_Z buffer) pl (with_input i s);
              match r with inl r => Ok r | inr (pl, s) => await_ polls info (le_Z buffer) pl s end
          end
      end
  | P_other :: polls =>
      r ← dispatch info slot pl s;
      match r with inl r => Ok r | inr (pl, s) => await_ polls info slot pl s end
  end.
(** [await(slot, payload)] on the fresh variables the worker passes *)
Definition await (polls : list poll_result) (s : t) : res awaited := await_ polls 0 0 [] s.

(** ** What a client sends, and how [await] is meant to treat it *)

Inductive client_message : Type :=
| C_payload (slot : Z) (pl : list byte)
| C_bye_ok (slot : Z) (pl : list byte)
| C_hello (slot : Z) (pl : list byte)
| C_bye (slot : Z) (pl : list byte)
| C_alive (slot : Z).
Definition encode (m : client_message) : list byte :=
  let msg info slot pl := info :: le_bytes 2 slot ++ le_bytes 4 (zlen pl) ++ pl in
  match m with
  | C_payload slot pl => msg REQUEST_SESSION_PAYLOAD slot pl
  | C_bye_ok slot pl => msg REQUEST_RESULT_SET_BYE_OK slot pl
  | C_hello slot pl => msg REQUEST_SESSION_HELLO slot pl
  | C_bye slot pl => msg REQUEST_SESSION_BYE slot pl
  | C_alive slot => REQUEST_ALIVE_CHECK :: le_bytes 2 slot
  end.
Definition slot_of (m : client_message) : Z :=
  match m with C_payload s _ | C_bye_ok s _ | C_hello s _ | C_bye s _ | C_alive s => s end.
Definition payload_of (m : client_message) : list byte :=
  match m with C_payload _ p | C_bye_ok _ p | C_hello _ p | C_bye _ p => p | C_alive _ => [] end.
Definition message_ok (m : client_message) : Prop := in_range 16 (slot_of m) /\ in_range 32 (zlen (payload_of m)).

(** the next result, over whole messages: the messages left, and the socket *)
Fixpoint serve (ms : list client_message) (slot : Z) (pl : list byte) (s : t)
    : res (await_result * Z * list byte * list client_message * t) :=
  let kept old p := match p with [] => old | _ => p end in
  match ms with
  | [] => Ok (socket_closed, slot, pl, [], s)
  | C_payload slot p :: ms => Ok (payload, slot, kept pl p, ms, s)
  | C_bye_ok slot p :: ms => s ← release_slot slot s; serve ms slot pl s
  | C_hello slot p :: ms => serve ms slot (kept pl p) (send_response RESPONSE_SESSION_HELLO_OK 0 [45; 49] false s)
  | C_bye slot p :: ms => Ok (termination_request, slot, kept pl p, ms, set_session_closed s)
  | C_alive slot :: ms => serve ms slot pl s
  end.

(** an input without errors; its bytes *)
Definition flows (i : list arrival) : Prop := Forall (fun a => exists b bs, a = Data (b :: bs)) i.
Definition bytes (i : list arrival) : list byte := concat (map (fun a => match a with Data bs => bs | Err => [] end) i).

Lemma bytes_cons bs i : bytes (Data bs :: i) = bs ++ bytes i.
Proof. done. Qed.

Lemma recv_loop_spec size received acc i :
  flows i -> received = zlen acc -> received <= size <= received + zlen (bytes i) ->
  exists i', recv_loop size received acc i = Ok (Some (acc ++ take (Z.to_nat (size - received)) (bytes i)), i') /\
    flows i' /\ bytes i' = drop (Z.to_nat (size - received)) (bytes i).
Proof.
  intros Hi. revert received acc. induction Hi as [|a i (b & bs & ->) Hi IH]; intros received acc Hr Hs; cbn [recv_loop].
  - change (zlen (bytes [])) with 0 in Hs. rewrite (proj2 (Z.leb_le _ _)) by lia. exists []. change (bytes []) with (@nil byte).
    rewrite take_nil, drop_nil, app_nil_r. split_and!; [done|constructor|done].
  - destruct (Z.leb_spec size received) as [Hle|Hlt].
    { exists (Data (b :: bs) :: i). replace (size - received) with 0 by lia. rewrite take_0, app_nil_r, drop_0.
      split_and!; [done| |done]. constructor; eauto. }
    pose proof (zlen_nonneg bs). pose proof (zlen_nonneg acc).
    rewrite (proj2 (Z.eqb_neq _ _)) by (rewrite zlen_cons; lia). rewrite (proj2 (Z.ltb_ge _ _)) by lia.
    rewrite bytes_cons in *. rewrite zlen_app in Hs. destruct (Z.leb_spec (zlen (b :: bs)) (size - received)) as [Hle|Hgt].
    + destruct (IH (received + zlen (b :: bs)) (acc ++ b :: bs)) as (i' & -> & H1 & H2); [by rewrite zlen_app, Hr|lia|].
      exists i'. rewrite H2. replace (Z.to_nat (size - received)) with (length (b :: bs) + Z.to_nat (size - (received + zlen (b :: bs))))%nat
        by (unfold zlen in *; lia).
      rewrite take_app_add, drop_app_add. by rewrite <- app_assoc.
    + exists (Data (drop (Z.to_nat (size - received)) (b :: bs)) :: i).
      rewrite bytes_cons, take_app_le, drop_app_le by (unfold zlen in *; lia). split_and!; [done| |done].
      constructor; [|done]. destruct (drop (Z.to_nat (size - received)) (b :: bs)) as [|c cs] eqn:E; [|by eauto].
      apply (f_equal length) in E. rewrite length_drop in E. change (length (@nil byte)) with 0%nat in E. unfold zlen in *; lia.
Qed.

Lemma recv_bytes_app i bs rest size :
  flows i -> bytes i = bs ++ rest -> size = zlen bs ->
  exists i', recv_bytes size i = Ok (Some bs, i') /\ flows i' /\ bytes i' = rest.
Proof.
  intros Hi Hb ->. pose proof (zlen_nonneg rest). pose proof (zlen_nonneg bs).
  destruct (recv_loop_spec (zlen bs) 0 [] i Hi eq_refl) as (i' & H1 & H2 & H3); [rewrite Hb, zlen_app; lia|].
  exists i'. unfold recv_bytes. rewrite H1, H3, Hb. cbn [app]. replace (Z.to_nat (zlen bs - 0)) with (length bs) by (unfold zlen; lia).
  by rewrite take_app_length, drop_app_length.
Qed.

Lemma recv_payload_app old i pl rest :
  flows i -> bytes i = le_bytes 4 (zlen pl) ++ pl ++ rest -> in_range 32 (zlen pl) ->
  exists i', recv_payload old i = Ok (Some (match pl with [] => old | _ => pl end), i') /\ flows i' /\ bytes i' = rest.
Proof.
  intros Hi Hb Hr. destruct (recv_bytes_app i (le_bytes 4 (zlen pl)) (pl ++ rest) 4 Hi Hb eq_refl) as (i1 & H1 & H2 & H3).
  unfold recv_payload. rewrite H1. cbn [mbind res_bind]. rewrite le_Z_bytes, Z.mod_small by exact Hr.
  destruct pl as [|b pl]; [exists i1; by split_and!|]. rewrite zlen_cons in *. pose proof (zlen_nonneg pl).
  replace (1 + zlen pl >? 0) with true by lia. apply (recv_bytes_app i1 (b :: pl) rest); [done|done|by rewrite zlen_cons].
Qed.

Lemma recv_info_cons info i b rest :
  flows i -> bytes i = b :: rest -> exists i', recv_info info i = Some (b, i') /\ flows i' /\ bytes i' = rest.
Proof.
  intros Hi Hb. destruct Hi as [|a i (c & bs & ->) Hi]; [done|]. rewrite bytes_cons in Hb. injection Hb as -> <-.
  destruct bs as [|d bs]; [by exists i|]. exists (Data (d :: bs) :: i). split_and!; [done| |done]. constructor; eauto.
Qed.

Lemma with_input_twice i j s : with_input i (with_input j s) = with_input i s.
Proof. done. Qed.
Lemma release_slot_input slot i s : release_slot slot (with_input i s) = with_input i <$> release_slot slot s.
Proof.
  unfold release_slot, at_slot. cbn [sending_ with_input]. destruct (sending_ s !z slot) as [st|]; [|done]. cbn [mbind res_bind].
  by case_bool_decide.
Qed.
Lemma send_response_input info slot pl f i s :
  send_response info slot pl f (with_input i s) = with_input i (send_response info slot pl f s).
Proof. unfold send_response, emit. cbn [session_closed_ socket_closed_ with_input]. by repeat case_match. Qed.

(** the fixed part of a message *)
Lemma await_header polls info slot pl i s info' slot' rest :
  flows i -> bytes i = info' :: le_bytes 2 slot' ++ rest -> in_range 16 slot' ->
  exists i', flows i' /\ bytes i' = rest /\
    await_ (P_in :: polls) info slot pl (with_input i s) =
      (r ← dispatch info' slot' pl (with_input i' s);
       match r with inl r => Ok r | inr (pl, s) => await_ polls info' slot' pl s end).
Proof.
  intros Hi Hb Hr. destruct (recv_info_cons info i info' _ Hi Hb) as (i1 & H1 & H2 & H3).
  destruct (recv_bytes_app i1 (le_bytes 2 slot') rest 2 H2 H3 eq_refl) as (i2 & H4 & H5 & H6).
  exists i2. split_and!; [done|done|]. cbn [await_ input with_input]. rewrite H1, H4. cbn [mbind res_bind].
  by rewrite le_Z_bytes, Z.mod_small.
Qed.

(** what [serve] promises, for [await] on the bytes *)
Definition refines (r : res awaited) (sr : res (await_result * Z * list byte * list client_message * t)) : Prop :=
  match sr with
  | Ok (a, slot, pl, ms, s) =>
      exists i, r = Ok (Some (a, slot, pl), with_input i s) /\ flows i /\ bytes i = concat (map encode ms)
  | Throw e => r = Throw e
  | Undefined => False
  end.

Lemma serve_release ms slot slot' pl s polls info i :
  (forall s', refines (await_ polls info slot pl (with_input i s')) (serve ms slot pl s')) ->
  refines (s' ← release_slot slot' (with_input i s); await_ polls info slot pl s') (s' ← release_slot slot' s; serve ms slot pl s').
Proof.
  intros IH. rewrite release_slot_input. destruct (release_slot slot' s) as [s'|e|] eqn:E; cbn [mbind res_bind fmap res_fmap]; [apply IH|done|].
  unfold release_slot, at_slot in E. destruct (sending_ s !z slot'); [|done]. cbn [mbind res_bind] in E. by case_bool_decide.
Qed.

Lemma await_serve ms info slot pl i s n :
  flows i -> bytes i = concat (map encode ms) -> Forall message_ok ms -> (length ms < n)%nat ->
  refines (await_ (replicate n P_in) info slot pl (with_input i s)) (serve ms slot pl s).
Proof.
  intros Hi Hb Hms. revert info slot pl i s n Hi Hb.
  induction Hms as [|m ms [Hs Hp] _ IH]; intros info slot pl i s n Hi Hb Hn; (destruct n as [|n]; [lia|]); cbn [replicate].
  { destruct Hi as [|a i (b & bs & ->) Hi]; [|done]. exists []. split_and!; [done|constructor|done]. }
  cbn [length] in Hn. specialize (IH) with (n := n). assert (length ms < n)%nat as Hn' by lia.
  cbn [map concat] in Hb. destruct m as [sl p|sl p|sl p|sl p|sl]; cbn [encode slot_of payload_of] in *;
    change ((?x :: ?a) ++ ?b) with (x :: (a ++ b)) in Hb; rewrite <- ?app_assoc in Hb;
    destruct (await_header (replicate n P_in) info slot pl i s _ _ _ Hi Hb Hs) as (i1 & F1 & B1 & ->);
    unfold dispatch; cbn [Z.eqb Pos.eqb REQUEST_SESSION_PAYLOAD REQUEST_RESULT_SET_BYE_OK REQUEST_SESSION_HELLO REQUEST_SESSION_BYE REQUEST_ALIVE_CHECK input with_input];
    [destruct (recv_payload_app pl i1 p _ F1 B1 Hp) as (i2 & E2 & F2 & B2)|destruct (recv_payload_app [] i1 p _ F1 B1 Hp) as (i2 & E2 & F2 & B2)
    |destruct (recv_payload_app pl i1 p _ F1 B1 Hp) as (i2 & E2 & F2 & B2)|destruct (recv_payload_app pl i1 p _ F1 B1 Hp) as (i2 & E2 & F2 & B2)|];
    try (rewrite E2; cbn [mbind res_bind]; rewrite with_input_twice); cbn [serve].
  - exists i2. by split_and!.
  - pose proof (serve_release ms sl sl pl s (replicate n P_in) REQUEST_RESULT_SET_BYE_OK i2) as Hrel.
    cbn [mbind res_bind] in *. destruct (release_slot sl (with_input i2 s)) eqn:Er; cbn [mbind res_bind] in *; apply Hrel; intros; by apply IH.
  - rewrite send_response_input. by apply IH.
  - exists i2. by split_and!.
  - cbn [mbind res_bind]. by apply IH.
Qed.

(** C12: the request side of a stream connection.  However the network cuts the bytes of a
    sequence of client messages into pieces, await returns what the sequence of messages
    calls for: the first payload or termination request, after acting on the messages
    before it (closed result sets are marked, greetings are answered, alive checks are
    passed over), an exception when a result set outside the slots is closed, and the end
    of the connection when there is no more; and it leaves exactly the bytes of the
    messages after that. *)
Theorem stream_await_refines ms i s n :
  flows i -> bytes i = concat (map encode ms) -> Forall message_ok ms -> (length ms < n)%nat ->
  refines (await (replicate n P_in) (with_input i s)) (serve ms 0 [] s).
Proof. apply await_serve. Qed.

(** ** What a client reads *)

Inductive server_message : Type :=
| S_response (info : byte) (slot : Z) (pl : list byte)
| S_record (slot : Z) (writer : byte) (pl : list byte).

(** reference decoder of the messages of the server *)
Definition parse_payload (bs : list byte) : option (list byte * list byte) :=
  match bs with
  | a :: b :: c :: d :: bs =>
      let n := le_Z [a; b; c; d] in
      if zlen bs <? n then None else Some (take (Z.to_nat n) bs, drop (Z.to_nat n) bs)
  | _ => None
  end.
Definition parse (bs : list byte) : option (server_message * list byte) :=
  match bs with
  | info :: a :: b :: bs =>
      if info =? RESPONSE_RESULT_SET_PAYLOAD then
        match bs with
        | w :: bs => '(pl, bs) ← parse_payload bs; Some (S_record (le_Z [a; b]) w pl, bs)
        | [] => None
        end
      else '(pl, bs) ← parse_payload bs; Some (S_response info (le_Z [a; b]) pl, bs)
  | _ => None
  end.
(** the messages of a whole stream; every message takes at least seven bytes *)
Fixpoint parse_all (fuel : nat) (bs : list byte) : option (list server_message) :=
  match bs, fuel with
  | [], _ => Some []
  | _, O => None
  | _, S fuel => '(m, bs) ← parse bs; ms ← parse_all fuel bs; Some (m :: ms)
  end.
Definition decode (bs : list byte) : option (list server_message) := parse_all (length bs) bs.

Definition encode_server (m : server_message) : list byte :=
  match m with
  | S_response info slot pl => concat (response_pieces info slot pl)
  | S_record slot writer pl => concat (record_pieces slot writer pl)
  end.




(** *** The operations of a session, and the messages they put on the stream *)

Inductive op : Type :=
| O_send (slot : Z) (pl : list byte) (body : bool)
| O_hello (slot : Z) (name : list byte)
| O_bye (slot : Z)
| O_bye_ok
| O_record (slot : Z) (writer : byte) (pl : list byte)
| O_slots (index : Z)
| O_close
| O_await (polls : list poll_result).
Definition apply (o : op) (s : t) : res t :=
  match o with
  | O_send slot pl body => Ok (send slot pl body s)
  | O_hello slot name => send_result_set_hello slot name s
  | O_bye slot => Ok (send_result_set_bye slot s)
  | O_bye_ok => Ok (send_session_bye_ok s)
  | O_record slot writer pl => send_record slot writer pl s
  | O_slots index => Ok (change_slot_size index s)
  | O_close => Ok (close s)
  | O_await polls => snd <$> await polls s
  end.


(** how many greetings an [await] answers is up to the client *)
Definition greeting : server_message := S_response RESPONSE_SESSION_HELLO_OK 0 [45; 49].
Definition emitted (o : op) (s : t) : list server_message :=
  let response info slot pl force := if session_closed_ s && negb force then [] else [S_response info slot pl] in
  match o with
  | O_send slot pl body => response (if body then RESPONSE_SESSION_PAYLOAD else RESPONSE_SESSION_BODYHEAD) slot pl false
  | O_hello slot name => response RESPONSE_RESULT_SET_HELLO slot name false
  | O_bye slot => response RESPONSE_RESULT_SET_BYE slot [] false
  | O_bye_ok => response RESPONSE_SESSION_BYE_OK 0 [] true
  | O_record slot writer pl =>
      match sending_ s !z slot with
      | Some sending =>
          if session_closed_ s then []
          else (if bool_decide (pl <> []) then [S_record slot writer pl] else []) ++ [S_record slot writer []]
      | Some closed => S_record slot writer [] :: response RESPONSE_RESULT_SET_BYE slot [] false
      | _ => []
      end
  | O_slots _ | O_close | O_await _ => []
  end.

(** no operation opens what is closed *)
Definition closes (s s' : t) : Prop := accepts s' = true -> accepts s = true.
#[global] Instance closes_preorder : PreOrder closes.
Proof. split; [by intros s H|]. intros s1 s2 s3 H1 H2 H3. by apply H1, H2. Qed.

(** [sends ms s s']: the operation sent the messages [ms], unless the socket is closed *)
Definition sends (ms : list server_message) (s s' : t) : Prop :=
  out s' = if socket_closed_ s then out s else out s ++ concat (map encode_server ms).

Lemma emit_out bs s : out (emit bs s) = if socket_closed_ s then out s else out s ++ bs.
Proof. unfold emit. by destruct (socket_closed_ s). Qed.
Lemma emit_frame bs s :
  socket_closed_ (emit bs s) = socket_closed_ s /\ session_closed_ (emit bs s) = session_closed_ s /\ sending_ (emit bs s) = sending_ s.
Proof. unfold emit. destruct (socket_closed_ s) eqn:E; cbn; by rewrite ?E. Qed.

(** sending [ms] and leaving the socket as open as it was *)
Definition sent (ms : list server_message) (s s' : t) : Prop := sends ms s s' /\ socket_closed_ s' = socket_closed_ s.
Lemma sent_nil s : sent [] s s.
Proof. unfold sent, sends. cbn [map concat]. rewrite app_nil_r. by destruct (socket_closed_ s). Qed.
Lemma sent_app ms1 ms2 s1 s2 s3 : sent ms1 s1 s2 -> sent ms2 s2 s3 -> sent (ms1 ++ ms2) s1 s3.
Proof.
  unfold sent, sends. intros [H1 H2] [H3 H4]. rewrite H3, H4, H2, H1. split; [|done]. destruct (socket_closed_ s1); [done|].
  by rewrite map_app, concat_app, app_assoc.
Qed.
Lemma sent_emit m s : sent [m] s (emit (encode_server m) s).
Proof. split; [|apply emit_frame]. unfold sends. rewrite emit_out. cbn [map concat]. by rewrite app_nil_r. Qed.
Lemma sent_response info slot pl force s :
  sent (if session_closed_ s && negb force then [] else [S_response info slot pl]) s (send_response info slot pl force s).
Proof. unfold send_response. destruct (session_closed_ s && negb force); [apply sent_nil|apply (sent_emit (S_response _ _ _))]. Qed.
Lemma sent_sending ms s l s' : sent ms (with_sending l s) s' -> sent ms s s'.
Proof. done. Qed.

Lemma sent_record slot writer pl s s' : send_record slot writer pl s = Ok s' -> sent (emitted (O_record slot writer pl) s) s s'.
Proof.
  unfold send_record, at_slot, send_result_set_delimiter, send_result_set_bye. cbn [emitted].
  change (concat (delimiter_pieces slot writer)) with (encode_server (S_record slot writer [])).
  change (concat (record_pieces slot writer pl)) with (encode_server (S_record slot writer pl)).
  destruct (sending_ s !z slot) as [[]|]; cbn [mbind res_bind]; [|..|done].
  - destruct (session_closed_ s); intros [= <-]; [apply sent_nil|]. eapply sent_app; [|apply sent_emit].
    case_bool_decide; [apply sent_emit|apply sent_nil].
  - intros [= <-]. eapply (sent_app [_]); [apply sent_emit|].
    replace (session_closed_ s) with (session_closed_ (emit (encode_server (S_record slot writer [])) s)) by apply emit_frame.
    apply (sent_response RESPONSE_RESULT_SET_BYE slot [] false).
  - intros [= <-]. apply sent_nil.
Qed.

Lemma sent_input ms i s s' : sent ms (with_input i s) s' -> sent ms s s'.
Proof. done. Qed.

(** [send] puts the message on the stream, or nothing *)
Lemma send_accepts slot m s :
  out (send slot m true s) = (if accepts s then out s ++ encode_server (S_response RESPONSE_SESSION_PAYLOAD slot m) else out s) /\
  accepts (send slot m true s) = accepts s.
Proof.
  unfold send, send_response, accepts. destruct (session_closed_ s) eqn:Ec; cbn [negb andb]; [by rewrite Ec|].
  rewrite emit_out. destruct (emit_frame (concat (response_pieces RESPONSE_SESSION_PAYLOAD slot m)) s) as (-> & -> & _).
  rewrite Ec. by destruct (socket_closed_ s).
Qed.
Lemma send_response_closed info slot pl f s :
  session_closed_ (send_response info slot pl f s) = session_closed_ s /\ socket_closed_ (send_response info slot pl f s) = socket_closed_ s.
Proof. unfold send_response. destruct (_ && _); [done|]. split; apply emit_frame. Qed.

(** an [await] closes the socket only when it finds an illegal message, and ends the session
    only at the client's goodbye *)
Definition await_closes (r : option (await_result * Z * list byte)) (s s' : t) : Prop :=
  closes s s' /\ (match r with Some (illegal_message, _, _) => False | _ => True end -> socket_closed_ s' = socket_closed_ s).
Lemma await_closes_same r s s' : session_closed_ s' = session_closed_ s /\ socket_closed_ s' = socket_closed_ s -> await_closes r s s'.
Proof. intros [E1 E2]. split; [|done]. unfold closes, accepts. by rewrite E1, E2. Qed.
Lemma release_slot_closed slot s s' : release_slot slot s = Ok s' ->
  session_closed_ s' = session_closed_ s /\ socket_closed_ s' = socket_closed_ s.
Proof. unfold release_slot. destruct (at_slot slot s); cbn [mbind res_bind]; [|done..]. by case_bool_decide; intros [= <-]. Qed.
Lemma dispatch_closes info slot pl s d : dispatch info slot pl s = Ok d ->
  match d with
  | inl (r, s') => await_closes r s s'
  | inr (_, s') => session_closed_ s' = session_closed_ s /\ socket_closed_ s' = socket_closed_ s
  end.
Proof.
  unfold dispatch. intros H.
  repeat match type of H with
  | (if ?b then _ else _) = _ => destruct b
  | mbind _ ?m = _ => destruct m as [[[p|] i]|e|] eqn:?; cbn [mbind res_bind] in H; try done
  end; simplify_eq; try (by split; [intros Ha|]); try done.
  - destruct (release_slot slot (with_input i s)) as [s1|e|] eqn:Er; cbn [mbind res_bind] in H; simplify_eq.
    by apply release_slot_closed in Er.
  - apply (send_response_closed _ _ _ _ (with_input i s)).
  - split; [|done]. unfold closes, accepts. cbn. by rewrite andb_false_r.
Qed.
Lemma await_closed polls info slot pl s r s' : await_ polls info slot pl s = Ok (r, s') -> await_closes r s s'.
Proof.
  assert (forall info slot pl s s1 d, (session_closed_ s1 = session_closed_ s /\ socket_closed_ s1 = socket_closed_ s) ->
    dispatch info slot pl s1 = Ok d ->
    match d with inl (r, s') => await_closes r s s' | inr (_, s') => session_closed_ s' = session_closed_ s /\ socket_closed_ s' = socket_closed_ s end) as Hd.
  { intros info0 slot0 pl0 s0 s1 d [E1 E2] Hd. apply dispatch_closes in Hd.
    destruct d as [[r2 s2]|[pl2 s2]]; unfold await_closes, closes, accepts in *; by rewrite E1, E2 in Hd. }
  assert (forall r s1 s2, session_closed_ s1 = session_closed_ s2 /\ socket_closed_ s1 = socket_closed_ s2 ->
    await_closes r s1 s' -> await_closes r s2 s') as Hk.
  { intros ? ? ? [E1 E2]. unfold await_closes, closes, accepts. by rewrite E1, E2. }
  revert info slot pl s. induction polls as [|p polls IH]; intros info slot pl s; cbn [await_]; [intros [= <- <-]; by apply await_closes_same|].
  destruct p; intros H; simplify_eq; try (by apply await_closes_same).
  - destruct (recv_info info (input s)) as [[info1 i1]|]; simplify_eq; [|by apply await_closes_same].
    destruct (recv_bytes 2 i1) as [[[buf|] i2]|e|]; cbn [mbind res_bind] in H; simplify_eq; [|by apply await_closes_same].
    destruct (dispatch _ _ _ _) as [d|e|] eqn:E; cbn [mbind res_bind] in H; try done.
    apply (Hd _ _ _ s) in E; [|done]. destruct d as [[a s1]|[pl1 s1]]; simplify_eq; [done|]. by eapply Hk; [exact E|eapply IH].
  - destruct (dispatch _ _ _ _) as [d|e|] eqn:E; cbn [mbind res_bind] in H; try done.
    apply (Hd _ _ _ s) in E; [|done]. destruct d as [[a s1]|[pl1 s1]]; simplify_eq; [done|]. by eapply Hk; [exact E|eapply IH].
Qed.







(** *** Two threads on one socket

    Responses and records are sent under the mutex of the socket; the early end of records of
    a result set the client has closed is sent without it. *)

Inductive shuffle {A : Type} : list A -> list A -> list A -> Prop :=
| shuffle_nil : shuffle [] [] []
| shuffle_l x l1 l2 l : shuffle l1 l2 l -> shuffle (x :: l1) l2 (x :: l)
| shuffle_r x l1 l2 l : shuffle l1 l2 l -> shuffle l1 (x :: l2) (x :: l).

Lemma shuffle_append {A} (l1 l2 : list A) : shuffle l1 l2 (l2 ++ l1).
Proof. induction l2 as [|x l2 IH]; [|by constructor]. cbn. induction l1; by constructor. Qed.

Lemma parse_all_head fuel bs ms : parse_all fuel bs = Some ms -> bs <> [] ->
  exists m rest ms', parse bs = Some (m, rest) /\ ms = m :: ms'.
Proof.
  destruct bs as [|b bs], fuel as [|fuel]; cbn [parse_all]; try done. destruct (parse (b :: bs)) as [[m rest]|]; cbn [mbind option_bind]; [|done].
  destruct (parse_all fuel rest) as [ms'|]; cbn; [|done]. intros [= <-] _. by exists m, rest, ms'.
Qed.

(** The early end of records is not sent under the mutex, so it can fall between the
    pieces of a response another thread is sending; the client then reads a response for a
    slot made of the type byte of the end of records and of half of its slot. *)
Theorem early_eor_interleaves slot pl slot2 writer :
  exists pieces, shuffle (response_pieces RESPONSE_SESSION_PAYLOAD slot pl) (delimiter_pieces slot2 writer) pieces /\
    forall ms, decode (concat pieces) = Some ms ->
      exists p ms', ms = S_response RESPONSE_SESSION_PAYLOAD (RESPONSE_RESULT_SET_PAYLOAD + 256 * (slot2 mod 256)) p :: ms'.
Proof.
  exists ([RESPONSE_SESSION_PAYLOAD] :: delimiter_pieces slot2 writer ++ le_bytes 2 slot :: payload_pieces pl). split.
  { apply shuffle_l, shuffle_append. }
  intros ms (m & rest & ms' & Hp & ->)%parse_all_head; [|done]. unfold delimiter_pieces in Hp.
  cbn [concat app le_bytes parse] in Hp. change (RESPONSE_SESSION_PAYLOAD =? RESPONSE_RESULT_SET_PAYLOAD) with false in Hp. cbv iota in Hp.
  destruct (parse_payload _) as [[p bs]|]; [|done]. cbn [mbind option_bind] in Hp. injection Hp as <- <-. exists p, ms'.
  f_equal. f_equal. cbn [le_Z]. lia.
Qed.

End StreamSocket.

(** * Responses of the stream endpoint (stream_response.h, stream_response.cpp)

    The socket they refer to is passed along.  [format] formats the framework header. *)

Module StreamResponse.
Import StreamSocket.

(** ** stream_writer *)
Record stream_writer : Type := Wrt { w_slot_ : Z; writer_id_ : byte; buffer_ : list byte }.
Definition write (data : list byte) (w : stream_writer) (s : t) : res (status * stream_writer) :=
  b ← is_sending (w_slot_ w) s;
  Ok (ok, if (b : bool) then Wrt (w_slot_ w) (writer_id_ w) (buffer_ w ++ data) else w).
Definition commit (w : stream_writer) (s : t) : res (status * stream_writer * t) :=
  b ← is_sending (w_slot_ w) s;
  if (b : bool) then
    s ← send_record (w_slot_ w) (writer_id_ w) (buffer_ w) s;
    Ok (ok, Wrt (w_slot_ w) (writer_id_ w) [], s)
  else Ok (ok, w, s).

(** ** stream_data_channel: the writers are shared with the services *)
Record stream_data_channel : Type := Channel {
  slot_ : Z;
  next_writer_id_ : Z;
  data_writers_ : gset nat;
  writers : gmap nat stream_writer
}.
Definition new_channel (slot : Z) : stream_data_channel := Channel slot 0 ∅ ∅.
Definition acquire (p : nat) (c : stream_data_channel) : status * stream_data_channel :=
  (ok, Channel (slot_ c) (u8 (next_writer_id_ c + 1)) ({[p]} ∪ data_writers_ c)
         (<[p := Wrt (u16 (slot_ c)) (next_writer_id_ c) []]> (writers c))).
Definition release (p : nat) (c : stream_data_channel) : status * stream_data_channel :=
  if bool_decide (p ∈ data_writers_ c)
  then (ok, Channel (slot_ c) (next_writer_id_ c) (data_writers_ c ∖ {[p]}) (writers c)) else (unknown, c).
Definition shutdown (c : stream_data_channel) (s : t) : t := send_result_set_bye (u16 (slot_ c)) s.

(** ** stream_response *)
Section Response.
Context {B : Type} (format : Z -> list string -> B -> option (list byte)).

(** [handed] counts the final messages handed to [send], [finals] those it put on the stream *)
Record stream_response : Type := Resp {
  index_ : Z;
  session_id_ : Z;
  data_channel_ : option stream_data_channel;
  complete_gate_ : bool;
  blobs_ : list string;
  cancel_ : bool;
  completed_ : bool;
  state_ : channel_state;
  cleaned : nat;
  handed : nat;
  finals : nat
}.
Definition new_response (index : Z) : stream_response := Resp index 0 None false [] false false no_data_channel 0 0 0.
Definition set_gate (r : stream_response) : stream_response :=
  Resp (index_ r) (session_id_ r) (data_channel_ r) true (blobs_ r) (cancel_ r) (completed_ r) (state_ r) (cleaned r) (handed r) (finals r).
Definition set_session_id (i : Z) (r : stream_response) : stream_response :=
  Resp (index_ r) i (data_channel_ r) (complete_gate_ r) (blobs_ r) (cancel_ r) (completed_ r) (state_ r) (cleaned r) (handed r) (finals r).
Definition set_channel (c : option stream_data_channel) (r : stream_response) : stream_response :=
  Resp (index_ r) (session_id_ r) c (complete_gate_ r) (blobs_ r) (cancel_ r) (completed_ r) (state_ r) (cleaned r) (handed r) (finals r).
Definition set_state (st : channel_state) (r : stream_response) : stream_response :=
  Resp (index_ r) (session_id_ r) (data_channel_ r) (complete_gate_ r) (blobs_ r) (cancel_ r) (completed_ r) st (cleaned r) (handed r) (finals r).
Definition count_final (s : t) (r : stream_response) : stream_response :=
  Resp (index_ r) (session_id_ r) (data_channel_ r) (complete_gate_ r) (blobs_ r) (cancel_ r) (completed_ r) (state_ r) (cleaned r) (S (handed r)) (if accepts s then S (finals r) else finals r).
(** endpoint/common/response.h *)
Definition cancel (r : stream_response) : stream_response :=
  Resp (index_ r) (session_id_ r) (data_channel_ r) (complete_gate_ r) (blobs_ r) true (completed_ r) (state_ r) (cleaned r) (handed r) (finals r).
Definition set_completed (r : stream_response) : stream_response :=
  Resp (index_ r) (session_id_ r) (data_channel_ r) (complete_gate_ r) (blobs_ r) (cancel_ r) true (state_ r) (cleaned r) (handed r) (finals r).
Definition is_completed (r : stream_response) : bool :=
  completed_ r && match data_channel_ r with Some _ => false | None => true end.
(** the clean-up, then set_completed() *)
Definition finish (r : stream_response) : stream_response :=
  Resp (index_ r) (session_id_ r) (data_channel_ r) (complete_gate_ r) (blobs_ r) (cancel_ r) true (state_ r) (S (cleaned r)) (handed r) (finals r).

Definition drop_channel (r : stream_response) (s : t) : stream_response * t :=
  match data_channel_ r with Some c => (set_channel None r, shutdown c s) | None => (r, s) end.

Definition body (b : B) (r : stream_response) (s : t) : status * stream_response * t :=
  if complete_gate_ r then (unknown, r, s)
  else
    let '(r, s) := drop_channel (set_gate r) s in
    match format (session_id_ r) (blobs_ r) b with
    | None => (unknown, r, s)
    | Some m => (ok, finish (count_final s r), send (index_ r) m true s)
    end.
Definition body_head (b : B) (r : stream_response) (s : t) : status * stream_response * t :=
  match format (session_id_ r) [] b with
  | None => (unknown, r, s)
  | Some m => (ok, set_state to_be_used r, send (index_ r) m false s)
  end.
Definition server_diagnostics (b : B) (r : stream_response) (s : t) : stream_response * t :=
  match format (session_id_ r) [] b with None => (r, s) | Some m => (count_final s r, send (index_ r) m true s) end.
Definition error (b : B) (r : stream_response) (s : t) : stream_response * t :=
  if complete_gate_ r then (r, s)
  else
    let '(r, s) := drop_channel (set_gate r) s in
    let '(r, s) := server_diagnostics b r s in (finish r, s).

(** the channel is assigned before the result set is announced *)
Definition acquire_channel (name : list byte) (max_writer_count : Z) (r : stream_response) (s : t) : status * stream_response * t :=
  if 255 + 1 <? max_writer_count then (unknown, set_state acquire_failed r, s)
  else
    let r := set_channel (Some (new_channel (index_ r))) r in
    match send_result_set_hello (index_ r) name s with
    | Ok s => (ok, set_state acquired r, s)
    | _ => (unknown, set_state acquire_failed r, s)
    end.
(** [mine]: the channel passed is the one this response has *)
Definition release_channel (mine : bool) (r : stream_response) (s : t) : status * stream_response * t :=
  match data_channel_ r with
  | Some c => if mine then (ok, set_state released (set_channel None r), shutdown c s) else (unknown, set_state release_failed r, s)
  | None => (unknown, set_state release_failed r, s)
  end.

(** *** Records *)

Lemma at_slot_sending slot s : is_sending slot s = Ok true <-> sending_ s !z slot = Some sending.
Proof.
  unfold is_sending, at_slot. destruct (sending_ s !z slot) as [st|]; cbn [mbind res_bind]; [|done].
  split; [|by intros [= ->]]. by intros [= ->%bool_decide_eq_true].
Qed.

(** the data of writes up to a commit is one record, followed by the end of records *)
Lemma write_commit data w s :
  sending_ s !z w_slot_ w = Some sending -> session_closed_ s = false -> socket_closed_ s = false ->
  exists w' s', (r ← foldl (fun r d => w ← r; '(_, w) ← write d w s; Ok w) (Ok w) data; commit r s) = Ok (ok, w', s') /\ buffer_ w' = [] /\
    sent ((if bool_decide (buffer_ w ++ concat data <> []) then [S_record (w_slot_ w) (writer_id_ w) (buffer_ w ++ concat data)] else [])
          ++ [S_record (w_slot_ w) (writer_id_ w) []]) s s'.
Proof.
  intros Hs Hc Ho. assert (is_sending (w_slot_ w) s = Ok true) as Hi by by apply at_slot_sending.
  assert (foldl (fun r d => w ← r; '(_, w) ← write d w s; Ok w) (Ok w) data = Ok (Wrt (w_slot_ w) (writer_id_ w) (buffer_ w ++ concat data))) as ->.
  { revert w Hs Hi. induction data as [|d data IH]; intros w Hs Hi; cbn [foldl concat].
    - rewrite app_nil_r. by destruct w.
    - cbn [mbind res_bind]. unfold write at 2. rewrite Hi. cbn [mbind res_bind]. rewrite IH by done. cbn. by rewrite <- app_assoc. }
  cbn [mbind res_bind]. unfold commit. cbn [w_slot_ writer_id_ buffer_]. rewrite Hi. cbn [mbind res_bind].
  destruct (send_record (w_slot_ w) (writer_id_ w) (buffer_ w ++ concat data) s) as [s'|e|] eqn:Es.
  - apply sent_record in Es as Hsent. cbn [emitted] in Hsent. rewrite Hs, Hc in Hsent. cbn [mbind res_bind]. by eexists _, _.
  - exfalso. unfold send_record, at_slot in Es. rewrite Hs in Es. cbn [mbind res_bind] in Es. by rewrite Hc in Es.
  - exfalso. unfold send_record, at_slot in Es. rewrite Hs in Es. cbn [mbind res_bind] in Es. by rewrite Hc in Es.
Qed.

(** a result set that could not be opened is closed towards the client all the same *)
Lemma failed_acquire_bye name n b m r s :
  0 <= index_ r < 2 ^ 16 -> zlen (sending_ s) <= index_ r -> n <= 256 -> complete_gate_ r = false -> session_closed_ s = false ->
  format (session_id_ r) (blobs_ r) b = Some m ->
  let '(st, r', s') := acquire_channel name n r s in
  st = unknown /\ s' = s /\
  let '(_, _, s'') := body b r' s' in
  sent [S_response RESPONSE_RESULT_SET_BYE (index_ r) []; S_response RESPONSE_SESSION_PAYLOAD (index_ r) m] s s''.
Proof.
  intros Hx Hl Hn Hg Hc Hf. unfold acquire_channel. rewrite (proj2 (Z.ltb_ge _ _)) by lia.
  unfold send_result_set_hello, at_slot. cbn [index_ set_channel]. rewrite lookup_ge_None_2 by (unfold zlen in Hl; lia). cbn [mbind res_bind].
  split_and!; [done|done|]. unfold body. cbn [complete_gate_ set_state set_channel]. rewrite Hg. cbn. rewrite Hf. unfold shutdown. cbn [slot_ new_channel].
  replace (u16 (index_ r)) with (index_ r) by (symmetry; by apply wrap_small).
  pose proof (sent_response RESPONSE_RESULT_SET_BYE (index_ r) [] false s) as H1. rewrite Hc in H1. eapply (sent_app [_]); [exact H1|].
  pose proof (sent_response RESPONSE_SESSION_PAYLOAD (index_ r) m false (send_result_set_bye (index_ r) s)) as H2.
  replace (session_closed_ (send_result_set_bye (index_ r) s)) with false in H2; [exact H2|].
  unfold send_result_set_bye, send_response. rewrite Hc. cbn [andb]. symmetry.
  destruct (emit_frame (concat (response_pieces RESPONSE_RESULT_SET_BYE (index_ r) [])) s) as (_ & -> & _). done.
Qed.

End Response.
End StreamResponse.

(** * connection_socket

    [num_open_] counts the stream sockets; [select] reports the listening socket only when
    it was asked for. *)

Module ConnectionSocket.

Record t : Type := Conn { socket_limit_ : Z; num_open_ : Z }.
Definition is_socket_available (c : t) : bool := num_open_ c <? socket_limit_ c.

(** what a [select] reports, and what follows: a connection (with the outcome of [::accept]),
    a byte in the pipe (with the outcome of [read]), nothing, or an error *)
Inductive selected : Type := Sel_timeout | Sel_socket (accepted : bool) | Sel_pipe (readable : bool) | Sel_error.

(** the outcome of an accept: a socket, a request to terminate, or nothing yet *)
Inductive accepted : Type := Accepted | Terminate | Waiting.

(** [select] on the descriptors set: the listening socket is not among them at the limit *)
Definition watched (c : t) (sel : selected) : bool :=
  match sel with Sel_socket _ => is_socket_available c | _ => true end.

(** [accept]; [closes]: the sockets closed by other threads before each [select] *)
Fixpoint accept (sels : list (Z * selected)) (c : t) : res (accepted * t) :=
  match sels with
  | [] => Ok (Waiting, c)
  | (n, sel) :: sels =>
      let c := Conn (socket_limit_ c) (num_open_ c - n) in
      match sel with
      | Sel_timeout => accept sels c
      | Sel_socket true => Ok (Accepted, Conn (socket_limit_ c) (num_open_ c + 1))
      | Sel_socket false => Throw (runtime_error "accept error")
      | Sel_pipe true => Ok (Terminate, c)
      | Sel_pipe false => Throw (runtime_error "pipe connection error")
      | Sel_error => Throw (runtime_error "select error")
      end
  end.
(** the results of [select] agree with the descriptors it was given *)
Fixpoint agrees (sels : list (Z * selected)) (c : t) : Prop :=
  match sels with
  | [] => True
  | (n, sel) :: sels =>
      0 <= n <= num_open_ c /\ let c := Conn (socket_limit_ c) (num_open_ c - n) in watched c sel = true /\ agrees sels c
  end.

(** the limit on the number of sockets holds *)
Lemma accept_limit sels c r c' :
  agrees sels c -> 0 <= num_open_ c <= socket_limit_ c -> accept sels c = Ok (r, c') ->
  0 <= num_open_ c' <= socket_limit_ c' /\ socket_limit_ c' = socket_limit_ c.
Proof.
  revert c. induction sels as [|[n sel] sels IH]; intros c Ha Hl; cbn [accept]; [by intros [= <- <-]|].
  destruct Ha as (Hn & Hw & Ha). destruct sel as [|[]|[]|]; intros H; simplify_eq; cbn [num_open_ socket_limit_].
  - apply IH in H; cbn in *; [done|done|lia].
  - cbn [watched] in Hw. unfold is_socket_available in Hw. cbn in *. lia.
  - lia.
Qed.

End ConnectionSocket.

(** * Concrete connections *)

Module StreamDemo.
Import StreamSocket.

(** a greeting, a closed result set and a payload, in pieces of two bytes *)
Definition sent_by_client : list client_message := [C_hello 0 [1]; C_bye_ok 3 []; C_payload 5 [7; 8]; C_bye 0 []].
Fixpoint cut (fuel : nat) (bs : list byte) : list arrival :=
  match fuel, bs with
  | S fuel, a :: b :: bs => Data [a; b] :: cut fuel bs
  | _, [] => []
  | _, bs => [Data bs]
  end.
Definition arrivals : list arrival := cut 100 (concat (map encode sent_by_client)).

Lemma stream_await_refines_witness :
  exists i s', await (replicate 5 P_in) (create arrivals) = Ok (Some (payload, 5, [7; 8]), with_input i s') /\
    bytes i = encode (C_bye 0 []) /\ out s' = encode_server greeting /\ sending_ s' !z 3 = Some closed.
Proof.
  assert (refines (await (replicate 5 P_in) (with_input arrivals (create []))) (serve sent_by_client 0 [] (create []))) as H.
  { apply (stream_await_refines sent_by_client arrivals (create []) 5).
    - repeat (apply Forall_cons; split; [by eexists _, _|]). apply Forall_nil. exact I.
    - vm_compute. reflexivity.
    - repeat (apply Forall_cons; split; [by vm_compute|]). apply Forall_nil. exact I.
    - cbn. lia. }
  cbn [refines] in H. destruct H as (i & H1 & _ & H3). exists i. eexists. split; [exact H1|]. split; [exact H3|]. split; vm_compute; reflexivity.
Defined.



End StreamDemo.
