(* ===== verification/StreamWorker.v ===== *)
(** The worker of a session of the stream endpoint (endpoint/stream/bootstrap/stream_worker.h
    and .cpp): the handshake, the refusal of surplus sessions, and the request loop, over the
    socket of Stream.v and the table of outstanding requests of WorkerTable.v. *)
From stdpp Require Import gmap.
From S2P Require Import Prelude Session Authentication Handshake WorkerTable Stream.
Import StreamSocket.

Section StreamWorker.
Context (format : Z -> list string -> reply -> option (list byte)).
(** what the payload of a request says: the service and the session it names, and its
    contents as a message to the endpoint or to the core (protobuf) *)
Context (parse : list byte -> Z * Z * option endpoint_request * option core_command).

(** * stream_response behind the interface of the table: the responses share the socket *)

Abbreviation robj := StreamResponse.stream_response.

#[local] Instance stream_responses : Responses robj StreamSocket.t := {
  o_new := StreamResponse.new_response;
  o_gate := StreamResponse.complete_gate_;
  o_completed := StreamResponse.completed_;
  o_is_completed := StreamResponse.is_completed;
  o_cleaned := StreamResponse.cleaned;
  o_bodies := StreamResponse.handed;
  o_body b r s := let '(_, r, s) := StreamResponse.body format b r s in (r, s);
  o_error b r s := StreamResponse.error format b r s;
  o_cancel := StreamResponse.cancel;
  o_set_completed := StreamResponse.set_completed;
  o_set_session_id := StreamResponse.set_session_id
}.

Abbreviation worker := (worker (O := robj) (Env := StreamSocket.t)).

Definition session_stream_ (w : worker) : StreamSocket.t := env (tbl w).
Definition with_stream (f : StreamSocket.t -> StreamSocket.t) (w : worker) : worker :=
  with_table (fun t => with_env (f (env t)) t) w.
Definition shutdown_from_client (w : worker) : bool := complete_shutdown_from_client_ (tbl w).

(** what a service does with a request, the objects made for it, and its blobs *)
Record behaviour : Type := Behaviour {
  b_req : nat;
  b_res : nat;
  b_blob_error : option string;
  b_answer : option service_answer;
  b_keeps : bool;
  b_returns : bool
}.
Definition make_request (slot : Z) (pl : list byte) (b : behaviour) : request_event :=
  let '(service_id, session_id, endpoint_message, core_message) := parse pl in
  RequestEvent (b_req b) (b_res b) slot service_id session_id endpoint_message core_message (b_blob_error b) (b_answer b)
    (b_keeps b) (b_returns b).

Section Config.
Context (cfg : configuration).

(** * stream_worker::run up to the handshake *)

(** [Farewell]: the client was refused, and run() waits for one more message before it
    closes the socket; [Over]: run() has returned *)
Inductive entry_phase : Type := Waiting | Farewell | Established | Over.
Record entry : Type := Entry { ewk : worker; ephase : entry_phase }.

Definition exceeded : string := "requests for session connections exceeded the maximum number of sessions".

(** [response_obj] is made for the request of the turn *)
Definition notify_of_decline (rq : endpoint_request) (slot : Z) (s : StreamSocket.t) : StreamSocket.t :=
  let r := StreamResponse.new_response slot in
  match command_ rq with
  | kEncryptionKey => snd (StreamResponse.body format (R_encryption_key_error RESOURCE_LIMIT_REACHED exceeded) r s)
  | kHandshake _ => snd (StreamResponse.body format (R_handshake_error RESOURCE_LIMIT_REACHED exceeded) r s)
  | _ => snd (StreamResponse.error format (R_diagnostics INVALID_REQUEST "invalid request for handshake phase") r s)
  end.

(** the bodies a handshake gives to its response, one after the other *)
Definition give_bodies (out : list reply) (slot : Z) (s : StreamSocket.t) : StreamSocket.t :=
  snd (foldl (fun '(r, s) b => let '(_, r, s) := StreamResponse.body format b r s in (r, s)) (StreamResponse.new_response slot, s) out).

Definition with_resources (r : resources) (w : worker) : worker :=
  Worker_ r (variables w) (shutdown_ w) (expiration_ w) (authentication_timer_ w) (tbl w).

(** the switch over the result of await; [new_session]: the next blob session *)
Definition on_entry (decline_ : bool) (new_session : Z) (r : await_result) (slot : Z) (pl : list byte) (w : worker) : entry :=
  match r with
  | payload =>
      let '(service_id, _, message, _) := parse pl in
      if decline_ then
        match message with
        | None => Entry (with_stream (fun s => snd (StreamResponse.error format (R_diagnostics INVALID_REQUEST "request parse error")
                                                      (StreamResponse.new_response slot) s)) w) Over
        | Some rq => Entry (with_stream (notify_of_decline rq slot) w) Farewell
        end
      else
        let '(r, out, o) := handshake cfg new_session service_id message (resources_ w) in
        let w := with_stream (give_bodies out slot) (with_resources r w) in
        match o with
        | Done true => Entry (with_stream (change_slot_size (max_result_sets_ r)) w) Established
        | Done false => Entry w Farewell
        | Continue => Entry w Waiting
        end
  | timeout => Entry w Waiting
  | socket_closed => Entry (with_stream close w) Over
  | termination_request => Entry (if shutdown_from_client w then with_stream send_session_bye_ok w else w) Over
  | illegal_message => Entry (with_stream close w) Over
  end.

(** one call of await, when [polls] are enough for it to return *)
Definition entry_turn (decline_ : bool) (polls : list poll_result) (new_session : Z) (e : entry) : res entry :=
  let next (f : await_result -> Z -> list byte -> worker -> entry) :=
    match await polls (session_stream_ (ewk e)) with
    | Ok (Some (r, slot, pl), s) => Ok (f r slot pl (with_stream (fun _ => s) (ewk e)))
    | Ok (None, _) => Ok e
    | Throw _ => Ok (Entry (ewk e) Over)
    | Undefined => Undefined
    end in
  match ephase e with
  | Waiting => next (on_entry decline_ new_session)
  | Farewell => next (fun _ _ _ w => Entry (with_stream close w) Over)
  | Established | Over => Ok e
  end.

(** a turn, or the listener's request to terminate the worker *)
Inductive entry_event : Type := En_turn (polls : list poll_result) (new_session : Z) | En_terminate (type : shutdown_request_type).
Definition entry_step (decline_ : bool) (ev : entry_event) (e : entry) : res entry :=
  match ev with
  | En_turn polls n => entry_turn decline_ polls n e
  | En_terminate type => Ok (Entry (snd (request_shutdown type (ewk e))) (ephase e))
  end.
Definition entry_reaches (decline_ : bool) : entry -> entry -> Prop :=
  rtc (fun e e' => exists ev, entry_step decline_ ev e = Ok e').

(** * stream_worker::run after the handshake *)

(** [Draining]: the client is gone and the loop waits for the outstanding requests *)
Inductive phase : Type := Serving | Draining | Ended.
Record stream_loop : Type := StreamLoop { swk : worker; notified : bool; ph : phase }.

(** one request: the worker afterwards, whether a service keeps it, and whether the loop ends *)
Definition stream_request (now : Z) (e : request_event) (w : worker) : worker * bool * bool :=
  let w := update_expiration_time cfg false now w in
  if service_id e =? service_id_endpoint_broker then
    let w := with_table (create_objects e None) w in
    let '(handled, w) := endpoint_service cfg now (slot e) (res_id e) (endpoint_message e) w in (w, false, negb handled)
  else if service_id e =? service_id_routing then
    let w := with_table (create_objects e (Some (slot e))) w in
    let '(registered, t) := register_reqres (slot e) (req_id e) (res_id e) (blob_error e) (tbl w) in
    let w := with_table (fun _ => t) w in
    if negb registered then (w, false, false)
    else
      let '(handled, w) := routing_service_chain cfg now (slot e) (res_id e) (req_session_id e) (core_message e) w in
      if handled then
        let w := with_table care_reqreses w in
        let '(sd, w) := check_shutdown_request w in
        (if sd && is_completed_ false (tbl w) then with_table shutdown_complete w else w, false, false)
      else (with_table (call_service e) w, svc_keeps e, negb (svc_returns e))
  else serve_request e w.

(** the loop is left, and the socket closed *)
Definition end_run (w : worker) (n : bool) : stream_loop := StreamLoop (with_stream close w) n Ended.

Definition on_payload (now : Z) (e : request_event) (w : worker) (n : bool) : stream_loop :=
  let '(w, kept, over) := stream_request now e w in
  let w := with_table (drop_objects kept e) w in
  if over then end_run w n else StreamLoop w n Serving.

Definition on_timeout (now : Z) (w : worker) (n : bool) : stream_loop :=
  let w := with_table care_reqreses w in
  let '(sd, w) := check_shutdown_request w in
  let completed := sd && is_completed_ false (tbl w) in
  let w := if completed then with_table shutdown_complete w else w in
  if completed && negb (shutdown_from_client w) then end_run w n
  else if negb n && is_expiration_time_over cfg now w then StreamLoop (snd (request_shutdown forceful w)) true Serving
  else StreamLoop w n Serving.

Definition on_termination_request (w : worker) (n : bool) : stream_loop :=
  if shutdown_from_client w then end_run (with_stream send_session_bye_ok w) n
  else StreamLoop (with_stream send_session_bye_ok (snd (request_shutdown forceful w))) n Serving.

(** the switch over the result of await *)
Definition on_await (now : Z) (b : behaviour) (r : await_result) (slot : Z) (pl : list byte) (w : worker) (n : bool) : stream_loop :=
  match r with
  | payload => on_payload now (make_request slot pl b) w n
  | timeout => on_timeout now w n
  | termination_request => on_termination_request w n
  | socket_closed => StreamLoop w n Draining
  | illegal_message => end_run w n
  end.

(** one turn of the loop, when [polls] are enough for await to return; its exceptions end run() *)
Definition turn (polls : list poll_result) (now : Z) (b : behaviour) (l : stream_loop) : res stream_loop :=
  match await polls (session_stream_ (swk l)) with
  | Ok (Some (r, slot, pl), s) => Ok (on_await now b r slot pl (with_stream (fun _ => s) (swk l)) (notified l))
  | Ok (None, _) => Ok l
  | Throw _ => Ok (StreamLoop (swk l) (notified l) Ended)
  | Undefined => Undefined
  end.

(** one round of [while (!is_completed())] *)
Definition drain (l : stream_loop) : stream_loop :=
  if is_completed_ false (tbl (swk l)) then end_run (swk l) (notified l)
  else StreamLoop (with_table care_reqreses (swk l)) (notified l) Draining.

(** what a service does with a response before it answers *)
Inductive channel_op : Type := C_body_head (b : reply) | C_acquire (name : list byte) (max_writer_count : Z) | C_release (mine : bool).
Definition apply_channel (o : channel_op) (r : robj) (s : StreamSocket.t) : robj * StreamSocket.t :=
  let '(_, r, s) :=
    match o with
    | C_body_head b => StreamResponse.body_head format b r s
    | C_acquire name n => StreamResponse.acquire_channel name n r s
    | C_release mine => StreamResponse.release_channel mine r s
    end in (r, s).

(** a step of the worker's thread, or of another one *)
Inductive stream_event : Type :=
| Sv_turn (polls : list poll_result) (now : Z) (b : behaviour)
| Sv_drain
| Sv_answer (q : nat) (a : service_answer)
| Sv_channel (q : nat) (o : channel_op)
| Sv_drop (ps qs : gset nat)
| Sv_terminate (type : shutdown_request_type)
| Sv_diagnostic.

Definition stream_step (ev : stream_event) (l : stream_loop) : res stream_loop :=
  let other w := Ok (StreamLoop w (notified l) (ph l)) in
  match ev with
  | Sv_turn polls now b => turn polls now b l
  | Sv_drain => Ok (drain l)
  | Sv_answer q a => other (with_table (on_response q (give_answer a)) (swk l))
  | Sv_channel q o => other (with_table (on_response q (apply_channel o)) (swk l))
  | Sv_drop ps qs => other (with_table (fun t => with_held (held_req t ∖ ps) (held_res t ∖ qs) t) (swk l))
  | Sv_terminate type => other (snd (request_shutdown type (swk l)))
  | Sv_diagnostic => other (with_table (fun t => snd (has_incomplete_response t)) (swk l))
  end.

End Config.

(** * The handshake phase *)

(** what a surplus session is told *)
Definition refusal (rq : endpoint_request) : reply :=
  match command_ rq with
  | kEncryptionKey => R_encryption_key_error RESOURCE_LIMIT_REACHED exceeded
  | kHandshake _ => R_handshake_error RESOURCE_LIMIT_REACHED exceeded
  | _ => R_diagnostics INVALID_REQUEST "invalid request for handshake phase"
  end.

Lemma decline_sends rq slot s m :
  format 0 [] (refusal rq) = Some m -> notify_of_decline rq slot s = send slot m true s.
Proof.
  unfold refusal, notify_of_decline. destruct (command_ rq); intros Hm; unfold StreamResponse.body, StreamResponse.error, StreamResponse.server_diagnostics;
    cbn [StreamResponse.complete_gate_ StreamResponse.new_response StreamResponse.drop_channel StreamResponse.data_channel_ StreamResponse.set_gate
         StreamResponse.session_id_ StreamResponse.blobs_]; by rewrite Hm.
Qed.

Lemma declined_step cfg ev e e' : entry_step cfg true ev e = Ok e' -> ephase e <> Established -> ephase e' <> Established.
Proof.
  intros Hs He. destruct ev as [polls n|ty]; cbn [entry_step] in Hs; [|by injection Hs as <-].
  unfold entry_turn in Hs. destruct (ephase e) eqn:Ee; try done;
    [| |injection Hs as <-; by rewrite Ee]; destruct (await _ _) as [[[[[r sl] pl]|] s]| |]; simplify_eq; try done; try (by rewrite Ee).
  destruct r; cbn [on_entry]; try done.
  destruct (parse pl) as [[[sid rsid] [rq|]] cm]; done.
Qed.

(** A session beyond the maximum is never established, whatever its client sends and
    however often the worker is told to terminate; its request for the encryption key or for
    the handshake is answered in its slot with RESOURCE_LIMIT_REACHED, and the socket is
    closed after the next call of await. *)
Theorem declined_refused cfg w :
  (forall e, entry_reaches cfg true (Entry w Waiting) e -> ephase e <> Established) /\
  forall polls n slot pl s rq sid rsid cm m,
    await polls (session_stream_ w) = Ok (Some (payload, slot, pl), s) -> parse pl = (sid, rsid, Some rq, cm) ->
    format 0 [] (refusal rq) = Some m ->
    exists w', entry_step cfg true (En_turn polls n) (Entry w Waiting) = Ok (Entry w' Farewell) /\
      session_stream_ w' = send slot m true s /\
      forall polls' n' r slot' pl' s', await polls' (session_stream_ w') = Ok (Some (r, slot', pl'), s') ->
        exists w'', entry_step cfg true (En_turn polls' n') (Entry w' Farewell) = Ok (Entry w'' Over) /\
          session_stream_ w'' = close s'.
Proof.
  split.
  - intros e Hr. assert (ephase (Entry w Waiting) <> Established) as H0 by done. revert H0.
    induction Hr as [|e1 e2 e3 [ev Hs] _ IH]; intros H0; [done|]. apply IH. by eapply declined_step.
  - intros polls n sl pl s rq sid rsid cm m Ea Ep Hm. cbn [entry_step entry_turn ephase ewk]. rewrite Ea. cbn [on_entry]. rewrite Ep.
    eexists. split; [done|]. split; [by apply decline_sends|].
    intros polls' n' r sl' pl' s' Ea'. rewrite Ea'. eexists. split; [done|done].
Qed.

(** steps in which the client sends nothing *)
Definition entry_quiet (ev : entry_event) (e : entry) : Prop :=
  match ev with
  | En_turn polls _ => exists slot pl s, await polls (session_stream_ (ewk e)) = Ok (Some (timeout, slot, pl), s)
  | En_terminate _ => True
  end.
Definition entry_quiet_step (cfg : configuration) (decline_ : bool) (e e' : entry) : Prop :=
  exists ev, entry_quiet ev e /\ entry_step cfg decline_ ev e = Ok e'.

(** As long as a client that has connected sends nothing, its worker stays in the
    handshake phase: neither the shutdown of the server, whose request the worker has got, nor
    any number of timeouts ends it, also when the session was to be declined. *)
Theorem handshake_ignores_shutdown cfg decline_ w type e :
  rtc (entry_quiet_step cfg decline_) (Entry (snd (request_shutdown type w)) Waiting) e -> ephase e = Waiting.
Proof.
  intros Hr. assert (ephase (Entry (snd (request_shutdown type w)) Waiting) = Waiting) as H0 by done. revert H0.
  induction Hr as [|e1 e2 e3 (ev & Hq & Hs) _ IH]; intros H0; [done|]. apply IH.
  destruct ev as [polls n|ty]; cbn [entry_step] in Hs; [|by injection Hs as <-].
  destruct Hq as (sl & pl & s & Ea). unfold entry_turn in Hs. rewrite H0, Ea in Hs. by injection Hs as <-.
Qed.

(** a session is established only by a handshake that succeeded, which leaves its resources *)
Lemma established_handshake cfg polls n w w' :
  entry_step cfg false (En_turn polls n) (Entry w Waiting) = Ok (Entry w' Established) ->
  exists slot pl s sid rsid message cm out,
    await polls (session_stream_ w) = Ok (Some (payload, slot, pl), s) /\ parse pl = (sid, rsid, message, cm) /\
    handshake cfg n sid message (resources_ w) = (resources_ w', out, Done true).
Proof.
  cbn [entry_step entry_turn ephase ewk]. destruct (await _ _) as [[[[[r sl] pl]|] s]| |] eqn:Ea; try done.
  destruct r; cbn [on_entry]; try done. destruct (parse pl) as [[[sid rsid] message] cm] eqn:Ep.
  change (resources_ (with_stream (fun _ => s) w)) with (resources_ w).
  destruct (handshake cfg n sid message (resources_ w)) as [[r out] [[]|]] eqn:Eh; try done.
  intros [= <-]. by exists sl, pl, s, sid, rsid, message, cm, out.
Qed.

(** * Nothing gets lost *)

Hypothesis format_total : forall i l b, format i l b <> None.

Ltac formatted :=
  match goal with |- context [format ?i ?l ?b] => destruct (format i l b) eqn:Ef; [done|by apply format_total in Ef] end.
Lemma stream_body_answers b : answering (o_body b).
Proof using format_total.
  intros r s. cbn. unfold StreamResponse.body, StreamResponse.drop_channel. destruct (StreamResponse.complete_gate_ r) eqn:Eg; [done|].
  cbn [StreamResponse.data_channel_ StreamResponse.set_gate].
  destruct (StreamResponse.data_channel_ r); cbn; formatted.
Qed.
Lemma stream_error_answers b : answering (o_error b).
Proof using format_total.
  intros r s. cbn. unfold StreamResponse.error, StreamResponse.drop_channel, StreamResponse.server_diagnostics.
  destruct (StreamResponse.complete_gate_ r) eqn:Eg; [done|]. cbn [StreamResponse.data_channel_ StreamResponse.set_gate].
  destruct (StreamResponse.data_channel_ r); cbn; formatted.
Qed.
#[local] Instance stream_response_laws : ResponseLaws robj StreamSocket.t.
Proof using format_total.
  split; try done; [apply stream_body_answers|apply stream_error_answers|]. by intros r [? _]%andb_true_iff.
Qed.

Lemma channel_benign o : benign (apply_channel o).
Proof.
  intros r s. destruct o as [b|name n|mine]; unfold apply_channel.
  - unfold StreamResponse.body_head. by destruct (format (StreamResponse.session_id_ r) [] b).
  - unfold StreamResponse.acquire_channel. destruct (255 + 1 <? n); [done|]. by destruct (send_result_set_hello _ _ _).
  - unfold StreamResponse.release_channel. destruct (StreamResponse.data_channel_ r); [|done]. by destruct mine.
Qed.

(** ** One request *)

Lemma stream_request_ok cfg now e w :
  tinv ∅ (tbl w) -> fresh e (tbl w) -> leaves e (tbl w) (stream_request cfg now e w).
Proof using format_total.
  intros Hi Hf. unfold stream_request. set (w1 := update_expiration_time cfg false now w).
  assert (tbl w1 = tbl w) as Ht by apply update_expiration_tbl. rewrite <- Ht in *. clearbody w1. clear Ht.
  pose proof (create_register_ok e (tbl w1) Hi Hf) as Hreg. cbn zeta in Hreg.
  set (w2 := with_table (create_objects e (Some (slot e))) w1). change (create_objects e (Some (slot e)) (tbl w1)) with (tbl w2) in Hreg.
  destruct (service_id e =? service_id_endpoint_broker).
  { pose proof (endpoint_request_ok cfg now e w1 Hi Hf). by destruct (endpoint_service _ _ _ _ _ _). }
  destruct (service_id e =? service_id_routing).
  - destruct (register_reqres _ _ _ _ (tbl w2)) as [[] t3]; destruct Hreg as (R1 & R2 & R3); cbn [negb]; [|by eapply (leaves_ready e (Some (slot e)))].
    set (w3 := with_table (fun _ => t3) w2).
    destruct (routing_service_chain _ _ _ _ _ _ w3) as [handled w4] eqn:E.
    pose proof (routed_request_ok cfg now e t3 w4 w3 handled eq_refl (proj1 R1) R1 (R3 eq_refl) E) as Hro. destruct handled.
    + destruct (check_shutdown_request _) as [sd w6]. eapply (leaves_post e (Some (slot e))).
      destruct Hro as (P1 & P2 & P3), R2 as (Ra & Rb & Rc). destruct (sd && is_completed_ false (tbl w6)) eqn:Ec.
      * apply andb_true_iff in Ec as [_ Ec]. destruct (shutdown_complete_drains false (tbl w6) P1 Ec) as (D1 & _).
        destruct (shutdown_complete_held (tbl w6)) as [_ D2]. cbn [tbl with_table].
        split_and!; [done|by rewrite D2, P2|]. rewrite shutdown_complete_clears. set_solver.
      * split_and!; [done|by rewrite P2|]. intros s q Hs. rewrite Rc in P3. by apply P3.
    + eapply (leaves_ready e (Some (slot e))); [done|apply Hro|]. etransitivity; [exact R2|apply Hro].
  - by apply serve_request_ok.
Qed.

(** ** The loop *)

(** a turn begins while the loop serves, and a request comes with fresh objects in a free
    slot; a service uses a response it has.  The loop starts on the open socket of an
    established session. *)
Definition event_ok (ev : stream_event) (l : stream_loop) : Prop :=
  match ev with
  | Sv_turn polls _ b =>
      ph l = Serving /\
      forall slot pl s, await polls (session_stream_ (swk l)) = Ok (Some (payload, slot, pl), s) ->
        fresh (make_request slot pl b) (tbl (swk l))
  | Sv_drain => ph l = Draining
  | Sv_answer q _ | Sv_channel q _ => q ∈ held_res (tbl (swk l))
  | Sv_drop _ _ | Sv_terminate _ | Sv_diagnostic => True
  end.

Inductive stream_reachable (cfg : configuration) : stream_loop -> Prop :=
| SReach_start w s : tbl w = empty_table s -> accepts s = true -> stream_reachable cfg (StreamLoop w false Serving)
| SReach_step l ev l' : stream_reachable cfg l -> event_ok ev l -> stream_step cfg ev l = Ok l' -> stream_reachable cfg l'.

Lemma binv_stream f w : binv (tbl w) -> binv (tbl (with_stream f w)).
Proof. apply binv_env. Qed.

Lemma binv_payload cfg now e w n : binv (tbl w) -> fresh e (tbl w) -> binv (tbl (swk (on_payload cfg now e w n))).
Proof using format_total.
  intros Hb Hf. pose proof (binv_leaves e w _ Hb Hf (stream_request_ok cfg now e w (proj1 Hb) Hf)) as Hl.
  unfold on_payload. destruct (stream_request cfg now e w) as [[w' kept] over]. destruct over; [by apply binv_stream|done].
Qed.

(** the worker after the timeout's clean-up and check for a shutdown request *)
Definition checked (w : worker) : bool * worker := check_shutdown_request (with_table care_reqreses w).
Lemma binv_checked w : binv (tbl w) -> binv (tbl (snd (checked w))).
Proof using format_total. intros Hb. apply binv_check. by apply binv_care. Qed.

Lemma binv_timeout cfg now w n : binv (tbl w) -> binv (tbl (swk (on_timeout cfg now w n))).
Proof using format_total.
  intros Hb. unfold on_timeout. pose proof (binv_checked w Hb) as Hc. unfold checked in Hc.
  destruct (check_shutdown_request _) as [sd w1]. cbn [snd] in Hc.
  destruct (sd && is_completed_ false (tbl w1)) eqn:E; cbn [andb].
  - apply andb_true_iff in E as [_ E]. assert (binv (tbl (with_table shutdown_complete w1))) as Hd by by eapply binv_shutdown_complete.
    repeat case_match; [by apply binv_stream|by apply binv_request_shutdown|done].
  - case_match; [by apply binv_request_shutdown|done].
Qed.

Lemma binv_stream_step cfg ev l l' :
  binv (tbl (swk l)) -> event_ok ev l -> stream_step cfg ev l = Ok l' -> binv (tbl (swk l')).
Proof using format_total.
  intros Hb Hok. destruct ev as [polls now b| |q a|q o|ps qs|ty|]; cbn [stream_step].
  - unfold turn. destruct Hok as [_ Hf]. destruct (await _ _) as [[[[[r sl] pl]|] s]| |] eqn:Ea; intros [= <-]; try done.
    assert (binv (tbl (with_stream (fun _ => s) (swk l)))) as Hs by by apply binv_stream.
    destruct r; cbn [on_await].
    + apply binv_payload; [done|]. by eapply Hf.
    + by apply binv_timeout.
    + done.
    + unfold on_termination_request. case_match; repeat apply binv_stream; [done|by apply binv_request_shutdown].
    + by apply binv_stream.
  - intros [= <-]. unfold drain. case_match; [by apply binv_stream|by apply binv_care].
  - intros [= <-]. apply ready_binv; [done|done|apply give_answer_answering].
  - intros [= <-]. apply binv_benign; [apply channel_benign|done].
  - intros [= <-]. apply binv_drop; [done|set_solver].
  - intros [= <-]. by apply binv_request_shutdown.
  - intros [= <-]. destruct (foreach_ok ∅ (silent (fun r => r)) (tbl (swk l))) as (H1 & H2 & _); [done|apply Hb|]. by eapply binv_same.
Qed.

Lemma stream_reachable_binv cfg l : stream_reachable cfg l -> binv (tbl (swk l)).
Proof using format_total.
  induction 1 as [w s Hw _|l ev l' _ IH Hok Hs]; [|by eapply binv_stream_step]. cbn [swk]. rewrite Hw. split; [apply tinv_empty|set_solver].
Qed.


(** ** What is put on the stream *)

(** operations that count what they put on the stream, and do not close the socket *)
Definition counts (f : robj -> StreamSocket.t -> robj * StreamSocket.t) : Prop := forall r s,
  let '(r', s') := f r s in
  closes s s' /\ socket_closed_ s' = socket_closed_ s /\
  ((StreamResponse.finals r <= StreamResponse.handed r)%nat -> (StreamResponse.finals r' <= StreamResponse.handed r')%nat) /\
  (accepts s' = true -> StreamResponse.finals r = StreamResponse.handed r -> StreamResponse.finals r' = StreamResponse.handed r').

Lemma drop_channel_spec r s :
  let '(r', s') := StreamResponse.drop_channel r s in
  accepts s' = accepts s /\ socket_closed_ s' = socket_closed_ s /\
  StreamResponse.finals r' = StreamResponse.finals r /\ StreamResponse.handed r' = StreamResponse.handed r.
Proof.
  unfold StreamResponse.drop_channel. destruct (StreamResponse.data_channel_ r) as [c|]; [|done].
  unfold StreamResponse.shutdown, send_result_set_bye, accepts.
  by destruct (send_response_closed RESPONSE_RESULT_SET_BYE (u16 (StreamResponse.slot_ c)) [] false s) as [-> ->].
Qed.
Lemma send_counts sl m s r :
  closes s (send sl m true s) /\ socket_closed_ (send sl m true s) = socket_closed_ s /\
  let r' := StreamResponse.count_final s r in
  ((StreamResponse.finals r <= StreamResponse.handed r)%nat -> (StreamResponse.finals r' <= StreamResponse.handed r')%nat) /\
  (accepts (send sl m true s) = true -> StreamResponse.finals r = StreamResponse.handed r -> StreamResponse.finals r' = StreamResponse.handed r').
Proof.
  destruct (send_accepts sl m s) as [_ E]. unfold closes. rewrite E. split_and!; [done|apply send_response_closed|..]; cbn.
  - destruct (accepts s); lia.
  - by intros -> ->.
Qed.

Lemma operation_counts f : operation f -> counts f.
Proof using format_total.
  intros [b|b| | |i] r s; cbn.
  - unfold StreamResponse.body. destruct (StreamResponse.complete_gate_ r); [done|].
    pose proof (drop_channel_spec (StreamResponse.set_gate r) s) as Hd.
    destruct (StreamResponse.drop_channel _ _) as [r1 s1]. destruct Hd as (H1 & H2 & H3 & H4). cbn in H3, H4.
    destruct (format _ _ _) as [m|] eqn:Ef; [|by apply format_total in Ef].
    destruct (send_counts (StreamResponse.index_ r1) m s1 r1) as (S1 & S2 & S3 & S4). rewrite H3, H4, H2 in *.
    split_and!; [|done|exact S3|exact S4]. unfold closes in *. by rewrite H1 in S1.
  - unfold StreamResponse.error. destruct (StreamResponse.complete_gate_ r); [done|].
    pose proof (drop_channel_spec (StreamResponse.set_gate r) s) as Hd.
    destruct (StreamResponse.drop_channel _ _) as [r1 s1]. destruct Hd as (H1 & H2 & H3 & H4). cbn in H3, H4.
    unfold StreamResponse.server_diagnostics. destruct (format _ _ _) as [m|] eqn:Ef; [|by apply format_total in Ef].
    destruct (send_counts (StreamResponse.index_ r1) m s1 r1) as (S1 & S2 & S3 & S4). rewrite H3, H4, H2 in *.
    split_and!; [|done|exact S3|exact S4]. unfold closes in *. by rewrite H1 in S1.
  - done.
  - done.
  - done.
Qed.

(** while the socket takes messages, every final message handed to it was put on the stream *)
Definition written (t : table (O := robj)) : Prop :=
  map_Forall (fun _ e => (StreamResponse.finals e.1 <= StreamResponse.handed e.1)%nat /\
    (accepts (env t) = true -> StreamResponse.finals e.1 = StreamResponse.handed e.1)) (heap t).
Definition open_socket (t : table (O := robj)) : Prop := socket_closed_ (env t) = false.

Lemma written_frame t t' : env t' = env t -> heap t' = heap t -> written t -> written t'.
Proof. unfold written. by intros -> ->. Qed.
Lemma on_response_env q f t :
  env (on_response q f t) = match heap t !! q with Some (r, _) => snd (f r (env t)) | None => env t end.
Proof.
  unfold on_response. destruct (heap t !! q) as [[r cb]|]; [|done]. destruct (f r (env t)) as [r' e].
  destruct (_ <? _)%nat; [by destruct cb|done].
Qed.
Lemma written_response q f t : counts f -> written t -> written (on_response q f t).
Proof.
  intros Hf Hw. unfold written. rewrite on_response_env. destruct (heap t !! q) as [[r cb]|] eqn:E;
    [|by rewrite on_response_none].
  rewrite (on_response_heap _ _ _ _ _ E). pose proof (Hf r (env t)) as H. destruct (f r (env t)) as [r' e]. cbn [fst snd].
  destruct H as (H1 & _ & H2 & H3). apply map_Forall_insert_2.
  - destruct (Hw q _ E) as [W1 W2]. cbn in *. split; [by apply H2|]. intros He. apply H3; [done|]. by apply W2, H1.
  - intros q' x Hq. destruct (Hw q' x Hq) as [W1 W2]. split; [done|]. intros He. by apply W2, H1.
Qed.
Lemma open_response q f t : counts f -> open_socket t -> open_socket (on_response q f t).
Proof.
  intros Hf Ho. unfold open_socket. rewrite on_response_env. destruct (heap t !! q) as [[r cb]|]; [|done].
  pose proof (Hf r (env t)) as H. destruct (f r (env t)) as [r' e]. destruct H as (_ & H & _). cbn. by rewrite H.
Qed.
Lemma fold_counts (P : table -> Prop) f l t :
  (forall q t, P t -> P (on_response q f t)) -> P t -> P (foldl (fun t q => on_response q f t) t l).
Proof. intros Hf. revert t. induction l as [|q l IH]; intros t Ht; cbn [foldl]; [done|]. by apply IH, Hf. Qed.
Lemma silent_counts g :
  (forall r, StreamResponse.finals (g r) = StreamResponse.finals r /\ StreamResponse.handed (g r) = StreamResponse.handed r) -> counts (silent g).
Proof. intros Hg r s. cbn. destruct (Hg r) as [-> ->]. done. Qed.
Lemma written_foreach g t : counts (silent g) -> written t -> written (foreach_reqreses (silent g) t).
Proof. intros Hg Hw. apply (fold_counts written (silent g)); [by intros; apply written_response|]. by eapply written_frame, Hw. Qed.
Lemma open_foreach g t : counts (silent g) -> open_socket t -> open_socket (foreach_reqreses (silent g) t).
Proof. intros Hg Ho. apply (fold_counts open_socket (silent g)); [by intros; apply open_response|]. done. Qed.

#[local] Instance written_stable : Stable written.
Proof using format_total.
  split.
  - intros q f t Hf%operation_counts. by apply written_response.
  - intros t t' He Hh _ _. by apply written_frame.
  - intros e cb t Hw. unfold written. cbn [heap env create_objects with_held with_heap]. by apply map_Forall_insert_2.
  - intros t Hw. apply (written_frame (foreach_reqreses (silent o_cancel) t)); [done..|]. by apply written_foreach; [apply silent_counts|].
Qed.
#[local] Instance open_stable : Stable open_socket.
Proof using format_total.
  unfold open_socket. split.
  - intros q f t Hf%operation_counts. by apply open_response.
  - by intros t t' -> _ _ _.
  - done.
  - intros t Ho. by apply (open_foreach o_cancel); [apply silent_counts|].
Qed.

(** *** The loop keeps them *)



Section Kept.
Context (P : table (O := robj) (Env := StreamSocket.t) -> Prop) `{!Stable P}.
Hypothesis kept_env : forall t e, P t -> closes (env t) e -> P (with_env e t).
Hypothesis kept_channel : forall q o t, P t -> P (on_response q (apply_channel o) t).

End Kept.



(** ** The end of the session *)

(** the turn ends at a timeout of the socket *)
Definition times_out (ev : stream_event) (l : stream_loop) : Prop :=
  exists polls now b slot pl s, ev = Sv_turn polls now b /\ await polls (session_stream_ (swk l)) = Ok (Some (timeout, slot, pl), s).






(** the flag that the client has been told of the shutdown *)
Lemma checked_from_client w : shutdown_from_client (snd (checked w)) = shutdown_from_client w.
Proof. unfold shutdown_from_client, checked. rewrite check_from_client. apply care_from_client. Qed.

(** an idle session that is to shut down *)
Lemma checked_idle w :
  binv (tbl w) -> shutdown_ w = graceful \/ shutdown_ w = forceful -> reqreses_ (tbl w) = ∅ -> shutdown_response_ (tbl w) = ∅ ->
  fst (checked w) = true /\ is_completed_ false (tbl (snd (checked w))) = true /\ shutdown_response_ (tbl (snd (checked w))) = ∅.
Proof using format_total.
  intros Hb Hsd Ht Hsr. destruct (care_ok (tbl w) (proj1 Hb)) as [C1 (_ & _ & C2)].
  destruct (check_shutdown_ok ∅ 0%nat (with_table care_reqreses w) C1) as [_ [(_ & _ & C3) _]].
  pose proof (check_empty (with_table care_reqreses w) (care_empty (tbl w) Ht)) as He.
  assert (shutdown_response_ (tbl (snd (checked w))) = ∅) as Hs by (etransitivity; [exact C3|]; etransitivity; [exact C2|exact Hsr]).
  split_and!; [|unfold is_completed_; rewrite Hs; unfold checked; by rewrite He, !bool_decide_true|done].
  unfold checked, check_shutdown_request. cbn [fst]. change (shutdown_ (with_table care_reqreses w)) with (shutdown_ w).
  by destruct Hsd as [-> | ->].
Qed.

(** A session that was asked to shut down by the server, or that expired, and has no
    outstanding request ends at the next timeout, with its socket closed, unless its client
    has already been told that the session is shut down: then it goes on waiting. *)
Theorem server_shutdown_ends cfg l ev l' :
  stream_reachable cfg l -> event_ok ev l -> times_out ev l -> stream_step cfg ev l = Ok l' ->
  shutdown_ (swk l) = graceful \/ shutdown_ (swk l) = forceful ->
  reqreses_ (tbl (swk l)) = ∅ -> shutdown_response_ (tbl (swk l)) = ∅ ->
  ph l' = (if shutdown_from_client (swk l) then Serving else Ended) /\
  (shutdown_from_client (swk l) = false -> socket_closed_ (session_stream_ (swk l')) = true).
Proof using format_total.
  intros Hr Hok (polls & now & b & sl & pl & s & -> & Ea) Hs Hsd Ht Hsr. cbn [stream_step] in Hs. unfold turn in Hs.
  rewrite Ea in Hs. injection Hs as <-. pose proof (stream_reachable_binv _ _ Hr) as Hb.
  cbn [on_await]. unfold on_timeout. set (w0 := with_stream (fun _ => s) (swk l)).
  pose proof (checked_from_client w0) as Hfc.
  destruct (checked_idle w0 (binv_stream (fun _ => s) _ Hb) Hsd Ht Hsr) as (Hf & Hc & He). unfold checked in *.
  destruct (check_shutdown_request _) as [sd w1]. cbn [fst snd] in *. subst sd.
  assert (shutdown_from_client (with_table shutdown_complete w1) = shutdown_from_client (swk l)) as Hg.
  { unfold shutdown_from_client in *. cbn [tbl with_table]. by rewrite shutdown_complete_from_client, Hfc, He, orb_false_r. }
  rewrite Hc. cbn [andb]. rewrite Hg. destruct (shutdown_from_client (swk l)); cbn [negb]; [by case_match|done].
Qed.

(** ** A session the client has shut down *)

(** a step in which the client sends nothing: a timeout (or an out-of-band byte), or a step of another thread *)
Definition quiet (ev : stream_event) (l : stream_loop) : Prop :=
  match ev with Sv_turn _ _ _ => times_out ev l | Sv_drain => False | _ => True end.
Definition quiet_step (cfg : configuration) (l l' : stream_loop) : Prop := exists ev, quiet ev l /\ stream_step cfg ev l = Ok l'.

Lemma timeout_from_client cfg now w n :
  shutdown_from_client w = true ->
  ph (on_timeout cfg now w n) = Serving /\ shutdown_from_client (swk (on_timeout cfg now w n)) = true.
Proof.
  intros Hw. unfold on_timeout. pose proof (checked_from_client w) as Hfc. unfold checked in Hfc.
  destruct (check_shutdown_request _) as [sd w1]. cbn [snd] in Hfc.
  set (w2 := if sd && _ then _ else _).
  assert (shutdown_from_client w2 = true) as H2.
  { unfold w2, shutdown_from_client in *. case_match; [|congruence]. cbn [tbl with_table].
    by rewrite shutdown_complete_from_client, Hfc, Hw. }
  rewrite H2, andb_false_r. case_match; [|done]. split; [done|]. cbn [swk].
  unfold shutdown_from_client. rewrite request_shutdown_from_client. exact H2.
Qed.

Lemma quiet_from_client cfg ev l l' :
  quiet ev l -> stream_step cfg ev l = Ok l' -> ph l = Serving -> shutdown_from_client (swk l) = true ->
  ph l' = Serving /\ shutdown_from_client (swk l') = true.
Proof.
  intros Hq Hs Hp Hf. destruct ev as [polls now b| |q a|q o|ps qs|ty|]; cbn [stream_step] in Hs; [|done|..].
  { destruct Hq as (polls' & now' & b' & sl & pl & s & [= <- <- <-] & Ea). unfold turn in Hs. rewrite Ea in Hs. injection Hs as <-.
    by apply timeout_from_client. }
  all: injection Hs as <-; split; [done|]; unfold shutdown_from_client in *; cbn [swk tbl with_table].
  - rewrite <- Hf. apply (fold_from_client [q]).
  - rewrite <- Hf. apply (fold_from_client [q]).
  - done.
  - by rewrite request_shutdown_from_client.
  - by rewrite foreach_from_client.
Qed.

(** Once the client has been told that its session is shut down, the session goes on
    for as long as the client stays connected and silent: no timeout, no expiration and no
    request of the server to terminate the worker ends it.  It ends when the client says
    goodbye, which is acknowledged before the socket is closed. *)
Theorem client_shutdown_waits cfg l l' :
  ph l = Serving -> shutdown_from_client (swk l) = true -> rtc (quiet_step cfg) l l' ->
  ph l' = Serving /\
  forall polls now b slot pl s l'',
    await polls (session_stream_ (swk l')) = Ok (Some (termination_request, slot, pl), s) ->
    stream_step cfg (Sv_turn polls now b) l' = Ok l'' ->
    ph l'' = Ended /\ session_stream_ (swk l'') = close (send_session_bye_ok s).
Proof.
  intros Hp Hf Hr. assert (ph l' = Serving /\ shutdown_from_client (swk l') = true) as [Hp' Hf'].
  { induction Hr as [|l1 l2 l3 (ev & Hq & Hs) _ IH]; [done|]. destruct (quiet_from_client _ _ _ _ Hq Hs Hp Hf). by apply IH. }
  split; [done|]. intros polls now b sl pl s l'' Ea Hs. cbn [stream_step] in Hs. unfold turn in Hs. rewrite Ea in Hs.
  injection Hs as <-. cbn [on_await]. unfold on_termination_request.
  change (shutdown_from_client (with_stream (fun _ => s) (swk l'))) with (shutdown_from_client (swk l')). by rewrite Hf'.
Qed.

End StreamWorker.

(** * Concrete sessions

    A payload starting with 1 asks the core for a graceful shutdown, any other one is a
    request for service 99. *)
Module StreamWorkerDemo.

Definition format (i : Z) (l : list string) (b : reply) : option (list byte) :=
  Some (match b with R_service p => p | R_shutdown => [100] | _ => [200] end).
Definition parse (pl : list byte) : Z * Z * option endpoint_request * option core_command :=
  match pl with
  | 1 :: _ => (service_id_routing, 7, None, Some (kShutdown GRACEFUL))
  | 3 :: _ => (service_id_endpoint_broker, 7, Some (EndpointRequest 0 2 kEncryptionKey), None)
  | _ => (99, 7, None, None)
  end.
#[local] Instance responses : Responses StreamResponse.stream_response StreamSocket.t := stream_responses format.
Definition cfg : configuration :=
  Configuration stream None (Administrators.Make ["root"] false) false false 300 10800 60 false false.
Definition from_client (ms : list client_message) : StreamSocket.t := create [Data (concat (map encode ms))].
Definition w0 (s : StreamSocket.t) : worker (O := StreamResponse.stream_response) (Env := StreamSocket.t) :=
  Worker_ (new_resources cfg 7 "" 0) ∅ nothing None HandshakeDemo.timer (empty_table s).
Definition l0 (s : StreamSocket.t) : stream_loop := StreamLoop (w0 s) false Serving.

Abbreviation step := (stream_step format parse cfg).
Definition keeps : behaviour := Behaviour 10 10 None None true true.
Definition handled : behaviour := Behaviour 11 11 None None false true.

(** the state after the event, where the step is defined *)
Definition next (ev : stream_event) (l : stream_loop) : stream_loop := match step ev l with Ok l' => l' | _ => l end.






(** an answer after the client's goodbye is handed to the socket and dropped there: the stream
    has the acknowledgement of the goodbye only *)
Example answer_after_goodbye :
  let l := next (Sv_answer 10 (Ans_body (R_service [42]))) (next (Sv_turn [P_in] 2 keeps)
             (next (Sv_turn [P_in] 1 keeps) (l0 (from_client [C_payload 3 [2; 5]; C_bye 0 []])))) in
  match heap (tbl (swk l)) !! 10%nat with
  | Some (r, _) => StreamResponse.handed r = 1%nat /\ StreamResponse.finals r = 0%nat
  | None => False
  end /\ session_closed_ (session_stream_ (swk l)) = true /\ out (session_stream_ (swk l)) = encode_server (S_response RESPONSE_SESSION_BYE_OK 0 []).
Proof. vm_compute. auto. Qed.

(** a session without requests, terminated by the server *)
Definition l_idle : stream_loop := Eval vm_compute in next (Sv_terminate graceful) (l0 (from_client [])).
Lemma idle_reachable : stream_reachable format parse cfg l_idle.
Proof.
  apply (SReach_step _ _ _ (l0 (from_client [])) (Sv_terminate graceful)); [by eapply SReach_start|done|vm_compute; reflexivity].
Qed.

Lemma server_shutdown_ends_witness :
  exists l', step (Sv_turn [P_timeout] 2 keeps) l_idle = Ok l' /\ ph l' = Ended /\ socket_closed_ (session_stream_ (swk l')) = true.
Proof.
  eexists. split; [vm_compute; reflexivity|].
  destruct (server_shutdown_ends format parse ltac:(done) cfg l_idle (Sv_turn [P_timeout] 2 keeps) _ idle_reachable
    ltac:(split; [reflexivity|]; intros ? ? ? Ha; vm_compute in Ha; discriminate Ha)
    ltac:(exists [P_timeout], 2, keeps; eexists _, _, _; split; [reflexivity|vm_compute; reflexivity])
    ltac:(vm_compute; reflexivity) (or_introl eq_refl) eq_refl eq_refl) as [H1 H2].
  split; [exact H1|exact (H2 eq_refl)].
Defined.

(** the client shuts its session down, and says goodbye only after the server has asked for
    the termination of the worker *)
Definition s_shutdown : StreamSocket.t := from_client [C_payload 1 [1]; C_bye 0 []].
Definition l_shutdown : stream_loop :=
  Eval vm_compute in next (Sv_turn [P_in] 1 handled) (l0 s_shutdown).
Definition l_waiting : stream_loop :=
  Eval vm_compute in next (Sv_turn [P_timeout] 2 keeps) (next (Sv_terminate forceful) l_shutdown).

Lemma client_shutdown_waits_witness :
  rtc (quiet_step format parse cfg) l_shutdown l_waiting /\ ph l_waiting = Serving /\
  exists l'', step (Sv_turn [P_in] 3 keeps) l_waiting = Ok l'' /\ ph l'' = Ended.
Proof.
  assert (rtc (quiet_step format parse cfg) l_shutdown l_waiting) as Hr.
  { eapply rtc_l; [exists (Sv_terminate forceful); split; [exact I|vm_compute; reflexivity]|].
    eapply rtc_l; [exists (Sv_turn [P_timeout] 2 keeps); split|apply rtc_refl].
    - exists [P_timeout], 2, keeps. eexists _, _, _. split; [reflexivity|vm_compute; reflexivity].
    - vm_compute. reflexivity. }
  destruct (client_shutdown_waits format parse cfg l_shutdown l_waiting eq_refl eq_refl Hr) as [H1 H2].
  split; [exact Hr|]. split; [exact H1|]. eexists. split; [vm_compute; reflexivity|].
  exact (proj1 (H2 [P_in] 3 keeps _ _ _ _ ltac:(vm_compute; reflexivity) ltac:(vm_compute; reflexivity))).
Defined.

Definition e0 (s : StreamSocket.t) : entry := Entry (snd (request_shutdown forceful (w0 s))) Waiting.

Lemma handshake_ignores_shutdown_witness :
  rtc (entry_quiet_step format parse cfg true) (e0 (from_client [])) (e0 (from_client [])) /\ shutdown_ (ewk (e0 (from_client []))) = forceful /\
  ephase (e0 (from_client [])) = Waiting.
Proof.
  assert (rtc (entry_quiet_step format parse cfg true) (e0 (from_client [])) (e0 (from_client []))) as Hr.
  { eapply rtc_l; [|apply rtc_refl]. exists (En_turn [P_timeout] 0). split; [eexists _, _, _; vm_compute; reflexivity|vm_compute; reflexivity]. }
  split; [exact Hr|]. split; [reflexivity|]. exact (handshake_ignores_shutdown format parse cfg true (w0 (from_client [])) forceful _ Hr).
Defined.

Lemma declined_refused_witness :
  exists w', entry_step format parse cfg true (En_turn [P_in] 0) (Entry (w0 (from_client [C_payload 3 [3]])) Waiting) = Ok (Entry w' Farewell) /\
    out (session_stream_ w') = [1; 3; 0; 1; 0; 0; 0; 200].
Proof.
  destruct (declined_refused format parse cfg (w0 (from_client [C_payload 3 [3]]))) as [_ H].
  destruct (H [P_in] 0 3 [3] _ _ _ _ _ [200] ltac:(vm_compute; reflexivity) eq_refl eq_refl) as (w' & H1 & H2 & _).
  exists w'. split; [exact H1|]. rewrite H2. vm_compute. reflexivity.
Defined.

End StreamWorkerDemo.
