(* ===== verification/Framework.v ===== *)
(** The framework (src/tateyama/framework, include/tateyama/framework): the repositories of
    components, the life cycle of the server, and the routing of requests to services.

    What a component does when it is set up, started or shut down is not part of the
    framework: whether the call succeeds is the parameter [answers], which may depend on
    everything that happened before.  [trace] is the sequence of the calls made. *)
From stdpp Require Import gmap.
From S2P Require Import Prelude Text Session Authentication.

(** * repository.h *)

Record component : Type := Component { id : Z; label : string }.
#[global] Instance component_eq_dec : EqDecision component.
Proof. solve_decision. Defined.

Definition repository : Type := list component.

(** [each(consumer, reverse_order)], with the state the consumer works on *)
Definition each {S : Type} (consumer : component -> S -> S) (reverse_order : bool) (r : repository) (s : S) : S :=
  foldl (fun s c => consumer c s) s (if reverse_order then reverse r else r).
Fixpoint find_by_id (i : Z) (r : repository) : option component :=
  match r with
  | [] => None
  | x :: r => if id x =? i then Some x else find_by_id i r
  end.
(** a duplicate id is logged, and added all the same *)
Definition add (c : component) (r : repository) : repository := r ++ [c].
Definition size (r : repository) : Z := zlen r.

(** * server.cpp *)

Inductive phase : Type := Setup | Start | Shutdown.
#[global] Instance phase_eq_dec : EqDecision phase.
Proof. solve_decision. Defined.
Definition call : Type := phase * component.

Record environment : Type := Environment {
  resource_repository : repository;
  service_repository : repository;
  endpoint_repository : repository
}.
Record server : Type := Server { environment_ : environment; setup_done_ : bool }.
Definition create : server := Server (Environment [] [] []) false.

Definition add_resource (c : component) (s : server) : server :=
  let e := environment_ s in
  Server (Environment (add c (resource_repository e)) (service_repository e) (endpoint_repository e)) (setup_done_ s).
Definition add_service (c : component) (s : server) : server :=
  let e := environment_ s in
  Server (Environment (resource_repository e) (add c (service_repository e)) (endpoint_repository e)) (setup_done_ s).
Definition add_endpoint (c : component) (s : server) : server :=
  let e := environment_ s in
  Server (Environment (resource_repository e) (service_repository e) (add c (endpoint_repository e))) (setup_done_ s).
Definition find_resource_by_id (i : Z) (s : server) : option component := find_by_id i (resource_repository (environment_ s)).
Definition find_service_by_id (i : Z) (s : server) : option component := find_by_id i (service_repository (environment_ s)).

Section Server.
(** the outcome of a call, given the calls before it *)
Context (answers : list call -> call -> bool).

Definition progress : Type := bool * list call.

(** the lambdas of setup() and start(): nothing more is called after a failure *)
Definition call_while_success (p : phase) (c : component) (st : progress) : progress :=
  let '(success, trace) := st in if success then (answers trace (p, c), trace ++ [(p, c)]) else st.
(** the lambda of shutdown(): every component is called *)
Definition call_always (p : phase) (c : component) (st : progress) : progress :=
  let '(success, trace) := st in (answers trace (p, c) && success, trace ++ [(p, c)]).

Definition server_shutdown (s : server) (trace : list call) : progress :=
  let e := environment_ s in
  each (call_always Shutdown) true (resource_repository e)
    (each (call_always Shutdown) true (service_repository e)
      (each (call_always Shutdown) true (endpoint_repository e) (true, trace))).

Definition in_order (p : phase) (s : server) (trace : list call) : progress :=
  let e := environment_ s in
  each (call_while_success p) false (endpoint_repository e)
    (each (call_while_success p) false (service_repository e)
      (each (call_while_success p) false (resource_repository e) (true, trace))).

Definition server_setup (s : server) (trace : list call) : bool * server * list call :=
  if setup_done_ s then (true, s, trace)
  else
    let '(success, trace) := in_order Setup s trace in
    let trace := if negb success then snd (server_shutdown s trace) else trace in
    (success, Server (environment_ s) success, trace).

Definition server_start (s : server) (trace : list call) : bool * server * list call :=
  let '(ok, s, trace) := if negb (setup_done_ s) then server_setup s trace else (true, s, trace) in
  if negb ok then (false, s, trace)
  else
    let '(success, trace) := in_order Start s trace in
    (success, s, if negb success then snd (server_shutdown s trace) else trace).

(** ** The order of the calls *)

Definition components (s : server) : list component :=
  let e := environment_ s in resource_repository e ++ service_repository e ++ endpoint_repository e.

(** [calls cs trace]: the calls made one after the other until one fails *)
Fixpoint attempt (cs : list call) (trace : list call) : progress :=
  match cs with
  | [] => (true, trace)
  | c :: cs => if answers trace c then attempt cs (trace ++ [c]) else (false, trace ++ [c])
  end.

Lemma each_app {S} (f : component -> S -> S) l1 l2 s : each f false l2 (each f false l1 s) = each f false (l1 ++ l2) s.
Proof. unfold each. by rewrite foldl_app. Qed.
Lemma each_app_rev {S} (f : component -> S -> S) l1 l2 s : each f true l1 (each f true l2 s) = each f true (l1 ++ l2) s.
Proof. unfold each. by rewrite reverse_app, foldl_app. Qed.

Lemma each_failed p l trace : each (call_while_success p) false l (false, trace) = (false, trace).
Proof. unfold each. induction l as [|c l IH]; [done|]. exact IH. Qed.
Lemma each_attempt p l trace : each (call_while_success p) false l (true, trace) = attempt (map (pair p) l) trace.
Proof.
  revert trace. induction l as [|c l IH]; intros trace; [done|]. cbn [map attempt].
  change (each (call_while_success p) false (c :: l) (true, trace)) with
    (each (call_while_success p) false l (answers trace (p, c), trace ++ [(p, c)])).
  destruct (answers trace (p, c)); [apply IH|apply each_failed].
Qed.
Lemma in_order_attempt p s trace : in_order p s trace = attempt (map (pair p) (components s)) trace.
Proof. unfold in_order, components. by rewrite !each_app, each_attempt, <- ?app_assoc. Qed.

Lemma shutdown_trace s trace : snd (server_shutdown s trace) = trace ++ map (pair Shutdown) (reverse (components s)).
Proof.
  unfold server_shutdown. rewrite !each_app_rev. unfold each. rewrite <- app_assoc. fold (components s).
  generalize (reverse (components s)) as l. generalize true as b. clear. intros b l. revert b trace.
  induction l as [|c l IH]; intros b trace; cbn [foldl map]; [by rewrite app_nil_r|].
  cbn [call_always]. rewrite IH. by rewrite <- app_assoc.
Qed.

Lemma attempt_app cs1 cs2 trace :
  attempt (cs1 ++ cs2) trace = let '(b, t) := attempt cs1 trace in if b then attempt cs2 t else (false, t).
Proof. revert trace. induction cs1 as [|c cs1 IH]; intros trace; [done|]. cbn. destruct (answers trace c); [apply IH|done]. Qed.

(** either all calls were made and succeeded, or they were made up to the first that failed *)
Lemma attempt_spec cs trace :
  (attempt cs trace = (true, trace ++ cs) /\ forall l1 c l2, cs = l1 ++ c :: l2 -> answers (trace ++ l1) c = true) \/
  exists l1 c l2, cs = l1 ++ c :: l2 /\ attempt cs trace = (false, trace ++ l1 ++ [c]) /\ answers (trace ++ l1) c = false /\
    forall k1 d k2, l1 = k1 ++ d :: k2 -> answers (trace ++ k1) d = true.
Proof.
  revert trace. induction cs as [|c cs IH]; intros trace; cbn [attempt].
  - left. rewrite app_nil_r. split; [done|]. by intros [] ? ?.
  - destruct (answers trace c) eqn:E.
    + destruct (IH (trace ++ [c])) as [[H1 H2]|(l1 & d & l2 & -> & H1 & H2 & H3)].
      * left. rewrite H1, <- app_assoc. split; [done|]. intros [|x l1] d l2 [= <- ->]; [by rewrite app_nil_r|].
        specialize (H2 l1 d l2 eq_refl). by rewrite <- app_assoc in H2.
      * right. exists (c :: l1), d, l2. rewrite H1. rewrite <- app_assoc in H2. split_and!; [done|by rewrite <- !app_assoc|done|].
        intros [|x k1] e k2 [= <- ->]; [by rewrite app_nil_r|]. specialize (H3 k1 e k2 eq_refl). by rewrite <- app_assoc in H3.
    + right. exists [], c, cs. split_and!; [done|done|by rewrite app_nil_r|]. by intros [] ? ?.
Qed.

(** C15: the life cycle of the server.  start() makes the calls of one plan: set up all
    resources, services and endpoints, in that order and each kind in the order of
    addition, unless that was done before, then start them in the same order.  It returns
    true when every call of the plan was made and succeeded; otherwise the plan was
    followed up to the first call that failed, and then every component of the server,
    those not set up yet included, was shut down exactly once in the reverse order. *)
Theorem server_lifecycle s trace :
  let order := components s in
  let plan := (if setup_done_ s then [] else map (pair Setup) order) ++ map (pair Start) order in
  let '(ok, s', trace') := server_start s trace in
  (ok = true /\ setup_done_ s' = true /\ trace' = trace ++ plan /\
   forall l1 c l2, plan = l1 ++ c :: l2 -> answers (trace ++ l1) c = true) \/
  (ok = false /\ exists l1 c l2, plan = l1 ++ c :: l2 /\ answers (trace ++ l1) c = false /\
     (forall k1 d k2, l1 = k1 ++ d :: k2 -> answers (trace ++ k1) d = true) /\
     trace' = trace ++ l1 ++ [c] ++ map (pair Shutdown) (reverse order)).
Proof.
  cbn zeta. set (order := components s). set (plan := (if setup_done_ s then _ else _) ++ _).
  assert (server_start s trace = let '(b, t) := attempt plan trace in
    (b, Server (environment_ s) (setup_done_ s || fst (attempt (map (pair Setup) order) trace)),
     if b then t else t ++ map (pair Shutdown) (reverse order))) as ->.
  { unfold server_start, server_setup, plan. destruct (setup_done_ s) eqn:Ed; cbn [negb orb app].
    - assert (s = Server (environment_ s) true) as Hs by (destruct s; cbn in *; congruence).
      rewrite in_order_attempt. fold order. destruct (attempt (map (pair Start) order) trace) as [[] t]; cbn [negb];
        rewrite ?shutdown_trace; by rewrite <- Hs.
    - rewrite in_order_attempt, attempt_app. fold order. destruct (attempt (map (pair Setup) order) trace) as [[] t]; cbn [negb fst].
      + rewrite in_order_attempt. change (components _) with order. destruct (attempt (map (pair Start) order) t) as [[] t']; cbn [negb]; [done|].
        by rewrite shutdown_trace.
      + by rewrite shutdown_trace. }
  destruct (attempt_spec plan trace) as [[H1 H2]|(l1 & c & l2 & Hp & H1 & H2 & H3)]; rewrite H1.
  - left. split_and!; [done| |done|done]. cbn [setup_done_]. unfold plan in H1. destruct (setup_done_ s); [done|].
    rewrite attempt_app in H1. by destruct (attempt (map (pair Setup) order) trace) as [[] t].
  - right. split; [done|]. exists l1, c, l2. split_and!; [done|done|done|]. by rewrite <- !app_assoc.
Qed.

End Server.

(** * routing_service.cpp *)

Inductive boot_mode : Type := unknown_mode | database_server | maintenance_server | maintenance_standalone | quiescent_server.
#[global] Instance boot_mode_eq_dec : EqDecision boot_mode.
Proof. solve_decision. Defined.

Module Routing.

Definition tag : Z := 0.
Record t : Type := Make { services_ : option repository }.
Definition setup (mode : boot_mode) (e : environment) (r : t) : bool * t :=
  if bool_decide (mode = maintenance_standalone) then (true, r) else (true, Make (Some (service_repository e))).
Definition start (r : t) : bool * t := (true, r).
Definition shutdown (r : t) : bool * t := (true, Make None).

(** the message of a core request: not parsable, UpdateExpirationTime, or another command *)
Inductive core_request : Type := Unparsable | UpdateExpirationTime | OtherCommand.

(** what happens to the request: nothing, an error with its code and message, or it is
    handed to a service *)
Inductive action : Type := Dropped | Refused (c : string) (message : string) | Forwarded (c : component).

Definition core_service (rq : core_request) : bool * action :=
  match rq with
  | Unparsable => (false, Dropped)
  | UpdateExpirationTime => (true, Refused "UNSUPPORTED_OPERATION" "")
  | OtherCommand => (false, Refused "UNKNOWN" "")
  end.

Definition not_registered (service_id : Z) : string :=
  "unsupported service message: the destination service (ID=" ++ Text.to_string service_id ++ ") is not registered."
  ++ String (Ascii.ascii_of_nat 10) "see https://github.com/project-tsurugi/tsurugidb/blob/master/docs/upgrade-guide.md#service-not-registered".

(** [operator()] *)
Definition route (r : t) (service_id : Z) (rq : core_request) : bool * action :=
  match services_ r with
  | None => (false, Dropped)
  | Some services =>
      if service_id =? tag then core_service rq
      else match find_by_id service_id services with
           | Some destination => (true, Forwarded destination)
           | None => (false, Refused "SERVICE_UNAVAILABLE" (not_registered service_id))
           end
  end.

Lemma find_by_id_elem i r c : find_by_id i r = Some c -> c ∈ r /\ id c = i.
Proof.
  induction r as [|x r IH]; cbn [find_by_id]; [done|]. destruct (Z.eqb_spec (id x) i) as [E|E].
  - intros [= <-]. split; [set_solver|done].
  - intros H. apply IH in H as [? ?]. split; [set_solver|done].
Qed.
Lemma find_by_id_first c r1 r2 : (forall x, x ∈ r1 -> id x <> id c) -> find_by_id (id c) (r1 ++ c :: r2) = Some c.
Proof.
  induction r1 as [|x r1 IH]; intros Hx; cbn [app find_by_id]; [by rewrite Z.eqb_refl|].
  rewrite (proj2 (Z.eqb_neq _ _)) by (apply Hx; set_solver). apply IH. set_solver.
Qed.
Lemma find_by_id_None i r : find_by_id i r = None -> forall c, c ∈ r -> id c <> i.
Proof.
  induction r as [|x r IH]; cbn [find_by_id]; [set_solver|]. destruct (Z.eqb_spec (id x) i) as [E|E]; [done|].
  intros H c [->|Hc]%elem_of_cons; [done|by apply IH].
Qed.

(** a request of a server that has been set up reaches the first service registered under
    its id, whichever services were added later, and is refused when there is none *)
Lemma routing_spec mode s c r1 r2 rq sid r :
  mode <> maintenance_standalone -> service_repository (environment_ s) = r1 ++ c :: r2 ->
  (forall x, x ∈ r1 -> id x <> id c) -> id c <> tag ->
  let r' := snd (setup mode (environment_ s) r) in
  route r' (id c) rq = (true, Forwarded c) /\
  ((forall x, x ∈ service_repository (environment_ s) -> id x <> sid) -> sid <> tag ->
   route r' sid rq = (false, Refused "SERVICE_UNAVAILABLE" (not_registered sid))) /\
  route (snd (shutdown r')) (id c) rq = (false, Dropped).
Proof.
  intros Hm Hs Hf Ht. unfold setup. rewrite bool_decide_false by done. cbn [snd route services_]. split_and!; [|..|done].
  - unfold route. cbn [services_]. rewrite (proj2 (Z.eqb_neq _ _)) by done. by rewrite Hs, find_by_id_first.
  - intros Hn Hsid. unfold route. cbn [services_]. rewrite (proj2 (Z.eqb_neq _ _)) by done.
    destruct (find_by_id sid _) as [x|] eqn:E; [|done]. apply find_by_id_elem in E as [Hx Hi]. by destruct (Hn x Hx).
Qed.

End Routing.
