(* ===== verification/TaskScheduler.v ===== *)
(** The task scheduler (include/tateyama/task_scheduler): per-worker queues with
    stealing, sticky tasks, tasks submitted before the start, the conditional
    worker, and the scheduler that places tasks.

    The concurrent queue underneath ([tbb::concurrent_queue]) is a library: it is
    known through the interface [ConcurrentQueue], a FIFO queue.  A task is opaque;
    running it is recorded in [executed] (what a task schedules is a later call of
    [schedule] by its thread). *)
From S2P Require Import Prelude.

(** * Periodic notification (periodic_notifier.h) *)
Module Notifier.
Record t := Notifier { notifications_ : Z; period_ : Z; current_ : Z }.
Definition default : t := Notifier 1 1 0.
(** the assertions of [init] are the conditions of its claims *)
Definition init (notifications period : Z) : t := Notifier notifications period 0.
Definition reset (n : t) : t := Notifier (notifications_ n) (period_ n) 0.
Definition count_up (n : t) : bool * t :=
  let c := u64 (current_ n + notifications_ n) in
  if period_ n <=? c then (true, Notifier (notifications_ n) (period_ n) (u64 (c - period_ n)))
  else (false, Notifier (notifications_ n) (period_ n) c).
End Notifier.

(** * Queues (queue.h) *)
Class ConcurrentQueue (T Q : Type) := {
  contents : Q -> list T;
  q_empty : Q;
  q_push : T -> Q -> Q;
  q_try_pop : Q -> option (T * Q)
}.
Class ConcurrentQueueOk (T Q : Type) `{ConcurrentQueue T Q} := {
  contents_empty : contents q_empty = [];
  contents_push t q : contents (q_push t q) = contents q ++ [t];
  contents_try_pop q : match q_try_pop q with
    | Some (t, q') => contents q = t :: contents q'
    | None => contents q = []
    end
}.

#[export] Instance list_queue T : ConcurrentQueue T (list T) := {|
  contents := fun l => l; q_empty := []; q_push := fun t l => l ++ [t];
  q_try_pop := fun l => match l with [] => None | x :: l => Some (x, l) end |}.
#[export] Instance list_queue_ok T : ConcurrentQueueOk T (list T).
Proof. split; [done|done|by intros [|x l]]. Qed.

Record task_scheduler_cfg := Cfg {
  thread_count : nat;
  stealing_enabled : bool;
  use_preferred_worker_for_current_thread : bool;
  ratio_check_local_first : Z * Z;
  stealing_wait : nat;
  busy_worker : bool;
  worker_try_count : Z
}.

Record worker_stat := Stat { count_ : Z; steal_ : Z; sticky_ : Z; wakeup_run_ : Z; suspend_ : Z }.

Record context := Ctx {
  index_ : nat;
  last_steal_from_ : nat;
  local_first_notifier_ : Notifier.t;
  task_is_stolen_ : bool;
  busy_working_ : bool
}.

Section Scheduler.
Context {T Q : Type} `{ConcurrentQueue T Q}.
Variable sticky : T -> bool.
Variable cfg : task_scheduler_cfg.

Record basic_queue := Queue { origin_ : Q; active_ : bool }.
Definition queue_push (t : T) (q : basic_queue) : basic_queue := Queue (q_push t (origin_ q)) (active_ q).
Definition queue_try_pop (q : basic_queue) : option (T * basic_queue) :=
  (fun r => (fst r, Queue (snd r) (active_ q))) <$> q_try_pop (origin_ q).
Definition queue_reconstruct (q : basic_queue) : basic_queue := Queue q_empty (active_ q).
Definition queue_deactivate (q : basic_queue) : basic_queue := Queue (origin_ q) false.

Record state := State {
  queues_ : list basic_queue;
  sticky_task_queues_ : list basic_queue;
  initial_tasks_ : list Q;
  contexts_ : list context;
  worker_stats_ : list worker_stat;
  started_ : bool;
  next_worker_index_before_modulo_ : Z;
  executed : list (nat * T)
}.

Definition with_queues (l : list basic_queue) (s : state) : state :=
  State l (sticky_task_queues_ s) (initial_tasks_ s) (contexts_ s) (worker_stats_ s) (started_ s)
    (next_worker_index_before_modulo_ s) (executed s).
Definition with_sticky (l : list basic_queue) (s : state) : state :=
  State (queues_ s) l (initial_tasks_ s) (contexts_ s) (worker_stats_ s) (started_ s)
    (next_worker_index_before_modulo_ s) (executed s).
Definition with_initial (l : list Q) (s : state) : state :=
  State (queues_ s) (sticky_task_queues_ s) l (contexts_ s) (worker_stats_ s) (started_ s)
    (next_worker_index_before_modulo_ s) (executed s).
Definition with_context (i : nat) (f : context -> context) (s : state) : state :=
  State (queues_ s) (sticky_task_queues_ s) (initial_tasks_ s) (alter f i (contexts_ s)) (worker_stats_ s) (started_ s)
    (next_worker_index_before_modulo_ s) (executed s).
Definition with_stat (i : nat) (f : worker_stat -> worker_stat) (s : state) : state :=
  State (queues_ s) (sticky_task_queues_ s) (initial_tasks_ s) (contexts_ s) (alter f i (worker_stats_ s)) (started_ s)
    (next_worker_index_before_modulo_ s) (executed s).
Definition log (i : nat) (t : T) (s : state) : state :=
  State (queues_ s) (sticky_task_queues_ s) (initial_tasks_ s) (contexts_ s) (worker_stats_ s) (started_ s)
    (next_worker_index_before_modulo_ s) (executed s ++ [(i, t)]).

Definition last_steal_from (n : nat) (c : context) : context :=
  Ctx (index_ c) n (local_first_notifier_ c) (task_is_stolen_ c) (busy_working_ c).
Definition task_is_stolen (b : bool) (c : context) : context :=
  Ctx (index_ c) (last_steal_from_ c) (local_first_notifier_ c) b (busy_working_ c).
Definition busy_working (b : bool) (c : context) : context :=
  Ctx (index_ c) (last_steal_from_ c) (local_first_notifier_ c) (task_is_stolen_ c) b.
Definition set_notifier (n : Notifier.t) (c : context) : context :=
  Ctx (index_ c) (last_steal_from_ c) n (task_is_stolen_ c) (busy_working_ c).
Definition add_count (w : worker_stat) := Stat (count_ w + 1) (steal_ w) (sticky_ w) (wakeup_run_ w) (suspend_ w).
Definition add_steal (w : worker_stat) := Stat (count_ w) (steal_ w + 1) (sticky_ w) (wakeup_run_ w) (suspend_ w).
Definition add_sticky (w : worker_stat) := Stat (count_ w) (steal_ w) (sticky_ w + 1) (wakeup_run_ w) (suspend_ w).
Definition add_wakeup (w : worker_stat) := Stat (count_ w) (steal_ w) (sticky_ w) (wakeup_run_ w + 1) (suspend_ w).
Definition add_suspend (w : worker_stat) := Stat (count_ w) (steal_ w) (sticky_ w) (wakeup_run_ w) (suspend_ w + 1).

(** * The worker (worker.h), of index [i] *)

(** exceptions of the task are caught and logged *)
Definition execute_task (i : nat) (t : T) (s : state) : state :=
  let s := match contexts_ s !! i with
           | Some c => if busy_working_ c then s else with_stat i add_wakeup s
           | None => s
           end in
  with_stat i add_count (log i t (with_context i (busy_working true) s)).

(** [try_process] on the local queue, and on the sticky queue *)
Definition try_local (i : nat) (s : state) : bool * state :=
  match queues_ s !! i with
  | Some q => if active_ q then
      match queue_try_pop q with
      | Some (t, q') => (true, execute_task i t (with_queues (<[i := q']> (queues_ s)) s))
      | None => (false, s)
      end else (false, s)
  | None => (false, s)
  end.
Definition try_sticky (i : nat) (s : state) : bool * state :=
  match sticky_task_queues_ s !! i with
  | Some q => if active_ q then
      match queue_try_pop q with
      | Some (t, q') =>
          (true, with_stat i add_sticky (execute_task i t (with_sticky (<[i := q']> (sticky_task_queues_ s)) s)))
      | None => (false, s)
      end else (false, s)
  | None => (false, s)
  end.

Definition try_local_and_sticky (i : nat) (s : state) : bool * state :=
  match contexts_ s !! i with
  | None => (false, s)
  | Some c =>
      let '(local_first, n) := Notifier.count_up (local_first_notifier_ c) in
      let s := with_context i (set_notifier n) s in
      if local_first
      then match try_local i s with (true, s) => (true, s) | (false, s) => try_sticky i s end
      else match try_sticky i s with (true, s) => (true, s) | (false, s) => try_local i s end
  end.

Definition next (current mod_ : nat) : nat := if (current =? mod_ - 1)%nat then O else S current.

(** the [do ... while] of [steal_and_execute]: at most one turn around the queues *)
Fixpoint steal_loop (fuel i idx end_ : nat) (s : state) : bool * state :=
  match fuel with
  | O => (false, s)
  | S fuel =>
      let retry := let idx' := next idx (length (queues_ s)) in
                   if (idx' =? end_)%nat then (false, s) else steal_loop fuel i idx' end_ s in
      match queues_ s !! idx with
      | Some tgt =>
          if active_ tgt then
            match queue_try_pop tgt with
            | Some (t, q') =>
                let s := with_queues (<[idx := q']> (queues_ s)) s in
                let s := with_context i (task_is_stolen true) (with_context i (last_steal_from idx) s) in
                (true, with_context i (task_is_stolen false) (execute_task i t s))
            | None => retry
            end
          else retry
      | None => (false, s)
      end
  end.
Definition steal_and_execute (i : nat) (s : state) : bool * state :=
  match contexts_ s !! i with
  | None => (false, s)
  | Some c =>
      let start := next (last_steal_from_ c) (length (queues_ s)) in
      steal_loop (length (queues_ s)) i start start s
  end.

Fixpoint try_times (n i : nat) (s : state) : bool * state :=
  match n with
  | O => (false, s)
  | S n => match try_local_and_sticky i s with (true, s) => (true, s) | (false, s) => try_times n i s end
  end.

Definition process_next (i : nat) (s : state) : bool * state :=
  match try_local_and_sticky i s with
  | (true, s) => (true, s)
  | (false, s) =>
      if stealing_enabled cfg then
        match try_times (stealing_wait cfg * thread_count cfg) i s with
        | (true, s) => (true, s)
        | (false, s) =>
            match steal_and_execute i s with
            | (true, s) => (true, with_stat i add_steal s)
            | (false, s) => (false, s)
            end
        end
      else (false, s)
  end.

(** [operator()] begins with its own queue as the one last stolen from *)
Definition begin_work (i : nat) (s : state) : state := with_context i (last_steal_from i) s.

(** [suspend_worker_if_needed]: the new count and whether the thread is suspended *)
Definition suspend_worker_if_needed (i : nat) (empty_work_count : Z) (s : state) : Z * bool * state :=
  if negb (busy_worker cfg) then
    let n := u64 (empty_work_count + 1) in
    if n >? worker_try_count cfg
    then (0, true, with_stat i add_suspend (with_context i (busy_working false) s))
    else (n, false, s)
  else (empty_work_count, false, s).

(** [init], run by the worker's thread before it waits for its activation *)
Fixpoint drain (fuel i : nat) (s : state) : state :=
  match fuel with
  | O => s
  | S fuel =>
      match initial_tasks_ s !! i with
      | Some l =>
          match q_try_pop l with
          | Some (t, l') =>
              let s := with_initial (<[i := l']> (initial_tasks_ s)) s in
              drain fuel i (if sticky t
                            then with_sticky (alter (queue_push t) i (sticky_task_queues_ s)) s
                            else with_queues (alter (queue_push t) i (queues_ s)) s)
          | None => s
          end
      | None => s
      end
  end.
Definition worker_init (i : nat) (s : state) : state :=
  let s := with_sticky (alter queue_reconstruct i (sticky_task_queues_ s))
             (with_queues (alter queue_reconstruct i (queues_ s)) s) in
  drain (match initial_tasks_ s !! i with Some l => length (contents l) | None => O end) i s.

(** * The scheduler (scheduler.h) *)

Definition prepare : state :=
  let n := thread_count cfg in
  State (replicate n (Queue q_empty true)) (replicate n (Queue q_empty true)) (replicate n q_empty)
    (map (fun i => Ctx i 0 (Notifier.init (fst (ratio_check_local_first cfg)) (snd (ratio_check_local_first cfg))) false false)
       (seq 0 n))
    (replicate n (Stat 0 0 0 0 0)) false 0 [].

Definition next_worker (s : state) : nat * state :=
  let n := next_worker_index_before_modulo_ s in
  (Z.to_nat (n mod Z.of_nat (thread_count cfg)),
   State (queues_ s) (sticky_task_queues_ s) (initial_tasks_ s) (contexts_ s) (worker_stats_ s) (started_ s)
     (u64 (n + 1)) (executed s)).

(** [index_for_this_thread] is thread local: [None] is [undefined] *)
Definition set_preferred_worker_for_current_thread (index mine : option nat) (s : state) : nat * option nat * state :=
  match index with
  | Some i => (i, Some i, s)
  | None => match mine with
            | Some i => (i, mine, s)
            | None => let '(i, s) := next_worker s in (i, Some i, s)
            end
  end.

Inductive schedule_policy_kind := undefined | suspended_worker.

(** [threads] are the activity flags of the worker threads *)
Fixpoint find_suspended (fuel : nat) (threads : list bool) (cur base : nat) : nat :=
  match fuel with
  | O => cur
  | S fuel =>
      match threads !! cur with
      | Some false => cur
      | _ => let cur' := next cur (thread_count cfg) in
             if (cur' =? base)%nat then cur' else find_suspended fuel threads cur' base
      end
  end.

Definition select_worker (policy : schedule_policy_kind) (threads : list bool) (mine : option nat) (s : state)
  : nat * option nat * state :=
  let '(index, mine, s) :=
    if use_preferred_worker_for_current_thread cfg then set_preferred_worker_for_current_thread None mine s
    else let '(i, s) := next_worker s in (i, mine, s) in
  match policy with
  | undefined => (index, mine, s)
  | suspended_worker =>
      let base := next index (thread_count cfg) in
      (find_suspended (thread_count cfg) threads base base, mine, s)
  end.

(** the activation of the thread that follows a push is in [Wakeup] *)
Definition schedule_at (t : T) (i : nat) (s : state) : state :=
  if negb (started_ s) then with_initial (alter (q_push t) i (initial_tasks_ s)) s
  else if sticky t then with_sticky (alter (queue_push t) i (sticky_task_queues_ s)) s
  else with_queues (alter (queue_push t) i (queues_ s)) s.

Definition schedule (t : T) (policy : schedule_policy_kind) (threads : list bool) (mine : option nat) (s : state)
  : option nat * state :=
  let '(i, mine, s) := select_worker policy threads mine s in (mine, schedule_at t i s).

(** [start], once every thread has been initialised *)
Definition start (s : state) : state :=
  State (queues_ s) (sticky_task_queues_ s) (initial_tasks_ s) (contexts_ s) (worker_stats_ s) true
    (next_worker_index_before_modulo_ s) (executed s).
(** [stop]: deactivates the queues and waits for the threads to end *)
Definition stop (s : state) : state :=
  State (map queue_deactivate (queues_ s)) (map queue_deactivate (sticky_task_queues_ s)) (initial_tasks_ s)
    (contexts_ s) (worker_stats_ s) false (next_worker_index_before_modulo_ s) (executed s).

(** * Conditional tasks (conditional_worker.h)

    [check t] is the outcome of the task's condition in this round ([false] also
    when it throws); the answer is whether tasks remain. *)
Fixpoint cond_round (fuel : nat) (check : T -> bool) (q : Q) (negatives run : list T) : Q * list T * list T :=
  match fuel with
  | O => (q, negatives, run)
  | S fuel =>
      match q_try_pop q with
      | Some (t, q') => if check t then cond_round fuel check q' negatives (run ++ [t])
                        else cond_round fuel check q' (negatives ++ [t]) run
      | None => (q, negatives, run)
      end
  end.
Definition cond_process_next (check : T -> bool) (q : Q) : bool * Q * list T :=
  let '(q, negatives, run) := cond_round (S (length (contents q))) check q [] [] in
  (match negatives with [] => false | _ => true end, fold_left (fun q t => q_push t q) negatives q, run).

End Scheduler.

(** * The notifier fires in proportion *)

Fixpoint count_ups (k : nat) (n : Notifier.t) : Z * Notifier.t :=
  match k with
  | O => (0, n)
  | S k => let '(b, n) := Notifier.count_up n in
           let '(m, n) := count_ups k n in ((if b then 1 else 0) + m, n)
  end.

Definition notifier_ok (n : Notifier.t) : Prop :=
  0 < Notifier.notifications_ n <= Notifier.period_ n /\ Notifier.period_ n < 2 ^ 62 /\
  0 <= Notifier.current_ n < Notifier.period_ n.

Lemma count_up_spec n :
  notifier_ok n ->
  let c := Notifier.current_ n + Notifier.notifications_ n in
  let '(b, n') := Notifier.count_up n in
  notifier_ok n' /\ Notifier.notifications_ n' = Notifier.notifications_ n /\ Notifier.period_ n' = Notifier.period_ n /\
  c = (if b then 1 else 0) * Notifier.period_ n + Notifier.current_ n'.
Proof.
  intros (Hn & Hp & Hc) c. unfold Notifier.count_up. fold c. rewrite (wrap_small 64 c) by (unfold in_range, c; lia).
  destruct (Z.leb_spec (Notifier.period_ n) c) as [Hle|Hlt].
  - rewrite wrap_small by (unfold in_range, c; lia). unfold notifier_ok. cbn. unfold c in *. split_and!; lia.
  - unfold notifier_ok. cbn. unfold c in *. split_and!; lia.
Qed.

Lemma count_ups_spec k n :
  notifier_ok n ->
  let '(m, n') := count_ups k n in
  notifier_ok n' /\ Notifier.period_ n' = Notifier.period_ n /\
  Notifier.current_ n + Z.of_nat k * Notifier.notifications_ n = m * Notifier.period_ n + Notifier.current_ n'.
Proof.
  revert n. induction k as [|k IH]; intros n Hn; cbn [count_ups]; [split_and!; [done|done|lia]|].
  pose proof (count_up_spec n Hn) as H1. destruct (Notifier.count_up n) as [b n1]. destruct H1 as (Hn1 & E1 & E2 & E3).
  specialize (IH n1 Hn1). destruct (count_ups k n1) as [m n2]. destruct IH as (Hn2 & E4 & E5).
  rewrite E1, E2 in *. split_and!; [done|congruence|]. lia.
Qed.

(** The local-first notifier fires with exactly the configured ratio: of any
    [k] consecutive calls it answers true in [(current + k*notifications) / period],
    so in exactly [notifications] of every [period] calls. *)
Theorem notifier_ratio n k :
  notifier_ok n ->
  fst (count_ups k n) = (Notifier.current_ n + Z.of_nat k * Notifier.notifications_ n) / Notifier.period_ n /\
  fst (count_ups (Z.to_nat (Notifier.period_ n)) n) = Notifier.notifications_ n.
Proof.
  intros Hn. assert (forall k, fst (count_ups k n) = (Notifier.current_ n + Z.of_nat k * Notifier.notifications_ n) / Notifier.period_ n) as H.
  { clear k. intros k. pose proof (count_ups_spec k n Hn) as Hk. destruct (count_ups k n) as [m n']. destruct Hk as ((_ & _ & Hc) & E & Eq).
    cbn. rewrite E in Hc. rewrite Eq. rewrite Z.div_add_l by (destruct Hn; lia). rewrite Z.div_small by lia. lia. }
  split; [apply H|]. rewrite H. destruct Hn as (Hn & Hp & Hc). rewrite Z2Nat.id by lia.
  rewrite (Z.mul_comm (Notifier.period_ n)), Z.div_add by lia. rewrite Z.div_small by lia. lia.
Qed.

Lemma notifier_ratio_witness :
  notifier_ok (Notifier.init 1 10) /\ fst (count_ups 10 (Notifier.init 1 10)) = 1.
Proof.
  assert (notifier_ok (Notifier.init 1 10)) as H by (unfold notifier_ok; cbn; lia).
  split; [exact H|]. exact (proj2 (notifier_ratio (Notifier.init 1 10) 0 H)).
Defined.

(** fields of an updated state, without unfolding the updates of lists *)
Ltac state_simpl :=
  cbn [queues_ sticky_task_queues_ initial_tasks_ contexts_ worker_stats_ started_ next_worker_index_before_modulo_
       executed with_queues with_sticky with_initial with_context with_stat log start stop fst snd].

(** * What is in the queues *)
Section Conservation.
Context {T Q : Type} `{ConcurrentQueueOk T Q}.
Variable sticky : T -> bool.
Variable cfg : task_scheduler_cfg.
Local Abbreviation state := (@state T Q).

Definition queued (l : list basic_queue) : list T := concat (map (fun q => contents (origin_ (Q := Q) q)) l).
Definition waiting (l : list Q) : list T := concat (map contents l).
(** tasks not yet executed *)
Definition tasks (s : state) : list T :=
  queued (queues_ s) ++ queued (sticky_task_queues_ s) ++ waiting (initial_tasks_ s).
Definition ran (s : state) : list T := map snd (executed s).

Lemma concat_insert_perm {A B} (f : A -> list B) l i x y r :
  l !! i = Some x -> f x ≡ₚ r ++ f y -> concat (map f l) ≡ₚ r ++ concat (map f (<[i := y]> l)).
Proof.
  revert i. induction l as [|z l IH]; intros [|i] Hx Hf; cbn in Hx; simplify_eq.
  - change (<[0%nat := y]> (x :: l)) with (y :: l). cbn. rewrite Hf. solve_Permutation.
  - change (<[S i := y]> (z :: l)) with (z :: <[i := y]> l). cbn. rewrite (IH i Hx Hf). solve_Permutation.
Qed.

Lemma queue_try_pop_spec (q : basic_queue (Q := Q)) :
  match queue_try_pop (T := T) q with
  | Some (t, q') => contents (origin_ q) = t :: contents (origin_ q') /\ active_ q' = active_ q
  | None => contents (origin_ q) = []
  end.
Proof.
  unfold queue_try_pop. pose proof (contents_try_pop (origin_ q)) as Hp. by destruct (q_try_pop (origin_ q)) as [[t o]|].
Qed.

Lemma execute_task_spec i t (s : state) : exists s',
  execute_task i t s = s' /\ queues_ s' = queues_ s /\ sticky_task_queues_ s' = sticky_task_queues_ s /\
  initial_tasks_ s' = initial_tasks_ s /\ started_ s' = started_ s /\ executed s' = executed s ++ [(i, t)] /\
  length (contexts_ s') = length (contexts_ s).
Proof.
  eexists. split; [done|]. unfold execute_task.
  destruct (contexts_ s !! i) as [c|]; [destruct (busy_working_ c)|]; cbn; rewrite ?length_alter; done.
Qed.

(** the effect of an attempt of worker [i]: it ran one task of a queue, or nothing *)
Definition attempt (i : nat) (s : state) (r : bool * state) : Prop :=
  started_ (snd r) = started_ s /\ initial_tasks_ (snd r) = initial_tasks_ s /\
  length (queues_ (snd r)) = length (queues_ s) /\ length (sticky_task_queues_ (snd r)) = length (sticky_task_queues_ s) /\
  length (contexts_ (snd r)) = length (contexts_ s) /\
  if fst r then exists t, executed (snd r) = executed s ++ [(i, t)] /\ tasks s ≡ₚ t :: tasks (snd r)
  else executed (snd r) = executed s /\ queues_ (snd r) = queues_ s /\ sticky_task_queues_ (snd r) = sticky_task_queues_ s.

Lemma attempt_nothing i s : attempt i s (false, s).
Proof. repeat split. Qed.

Lemma attempt_context i s r f : attempt i (with_context i f s) r -> attempt i s r.
Proof.
  intros (H1 & H2 & H3 & H4 & H5 & H6). cbn in *. rewrite length_alter in H5. split_and!; try done.
Qed.

Lemma attempt_after i s b s' f : attempt i s (b, s') -> attempt i s (b, with_context i f s').
Proof. intros (H1 & H2 & H3 & H4 & H5 & H6). cbn in *. split_and!; try done. cbn. by rewrite length_alter. Qed.
Lemma attempt_stat i s b s' f : attempt i s (b, s') -> attempt i s (b, with_stat i f s').
Proof. done. Qed.

(** taking a task from a local queue, resp. a sticky one *)
Lemma run_local i j (s : state) q t q' :
  queues_ s !! j = Some q -> contents (origin_ q) = t :: contents (origin_ q') ->
  attempt i s (true, execute_task i t (with_queues (<[j := q']> (queues_ s)) s)).
Proof.
  intros Hq Hc. destruct (execute_task_spec i t (with_queues (<[j := q']> (queues_ s)) s)) as (s' & -> & E1 & E2 & E3 & E4 & E5 & E6).
  unfold attempt. cbn in *. rewrite E1, E2, E3, E4, E5, E6, length_insert. split_and!; try done.
  exists t. split; [done|]. unfold tasks. rewrite E1, E2, E3. cbn. unfold queued at 1.
  rewrite (concat_insert_perm _ _ j q q' [t] Hq) by (by rewrite Hc). done.
Qed.
Lemma run_sticky i j (s : state) q t q' :
  sticky_task_queues_ s !! j = Some q -> contents (origin_ q) = t :: contents (origin_ q') ->
  attempt i s (true, execute_task i t (with_sticky (<[j := q']> (sticky_task_queues_ s)) s)).
Proof.
  intros Hq Hc. destruct (execute_task_spec i t (with_sticky (<[j := q']> (sticky_task_queues_ s)) s)) as (s' & -> & E1 & E2 & E3 & E4 & E5 & E6).
  unfold attempt. cbn in *. rewrite E1, E2, E3, E4, E5, E6, length_insert. split_and!; try done.
  exists t. split; [done|]. unfold tasks. rewrite E1, E2, E3. cbn. unfold queued at 2.
  rewrite (concat_insert_perm _ _ j q q' [t] Hq) by (by rewrite Hc). solve_Permutation.
Qed.
(** nothing to take from the queue *)
Definition drained (q : basic_queue (Q := Q)) : Prop := active_ q = false \/ contents (T := T) (origin_ q) = [].
Definition drained_at (l : list (basic_queue (Q := Q))) (i : nat) : Prop := forall q, l !! i = Some q -> drained q.

Lemma try_local_spec i (s : state) :
  attempt i s (try_local i s) /\ (fst (try_local i s) = false -> drained_at (queues_ s) i).
Proof.
  unfold try_local, drained_at. destruct (queues_ s !! i) as [q|] eqn:Eq; [|split; [apply attempt_nothing|done]].
  destruct (active_ q) eqn:Ea; [|split; [apply attempt_nothing|intros _ ? [= <-]; by left]].
  pose proof (queue_try_pop_spec q) as Hp. destruct (queue_try_pop q) as [[t q']|].
  - destruct Hp as [Hc _]. split; [by eapply run_local|done].
  - split; [apply attempt_nothing|]. intros _ ? [= <-]. by right.
Qed.
Lemma try_sticky_spec i (s : state) :
  attempt i s (try_sticky i s) /\ (fst (try_sticky i s) = false -> drained_at (sticky_task_queues_ s) i).
Proof.
  unfold try_sticky, drained_at. destruct (sticky_task_queues_ s !! i) as [q|] eqn:Eq; [|split; [apply attempt_nothing|done]].
  destruct (active_ q) eqn:Ea; [|split; [apply attempt_nothing|intros _ ? [= <-]; by left]].
  pose proof (queue_try_pop_spec q) as Hp. destruct (queue_try_pop q) as [[t q']|].
  - destruct Hp as [Hc _]. split; [by eapply attempt_stat, run_sticky|done].
  - split; [apply attempt_nothing|]. intros _ ? [= <-]. by right.
Qed.

(** two attempts, the second one made when the first found nothing *)
Lemma attempt_seq i (s : state) r (f : state -> bool * state) :
  attempt i s r -> (fst r = false -> attempt i (snd r) (f (snd r))) ->
  attempt i s (match r with (true, s1) => (true, s1) | (false, s1) => f s1 end).
Proof.
  destruct r as [[|] s1]; [done|]. intros (H1 & H2 & H3 & H4 & H5 & H6 & H7 & H8) Hf. cbn in *.
  specialize (Hf eq_refl). destruct (f s1) as [b s2]. destruct Hf as (F1 & F2 & F3 & F4 & F5 & F6). cbn in *.
  split_and!; cbn; try congruence. destruct b.
  - destruct F6 as (t & E & Ht). exists t. split; [congruence|]. rewrite <- Ht. unfold tasks. by rewrite H7, H8, H2.
  - destruct F6 as (E1 & E2 & E3). split_and!; congruence.
Qed.

Lemma try_both_spec i (s : state) :
  attempt i s (try_local_and_sticky i s) /\
  (fst (try_local_and_sticky i s) = false -> is_Some (contexts_ s !! i) ->
   drained_at (queues_ s) i /\ drained_at (sticky_task_queues_ s) i).
Proof.
  unfold try_local_and_sticky. destruct (contexts_ s !! i) as [c|]; [|split; [apply attempt_nothing|by intros _ [? ?]]].
  destruct (Notifier.count_up (local_first_notifier_ c)) as [lf n]. set (s0 := with_context i (set_notifier n) s).
  destruct lf.
  - pose proof (try_local_spec i s0) as [H1 H2]. split.
    + eapply attempt_context, attempt_seq; [exact H1|]. intros _. apply try_sticky_spec.
    + destruct (try_local i s0) as [[|] s1]; [done|]. intros Hf _. destruct H1 as (_ & _ & _ & _ & _ & _ & Hq & Hs).
      destruct (try_sticky_spec i s1) as [_ H3]. specialize (H3 Hf). cbn in Hs. rewrite Hs in H3. by split; [apply H2|].
  - pose proof (try_sticky_spec i s0) as [H1 H2]. split.
    + eapply attempt_context, attempt_seq; [exact H1|]. intros _. apply try_local_spec.
    + destruct (try_sticky i s0) as [[|] s1]; [done|]. intros Hf _. destruct H1 as (_ & _ & _ & _ & _ & _ & Hq & Hs).
      destruct (try_local_spec i s1) as [_ H3]. specialize (H3 Hf). cbn in Hq. rewrite Hq in H3. by split; [|apply H2].
Qed.

Lemma try_times_spec n i (s : state) : attempt i s (try_times n i s).
Proof.
  revert s. induction n as [|n IH]; intros s; cbn [try_times]; [apply attempt_nothing|].
  apply attempt_seq; [apply try_both_spec|]. intros _. apply IH.
Qed.

Lemma next_mod x n : (x < n)%nat -> next x n = ((x + 1) mod n)%nat.
Proof.
  intros Hx. unfold next. destruct (Nat.eqb_spec x (n - 1)) as [->|Hn].
  - replace (n - 1 + 1)%nat with n by lia. rewrite Nat.Div0.mod_same; done.
  - rewrite Nat.mod_small; lia.
Qed.

Lemma turn_ne a d n : (a < n -> 1 <= d < n -> (a + d) mod n <> a)%nat.
Proof.
  intros Ha Hd. destruct (decide (a + d < n)%nat) as [Hlt|Hge]; [rewrite Nat.mod_small; lia|].
  replace (a + d)%nat with (a + d - n + 1 * n)%nat by lia. rewrite Nat.Div0.mod_add, Nat.mod_small; lia.
Qed.

Lemma turn_reach b j n : (b < n -> j < n -> exists j', 0 <= j' < n /\ (b + j') mod n = j)%nat.
Proof.
  intros Hb Hj. destruct (decide (b <= j)%nat) as [Hle|Hgt].
  - exists (j - b)%nat. split; [lia|]. replace (b + (j - b))%nat with j by lia. by apply Nat.mod_small.
  - exists (j + n - b)%nat. split; [lia|]. replace (b + (j + n - b))%nat with (j + 1 * n)%nat by lia.
    rewrite Nat.Div0.mod_add. by apply Nat.mod_small.
Qed.

Lemma steal_loop_spec fuel i k st0 (s : state) :
  let n := length (queues_ s) in
  (st0 < n)%nat -> (k < n)%nat -> (n - k <= fuel)%nat ->
  let r := steal_loop fuel i ((st0 + k) mod n) st0 s in
  attempt i s r /\ (fst r = false -> forall j, (k <= j < n)%nat -> drained_at (queues_ s) ((st0 + j) mod n)).
Proof.
  intros n Hst. revert k. induction fuel as [|fuel IH]; intros k Hk Hf; [lia|]. cbn [steal_loop].
  assert (((st0 + k) mod n < n)%nat) as Hlt by (apply Nat.mod_upper_bound; lia).
  destruct (lookup_lt_is_Some_2 (queues_ s) ((st0 + k) mod n)) as [q Eq]; [done|]. fold n. rewrite Eq.
  rewrite next_mod by done. rewrite Nat.Div0.add_mod_idemp_l.
  match goal with |- context [if (?a =? ?b)%nat then ?x else ?y] => set (retry := if (a =? b)%nat then x else y) end.
  assert (drained q -> attempt i s retry /\ (fst retry = false -> forall j, (k <= j < n)%nat -> drained_at (queues_ s) ((st0 + j) mod n))) as Hretry.
  { intros Hd. subst retry. destruct (decide (S k = n)) as [Ek|Ek].
    - replace (st0 + k + 1)%nat with (st0 + 1 * n)%nat by lia. rewrite Nat.Div0.mod_add, Nat.mod_small by done. rewrite Nat.eqb_refl.
      split; [apply attempt_nothing|]. intros _ j Hj. assert (j = k) as -> by lia. intros q' Eq'. congruence.
    - assert ((st0 + k + 1) mod n <> st0)%nat as Hne
        by (replace (st0 + k + 1)%nat with (st0 + S k)%nat by lia; apply turn_ne; lia).
      rewrite (proj2 (Nat.eqb_neq _ _) Hne). replace (st0 + k + 1)%nat with (st0 + S k)%nat by lia.
      destruct (IH (S k) ltac:(lia) ltac:(lia)) as [Ha Hd']. split; [exact Ha|]. intros Hfalse j Hj.
      destruct (decide (j = k)) as [->|]; [intros q' Eq'; congruence|]. apply Hd'; [done|lia]. }
  destruct (active_ q) eqn:Ea; [|apply Hretry; by left].
  pose proof (queue_try_pop_spec q) as Hp. destruct (queue_try_pop q) as [[t q']|]; [|apply Hretry; by right].
  destruct Hp as [Hc _]. split; [|done]. eapply attempt_after.
  apply (attempt_context i s _ (last_steal_from ((st0 + k) mod n))), (attempt_context i _ _ (task_is_stolen true)).
  exact (run_local i _ (with_context i (task_is_stolen true) (with_context i (last_steal_from ((st0 + k) mod n)) s)) q t q' Eq Hc).
Qed.

(** attempts that find nothing only count the notifier up *)
Definition last_of (i : nat) (s : state) : option nat := last_steal_from_ <$> contexts_ s !! i.

Lemma last_of_notifier i n (s : state) : last_of i (with_context i (set_notifier n) s) = last_of i s.
Proof. unfold last_of. cbn. rewrite list_lookup_alter_eq. by destruct (contexts_ s !! i). Qed.

Lemma try_local_false i (s s' : state) : try_local i s = (false, s') -> s' = s.
Proof.
  unfold try_local. destruct (queues_ s !! i) as [q|]; [|by intros [= <-]].
  destruct (active_ q); [|by intros [= <-]]. destruct (queue_try_pop q) as [[t q']|]; [done|by intros [= <-]].
Qed.
Lemma try_sticky_false i (s s' : state) : try_sticky i s = (false, s') -> s' = s.
Proof.
  unfold try_sticky. destruct (sticky_task_queues_ s !! i) as [q|]; [|by intros [= <-]].
  destruct (active_ q); [|by intros [= <-]]. destruct (queue_try_pop q) as [[t q']|]; [done|by intros [= <-]].
Qed.
Lemma try_both_last i (s s' : state) : try_local_and_sticky i s = (false, s') -> last_of i s' = last_of i s.
Proof.
  unfold try_local_and_sticky. destruct (contexts_ s !! i) as [c|] eqn:Ec; [|by intros [= <-]].
  destruct (Notifier.count_up (local_first_notifier_ c)) as [[|] n]; intros E.
  - destruct (try_local i _) as [[|] s1] eqn:E1; [done|]. apply try_local_false in E1. subst s1.
    apply try_sticky_false in E. subst s'. apply last_of_notifier.
  - destruct (try_sticky i _) as [[|] s1] eqn:E1; [done|]. apply try_sticky_false in E1. subst s1.
    apply try_local_false in E. subst s'. apply last_of_notifier.
Qed.
Lemma try_times_last n i (s s' : state) : try_times n i s = (false, s') -> last_of i s' = last_of i s.
Proof.
  revert s. induction n as [|n IH]; intros s; cbn [try_times]; [by intros [= <-]|].
  destruct (try_local_and_sticky i s) as [[|] s1] eqn:E1; [done|]. intros E. rewrite (IH s1 E). by apply try_both_last.
Qed.

Lemma steal_spec i (s : state) l :
  last_of i s = Some l -> (l < length (queues_ s))%nat ->
  attempt i s (steal_and_execute i s) /\
  (fst (steal_and_execute i s) = false -> forall j, drained_at (queues_ s) j).
Proof.
  intros Hl Hlt. unfold last_of in Hl. apply fmap_Some in Hl as (c & Ec & ->). unfold steal_and_execute. rewrite Ec.
  set (n := length (queues_ s)) in *. set (st0 := next (last_steal_from_ c) n).
  assert (st0 < n)%nat as Hst by (unfold st0; rewrite next_mod by done; apply Nat.mod_upper_bound; lia).
  pose proof (steal_loop_spec n i 0 st0 s Hst ltac:(lia) ltac:(unfold n; lia)) as Hs. cbn zeta in Hs.
  fold n in Hs. rewrite Nat.add_0_r, (Nat.mod_small st0 n Hst) in Hs.
  destruct Hs as [Ha Hd]. split; [exact Ha|]. intros Hf j q Eq. pose proof (lookup_lt_Some _ _ _ Eq) as Hj. fold n in Hj.
  destruct (turn_reach st0 j n Hst Hj) as (j' & Hj' & Ej).
  specialize (Hd Hf j' Hj'). rewrite Ej in Hd. by apply Hd.
Qed.

(** One round of a worker, nobody interfering, runs exactly one task of its own
    queues or (when stealing is enabled) of any queue, and takes it out of there; it
    reports no work only when its own queues have nothing to take and, when stealing
    is enabled, no local queue of any worker has. *)
Theorem process_next_spec i l (s : state) :
  last_of i s = Some l -> (l < length (queues_ s))%nat ->
  attempt i s (process_next cfg i s) /\
  (fst (process_next cfg i s) = false ->
   drained_at (queues_ s) i /\ drained_at (sticky_task_queues_ s) i /\
   (stealing_enabled cfg = true -> forall j, drained_at (queues_ s) j)).
Proof.
  intros Hl Hlt. unfold process_next. destruct (try_both_spec i s) as [Ha Hd].
  destruct (try_local_and_sticky i s) as [[|] s1] eqn:E1; [by split|].
  pose proof Ha as (A1 & A2 & A3 & A4 & A5 & A6 & A7 & A8). cbn in A3, A4, A7, A8.
  apply try_both_last in E1 as L1. destruct (Hd eq_refl) as [D1 D2].
  { unfold last_of in Hl. by apply fmap_Some in Hl as (c & -> & _). }
  destruct (stealing_enabled cfg); [|by split].
  pose proof (try_times_spec (stealing_wait cfg * thread_count cfg) i s1) as Ht.
  destruct (try_times _ i s1) as [[|] s2] eqn:E2.
  { split; [|done]. by apply (attempt_seq i s (false, s1) (fun _ => (true, s2))). }
  assert (attempt i s (false, s2)) as Ha2 by (by apply (attempt_seq i s (false, s1) (fun _ => (false, s2)))).
  pose proof Ha2 as (B1 & B2 & B3 & B4 & B5 & B6 & B7 & B8). cbn in B3, B4, B7, B8.
  apply try_times_last in E2. rewrite L1, Hl in E2. destruct (steal_spec i s2 l E2) as [Hs Hsd]; [by rewrite B3|].
  rewrite B7 in Hsd.
  destruct (steal_and_execute i s2) as [b s3] eqn:E3.
  pose proof (attempt_seq i s (false, s2) (fun _ => (b, s3)) Ha2 (fun _ => Hs)) as Hall. cbn in Hall.
  destruct b; [by split|]. split; [done|]. intros _. split_and!; [done|done|]. intros _. by apply Hsd.
Qed.

(** ** Every task submitted is somewhere, once *)

Inductive action :=
| A_schedule_at (t : T) (i : nat)
| A_init (i : nat)
| A_start
| A_process (i : nat)
| A_stop.

(** the state, and which threads have run [init] *)
Definition exec (a : action) (st : state * list bool) : option (state * list bool) :=
  let '(s, ini) := st in
  match a with
  | A_schedule_at t i => if bool_decide (i < thread_count cfg)%nat then Some (schedule_at sticky t i s, ini) else None
  | A_init i => match ini !! i with Some false => Some (worker_init sticky i s, <[i := true]> ini) | _ => None end
  | A_start => if forallb id ini then Some (start s, ini) else None
  | A_process i => if started_ s then Some (snd (process_next cfg i s), ini) else None
  | A_stop => Some (stop s, ini)
  end.

Inductive reachable : state * list bool -> list T -> Prop :=
| reach_prepare : reachable (prepare cfg, replicate (thread_count cfg) false) []
| reach_exec st a st' sub : reachable st sub -> exec a st = Some st' ->
    reachable st' (match a with A_schedule_at t _ => sub ++ [t] | _ => sub end).

Record inv (st : state * list bool) (sub : list T) : Prop := {
  inv_queues : length (queues_ (fst st)) = thread_count cfg;
  inv_sticky : length (sticky_task_queues_ (fst st)) = thread_count cfg;
  inv_initial : length (initial_tasks_ (fst st)) = thread_count cfg;
  inv_init : length (snd st) = thread_count cfg;
  inv_fresh : forall i, snd st !! i = Some false ->
    started_ (fst st) = false /\
    (forall q, queues_ (fst st) !! i = Some q -> contents (T := T) (origin_ q) = []) /\
    (forall q, sticky_task_queues_ (fst st) !! i = Some q -> contents (T := T) (origin_ q) = []);
  inv_tasks : tasks (fst st) ++ ran (fst st) ≡ₚ sub
}.

Lemma concat_alter_push {A} (f : A -> list T) (g : A -> A) l i t :
  (i < length l)%nat -> (forall x, f (g x) ≡ₚ t :: f x) -> concat (map f (alter g i l)) ≡ₚ t :: concat (map f l).
Proof.
  revert i. induction l as [|x l IH]; intros [|i] Hi Hg; cbn in Hi; try lia.
  - change (alter g 0%nat (x :: l)) with (g x :: l). cbn. by rewrite Hg.
  - change (alter g (S i) (x :: l)) with (x :: alter g i l). cbn. rewrite IH by (done || lia). solve_Permutation.
Qed.

Lemma contents_push_perm (t : T) (q : Q) : contents (q_push t q) ≡ₚ t :: contents q.
Proof. rewrite contents_push. solve_Permutation. Qed.

Lemma schedule_at_tasks t i (s : state) :
  (i < length (queues_ s))%nat -> (i < length (sticky_task_queues_ s))%nat -> (i < length (initial_tasks_ s))%nat ->
  tasks (schedule_at sticky t i s) ≡ₚ t :: tasks s /\ executed (schedule_at sticky t i s) = executed s.
Proof.
  intros H1 H2 H3. unfold schedule_at, tasks. destruct (started_ s); cbn [negb]; [destruct (sticky t)|]; cbn; split; try done.
  - unfold queued at 2. rewrite (concat_alter_push _ _ _ i t H2) by (intros x; apply contents_push_perm). solve_Permutation.
  - unfold queued at 1. rewrite (concat_alter_push _ _ _ i t H1) by (intros x; apply contents_push_perm). solve_Permutation.
  - unfold waiting. rewrite (concat_alter_push _ _ _ i t H3) by (intros x; apply contents_push_perm). solve_Permutation.
Qed.

(** the parts [init] and [schedule_at] leave alone *)
Definition same_rest (s s' : state) : Prop :=
  length (queues_ s') = length (queues_ s) /\ length (sticky_task_queues_ s') = length (sticky_task_queues_ s) /\
  length (initial_tasks_ s') = length (initial_tasks_ s) /\ contexts_ s' = contexts_ s /\
  started_ s' = started_ s /\ executed s' = executed s.

Definition others_same (i : nat) (s s' : state) : Prop :=
  forall j, j <> i -> queues_ s' !! j = queues_ s !! j /\ sticky_task_queues_ s' !! j = sticky_task_queues_ s !! j.

Lemma drain_spec fuel i (s : state) :
  (i < length (queues_ s))%nat -> (i < length (sticky_task_queues_ s))%nat ->
  same_rest s (drain sticky fuel i s) /\ others_same i s (drain sticky fuel i s) /\ tasks (drain sticky fuel i s) ≡ₚ tasks s.
Proof.
  revert s. induction fuel as [|fuel IH]; intros s H1 H2; cbn [drain]; [by split_and!|].
  destruct (initial_tasks_ s !! i) as [l|] eqn:El; [|by split_and!].
  pose proof (contents_try_pop l) as Hp. destruct (q_try_pop l) as [[t l']|]; [|by split_and!].
  set (s1 := with_initial (<[i := l']> (initial_tasks_ s)) s).
  assert (waiting (initial_tasks_ s) ≡ₚ t :: waiting (initial_tasks_ s1)) as Hw
    by (apply (concat_insert_perm contents _ i l l' [t]); [done|by rewrite Hp]).
  set (s2 := if sticky t then _ else _).
  assert (same_rest s s2 /\ others_same i s s2 /\ tasks s2 ≡ₚ tasks s) as (Hr & Ho & Ht).
  { unfold s2. destruct (sticky t); unfold same_rest, others_same, tasks; cbn; rewrite ?length_alter, ?length_insert;
      (split_and!; [done|done|done|done|done|done| |]).
    - intros j Hj. by rewrite list_lookup_alter_ne.
    - unfold queued at 2. rewrite (concat_alter_push _ _ _ i t H2) by (intros x; apply contents_push_perm).
      unfold s1 in *. cbn in Hw. rewrite Hw. unfold queued. solve_Permutation.
    - intros j Hj. by rewrite list_lookup_alter_ne.
    - unfold queued at 1. rewrite (concat_alter_push _ _ _ i t H1) by (intros x; apply contents_push_perm).
      unfold s1 in *. cbn in Hw. rewrite Hw. unfold queued. solve_Permutation. }
  destruct Hr as (R1 & R2 & R3 & R4 & R5 & R6).
  destruct (IH s2) as ((Q1 & Q2 & Q3 & Q4 & Q5 & Q6) & Ho' & Ht'); [by rewrite R1|by rewrite R2|].
  split_and!; [split_and!; congruence| |by rewrite Ht'].
  intros j Hj. destruct (Ho j Hj) as [E1 E2], (Ho' j Hj) as [E3 E4]. split; congruence.
Qed.

Lemma reconstruct_queued l i :
  (forall q, l !! i = Some q -> contents (T := T) (origin_ q) = []) ->
  queued (alter queue_reconstruct i l) = queued l.
Proof.
  revert i. induction l as [|q l IH]; intros [|i] Hq; [done|done| |].
  - change (alter queue_reconstruct 0%nat (q :: l)) with (queue_reconstruct q :: l). unfold queued. cbn.
    by rewrite contents_empty, (Hq q).
  - change (alter queue_reconstruct (S i) (q :: l)) with (q :: alter queue_reconstruct i l). unfold queued in *. cbn.
    by rewrite IH.
Qed.

Lemma init_spec i (s : state) :
  (i < length (queues_ s))%nat -> (i < length (sticky_task_queues_ s))%nat ->
  (forall q, queues_ s !! i = Some q -> contents (T := T) (origin_ q) = []) ->
  (forall q, sticky_task_queues_ s !! i = Some q -> contents (T := T) (origin_ q) = []) ->
  same_rest s (worker_init sticky i s) /\ others_same i s (worker_init sticky i s) /\ tasks (worker_init sticky i s) ≡ₚ tasks s.
Proof.
  intros H1 H2 E1 E2. unfold worker_init. set (s1 := with_sticky _ _).
  assert (same_rest s s1 /\ others_same i s s1 /\ tasks s1 = tasks s) as ((R1 & R2 & R3 & R4 & R5 & R6) & Ho & Ht).
  { unfold same_rest, others_same, tasks, s1.
    state_simpl.
    rewrite !length_alter, !reconstruct_queued by done.
    split_and!; try done. intros j Hj. by rewrite !list_lookup_alter_ne. }
  destruct (drain_spec (match initial_tasks_ s1 !! i with Some l => length (contents l) | None => O end) i s1)
    as ((Q1 & Q2 & Q3 & Q4 & Q5 & Q6) & Ho' & Ht'); [by rewrite R1|by rewrite R2|].
  split_and!; [split_and!; congruence| |by rewrite Ht', Ht].
  intros j Hj. destruct (Ho j Hj) as [F1 F2], (Ho' j Hj) as [F3 F4]. split; congruence.
Qed.

Lemma steal_loop_attempt fuel i idx end_ (s : state) : attempt i s (steal_loop fuel i idx end_ s).
Proof.
  revert idx. induction fuel as [|fuel IH]; intros idx; cbn [steal_loop]; [apply attempt_nothing|].
  match goal with |- context [if (?a =? ?b)%nat then ?x else ?y] => set (retry := if (a =? b)%nat then x else y) end.
  assert (attempt i s retry) as Hr by (subst retry; destruct (_ =? _)%nat; [apply attempt_nothing|apply IH]).
  destruct (queues_ s !! idx) as [q|] eqn:Eq; [|apply attempt_nothing]. destruct (active_ q); [|done].
  pose proof (queue_try_pop_spec q) as Hp. destruct (queue_try_pop q) as [[t q']|]; [|done]. destruct Hp as [Hc _].
  eapply attempt_after. apply (attempt_context i s _ (last_steal_from idx)), (attempt_context i _ _ (task_is_stolen true)).
  exact (run_local i _ (with_context i (task_is_stolen true) (with_context i (last_steal_from idx) s)) q t q' Eq Hc).
Qed.

Lemma process_next_attempt i (s : state) : attempt i s (process_next cfg i s).
Proof.
  unfold process_next. apply attempt_seq; [apply try_both_spec|]. intros _.
  destruct (stealing_enabled cfg); [|apply attempt_nothing]. apply attempt_seq; [apply try_times_spec|]. intros _.
  set (s2 := snd _). assert (attempt i s2 (steal_and_execute i s2)) as Hs.
  { unfold steal_and_execute. destruct (contexts_ s2 !! i); [apply steal_loop_attempt|apply attempt_nothing]. }
  destruct (steal_and_execute i s2) as [[|] s3]; [by apply attempt_stat|done].
Qed.

Lemma queued_deactivate (l : list (basic_queue (Q := Q))) : queued (map queue_deactivate l) = queued l.
Proof. unfold queued. by rewrite map_map. Qed.

Lemma same_rest_inv s s' ini ini' sub sub' :
  inv (s, ini) sub -> same_rest s s' -> length ini' = length ini ->
  (forall i, ini' !! i = Some false -> ini !! i = Some false /\
     queues_ s' !! i = queues_ s !! i /\ sticky_task_queues_ s' !! i = sticky_task_queues_ s !! i) ->
  tasks s' ++ ran s ≡ₚ sub' -> inv (s', ini') sub'.
Proof.
  intros [H1 H2 H3 H4 H6 H7] (R1 & R2 & R3 & R4 & R5 & R6) Hl Hi Ht. cbn [fst snd] in *.
  split; cbn [fst snd]; try congruence.
  - intros i Ei. destruct (Hi i Ei) as (E1 & -> & ->). rewrite R5. by apply H6.
  - unfold ran in *. by rewrite R6.
Qed.

Lemma exec_inv a st st' sub : inv st sub -> exec a st = Some st' ->
  inv st' (match a with A_schedule_at t _ => sub ++ [t] | _ => sub end).
Proof.
  destruct st as [s ini]. intros Hi. pose proof Hi as [H1 H2 H3 H4 H6 H7]. cbn [fst snd] in *. destruct a as [t i|i| |i|]; cbn [exec].
  - case_bool_decide as Hlt; [|done]. intros [= <-].
    destruct (schedule_at_tasks t i s) as [Ht He]; [by rewrite H1|by rewrite H2|by rewrite H3|].
    eapply same_rest_inv; [exact Hi| |done| |].
    + unfold schedule_at, same_rest. destruct (started_ s) eqn:Est; cbn [negb]; [destruct (sticky t)|];
        state_simpl; rewrite ?length_alter; done.
    + intros j Ej. split; [done|]. destruct (H6 j Ej) as [Hst _]. unfold schedule_at. by rewrite Hst.
    + rewrite Ht, <- H7. solve_Permutation.
  - destruct (ini !! i) as [[|]|] eqn:Ei; [done| |done]. intros [= <-]. destruct (H6 i Ei) as (_ & Hq & Hs).
    pose proof (lookup_lt_Some _ _ _ Ei) as Hlt. rewrite H4 in Hlt.
    destruct (init_spec i s) as (Hr & Ho & Ht); [by rewrite H1|by rewrite H2|done|done|].
    eapply same_rest_inv; [exact Hi|done|by rewrite length_insert| |by rewrite Ht].
    intros j Ej. destruct (decide (j = i)) as [->|Hn]; [rewrite list_lookup_insert_eq in Ej by lia; done|].
    rewrite list_lookup_insert_ne in Ej by done. split; [done|]. by apply Ho.
  - destruct (forallb _ ini) eqn:Ef; [|done]. intros [= <-]. split; try done; cbn [fst snd]. intros i Ei.
    rewrite forallb_forall in Ef. specialize (Ef false). apply list_elem_of_lookup_2, list_elem_of_In in Ei. by apply Ef in Ei.
  - destruct (started_ s) eqn:Es; [|done]. intros [= <-]. destruct (process_next_attempt i s) as (A1 & A2 & A3 & A4 & A5 & A6).
    destruct (process_next cfg i s) as [b s']. cbn [fst snd] in *. split; cbn [fst snd]; try congruence.
    + intros j Ej. destruct (H6 j Ej). congruence.
    + rewrite <- H7. unfold ran. destruct b.
      * destruct A6 as (t & -> & ->). rewrite map_app. cbn. solve_Permutation.
      * destruct A6 as (-> & E1 & E2). unfold tasks. by rewrite E1, E2, A2.
  - intros [= <-]. split; state_simpl; try done; rewrite ?length_map; try done.
    + intros j Ej. destruct (H6 j Ej) as (Hst & Hq & Hs). split; [done|].
      split; intros q Eq; rewrite list_lookup_fmap in Eq; apply fmap_Some in Eq as (q0 & E0 & ->); cbn; eauto.
    + rewrite <- H7. unfold tasks, ran. state_simpl. by rewrite !queued_deactivate.
Qed.

Lemma prepare_inv : inv (prepare cfg, replicate (thread_count cfg) false) [].
Proof.
  assert (forall n, queued (replicate n (Queue (Q := Q) q_empty true)) = []) as Eq
    by (induction n as [|n IH]; [done|]; unfold queued in *; cbn; rewrite IH, contents_empty; done).
  assert (forall n, waiting (replicate n q_empty) = []) as Ew
    by (induction n as [|n IH]; [done|]; unfold waiting in *; cbn; rewrite IH, contents_empty; done).
  split; cbn [fst snd prepare queues_ sticky_task_queues_ initial_tasks_ started_]; rewrite ?length_replicate; try done.
  - intros i _. split; [done|]. split; intros q E; apply lookup_replicate in E as [-> _]; cbn; by rewrite contents_empty.
  - unfold tasks, ran, prepare. state_simpl. by rewrite !Eq, Ew.
Qed.

(** C31: whatever the order of submissions, thread initialisations, worker rounds,
    start and stop, the tasks executed and the tasks still held by the scheduler
    are together exactly the tasks submitted: none is dropped from the queues and
    none is run twice. *)
Theorem scheduler_conservation st sub :
  reachable st sub -> map snd (executed (fst st)) ++ tasks (fst st) ≡ₚ sub.
Proof.
  intros Hr. assert (inv st sub) as [_ _ _ _ _ Ht].
  { induction Hr; [apply prepare_inv|by eapply exec_inv]. }
  rewrite <- Ht. unfold ran. solve_Permutation.
Qed.

(** ** Tasks submitted before the start, but after the thread was initialised *)

Lemma init_other_initial i k (s : state) : k <> i -> initial_tasks_ (worker_init sticky i s) !! k = initial_tasks_ s !! k.
Proof.
  intros Hk. unfold worker_init. set (s1 := with_sticky _ _). change (initial_tasks_ s) with (initial_tasks_ s1).
  generalize (match initial_tasks_ s1 !! i with Some l => length (contents l) | None => O end). intros fuel.
  generalize s1. clear s1. induction fuel as [|fuel IH]; intros s1; cbn [drain]; [done|].
  destruct (initial_tasks_ s1 !! i) as [l|]; [|done]. destruct (q_try_pop l) as [[t l']|]; [|done].
  rewrite IH. destruct (sticky t); state_simpl; by rewrite list_lookup_insert_ne.
Qed.

Definition step (st st' : state * list bool) : Prop := exists a, exec a st = Some st'.
Definition held_back (i : nat) (t : T) (st : state * list bool) : Prop :=
  snd st !! i = Some true /\ exists l, initial_tasks_ (fst st) !! i = Some l /\ t ∈ contents l.

Lemma held_back_step i t st st' : held_back i t st -> step st st' -> held_back i t st'.
Proof.
  destruct st as [s ini]. intros [Hi (l & El & Ht)] [a Ha]. cbn [fst snd] in *. destruct a as [u j|j| |j|]; cbn [exec] in Ha.
  - case_bool_decide; [|done]. injection Ha as <-. split; [done|]. cbn [fst]. unfold schedule_at.
    destruct (started_ s); cbn [negb]; [destruct (sticky u); state_simpl; eauto|]. state_simpl.
    destruct (decide (i = j)) as [->|Hn]; [rewrite list_lookup_alter_eq, El|rewrite list_lookup_alter_ne by done; eauto].
    cbn. eexists. split; [done|]. rewrite contents_push. set_solver.
  - destruct (ini !! j) as [[|]|] eqn:Ej; [done| |done]. injection Ha as <-.
    assert (i <> j) as Hn by (intros ->; congruence).
    split; cbn [fst snd]; [by rewrite list_lookup_insert_ne|]. rewrite init_other_initial by done. eauto.
  - destruct (forallb _ ini); [|done]. injection Ha as <-. split; [done|]. eauto.
  - destruct (started_ s); [|done]. injection Ha as <-. split; [done|]. cbn [fst].
    destruct (process_next_attempt j s) as (_ & -> & _). eauto.
  - injection Ha as <-. split; [done|]. eauto.
Qed.

(** A task submitted before [start] for a worker whose thread has already run
    [init] is kept in the list of initial tasks for ever: nothing that happens
    later (start included) hands it to the worker. *)
Theorem late_initial_task_lost i t s ini st' :
  ini !! i = Some true -> started_ s = false -> is_Some (initial_tasks_ s !! i) ->
  rtc step (schedule_at sticky t i s, ini) st' ->
  exists l, initial_tasks_ (fst st') !! i = Some l /\ t ∈ contents l.
Proof.
  intros Hi Hs [l El] Hr.
  assert (held_back i t (schedule_at sticky t i s, ini)) as Hh.
  { split; [done|]. cbn [fst]. unfold schedule_at. rewrite Hs. cbn [negb]. state_simpl.
    rewrite list_lookup_alter_eq, El. cbn. eexists. split; [done|]. rewrite contents_push. set_solver. }
  assert (held_back i t st') as [_ ?]; [|done]. induction Hr as [|x y z Hxy _ IH]; [done|]. apply IH. by eapply held_back_step.
Qed.

(** ** Placement *)

Lemma find_suspended_spec fuel threads k base :
  let n := thread_count cfg in
  (base < n)%nat -> (k < n)%nat -> (n - k <= fuel)%nat ->
  let r := find_suspended cfg fuel threads ((base + k) mod n) base in
  (r < n)%nat /\
  ((exists j, (k <= j < n)%nat /\ threads !! ((base + j) mod n)%nat = Some false) -> threads !! r = Some false).
Proof.
  intros n Hb. revert k. induction fuel as [|fuel IH]; intros k Hk Hf; [lia|]. cbn [find_suspended].
  assert ((base + k) mod n < n)%nat as Hlt by (apply Nat.mod_upper_bound; lia). fold n.
  rewrite next_mod by done. rewrite Nat.Div0.add_mod_idemp_l.
  destruct (threads !! ((base + k) mod n)%nat) as [[|]|] eqn:Et; [| by split|].
  all: destruct (decide (S k = n)) as [Ek|Ek];
    [replace (base + k + 1)%nat with (base + 1 * n)%nat by lia; rewrite Nat.Div0.mod_add, Nat.mod_small by done;
     rewrite Nat.eqb_refl; split; [done|]; intros (j & Hj & Ej); assert (j = k) as -> by lia; congruence|].
  all: replace (base + k + 1)%nat with (base + S k)%nat by lia; rewrite (proj2 (Nat.eqb_neq _ _)) by (apply turn_ne; lia).
  all: destruct (IH (S k) ltac:(lia) ltac:(lia)) as [H1 H2]; split; [done|]; intros (j & Hj & Ej); apply H2; exists j;
    split; [|done]; destruct (decide (j = k)) as [->|]; [congruence|lia].
Qed.

(** [select_worker] always chooses an existing worker; with the policy
    [suspended_worker] it chooses one that is suspended whenever there is one. *)
Theorem select_worker_spec policy threads mine (s : state) :
  (0 < thread_count cfg)%nat -> length threads = thread_count cfg ->
  (forall i, mine = Some i -> (i < thread_count cfg)%nat) ->
  let '(i, mine', _) := select_worker cfg policy threads mine s in
  (i < thread_count cfg)%nat /\ (forall k, mine' = Some k -> (k < thread_count cfg)%nat) /\
  (policy = suspended_worker -> (exists j, threads !! j = Some false) -> threads !! i = Some false).
Proof.
  intros Hn Hl Hm. unfold select_worker.
  assert (forall x, (Z.to_nat (x mod Z.of_nat (thread_count cfg)) < thread_count cfg)%nat) as Hmod
    by (intros x; pose proof (Z.mod_pos_bound x (Z.of_nat (thread_count cfg))); lia).
  destruct (if use_preferred_worker_for_current_thread cfg then _ else _) as [[index m] s1] eqn:E.
  assert ((index < thread_count cfg)%nat /\ forall k, m = Some k -> (k < thread_count cfg)%nat) as [Hi Hk].
  { destruct (use_preferred_worker_for_current_thread cfg); cbn in E; [destruct mine as [i|]|]; cbn in E; injection E as <- <- _.
    - split; eauto.
    - split; [apply Hmod|]. intros k [= <-]. apply Hmod.
    - split; [apply Hmod|]. done. }
  destruct policy; [by split_and!|].
  assert (next index (thread_count cfg) < thread_count cfg)%nat as Hb by (rewrite next_mod by done; apply Nat.mod_upper_bound; lia).
  pose proof (find_suspended_spec (thread_count cfg) threads 0 _ Hb ltac:(lia) ltac:(lia)) as Hf. cbn zeta in Hf.
  rewrite Nat.add_0_r, (Nat.mod_small _ _ Hb) in Hf. destruct Hf as [H1 H2]. split_and!; [done|done|]. intros _ [j Ej]. apply H2.
  pose proof (lookup_lt_Some _ _ _ Ej) as Hj. rewrite Hl in Hj. set (b := next index (thread_count cfg)) in *.
  destruct (turn_reach b j _ Hb Hj) as (j' & Hj' & <-). by exists j'.
Qed.

Lemma find_suspended_none fuel threads k base :
  let n := thread_count cfg in
  (base < n)%nat -> (k < n)%nat -> (n - k <= fuel)%nat -> (forall j, threads !! j <> Some false) ->
  find_suspended cfg fuel threads ((base + k) mod n) base = base.
Proof.
  intros n Hb Hk Hf Hall. revert k Hk Hf. induction fuel as [|fuel IH]; intros k Hk Hf; [lia|]. cbn [find_suspended].
  assert ((base + k) mod n < n)%nat as Hlt by (apply Nat.mod_upper_bound; lia). fold n.
  rewrite next_mod by done. rewrite Nat.Div0.add_mod_idemp_l.
  assert (forall A (x y : A), match threads !! ((base + k) mod n)%nat with Some false => x | _ => y end = y) as ->
    by (intros A x y; specialize (Hall ((base + k) mod n)%nat); by destruct (threads !! _) as [[|]|]).
  destruct (decide (S k = n)) as [Ek|Ek].
  - replace (base + k + 1)%nat with (base + 1 * n)%nat by lia. rewrite Nat.Div0.mod_add, Nat.mod_small by done.
    by rewrite Nat.eqb_refl.
  - replace (base + k + 1)%nat with (base + S k)%nat by lia. rewrite (proj2 (Nat.eqb_neq _ _)) by (apply turn_ne; lia).
    apply IH; lia.
Qed.

(** When no worker is suspended, the policy [suspended_worker] does not fall
    back to the choice of the policy [undefined]: it takes the worker after it. *)
Theorem no_suspended_worker threads mine (s : state) :
  (0 < thread_count cfg)%nat -> (forall i, mine = Some i -> (i < thread_count cfg)%nat) ->
  (forall j, threads !! j <> Some false) ->
  fst (fst (select_worker cfg suspended_worker threads mine s)) =
    next (fst (fst (select_worker cfg undefined threads mine s))) (thread_count cfg).
Proof.
  intros Hn Hm Hall. unfold select_worker.
  destruct (if use_preferred_worker_for_current_thread cfg then _ else _) as [[index m] s1] eqn:E.
  assert (index < thread_count cfg)%nat as Hi.
  { destruct (use_preferred_worker_for_current_thread cfg); cbn in E; [destruct mine as [i|]|]; cbn in E; injection E as <- _ _;
      [by apply Hm|..]; pose proof (Z.mod_pos_bound (next_worker_index_before_modulo_ s) (Z.of_nat (thread_count cfg))); lia. }
  cbn [fst].
  assert (next index (thread_count cfg) < thread_count cfg)%nat as Hb by (rewrite next_mod by done; apply Nat.mod_upper_bound; lia).
  pose proof (find_suspended_none (thread_count cfg) threads 0 _ Hb ltac:(lia) ltac:(lia) Hall) as Hf.
  by rewrite Nat.add_0_r, (Nat.mod_small _ _ Hb) in Hf.
Qed.

(** ** Conditional tasks *)

Lemma cond_round_spec fuel (check : T -> bool) (q : Q) neg run :
  (length (contents q) < fuel)%nat ->
  let '(q', neg', run') := cond_round fuel check q neg run in
  contents q' = [] /\ neg' = neg ++ filter (fun t => check t = false) (contents q) /\
  run' = run ++ filter (fun t => check t = true) (contents q).
Proof.
  revert q neg run. induction fuel as [|fuel IH]; intros q neg run Hf; [lia|]. cbn [cond_round].
  pose proof (contents_try_pop q) as Hp. destruct (q_try_pop q) as [[t q1]|]; [|by rewrite Hp, !app_nil_r].
  rewrite Hp in Hf |- *. cbn [length] in Hf. rewrite !filter_cons. destruct (check t) eqn:Ec.
  - specialize (IH q1 neg (run ++ [t]) ltac:(lia)). destruct (cond_round fuel check q1 neg (run ++ [t])) as [[q' neg'] run'].
    destruct IH as (H1 & -> & ->). rewrite decide_False, decide_True by done. split_and!; [done|done|by rewrite <- app_assoc].
  - specialize (IH q1 (neg ++ [t]) run ltac:(lia)). destruct (cond_round fuel check q1 (neg ++ [t]) run) as [[q' neg'] run'].
    destruct IH as (H1 & -> & ->). rewrite decide_True, decide_False by done. split_and!; [done|by rewrite <- app_assoc|done].
Qed.

Lemma push_all (l : list T) (q : Q) : contents (fold_left (fun q t => q_push t q) l q) = contents q ++ l.
Proof.
  revert q. induction l as [|t l IH]; intros q; cbn [fold_left]; [by rewrite app_nil_r|].
  by rewrite IH, contents_push, <- app_assoc.
Qed.

(** A round of the conditional worker runs exactly the tasks whose condition
    holds, in the order of the queue, and keeps the others, in their order; it asks
    to be called again after the interval exactly when tasks are left. *)
Theorem cond_process_next_spec (check : T -> bool) (q : Q) :
  let '(again, q', run) := cond_process_next check q in
  run = filter (fun t => check t = true) (contents q) /\
  contents q' = filter (fun t => check t = false) (contents q) /\
  (again = true <-> contents q' <> []).
Proof.
  unfold cond_process_next. pose proof (cond_round_spec (S (length (contents q))) check q [] [] ltac:(lia)) as Hc.
  destruct (cond_round _ check q [] []) as [[q1 neg] run]. destruct Hc as (Hq & -> & ->). cbn [app].
  rewrite push_all, Hq. cbn [app]. split_and!; [done|done|]. destruct (filter _ _); split; done.
Qed.

End Conservation.

(** * Examples: two workers, tasks are numbers, the odd ones sticky *)
Module SchedulerDemo.
Definition cfg : task_scheduler_cfg := Cfg 2 true false (1, 10) 1 false 1000.
Definition s0 : state (T := nat) (Q := list nat) := prepare cfg.
Definition ready : state (T := nat) (Q := list nat) :=
  schedule_at Nat.odd 4%nat 1 (start (worker_init Nat.odd 1 (worker_init Nat.odd 0 s0))).

Lemma process_next_spec_witness :
  last_of 0 ready = Some 0%nat /\ (0 < length (queues_ ready))%nat /\
  fst (process_next cfg 0 ready) = true /\ attempt 0 ready (process_next cfg 0 ready).
Proof. split_and!; [done|cbn; lia|done|]. apply (process_next_spec cfg 0 0 ready); [done|cbn; lia]. Defined.

Definition late : state * list bool := (start (schedule_at Nat.odd 4%nat 0 (worker_init Nat.odd 1 (worker_init Nat.odd 0 s0))), [true; true]).
Lemma late_initial_task_lost_witness :
  fst (process_next cfg 0 (fst late)) = false /\
  exists l, initial_tasks_ (fst late) !! 0%nat = Some l /\ 4%nat ∈ contents l.
Proof.
  split; [done|].
  apply (late_initial_task_lost Nat.odd cfg 0 4%nat (worker_init Nat.odd 1 (worker_init Nat.odd 0 s0)) [true; true] late); [done|done|by eexists|].
  eapply rtc_l; [by exists A_start|apply rtc_refl].
Defined.

Lemma select_worker_spec_witness :
  let '(i, mine', _) := select_worker cfg suspended_worker [true; false] None ready in
  (i < thread_count cfg)%nat /\ (forall k, mine' = Some k -> (k < thread_count cfg)%nat) /\
  (suspended_worker = suspended_worker -> (exists j, [true; false] !! j = Some false) -> [true; false] !! i = Some false).
Proof. apply (select_worker_spec cfg suspended_worker [true; false] None ready); [cbn; lia|done|done]. Defined.

Definition finished : state * list bool :=
  (snd (process_next cfg 0 (start (worker_init Nat.odd 0 (worker_init Nat.odd 1 (schedule_at Nat.odd 3%nat 1 (schedule_at Nat.odd 4%nat 0 s0)))))),
   [true; true]).
Lemma scheduler_conservation_witness :
  reachable Nat.odd cfg finished [4%nat; 3%nat] /\ ran (fst finished) = [4%nat] /\
  map snd (executed (fst finished)) ++ tasks (fst finished) ≡ₚ [4%nat; 3%nat].
Proof.
  assert (reachable Nat.odd cfg finished [4%nat; 3%nat]) as Hr.
  { pose proof (reach_prepare (T := nat) (Q := list nat) Nat.odd cfg) as H0.
    pose proof (reach_exec _ _ _ (A_schedule_at 4%nat 0) _ _ H0 eq_refl) as H1.
    pose proof (reach_exec _ _ _ (A_schedule_at 3%nat 1) _ _ H1 eq_refl) as H2.
    pose proof (reach_exec _ _ _ (A_init 1) _ _ H2 eq_refl) as H3.
    pose proof (reach_exec _ _ _ (A_init 0) _ _ H3 eq_refl) as H4.
    pose proof (reach_exec _ _ _ A_start _ _ H4 eq_refl) as H5.
    exact (reach_exec _ _ _ (A_process 0) _ _ H5 eq_refl). }
  split; [exact Hr|]. split; [reflexivity|]. exact (scheduler_conservation Nat.odd cfg finished _ Hr).
Defined.
Lemma no_suspended_worker_witness :
  fst (fst (select_worker cfg undefined [true; true] None ready)) = 0%nat /\
  fst (fst (select_worker cfg suspended_worker [true; true] None ready)) =
    next (fst (fst (select_worker cfg undefined [true; true] None ready))) 2.
Proof.
  split; [reflexivity|]. apply (no_suspended_worker cfg [true; true] None ready); [cbn; lia|discriminate|].
  intros [|[|j]]; discriminate.
Defined.

Lemma cond_process_next_spec_witness :
  cond_process_next Nat.odd [3%nat; 4%nat; 5%nat] = (true, [4%nat], [3%nat; 5%nat]) /\
  [3%nat; 5%nat] = filter (fun t => Nat.odd t = true) (contents [3%nat; 4%nat; 5%nat]).
Proof. split; [reflexivity|]. exact (proj1 (cond_process_next_spec Nat.odd [3%nat; 4%nat; 5%nat])). Defined.
End SchedulerDemo.
