(* ===== verification/Wakeup.v ===== *)
(** Suspension and activation of a worker thread
    (include/tateyama/task_scheduler/impl/thread_control.h, with the loop of
    worker.h and the pushes of scheduler.h).

    One worker thread against everybody else: schedulers push a task and then call
    [activate], thieves take tasks, [stop] deactivates the queues and calls
    [activate] until the thread has ended, and [print_queue_diagnostic] takes the tasks out of
    the queues and puts them back, without [activate].  Every step is one critical section
    (under [sleep_cv_]) or one access to a queue. *)
From S2P Require Import Prelude.

Module Wakeup.

(** where the thread is: before its body, in a round of [process_next] (with the
    queues of its own it has already found without a task), about to call
    [suspend], waiting in it, or after the end *)
Inductive phase :=
| P_init
| P_wait_activation
| P_round (saw_local saw_sticky : bool)
| P_suspend
| P_blocked
| P_done.

(** a printing of the queues: the tasks in its [backup] queues, and (ghost) whether a task was
    put back since the thread last began a round *)
Record printing := Printing { backup_local : nat; backup_sticky : nat; put_back : bool }.
Definition looked (p : printing) : printing := Printing (backup_local p) (backup_sticky p) false.

Record t := Thread {
  activate_requested_ : bool;
  active_ : bool;
  initialized_ : bool;
  completed_ : bool;
  where_ : phase;
  local_ : nat;                (* tasks in the local queue *)
  sticky_ : nat;               (* tasks in the sticky queue *)
  queues_active_ : bool;
  activating_ : nat;           (* schedulers between their push and [activate] *)
  printing_ : printing
}.

Definition initial : t := Thread false false false false P_init 0 0 true 0 (Printing 0 0 false).

(** a round begins with neither queue looked at *)
Definition goto (p : phase) (s : t) : t :=
  Thread (activate_requested_ s) (active_ s) (initialized_ s) (completed_ s) p (local_ s) (sticky_ s)
    (queues_active_ s) (activating_ s) (match p with P_round false false => looked (printing_ s) | _ => printing_ s end).
Definition set_request (b : bool) (s : t) : t :=
  Thread b (active_ s) (initialized_ s) (completed_ s) (where_ s) (local_ s) (sticky_ s) (queues_active_ s) (activating_ s) (printing_ s).
Definition set_active (b : bool) (s : t) : t :=
  Thread (activate_requested_ s) b (initialized_ s) (completed_ s) (where_ s) (local_ s) (sticky_ s)
    (queues_active_ s) (activating_ s) (printing_ s).
Definition set_tasks (l st : nat) (s : t) : t :=
  Thread (activate_requested_ s) (active_ s) (initialized_ s) (completed_ s) (where_ s) l st (queues_active_ s) (activating_ s) (printing_ s).

(** [activate] *)
Definition activate (s : t) : t := if completed_ s then s else set_request true s.

(** the thread ends: [completed_ = true; active_ = false] *)
Definition complete (s : t) : t :=
  Thread (activate_requested_ s) false (initialized_ s) true P_done (local_ s) (sticky_ s) (queues_active_ s) (activating_ s) (printing_ s).

(** [suspend]: its first critical section, and what follows the wait *)
Definition suspend (s : t) : t :=
  if completed_ s then goto (P_round false false) s
  else if activate_requested_ s then goto (P_round false false) (set_request false s)
  else goto P_blocked (set_active false s).
Definition resume (s : t) : t := goto (P_round false false) (set_active true (set_request false s)).

Inductive label :=
(* the thread *)
| W_initialized | W_activated | W_take_local | W_take_sticky | W_miss_local | W_miss_sticky
| W_round_end (suspending : bool) | W_suspend | W_resume | W_timeout | W_exit
(* the others *)
| E_push_local | E_push_sticky | E_activate | E_steal | E_stop | E_stop_activate
(* print_queue_diagnostic, of the local and of the sticky queue *)
| D_pop (sticky : bool) | D_push (sticky : bool).

(** a task of the queue goes to the backup, and back *)
Definition print_pop (sticky : bool) (s : t) : option t :=
  let p := printing_ s in
  let set l st p := Thread (activate_requested_ s) (active_ s) (initialized_ s) (completed_ s) (where_ s) l st
                      (queues_active_ s) (activating_ s) p in
  if negb (initialized_ s) then None
  else if sticky then
    match sticky_ s with S n => Some (set (local_ s) n (Printing (backup_local p) (S (backup_sticky p)) (put_back p))) | O => None end
  else
    match local_ s with S n => Some (set n (sticky_ s) (Printing (S (backup_local p)) (backup_sticky p) (put_back p))) | O => None end.
Definition print_push (sticky : bool) (s : t) : option t :=
  let p := printing_ s in
  let set l st p := Thread (activate_requested_ s) (active_ s) (initialized_ s) (completed_ s) (where_ s) l st
                      (queues_active_ s) (activating_ s) p in
  if sticky then
    match backup_sticky p with S n => Some (set (local_ s) (S (sticky_ s)) (Printing (backup_local p) n true)) | O => None end
  else
    match backup_local p with S n => Some (set (S (local_ s)) (sticky_ s) (Printing n (backup_sticky p) true)) | O => None end.

Section Steps.
Variable busy_worker : bool.

Definition step (l : label) (s : t) : option t :=
  match l with
  | W_initialized =>
      match where_ s with
      | P_init => Some (Thread (activate_requested_ s) (active_ s) true (completed_ s) P_wait_activation (local_ s)
                          (sticky_ s) (queues_active_ s) (activating_ s) (printing_ s))
      | _ => None
      end
  | W_activated =>
      match where_ s with
      | P_wait_activation => if activate_requested_ s then Some (resume s) else None
      | _ => None
      end
  | W_take_local =>
      match where_ s with
      | P_round _ _ => if queues_active_ s && (0 <? local_ s)%nat
                       then Some (goto (P_round false false) (set_tasks (local_ s - 1) (sticky_ s) s)) else None
      | _ => None
      end
  | W_take_sticky =>
      match where_ s with
      | P_round _ _ => if queues_active_ s && (0 <? sticky_ s)%nat
                       then Some (goto (P_round false false) (set_tasks (local_ s) (sticky_ s - 1) s)) else None
      | _ => None
      end
  | W_miss_local =>
      match where_ s with
      | P_round false b => if negb (queues_active_ s) || (local_ s =? 0)%nat then Some (goto (P_round true b) s) else None
      | _ => None
      end
  | W_miss_sticky =>
      match where_ s with
      | P_round b false => if negb (queues_active_ s) || (sticky_ s =? 0)%nat then Some (goto (P_round b true) s) else None
      | _ => None
      end
  | W_round_end suspending =>
      match where_ s with
      | P_round true true =>
          if queues_active_ s
          then Some (goto (if negb busy_worker && suspending then P_suspend else P_round false false) s)
          else Some (complete s)
      | _ => None
      end
  | W_exit =>
      match where_ s with
      | P_round false false => if queues_active_ s then None else Some (complete s)
      | _ => None
      end
  | W_suspend => match where_ s with P_suspend => Some (suspend s) | _ => None end
  | W_resume => match where_ s with P_blocked => if activate_requested_ s then Some (resume s) else None | _ => None end
  | W_timeout => match where_ s with P_blocked => Some (resume s) | _ => None end
  | E_push_local =>
      Some (Thread (activate_requested_ s) (active_ s) (initialized_ s) (completed_ s) (where_ s) (S (local_ s)) (sticky_ s)
              (queues_active_ s) (if busy_worker then activating_ s else S (activating_ s)) (printing_ s))
  | E_push_sticky =>
      Some (Thread (activate_requested_ s) (active_ s) (initialized_ s) (completed_ s) (where_ s) (local_ s) (S (sticky_ s))
              (queues_active_ s) (if busy_worker then activating_ s else S (activating_ s)) (printing_ s))
  | E_activate =>
      match activating_ s with
      | O => None
      | S n => Some (activate (Thread (activate_requested_ s) (active_ s) (initialized_ s) (completed_ s) (where_ s)
                                 (local_ s) (sticky_ s) (queues_active_ s) n (printing_ s)))
      end
  | E_steal => if queues_active_ s && (0 <? local_ s)%nat then Some (set_tasks (local_ s - 1) (sticky_ s) s) else None
  | E_stop => Some (Thread (activate_requested_ s) (active_ s) (initialized_ s) (completed_ s) (where_ s) (local_ s) (sticky_ s)
                      false (activating_ s) (printing_ s))
  | E_stop_activate => if completed_ s then None else Some (activate s)
  | D_pop sticky => print_pop sticky s
  | D_push sticky => print_push sticky s
  end.

Inductive reachable : t -> Prop :=
| reach_initial : reachable initial
| reach_step s l s' : reachable s -> step l s = Some s' -> reachable s'.

(** a task that the thread, in this round, no longer looks for will be announced *)
Record inv (s : t) : Prop := {
  i_completed : completed_ s = true <-> where_ s = P_done;
  i_local : busy_worker = false -> (0 < local_ s)%nat ->
    match where_ s with P_round true _ | P_suspend | P_blocked => queues_active_ s = true | _ => False end ->
    activate_requested_ s = true \/ (0 < activating_ s)%nat \/ put_back (printing_ s) = true;
  i_sticky : busy_worker = false -> (0 < sticky_ s)%nat ->
    match where_ s with P_round _ true | P_suspend | P_blocked => queues_active_ s = true | _ => False end ->
    activate_requested_ s = true \/ (0 < activating_ s)%nat \/ put_back (printing_ s) = true;
  i_busy : busy_worker = true -> where_ s <> P_suspend /\ where_ s <> P_blocked;
  i_active : active_ s = true -> match where_ s with P_round _ _ | P_suspend => True | _ => False end
}.

Lemma wakeup_inv_step s l s' : inv s -> step l s = Some s' -> inv s'.
Proof.
  intros [Hc Hl Hs Hb Ha] E. destruct s as [rq ac ini co wh lo st qa av [bl bs pb]]; cbn in *.
  destruct l; cbn in E; unfold activate, suspend, resume, complete, print_pop, print_push, goto, looked in *; cbn in E;
    repeat match type of E with
    | context [match ?x with _ => _ end] => destruct x eqn:?; cbn in E; try done
    end; simplify_eq; cbn in *.
  all: try (split; cbn; intuition (try congruence; try lia); fail).
  all: repeat match goal with
    | H : _ || _ = true |- _ => apply orb_true_iff in H as [H|H]
    | H : _ && _ = true |- _ => apply andb_true_iff in H as [H ?]
    | H : negb _ = true |- _ => apply negb_true_iff in H
    | H : (_ =? _)%nat = true |- _ => apply Nat.eqb_eq in H
    end; subst.
  all: try (split; cbn; intuition (try congruence; try lia); fail).
  all: destruct wh as [| |[] []| | |]; cbn in *; split; cbn; intuition (try congruence; try lia).
  all: match goal with H : (0 < ?x)%nat -> _ |- _ => apply H; [lia|done] end.
Qed.

Lemma reachable_inv_thread s : reachable s -> inv s.
Proof.
  induction 1; [|by eapply wakeup_inv_step]. split; cbn; try done; try lia.
Qed.

(** C32: no wake-up is lost, but for tasks that a printing of diagnostics put back.  When the
    thread is waiting in [suspend] although one of its queues has a task (and the scheduler is
    not stopping), a scheduler is about to call [activate], or has done so and the thread is
    ready to resume; or [print_queue_diagnostic], which does not activate the worker, has put
    tasks back since the thread last began to look for them, and only the end of the time of
    its wait lets it go on. *)
Theorem no_lost_wakeup s :
  reachable s -> where_ s = P_blocked -> (0 < local_ s + sticky_ s)%nat -> queues_active_ s = true ->
  (0 < activating_ s)%nat \/ is_Some (step W_resume s) \/ (put_back (printing_ s) = true /\ is_Some (step W_timeout s)).
Proof.
  intros Hr Hw Ht Hq. destruct (reachable_inv_thread s Hr) as [_ Hl Hs Hb _]. rewrite Hw in *.
  destruct busy_worker; [by destruct (Hb eq_refl)|].
  assert (activate_requested_ s = true \/ (0 < activating_ s)%nat \/ put_back (printing_ s) = true) as [E|[?|E]]; [|right; left|by left|right; right].
  - destruct (decide (0 < local_ s)%nat); [by apply Hl|]. apply Hs; [done|lia|done].
  - unfold step. rewrite Hw, E. by eexists.
  - split; [done|]. unfold step. rewrite Hw. by eexists.
Qed.

(** steps the thread still takes once the queues are inactive *)
Definition rank (p : phase) : nat :=
  match p with
  | P_done => 0
  | P_round true true => 1
  | P_round false false => 3
  | P_round _ _ => 2
  | P_blocked | P_wait_activation => 4
  | P_suspend | P_init => 5
  end.
Definition is_thread (l : label) : bool :=
  match l with E_push_local | E_push_sticky | E_activate | E_steal | E_stop | E_stop_activate | D_pop _ | D_push _ => false | _ => true end.
Definition thread_labels : list label :=
  [W_initialized; W_activated; W_miss_local; W_miss_sticky; W_round_end true; W_suspend; W_resume; W_exit].

(** [stop] terminates.  Once the queues are inactive every step of the thread
    brings it closer to its end (at most five are left), nobody else takes it
    away from there, and after an [activate] of [stop] the thread can always move
    until it has completed. *)
Theorem stop_terminates s l s' :
  reachable s -> queues_active_ s = false -> step l s = Some s' ->
  queues_active_ s' = false /\ (rank (where_ s) <= 5)%nat /\
  (if is_thread l then (rank (where_ s') < rank (where_ s))%nat else where_ s' = where_ s) /\
  (l = E_stop_activate -> exists w, w ∈ thread_labels /\ is_Some (step w s')).
Proof.
  intros Hr Hq E. destruct (reachable_inv_thread s Hr) as [Hc _ _ _ _]. clear Hr.
  destruct s as [rq ac ini co wh lo st qa av [bl bs pb]]; cbn in *. subst qa. split_and!.
  - destruct l; cbn in E; unfold activate, suspend, resume, complete, print_pop, print_push, goto, looked in *; cbn in E;
      repeat match type of E with context [match ?x with _ => _ end] => destruct x; cbn in E; try done end; by simplify_eq.
  - destruct wh as [| |[] []| | |]; cbn; lia.
  - destruct l, wh as [| |[] []| | |]; cbn in E; try done; unfold activate, suspend, resume, complete, print_pop, print_push, goto, looked in *; cbn in E;
      repeat match type of E with context [match ?x with _ => _ end] => destruct x; cbn in E; try done end; simplify_eq; cbn; done || lia.
  - intros ->. cbn in E. destruct co; [done|]. cbn in E. simplify_eq.
    destruct wh as [| |[] []| | |]; cbn; unfold thread_labels.
    + exists W_initialized. split; [set_solver|by eexists].
    + exists W_activated. split; [set_solver|by eexists].
    + exists (W_round_end true). split; [set_solver|by eexists].
    + exists W_miss_sticky. split; [set_solver|by eexists].
    + exists W_miss_local. split; [set_solver|by eexists].
    + exists W_exit. split; [set_solver|by eexists].
    + exists W_suspend. split; [set_solver|by eexists].
    + exists W_resume. split; [set_solver|by eexists].
    + by destruct Hc as [_ Hc]; specialize (Hc eq_refl).
Qed.
End Steps.

Definition run (busy : bool) (ls : list label) (s : t) : option t :=
  fold_left (fun o l => match o with Some s => step busy l s | None => None end) ls (Some s).
Lemma run_reachable busy ls s s' : reachable busy s -> run busy ls s = Some s' -> reachable busy s'.
Proof.
  unfold run. revert s. induction ls as [|l ls IH]; intros s Hr; cbn [fold_left]; [by intros [= <-]|].
  destruct (step busy l s) as [s1|] eqn:E; [eapply IH, reach_step; eassumption|]. clear. by induction ls.
Qed.

Definition to_blocked : list label :=
  [W_initialized; E_stop_activate; W_activated; W_miss_sticky; E_push_sticky; W_miss_local; W_round_end true; W_suspend].

Lemma no_lost_wakeup_witness : exists s,
  reachable false s /\ where_ s = P_blocked /\ (0 < local_ s + sticky_ s)%nat /\ queues_active_ s = true /\
  put_back (printing_ s) = false /\ ((0 < activating_ s)%nat \/ is_Some (step false W_resume s)).
Proof.
  destruct (run false to_blocked initial) as [s|] eqn:E; [|by vm_compute in E].
  assert (reachable false s) as Hr by (eapply run_reachable; [apply reach_initial|exact E]).
  assert (where_ s = P_blocked /\ (0 < local_ s + sticky_ s)%nat /\ queues_active_ s = true) as (H1 & H2 & H3)
    by (vm_compute in E; injection E as <-; cbn; split_and!; (done || lia)).
  assert (put_back (printing_ s) = false) as H4 by (vm_compute in E; by injection E as <-).
  exists s. split_and!; [done..|]. destruct (no_lost_wakeup false s Hr H1 H2 H3) as [?|[?|[? _]]]; [by left|by right|congruence].
Defined.

Lemma stop_terminates_witness : exists s s',
  reachable false s /\ queues_active_ s = false /\ step false E_stop_activate s = Some s' /\
  exists w, w ∈ thread_labels /\ is_Some (step false w s').
Proof.
  destruct (run false (to_blocked ++ [E_stop]) initial) as [s|] eqn:E; [|by vm_compute in E].
  assert (reachable false s) as Hr by (eapply run_reachable; [apply reach_initial|exact E]).
  assert (queues_active_ s = false) as H1 by (vm_compute in E; by injection E as <-).
  destruct (step false E_stop_activate s) as [s'|] eqn:E'; [|vm_compute in E; by injection E as <-].
  exists s, s'. split_and!; [done..|]. by apply (stop_terminates false s E_stop_activate s').
Defined.

(** The printing of diagnostics takes the only task while the worker looks for one, and puts it
    back when the worker waits: nobody is about to activate it. *)
Lemma printing_strands_task : exists s,
  run false [W_initialized; E_stop_activate; W_activated; E_push_local; E_activate; D_pop false; W_miss_local; W_miss_sticky;
             W_round_end true; W_suspend; W_miss_local; W_miss_sticky; W_round_end true; W_suspend; D_push false] initial = Some s /\
  where_ s = P_blocked /\ local_ s = 1%nat /\ activating_ s = 0%nat /\ step false W_resume s = None.
Proof. eexists. split; [vm_compute; reflexivity|]. split_and!; vm_compute; reflexivity. Qed.

End Wakeup.
