(* ===== verification/Watcher.v ===== *)
(** The thread of the conditional worker
    (include/tateyama/task_scheduler/impl/conditional_worker.h, with
    [scheduler::schedule_conditional], [start] and [stop] of scheduler.h).

    One thread takes tasks from the queue of conditional tasks, asks each whether it may run,
    runs it or puts it aside, and puts the tasks set aside back into the queue.  It then
    suspends itself: for [watcher_interval] microseconds when tasks are left, else until it is
    activated.  Schedulers push a task and activate the thread; [print_queue_diagnostic] takes
    the tasks out of the queue and puts them back, while the thread goes on, without activating
    it.  The thread control is the one
    of Wakeup; a step is one access to the queue, one critical section of the thread control,
    or the execution of a task. *)
From S2P Require Import Prelude Wakeup.

Module Watcher.
Section Watcher.
Context {T : Type}.

(** where the thread is in [operator()] while the thread control says it is in its body: at the
    head of the loop, in the loop of [process_next] (with a task popped, with a task whose
    condition holds), putting tasks back, or after [process_next] and what it returned *)
Inductive position : Type :=
| Loop
| Popping
| Checking (x : T)
| Running (x : T)
| Returning
| Processed (r : bool).

Record t : Type := Make {
  thread : Wakeup.t;
  queue : list T;                 (* the tasks of [q_]; its [active] flag is in the thread control *)
  at_ : position;
  negatives : list T;
  interval : bool;                (* the thread suspended itself with [watcher_interval] *)
  run : list T;                   (* the tasks run *)
  accepted : list T;              (* the tasks pushed since [init] *)
  dropped : list T;               (* the tasks [reconstruct] dropped *)
  backup : list T;                (* the tasks a printing of diagnostics has taken out of the queue *)
  put_back : bool                 (* ghost: it put a task back since the thread last found the queue empty *)
}.

Definition initial : t := Make Wakeup.initial [] Loop [] false [] [] [] [] false.

Definition with_thread (th : Wakeup.t) (s : t) : t :=
  Make th (queue s) (at_ s) (negatives s) (interval s) (run s) (accepted s) (dropped s) (backup s) (put_back s).
Definition goto (p : position) (s : t) : t :=
  Make (thread s) (queue s) p (negatives s) (interval s) (run s) (accepted s) (dropped s) (backup s) (put_back s).
Definition with_queue (q : list T) (s : t) : t :=
  Make (thread s) q (at_ s) (negatives s) (interval s) (run s) (accepted s) (dropped s) (backup s) (put_back s).
Definition with_negatives (n : list T) (s : t) : t :=
  Make (thread s) (queue s) (at_ s) n (interval s) (run s) (accepted s) (dropped s) (backup s) (put_back s).

Definition active (s : t) : bool := Wakeup.queues_active_ (thread s).

(** [init] on the new thread: the queue is made anew; then the thread is initialized *)
Definition init (s : t) : t :=
  let th := thread s in
  Make (Wakeup.Thread (Wakeup.activate_requested_ th) (Wakeup.active_ th) true (Wakeup.completed_ th) Wakeup.P_wait_activation
          (Wakeup.local_ th) (Wakeup.sticky_ th) (Wakeup.queues_active_ th) (Wakeup.activating_ th) (Wakeup.printing_ th))
    [] (at_ s) (negatives s) (interval s) (run s) [] (dropped s ++ queue s) (backup s) (put_back s).

(** [schedule_conditional]: the push, then (by another step) the activation *)
Definition push (x : T) (s : t) : t :=
  let th := thread s in
  Make (Wakeup.Thread (Wakeup.activate_requested_ th) (Wakeup.active_ th) (Wakeup.initialized_ th) (Wakeup.completed_ th)
          (Wakeup.where_ th) (Wakeup.local_ th) (Wakeup.sticky_ th) (Wakeup.queues_active_ th) (S (Wakeup.activating_ th)) (Wakeup.printing_ th))
    (queue s ++ [x]) (at_ s) (negatives s) (interval s) (run s) (accepted s ++ [x]) (dropped s) (backup s) (put_back s).
Definition announce (s : t) : option t :=
  let th := thread s in
  match Wakeup.activating_ th with
  | O => None
  | S n => Some (with_thread (Wakeup.activate (Wakeup.Thread (Wakeup.activate_requested_ th) (Wakeup.active_ th)
             (Wakeup.initialized_ th) (Wakeup.completed_ th) (Wakeup.where_ th) (Wakeup.local_ th) (Wakeup.sticky_ th)
             (Wakeup.queues_active_ th) n (Wakeup.printing_ th))) s)
  end.

(** [print_queue_diagnostic], which returns at once before the scheduler is started: a task goes
    to the backup queue, and back *)
Definition with_printing (q b : list T) (put : bool) (s : t) : t :=
  Make (thread s) q (at_ s) (negatives s) (interval s) (run s) (accepted s) (dropped s) b put.
Definition print_pop (s : t) : option t :=
  if Wakeup.initialized_ (thread s)
  then match queue s with x :: q => Some (with_printing q (backup s ++ [x]) (put_back s) s) | [] => None end
  else None.
Definition print_push (s : t) : option t :=
  match backup s with x :: b => Some (with_printing (queue s ++ [x]) b true s) | [] => None end.

(** ** The body of the thread *)

Definition found_empty (s : t) : t := with_printing (queue s) (backup s) false s.

Definition finish (s : t) : t := goto Loop (with_thread (Wakeup.complete (thread s)) s).

Definition body_step (check : bool) (s : t) : t :=
  match at_ s with
  | Loop => if active s then goto Popping (with_negatives [] s) else finish s
  | Popping =>
      match queue s with
      | x :: q => goto (Checking x) (with_queue q s)
      | [] => match negatives s with [] => goto (Processed false) (found_empty s) | _ => goto Returning s end
      end
  | Checking x => if check then goto (Running x) s else goto Popping (with_negatives (negatives s ++ [x]) s)
  | Running x => Make (thread s) (queue s) Popping (negatives s) (interval s) (run s ++ [x]) (accepted s) (dropped s) (backup s) (put_back s)
  | Returning =>
      match negatives s with
      | x :: n => with_queue (queue s ++ [x]) (with_negatives n s)
      | [] => goto (Processed true) s
      end
  | Processed r =>
      if active s
      then Make (Wakeup.goto Wakeup.P_suspend (thread s)) (queue s) Loop (negatives s) r (run s) (accepted s) (dropped s) (backup s) (put_back s)
      else finish s
  end.

Inductive label : Type :=
(* the thread; [check] is what the condition of a task answers (false when it throws) *)
| W_initialized | W_activated | W_body (check : bool) | W_suspend | W_resume | W_timeout
(* the others *)
| E_push (x : T) | E_activate | E_start | E_stop | E_stop_activate
(* print_queue_diagnostic *)
| D_pop | D_push.

Definition step (l : label) (s : t) : option t :=
  let th := thread s in
  match l, Wakeup.where_ th with
  | W_initialized, Wakeup.P_init => Some (init s)
  | W_activated, Wakeup.P_wait_activation => if Wakeup.activate_requested_ th then Some (with_thread (Wakeup.resume th) s) else None
  | W_body check, Wakeup.P_round _ _ => Some (body_step check s)
  | W_suspend, Wakeup.P_suspend => Some (with_thread (Wakeup.suspend th) s)
  | W_resume, Wakeup.P_blocked => if Wakeup.activate_requested_ th then Some (with_thread (Wakeup.resume th) s) else None
  | W_timeout, Wakeup.P_blocked => Some (with_thread (Wakeup.resume th) s)
  | E_push x, _ => Some (push x s)
  | E_activate, _ => announce s
  | E_start, _ => if Wakeup.initialized_ th then Some (with_thread (Wakeup.activate th) s) else None
  | E_stop, _ => Some (with_thread (Wakeup.Thread (Wakeup.activate_requested_ th) (Wakeup.active_ th) (Wakeup.initialized_ th)
                   (Wakeup.completed_ th) (Wakeup.where_ th) (Wakeup.local_ th) (Wakeup.sticky_ th) false (Wakeup.activating_ th) (Wakeup.printing_ th)) s)
  | E_stop_activate, _ => if Wakeup.completed_ th then None else Some (with_thread (Wakeup.activate th) s)
  | D_pop, _ => print_pop s
  | D_push, _ => print_push s
  | _, _ => None
  end.

Inductive reachable : t -> Prop :=
| reach_initial : reachable initial
| reach_step s l s' : reachable s -> step l s = Some s' -> reachable s'.

(** * Conditional tasks are neither lost nor forgotten *)

(** the task popped *)
Definition in_hand (s : t) : list T := match at_ s with Checking x | Running x => [x] | _ => [] end.
Definition in_body (s : t) : Prop := match Wakeup.where_ (thread s) with Wakeup.P_round _ _ => True | _ => False end.

Record inv (s : t) : Prop := {
  i_tasks : accepted s ≡ₚ queue s ++ backup s ++ negatives s ++ in_hand s ++ run s;
  i_idle : ~ in_body s -> at_ s = Loop;
  i_negatives : match at_ s with Loop | Processed _ => negatives s = [] | _ => True end;
  i_completed : Wakeup.completed_ (thread s) = true <-> Wakeup.where_ (thread s) = Wakeup.P_done;
  i_start : match Wakeup.where_ (thread s) with Wakeup.P_init => run s = [] /\ backup s = [] /\ Wakeup.initialized_ (thread s) = false | _ => True end;
  (* nobody looks at the queue any more before the thread is activated *)
  i_announced :
    match at_ s, Wakeup.where_ (thread s) with
    | Processed false, _ => True
    | _, (Wakeup.P_suspend | Wakeup.P_blocked) => interval s = false
    | _, _ => False
    end -> queue s <> [] ->
    Wakeup.activate_requested_ (thread s) = true \/ (0 < Wakeup.activating_ (thread s))%nat \/ put_back s = true
}.

Ltac cases :=
  repeat match goal with
  | E : context [match ?x with _ => _ end] |- _ => destruct x eqn:?; cbn in E; try done
  end.

Lemma watcher_inv_body check s : inv s -> in_body s -> inv (body_step check s).
Proof.
  intros [Ht _ Hn Hc Hs Ha] Hb. unfold in_body in Hb. destruct s as [[rq ac ini co wh lo st qa av pg] q p n iv ru acc dr ba pb].
  unfold body_step, active, in_hand, in_body in *. cbn in *. destruct wh as [| |b1 b2| | |]; try done.
  destruct p as [| |x|x| |r]; cbn in *.
  - destruct qa; split; unfold in_body, in_hand; cbn; try done; try (by subst n); by intros.
  - destruct q as [|x q]; [destruct n as [|y n]|]; split; unfold in_body, in_hand; cbn; try done; try (by intros []).
    rewrite Ht. solve_Permutation.
  - destruct check; split; unfold in_body, in_hand; cbn; try done; try (by intros []). rewrite Ht. solve_Permutation.
  - split; unfold in_body, in_hand; cbn; try done; try (by intros []). rewrite Ht. solve_Permutation.
  - destruct n as [|x n]; split; unfold in_body, in_hand; cbn; try done; try (by intros []).
    rewrite Ht. solve_Permutation.
  - assert (co = false) as -> by (destruct co; naive_solver). destruct qa, r; split; unfold in_body, in_hand; cbn; naive_solver.
Qed.

(** steps of the thread control that leave the tasks alone *)
Lemma inv_thread s th :
  inv s -> at_ s = Loop -> (Wakeup.completed_ th = true <-> Wakeup.where_ th = Wakeup.P_done) ->
  Wakeup.where_ th <> Wakeup.P_init ->
  (match Wakeup.where_ th with Wakeup.P_suspend | Wakeup.P_blocked => interval s = false | _ => False end -> queue s <> [] ->
   Wakeup.activate_requested_ th = true \/ (0 < Wakeup.activating_ th)%nat \/ put_back s = true) ->
  inv (with_thread th s).
Proof.
  intros [Ht Hb Hn Hc Hs Ha] Hp Hc' Hs' Ha'. split; cbn; try done.
  - by destruct (Wakeup.where_ th).
  - by rewrite Hp.
Qed.

(** steps of the others *)
Definition announced (s : t) : Prop :=
  Wakeup.activate_requested_ (thread s) = true \/ (0 < Wakeup.activating_ (thread s))%nat \/ put_back s = true.
Lemma inv_env s th :
  inv s -> Wakeup.where_ th = Wakeup.where_ (thread s) -> Wakeup.completed_ th = Wakeup.completed_ (thread s) ->
  Wakeup.initialized_ th = Wakeup.initialized_ (thread s) ->
  (Wakeup.completed_ th = false -> announced s -> announced (with_thread th s)) -> inv (with_thread th s).
Proof.
  intros [Ht Hb Hn Hc Hs Ha] Hw Hco Hin Han. split; cbn; try done; unfold in_body; cbn; rewrite ?Hw, ?Hco, ?Hin; try done.
  intros H Hq. apply Han; [|by apply Ha]. rewrite Hco. destruct (Wakeup.completed_ (thread s)); [|done].
  assert (Wakeup.where_ (thread s) = Wakeup.P_done) as E by (by apply Hc). unfold in_body in Hb. rewrite E in H, Hb.
  rewrite Hb in H by tauto. done.
Qed.

Lemma inv_activate s th :
  inv s -> Wakeup.where_ th = Wakeup.where_ (thread s) -> Wakeup.completed_ th = Wakeup.completed_ (thread s) ->
  Wakeup.initialized_ th = Wakeup.initialized_ (thread s) ->
  inv (with_thread (Wakeup.activate th) s).
Proof.
  intros Hi Hw Hc Hin. assert (Wakeup.where_ (Wakeup.activate th) = Wakeup.where_ th /\
    Wakeup.initialized_ (Wakeup.activate th) = Wakeup.initialized_ th /\ Wakeup.completed_ (Wakeup.activate th) = Wakeup.completed_ th /\
    (Wakeup.completed_ th = false -> Wakeup.activate_requested_ (Wakeup.activate th) = true)) as (E1 & E0 & E2 & E3)
    by (unfold Wakeup.activate; destruct (Wakeup.completed_ th) eqn:E; by rewrite ?E).
  apply inv_env; [done|by rewrite E1|by rewrite E2|by rewrite E0|]. intros Hf _. left. cbn. apply E3. by rewrite <- E2.
Qed.

Lemma inv_push x s : inv s -> inv (push x s).
Proof.
  intros [Ht Hb Hn Hc Hs Ha]. split; cbn; try done.
  - rewrite Ht. solve_Permutation.
  - intros _ _. right. left. cbn. lia.
Qed.

Lemma inv_print_pop s s' : inv s -> print_pop s = Some s' -> inv s'.
Proof.
  intros [Ht Hb Hn Hc Hs Ha]. unfold print_pop. destruct (Wakeup.initialized_ (thread s)) eqn:Ei; [|done].
  destruct (queue s) as [|x q] eqn:Eq; [done|]. intros [= <-]. split; cbn; try done.
  - rewrite Ht. unfold in_hand. cbn. solve_Permutation.
  - destruct (Wakeup.where_ (thread s)); try done. destruct Hs as (_ & _ & Hs). congruence.
  - intros H _. by apply Ha.
Qed.
Lemma inv_print_push s s' : inv s -> print_push s = Some s' -> inv s'.
Proof.
  intros [Ht Hb Hn Hc Hs Ha]. unfold print_push. destruct (backup s) as [|x b] eqn:Eb; [done|]. intros [= <-]. split; cbn; try done; auto.
  - rewrite Ht. unfold in_hand. cbn. solve_Permutation.
  - destruct (Wakeup.where_ (thread s)); try done. by destruct Hs as (_ & Hs & _).
Qed.

Lemma inv_idle_loop s : inv s -> ~ in_body s -> at_ s = Loop /\ negatives s = [] /\ in_hand s = [].
Proof. intros [_ Hb Hn _ _ _] H. specialize (Hb H). unfold in_hand. rewrite Hb in *. done. Qed.

Lemma watcher_inv_step s l s' : inv s -> step l s = Some s' -> inv s'.
Proof.
  intros Hi. pose proof (inv_idle_loop s Hi) as Hl. unfold in_body in Hl. pose proof (i_completed _ Hi) as Hc.
  destruct l as [| |c| | | |x| | | | | |]; cbn [step].
  - destruct (Wakeup.where_ (thread s)) eqn:E; try done. intros [= <-]. destruct Hl as (Hp & Hn & _); [tauto|].
    pose proof (i_start _ Hi) as Hr. rewrite E in Hr. destruct Hr as (Hr & Hb & _).
    split; unfold in_body, in_hand; cbn; rewrite ?Hp, ?Hn, ?Hr, ?Hb; try done.
    split; [intros H; by apply Hc in H|done].
  - destruct (Wakeup.where_ (thread s)) eqn:E; try done. destruct (Wakeup.activate_requested_ _); [|done]. intros [= <-].
    destruct Hl as (Hp & _); [tauto|]. apply inv_thread; cbn; try done. by rewrite Hc.
  - destruct (Wakeup.where_ (thread s)) eqn:E; try done. intros [= <-]. apply watcher_inv_body; [done|]. unfold in_body. by rewrite E.
  - destruct (Wakeup.where_ (thread s)) eqn:E; try done. intros [= <-]. destruct Hl as (Hp & _); [tauto|].
    pose proof (i_announced _ Hi) as Ha. rewrite Hp, E in Ha. unfold Wakeup.suspend.
    destruct (Wakeup.completed_ (thread s)) eqn:Ec; [by destruct Hc as [Hc _]; specialize (Hc eq_refl)|].
    destruct (Wakeup.activate_requested_ (thread s)) eqn:Er; apply inv_thread; cbn; rewrite ?Ec, ?Er in *; try done.
  - destruct (Wakeup.where_ (thread s)) eqn:E; try done. destruct (Wakeup.activate_requested_ _); [|done]. intros [= <-].
    destruct Hl as (Hp & _); [tauto|]. apply inv_thread; cbn; try done. by rewrite Hc.
  - destruct (Wakeup.where_ (thread s)) eqn:E; try done. intros [= <-]. destruct Hl as (Hp & _); [tauto|].
    apply inv_thread; cbn; try done. by rewrite Hc.
  - intros [= <-]. by apply inv_push.
  - unfold announce. destruct (Wakeup.activating_ (thread s)) eqn:Ea; [done|]. intros [= <-].
    by apply inv_activate.
  - destruct (Wakeup.initialized_ _); [|done]. intros [= <-].
    by apply inv_activate.
  - intros [= <-]. by apply inv_env.
  - destruct (Wakeup.completed_ (thread s)) eqn:Ec; [done|]. intros [= <-].
    by apply inv_activate.
  - apply inv_print_pop, Hi.
  - apply inv_print_push, Hi.
Qed.

Lemma watcher_inv s : reachable s -> inv s.
Proof. induction 1; [|by eapply watcher_inv_step]. by split. Qed.

(** C33: conditional tasks are neither lost nor forgotten, but for those a printing of
    diagnostics puts back.  Every task scheduled since the thread was initialized is in the
    queue, in the backup queue of [print_queue_diagnostic], set aside, in the thread's hand, or
    was run, and in one of these places only; and whenever the thread waits without the interval
    although the queue has a task, it has been activated or a scheduler is about to activate
    it, unless a printing has put tasks back since the thread last found the queue empty: then
    only the end of the time of its wait lets it go on. *)
Theorem watcher_keeps_tasks s :
  reachable s ->
  accepted s ≡ₚ queue s ++ backup s ++ negatives s ++ in_hand s ++ run s /\
  (Wakeup.where_ (thread s) = Wakeup.P_blocked -> interval s = false -> queue s <> [] ->
   is_Some (step W_resume s) \/ (0 < Wakeup.activating_ (thread s))%nat \/ (put_back s = true /\ is_Some (step W_timeout s))).
Proof.
  intros Hr. pose proof (watcher_inv s Hr) as Hi. split; [apply Hi|]. intros Hw Hv Hq.
  destruct (inv_idle_loop s Hi) as (Hp & _); [unfold in_body; rewrite Hw; tauto|].
  destruct (i_announced _ Hi) as [E|[?|?]]; [by rewrite Hp, Hw|done|left|by right; left|right; right].
  - unfold step. rewrite Hw, E. by eexists.
  - split; [done|]. unfold step. rewrite Hw. by eexists.
Qed.

(** ** Stopping *)

(** steps left to the thread when the queue is not active and nobody pushes; tasks in the backup
    queue of a printing may come back *)
Definition rank (s : t) : nat :=
  match Wakeup.where_ (thread s) with
  | Wakeup.P_done => 0
  | Wakeup.P_round _ _ =>
      match at_ s with
      | Loop | Processed _ => 1
      | Returning => 2 + length (negatives s)
      | Popping => 3 + length (negatives s) + 4 * (length (queue s) + length (backup s))
      | Running _ => 4 + length (negatives s) + 4 * (length (queue s) + length (backup s))
      | Checking _ => 5 + length (negatives s) + 4 * (length (queue s) + length (backup s))
      end
  | Wakeup.P_blocked | Wakeup.P_wait_activation => 2
  | Wakeup.P_suspend | Wakeup.P_init => 3
  end.
Definition is_thread (l : label) : bool :=
  match l with W_initialized | W_activated | W_body _ | W_suspend | W_resume | W_timeout => true | _ => false end.

Lemma rank_body c s : in_body s -> active s = false -> (rank (body_step c s) < rank s)%nat.
Proof.
  destruct s as [[rq ac ini co wh lo st qa av pg] q p n iv ru acc dr ba pb]. unfold in_body, active, rank, body_step. cbn.
  destruct wh; try done. intros _ ->. destruct p as [| |x|x| |r]; cbn; try lia.
  - destruct q as [|x q]; [destruct n|]; cbn; lia.
  - destruct c; cbn; rewrite ?length_app; cbn; lia.
  - destruct n as [|x n]; cbn; lia.
Qed.

Lemma rank_thread s l s' :
  inv s -> active s = false -> is_thread l = true -> step l s = Some s' -> (rank s' < rank s)%nat.
Proof.
  intros Hi Hq El E. pose proof (inv_idle_loop s Hi) as Hl. unfold in_body in Hl.
  destruct l; try done; unfold step in E; destruct (Wakeup.where_ (thread s)) eqn:Ew; try done;
    try (destruct Hl as (Hp & _); [tauto|]);
    try (destruct (Wakeup.activate_requested_ (thread s)) eqn:Er; [|done]); injection E as <-;
    try (unfold rank; rewrite Ew; cbn; rewrite ?Hp; lia).
  - apply rank_body; [|done]. unfold in_body. by rewrite Ew.
  - unfold rank, Wakeup.suspend. rewrite Ew.
    destruct (Wakeup.completed_ (thread s)), (Wakeup.activate_requested_ (thread s)); cbn; rewrite ?Hp; lia.
Qed.

Lemma rank_other s l s' :
  is_thread l = false -> (forall x, l <> E_push x) -> step l s = Some s' -> rank s' = rank s.
Proof.
  intros El Hn E. destruct s as [[rq ac ini co wh lo st qa av pg] q p n iv ru acc dr ba pb].
  destruct l; try done; try (by destruct (Hn x)); unfold step, announce, print_pop, print_push in E; cbn in E;
    repeat match type of E with context [match ?x with _ => _ end] => destruct x; try done end; try done;
    injection E as <-; unfold rank, Wakeup.activate; cbn; try (by try destruct co);
    rewrite !length_app; cbn; destruct wh; try done; destruct p; lia.
Qed.

Lemma inactive_step l s s' : active s = false -> step l s = Some s' -> active s' = false.
Proof.
  destruct s as [[rq ac ini co wh lo st qa av pg] q p n iv ru acc dr ba pb]. unfold active. cbn. intros ->.
  destruct l, wh; cbn; try done; unfold body_step, announce, print_pop, print_push, Wakeup.activate, Wakeup.suspend, Wakeup.resume; cbn;
    intros E; repeat match type of E with context [match ?x with _ => _ end] => destruct x; cbn in E; try done end; by simplify_eq.
Qed.

(** Stopping the conditional worker terminates.  Once its queue is not active, every step
    of the thread reduces the number of steps it has left, no step of the others but a push of a
    further task increases it, and until the thread has completed it can take a step after an
    [activate] of [stop]. *)
Theorem watcher_stops s l s' :
  reachable s -> active s = false -> step l s = Some s' -> active s' = false /\
  (if is_thread l then (rank s' < rank s)%nat else (forall x, l <> E_push x) -> rank s' = rank s) /\
  (l = E_stop_activate -> exists w, is_thread w = true /\ is_Some (step w s')).
Proof.
  intros Hr Hq E. pose proof (watcher_inv s Hr) as Hi. split_and!; [by eapply inactive_step| |].
  - destruct (is_thread l) eqn:El; [by eapply rank_thread|]. intros Hn. by eapply rank_other.
  - intros ->. unfold step in E. destruct (Wakeup.completed_ (thread s)) eqn:Eco; [done|]. injection E as <-.
    unfold Wakeup.activate. rewrite Eco. unfold step. cbn. destruct (Wakeup.where_ (thread s)) eqn:Ew; cbn.
    + by exists W_initialized.
    + by exists W_activated.
    + by exists (W_body false).
    + by exists W_suspend.
    + by exists W_resume.
    + assert (Wakeup.completed_ (thread s) = true) by (by apply (i_completed _ Hi)). congruence.
Qed.

(** ** What the worker does not promise *)

(** the queue made anew by [init] drops what [schedule_conditional] pushed before *)
Theorem early_conditional_dropped x s :
  reachable s -> Wakeup.where_ (thread s) = Wakeup.P_init -> queue s = [x] ->
  exists s', step W_initialized s = Some s' /\ queue s' = [] /\ x ∈ dropped s' /\ x ∉ accepted s' ++ run s'.
Proof.
  intros Hr Hw Hq. pose proof (watcher_inv s Hr) as Hi. pose proof (i_start _ Hi) as Hs. rewrite Hw in Hs.
  destruct Hs as (Hs & _). unfold step. rewrite Hw. eexists. split; [done|]. cbn. rewrite Hq, Hs. split_and!; [done|set_solver|set_solver].
Qed.

(** in [process_next] with a task whose condition holds, after [stop] deactivated the queue *)
Definition stuck (x : T) (s : t) : Prop :=
  in_body s /\ at_ s = Popping /\ queue s = [x] /\ negatives s = [] /\ active s = false /\ reachable s.

Lemma stuck_again x s : stuck x s -> exists s', stuck x s' /\ length (run s') = S (length (run s)).
Proof.
  intros (Hb & Hp & Hq & Hn & Ha & Hr). unfold in_body in Hb. destruct (Wakeup.where_ (thread s)) eqn:Hw; try done.
  set (s1 := goto (Checking x) (with_queue [] s)). set (s2 := goto (Running x) s1). set (s3 := push x s2).
  set (s4 := Make (thread s3) (queue s3) Popping (negatives s3) (interval s3) (run s3 ++ [x]) (accepted s3) (dropped s3) (backup s3) (put_back s3)).
  assert (reachable s1) as R1.
  { apply (reach_step s (W_body true)); [done|]. unfold step, body_step. by rewrite Hw, Hp, Hq. }
  assert (reachable s2) as R2 by (apply (reach_step s1 (W_body true)); [done|]; unfold step; cbn; by rewrite Hw).
  assert (reachable s3) as R3 by (by apply (reach_step s2 (E_push x))).
  assert (reachable s4) as R4 by (apply (reach_step s3 (W_body true)); [done|]; unfold step, s4, s3, s2, s1; cbn; by rewrite Hw).
  exists s4. split; [|by unfold s4; cbn; rewrite length_app, Nat.add_1_r].
  unfold stuck, in_body. cbn. rewrite Hw. by split_and!.
Qed.

(** A task that schedules itself again while its condition holds keeps [process_next] in its
    loop, which does not look at [active]: for every [n], [stop] can wait until the task has run
    [n] more times, and is not done then. *)
Theorem rescheduling_blocks_stop x n s :
  stuck x s -> exists s', stuck x s' /\ length (run s') = (n + length (run s))%nat /\ Wakeup.completed_ (thread s') = false.
Proof.
  intros Hs. assert (forall s, stuck x s -> Wakeup.completed_ (thread s) = false) as Hc.
  { intros s0 (Hb & _ & _ & _ & _ & Hr). destruct (Wakeup.completed_ (thread s0)) eqn:E; [|done].
    apply (i_completed _ (watcher_inv s0 Hr)) in E. unfold in_body in Hb. by rewrite E in Hb. }
  induction n as [|n (s1 & H1 & E1 & _)]; [exists s; auto|].
  destruct (stuck_again x s1 H1) as (s2 & H2 & E2). exists s2. split_and!; [done|rewrite E2, E1; done|by apply Hc].
Qed.

(** ** Diagnostics *)

Fixpoint exec (ls : list label) (s : t) : option t :=
  match ls with [] => Some s | l :: ls => match step l s with Some s' => exec ls s' | None => None end end.
Lemma exec_app l1 l2 s : exec (l1 ++ l2) s = s' ← exec l1 s; exec l2 s'.
Proof. revert s. induction l1 as [|l l1 IH]; intros s; cbn [exec app]; [done|]. destruct (step l s); [apply IH|done]. Qed.
Lemma exec_reachable ls s s' : reachable s -> exec ls s = Some s' -> reachable s'.
Proof.
  revert s. induction ls as [|l ls IH]; intros s Hr; cbn [exec]; [by intros [= <-]|].
  destruct (step l s) as [s1|] eqn:E; [|done]. apply IH. by eapply reach_step.
Qed.

(** alone, a printing leaves the queue as it was *)
Lemma print_pops s q : queue s = q -> Wakeup.initialized_ (thread s) = true ->
  exec (replicate (length q) D_pop) s = Some (with_printing [] (backup s ++ q) (put_back s) s).
Proof.
  revert s. induction q as [|x q IH]; intros s Hq Hi; cbn [length replicate exec].
  - rewrite app_nil_r. destruct s; cbn in *; by subst.
  - unfold step, print_pop. rewrite Hi, Hq. rewrite IH by done. cbn. by rewrite <- app_assoc.
Qed.
Lemma print_pushes s b : backup s = b ->
  exec (replicate (length b) D_push) s = Some (with_printing (queue s ++ b) [] (match b with [] => put_back s | _ => true end) s).
Proof.
  revert s. induction b as [|x b IH]; intros s Hb; cbn [length replicate exec].
  - rewrite app_nil_r. destruct s; cbn in *; by subst.
  - unfold step, print_push. rewrite Hb, IH by done. cbn. rewrite <- app_assoc. by destruct b.
Qed.
Theorem diagnostics_alone s :
  Wakeup.initialized_ (thread s) = true -> backup s = [] ->
  exists put, exec (replicate (length (queue s)) D_pop ++ replicate (length (queue s)) D_push) s = Some (with_printing (queue s) [] put s).
Proof.
  intros Hi Hb. rewrite exec_app, (print_pops s (queue s)) by done. cbn [mbind option_bind]. rewrite Hb. cbn [app].
  rewrite (print_pushes _ (queue s)) by done. by eexists.
Qed.

(** a worker that looks into the queue while its tasks are in [backup] suspends itself without
    the interval, and nobody activates it when they are put back *)
Theorem diagnostics_strand_tasks x s :
  in_body s -> at_ s = Popping -> queue s = [x] -> backup s = [] -> negatives s = [] -> active s = true ->
  Wakeup.initialized_ (thread s) = true -> Wakeup.activate_requested_ (thread s) = false -> Wakeup.activating_ (thread s) = 0%nat ->
  Wakeup.completed_ (thread s) = false ->
  exists s', exec [D_pop; W_body true; W_body true; W_suspend; D_push] s = Some s' /\
    queue s' = [x] /\ Wakeup.where_ (thread s') = Wakeup.P_blocked /\ interval s' = false /\
    step W_resume s' = None /\ Wakeup.activating_ (thread s') = 0%nat /\ put_back s' = true.
Proof.
  destruct s as [[rq ac ini co wh lo st qa av pg] q p n iv ru acc dr ba pb]. unfold in_body, active. cbn.
  intros Hb -> -> -> -> -> -> -> -> ->. destruct wh; try done. eexists. split; [reflexivity|]. by split_and!.
Qed.

End Watcher.

(** Executions by computation. *)
(** the thread waits without a time limit when a task comes *)
Definition to_sleep : list (label (T := nat)) :=
  [W_initialized; E_start; W_activated; W_body true; W_body true; W_body true; W_suspend; E_push 7%nat].
Definition asleep : t := default initial (exec to_sleep initial).

Lemma asleep_reachable : reachable asleep.
Proof. refine (exec_reachable to_sleep initial asleep _ _); [constructor|vm_compute; reflexivity]. Qed.

Lemma watcher_keeps_tasks_witness :
  Wakeup.where_ (thread asleep) = Wakeup.P_blocked /\ queue asleep = [7%nat] /\
  (is_Some (step W_resume asleep) \/ (0 < Wakeup.activating_ (thread asleep))%nat).
Proof.
  split; [reflexivity|]. split; [reflexivity|].
  destruct (proj2 (watcher_keeps_tasks asleep asleep_reachable) eq_refl eq_refl ltac:(discriminate)) as [?|[?|[? _]]]; [by left|by right|].
  discriminate.
Defined.

Example diagnostics_strand_reachable :
  match exec [W_initialized; E_start; W_activated; E_push 7%nat; E_activate; W_body true; W_body true; W_body false; W_body true;
              W_body true; W_body true; W_body true; W_suspend; W_body true] initial with
  | Some s => in_body s /\ at_ s = Popping /\ queue s = [7%nat] /\ negatives s = [] /\ active s = true /\
      backup s = [] /\ Wakeup.initialized_ (thread s) = true /\ Wakeup.activate_requested_ (thread s) = false /\
      Wakeup.activating_ (thread s) = 0%nat /\ Wakeup.completed_ (thread s) = false
  | None => False
  end.
Proof. vm_compute. auto 10. Qed.

Definition stopping : t := default initial (exec (to_sleep ++ [E_activate; W_resume; E_stop]) initial).
Lemma stopping_reachable : reachable stopping.
Proof. refine (exec_reachable (to_sleep ++ [E_activate; W_resume; E_stop]) initial stopping _ _); [constructor|vm_compute; reflexivity]. Qed.

Lemma watcher_stops_witness : exists s', step (W_body true) stopping = Some s' /\ (rank s' < rank stopping)%nat.
Proof.
  eexists. split; [reflexivity|].
  exact (proj1 (proj2 (watcher_stops stopping (W_body true) _ stopping_reachable eq_refl eq_refl))).
Defined.

End Watcher.
