(* ===== verification/Base128.v ===== *)
(** Base-128 variable-length integers (mock/jogasaki/serializer/base128v.h, .cpp).

    A write into a buffer with [room] bytes left gives the bytes put there, or
    [None] when it returns false; a read consumes a list of bytes. *)
From S2P Require Import Prelude.

Module Base128.

Fixpoint size_loop (n : nat) (i value : Z) : Z :=
  match n with
  | O => 9
  | S n => if value <? Z.shiftl 1 (i * 7) then i else size_loop n (i + 1) value
  end.
Definition size_unsigned (value : Z) : Z := size_loop 8 1 value.

(** groups 1 to 8 hold 7 bits and a continue bit, the 9th holds 8 bits *)
Fixpoint write_groups (n : nat) (value room : Z) : option (list byte) :=
  if room =? 0 then None
  else match n with
       | O => Some [Z.land value 255]
       | S n =>
           let group := Z.land value 127 in
           let rest := Z.shiftr value 7 in
           if rest =? 0 then Some [group]
           else (fun l => Z.lor 128 group :: l) <$> write_groups n rest (room - 1)
       end.
Definition write_unsigned (value room : Z) : option (list byte) := write_groups 8 value room.

Fixpoint read_groups (n : nat) (i result : Z) (bs : list byte) : option (Z * list byte) :=
  match bs with
  | [] => None
  | group :: bs =>
      match n with
      | O => if group =? 0 then None else Some (Z.lor result (Z.shiftl (Z.land group 255) 56), bs)
      | S n =>
          if (group =? 0) && negb (i =? 0) then None
          else
            let result := Z.lor result (Z.shiftl (Z.land group 127) (i * 7)) in
            if Z.land group 128 =? 0 then Some (Z.lor result (Z.shiftl (Z.land group 127) (i * 7)), bs)
            else read_groups n (i + 1) result bs
      end
  end.
Definition read_unsigned (bs : list byte) : option (Z * list byte) := read_groups 8 0 0 bs.

(** [~x] on 64 bits; [int64_t] from its bits *)
Definition not64 (x : Z) : Z := 2 ^ 64 - 1 - x.
Definition as_int64 (x : Z) : Z := if x <? 2 ^ 63 then x else x - 2 ^ 64.

Definition encode_signed (value : Z) : Z :=
  let work := u64 (Z.shiftl (u64 value) 1) in if value <? 0 then not64 work else work.
Definition decode_signed (encoded : Z) : Z :=
  let work := Z.shiftr encoded 1 in as_int64 (if negb (Z.land encoded 1 =? 0) then not64 work else work).

Definition size_signed (value : Z) : Z := size_unsigned (encode_signed value).
Definition write_signed (value room : Z) : option (list byte) := write_unsigned (encode_signed value) room.
Definition read_signed (bs : list byte) : option (Z * list byte) :=
  (fun r => (decode_signed (fst r), snd r)) <$> read_unsigned bs.

(** * Lemmas *)

Lemma lor_add r x k : 0 <= r < 2 ^ k -> 0 <= x -> 0 <= k -> Z.lor r (Z.shiftl x k) = r + x * 2 ^ k.
Proof.
  intros Hr Hx Hk. rewrite Z.shiftl_mul_pow2 by done.
  assert (Z.land r (x * 2 ^ k) = 0) as Hl.
  { apply Z.bits_inj'. intros j Hj. rewrite Z.land_spec, Z.bits_0, <- Z.shiftl_mul_pow2 by done.
    destruct (decide (j < k)) as [Hjk|Hjk].
    - rewrite (Z.shiftl_spec_low x k j Hjk). apply andb_false_r.
    - replace (Z.testbit r j) with false; [done|]. symmetry. destruct (decide (r = 0)) as [->|]; [apply Z.bits_0|].
      apply Z.bits_above_log2; [lia|]. assert (Z.log2 r < k) by (apply Z.log2_lt_pow2; lia). lia. }
  pose proof (Z.add_lor_land r (x * 2 ^ k)). lia.
Qed.

Lemma lor_again r x : Z.lor (Z.lor r x) x = Z.lor r x.
Proof. by rewrite <- Z.lor_assoc, Z.lor_diag. Qed.

Lemma land_127 x : Z.land x 127 = x mod 128.
Proof. change 127 with (Z.ones 7). by rewrite Z.land_ones. Qed.
Lemma land_255 x : Z.land x 255 = x mod 256.
Proof. change 255 with (Z.ones 8). by rewrite Z.land_ones. Qed.
Lemma shiftr_7 x : Z.shiftr x 7 = x / 128.
Proof. by rewrite Z.shiftr_div_pow2. Qed.

Lemma low_group g : 0 <= g < 128 -> Z.land g 128 = 0 /\ Z.land g 127 = g.
Proof.
  intros Hg. split; [|rewrite land_127; by apply Z.mod_small]. change 128 with (Z.shiftl 1 7).
  pose proof (lor_add g 1 7 ltac:(lia) ltac:(lia) ltac:(lia)). pose proof (Z.add_lor_land g (Z.shiftl 1 7)).
  rewrite Z.shiftl_mul_pow2 in * by done. lia.
Qed.
Lemma high_group g : 0 <= g < 128 ->
  Z.lor 128 g = g + 128 /\ Z.land (g + 128) 127 = g /\ Z.land (g + 128) 128 <> 0.
Proof.
  intros Hg. split_and!.
  - rewrite Z.lor_comm. change 128 with (Z.shiftl 1 7) at 1. by rewrite lor_add by lia.
  - rewrite land_127. replace (g + 128) with (g + 1 * 128) by lia. rewrite Z_mod_plus_full. by apply Z.mod_small.
  - intros E. assert (Z.testbit (Z.land (g + 128) 128) 7 = true) as Hb; [|by rewrite E in Hb].
    rewrite Z.land_spec. change (Z.testbit 128 7) with true. rewrite andb_true_r.
    apply Z.testbit_true; [done|]. replace (g + 128) with (g + 1 * 2 ^ 7) by lia.
    rewrite Z.div_add by done. rewrite Z.div_small by lia. done.
Qed.

(** bits the remaining groups can hold *)
Definition bits (n : nat) : Z := 8 + 7 * Z.of_nat n.

Lemma read_write_groups n i w r room l rest :
  write_groups n w room = Some l -> i = 8 - Z.of_nat n -> (n <= 8)%nat -> 0 <= w < 2 ^ bits n ->
  0 <= r < 2 ^ (i * 7) -> (i = 0 \/ w <> 0) ->
  read_groups n i r (l ++ rest) = Some (r + w * 2 ^ (i * 7), rest).
Proof.
  intros Hw Hi Hn. revert i w r room l Hw Hi. induction n as [|n IH]; intros i w r room l Hw Hi Hb Hr Hz; cbn in Hw;
    destruct (room =? 0); try done.
  - injection Hw as <-. assert (i = 8) as -> by lia. change (2 ^ bits 0) with 256 in Hb.
    rewrite land_255, Z.mod_small by done. cbn [app read_groups].
    replace (w =? 0) with false by lia. rewrite land_255, Z.mod_small, lor_add by lia. done.
  - rewrite land_127, shiftr_7 in Hw. pose proof (Z.mod_pos_bound w 128 ltac:(lia)) as Hg.
    pose proof (Z.div_mod w 128 ltac:(lia)) as Hdm. assert (0 <= i * 7) by lia.
    destruct (Z.eqb_spec (w / 128) 0) as [Hd|Hd].
    + injection Hw as <-. destruct (low_group (w mod 128) Hg) as [Hg1 Hg2]. cbn [app read_groups].
      replace ((w mod 128 =? 0) && negb (i =? 0)) with false by lia.
      rewrite Hg1, Hg2, lor_again, lor_add by lia. cbn. do 2 f_equal. lia.
    + apply fmap_Some in Hw as (l' & Hw & ->). destruct (high_group (w mod 128) Hg) as (Hg1 & Hg2 & Hg3). rewrite Hg1.
      cbn [app read_groups]. replace (w mod 128 + 128 =? 0) with false by lia. cbn [andb].
      rewrite Hg2. replace (Z.land (w mod 128 + 128) 128 =? 0) with false by lia. rewrite lor_add by lia.
      assert (0 <= w / 128 < 2 ^ bits n) as Hb'.
      { split; [apply Z.div_pos; lia|]. apply Z.div_lt_upper_bound; [lia|].
        replace (128 * 2 ^ bits n) with (2 ^ bits (S n)); [lia|]. unfold bits.
        replace (8 + 7 * Z.of_nat (S n)) with (7 + (8 + 7 * Z.of_nat n)) by lia. by rewrite Z.pow_add_r by lia. }
      assert (2 ^ ((i + 1) * 7) = 2 ^ (i * 7) * 128) as Hp
        by (replace ((i + 1) * 7) with (i * 7 + 7) by lia; by rewrite Z.pow_add_r by lia).
      rewrite (IH ltac:(lia) (i + 1) (w / 128) (r + w mod 128 * 2 ^ (i * 7)) (room - 1) l' Hw);
        [|lia|done|rewrite Hp; nia|by right]. rewrite Hp. do 2 f_equal. nia.
Qed.

Lemma size_loop_range n i v : (n <= 8)%nat -> i = 9 - Z.of_nat n -> i <= size_loop n i v <= 9.
Proof.
  revert i. induction n as [|n IH]; intros i Hn Hi; cbn [size_loop]; [lia|].
  destruct (v <? _); [lia|]. specialize (IH (i + 1) ltac:(lia) ltac:(lia)). lia.
Qed.

Lemma write_groups_size n i v room :
  i = 9 - Z.of_nat n -> (n <= 8)%nat -> 0 <= v -> 0 <= room ->
  match write_groups n (v / 2 ^ ((i - 1) * 7)) room with
  | Some l => zlen l = size_loop n i v - i + 1 /\ zlen l <= room
  | None => room < size_loop n i v - i + 1
  end.
Proof.
  revert i room. induction n as [|n IH]; intros i room Hi Hn Hv Hr; cbn [write_groups size_loop].
  - assert (i = 9) as -> by lia. destruct (Z.eqb_spec room 0); [lia|]. change (zlen [_]) with 1. lia.
  - rewrite shiftr_7. rewrite Z.shiftl_mul_pow2, Z.mul_1_l by lia.
    assert (0 < 2 ^ ((i - 1) * 7)) as Hpos by (apply Z.pow_pos_nonneg; lia).
    assert (v / 2 ^ ((i - 1) * 7) / 128 = v / 2 ^ (i * 7)) as ->.
    { rewrite Z.div_div by lia. f_equal. replace (i * 7) with ((i - 1) * 7 + 7) by lia. by rewrite Z.pow_add_r by lia. }
    assert (0 < 2 ^ (i * 7)) as Hpos' by (apply Z.pow_pos_nonneg; lia).
    assert ((v <? 2 ^ (i * 7)) = (v / 2 ^ (i * 7) =? 0)) as ->.
    { destruct (Z.eqb_spec (v / 2 ^ (i * 7)) 0) as [E|E]; [apply Z.ltb_lt|apply Z.ltb_ge].
      - apply Z.div_small_iff in E; lia.
      - destruct (decide (v < 2 ^ (i * 7))); [|lia]. by rewrite Z.div_small in E by lia. }
    specialize (IH (i + 1) (room - 1) ltac:(lia) ltac:(lia) Hv). replace (i + 1 - 1) with i in IH by lia.
    pose proof (size_loop_range n (i + 1) v ltac:(lia) ltac:(lia)).
    destruct (Z.eqb_spec room 0) as [->|Hr0]; [destruct (_ =? 0); lia|].
    destruct (Z.eqb_spec (v / 2 ^ (i * 7)) 0) as [Hd|Hd]; [change (zlen [_]) with 1; lia|].
    specialize (IH ltac:(lia)). destruct (write_groups n _ (room - 1)) as [l|]; cbn [fmap option_fmap option_map]; [|lia].
    rewrite zlen_cons. lia.
Qed.

Lemma write_unsigned_size v room : 0 <= v -> 0 <= room ->
  match write_unsigned v room with
  | Some l => zlen l = size_unsigned v /\ size_unsigned v <= room
  | None => room < size_unsigned v
  end.
Proof.
  intros Hv Hr. pose proof (write_groups_size 8 1 v room ltac:(lia) ltac:(lia) Hv Hr) as H.
  change (2 ^ ((1 - 1) * 7)) with 1 in H. rewrite Z.div_1_r in H. unfold write_unsigned, size_unsigned.
  destruct (write_groups 8 v room); lia.
Qed.

Lemma read_write_unsigned v room l rest :
  in_range 64 v -> write_unsigned v room = Some l -> read_unsigned (l ++ rest) = Some (v, rest).
Proof.
  intros Hv Hw. unfold read_unsigned. erewrite read_write_groups; [|exact Hw|lia|lia|exact Hv|cbn; lia|by left].
  change (2 ^ (0 * 7)) with 1. do 2 f_equal. lia.
Qed.

Lemma size_unsigned_range v : 1 <= size_unsigned v <= 9.
Proof. unfold size_unsigned. apply (size_loop_range 8 1 v); lia. Qed.

Lemma encode_signed_spec v : - 2 ^ 63 <= v < 2 ^ 63 -> encode_signed v = if v <? 0 then - 2 * v - 1 else 2 * v.
Proof.
  intros Hv. unfold encode_signed, not64. rewrite Z.shiftl_mul_pow2 by done. unfold wrap.
  destruct (Z.ltb_spec v 0).
  - rewrite <- (Z_mod_plus_full v 1 (2 ^ 64)), (Z.mod_small (v + 1 * 2 ^ 64)) by lia.
    replace ((v + 1 * 2 ^ 64) * 2 ^ 1) with (2 * v + 2 ^ 64 + 1 * 2 ^ 64) by lia.
    rewrite Z_mod_plus_full, Z.mod_small by lia. lia.
  - rewrite (Z.mod_small v), Z.mod_small by lia. lia.
Qed.
Lemma encode_signed_range v : - 2 ^ 63 <= v < 2 ^ 63 -> in_range 64 (encode_signed v).
Proof. intros Hv. rewrite encode_signed_spec by done. unfold in_range. destruct (Z.ltb_spec v 0); lia. Qed.
Lemma decode_encode_signed v : - 2 ^ 63 <= v < 2 ^ 63 -> decode_signed (encode_signed v) = v.
Proof.
  intros Hv. rewrite encode_signed_spec by done. unfold decode_signed. rewrite Z.shiftr_div_pow2 by done.
  change 1 with (Z.ones 1) at 5. change (Z.land ?x 1) with (Z.land x (Z.ones 1)).
  destruct (Z.ltb_spec v 0).
  - replace (- 2 * v - 1) with (1 + (- v - 1) * 2) by lia. change (2 ^ 1) with 2. rewrite Z.div_add by done.
    rewrite Z.land_ones by done. change (2 ^ 1) with 2. rewrite Z_mod_plus_full. cbn [negb Z.eqb]. change (1 mod 2 =? 0) with false.
    change (1 / 2) with 0. cbn [negb]. unfold as_int64, not64. replace (_ <? _) with false by lia. lia.
  - rewrite Z.land_ones by done. change (2 ^ 1) with 2. rewrite Z.mul_comm, Z.div_mul by done. rewrite Z_mod_mult.
    cbn. unfold as_int64. replace (v <? 2 ^ 63) with true by lia. done.
Qed.
Lemma read_write_signed v room l rest :
  - 2 ^ 63 <= v < 2 ^ 63 -> write_signed v room = Some l -> read_signed (l ++ rest) = Some (v, rest).
Proof.
  intros Hv Hw. unfold read_signed. erewrite read_write_unsigned; [|by apply encode_signed_range|exact Hw].
  cbn. by rewrite decode_encode_signed.
Qed.

(** ** Only canonical encodings are accepted *)

Lemma byte_group g : is_byte g -> exists h, 0 <= h < 128 /\ (g = h /\ Z.land g 128 = 0 \/ g = h + 128 /\ Z.land g 128 <> 0) /\ Z.land g 127 = h.
Proof.
  unfold is_byte, in_range. intros Hg. destruct (decide (g < 128)) as [Hlt|Hge].
  - destruct (low_group g ltac:(lia)) as [H1 H2]. exists g. split; [lia|]. split; [by left|done].
  - destruct (high_group (g - 128) ltac:(lia)) as (H1 & H2 & H3). replace (g - 128 + 128) with g in * by lia.
    exists (g - 128). split; [lia|]. split; [right; split; [lia|done]|done].
Qed.

Lemma top_bit g : is_byte g -> negb (Z.land g 128 =? 0) = (128 <=? g).
Proof. intros Hg. destruct (byte_group g Hg) as (h & Hh & [[-> E]|[-> E]] & _); lia. Qed.

Lemma write_read_groups n i r bs v rest room :
  read_groups n i r bs = Some (v, rest) -> Forall is_byte bs -> i = 8 - Z.of_nat n -> (n <= 8)%nat ->
  0 <= r < 2 ^ (i * 7) -> Z.of_nat n < room ->
  exists w l, v = r + w * 2 ^ (i * 7) /\ 0 <= w /\ (i = 0 \/ w <> 0) /\ bs = l ++ rest /\ write_groups n w room = Some l.
Proof.
  revert i r bs room. induction n as [|n IH]; intros i r bs room Hr Hb Hi Hn Hrr Hroom;
    (destruct bs as [|g bs]; [done|]); cbn [read_groups] in Hr; apply Forall_cons in Hb as [Hg Hb];
    cbn [write_groups]; replace (room =? 0) with false by lia.
  - destruct (Z.eqb_spec g 0) as [|Hg0]; [done|]. injection Hr as <- <-. unfold is_byte, in_range in Hg.
    rewrite land_255, Z.mod_small by lia. assert (i = 8) as -> by lia. rewrite lor_add by lia.
    exists g, [Z.land g 255]. split_and!; try done; [lia|by right|]. cbn. by rewrite land_255, Z.mod_small by lia.
  - destruct (byte_group g Hg) as (h & Hh & Hcase & Hl). rewrite Hl in Hr.
    destruct ((g =? 0) && negb (i =? 0)) eqn:Ez; [done|]. rewrite lor_again, lor_add in Hr by lia.
    destruct Hcase as [[-> E0]|[-> E0]].
    + rewrite E0 in Hr. cbn in Hr. injection Hr as <- <-. exists h, [h]. split_and!; try done; [lia|lia|].
      rewrite land_127, shiftr_7, Z.div_small, Z.mod_small by lia. done.
    + replace (Z.land (h + 128) 128 =? 0) with false in Hr by lia.
      assert (2 ^ ((i + 1) * 7) = 2 ^ (i * 7) * 128) as Hp
        by (replace ((i + 1) * 7) with (i * 7 + 7) by lia; by rewrite Z.pow_add_r by lia).
      destruct (IH (i + 1) (r + h * 2 ^ (i * 7)) bs (room - 1) Hr Hb) as (w & l & -> & Hw & Hnz & -> & El);
        [lia|lia|rewrite Hp; nia|lia|].
      exists (h + w * 128), (h + 128 :: l). rewrite shiftr_7, land_127, Z.div_add, Z_mod_plus_full by lia.
      rewrite (Z.div_small h), (Z.mod_small h) by lia. rewrite Z.add_0_l. split_and!; try done; [rewrite Hp; lia|lia|lia|].
      destruct Hnz as [?|Hnz]; [lia|]. replace (w =? 0) with false by lia. rewrite El. cbn [fmap option_fmap option_map].
      by rewrite (proj1 (high_group h Hh)).
Qed.

(** Base-128 integers round-trip and are canonical.  Writing succeeds exactly
    when the computed size fits, writes exactly that many bytes, and reading gives
    the value and the rest back; conversely whatever reads as a value is what
    writing that value produces. *)
Theorem base128_roundtrip v room rest bs :
  in_range 64 v -> 0 <= room -> Forall is_byte bs ->
  match write_unsigned v room with
  | Some l => zlen l = size_unsigned v /\ size_unsigned v <= room /\ read_unsigned (l ++ rest) = Some (v, rest)
  | None => room < size_unsigned v
  end /\
  (read_unsigned bs = Some (v, rest) -> exists l, bs = l ++ rest /\ write_unsigned v 9 = Some l).
Proof.
  intros Hv Hr Hb. split.
  - pose proof (write_unsigned_size v room ltac:(destruct Hv; lia) Hr) as Hs.
    destruct (write_unsigned v room) as [l|] eqn:E; [|done]. split_and!; [lia|lia|]. by eapply read_write_unsigned.
  - intros E. destruct (write_read_groups 8 0 0 bs v rest 9 E Hb) as (w & l & Ev & _ & _ & -> & Ew); [lia|lia|cbn; lia|lia|].
    exists l. split; [done|]. assert (w = v) as -> by (change (2 ^ (0 * 7)) with 1 in Ev; lia). done.
Qed.

Lemma base128_roundtrip_witness :
  write_unsigned 300 9 = Some [172; 2] /\ read_unsigned ([172; 2] ++ [7]) = Some (300, [7]).
Proof.
  split; [reflexivity|].
  exact (proj2 (proj2 (proj1 (base128_roundtrip 300 9 [7] [] ltac:(unfold in_range; lia) ltac:(lia) (Forall_nil_2 _))))).
Defined.

End Base128.
