(* ===== verification/ValueIo.v ===== *)
(** The vocabulary of the value serializer (mock/jogasaki/serializer): the header
    bytes and limits of details/value_io_constants.h, the entry kinds of
    entry_type.h, the reasons of value_input_exception.h, and the interface of the
    takatori value classes it carries.

    takatori is not part of this repository: its classes are the carriers and
    operations of [Takatori], and what the serializer relies on (accessors and
    constructors agree, values are of their machine width) is [TakatoriOk]. *)
From S2P Require Import Prelude.

(** * details/value_io_constants.h *)

Definition header_embed_positive_int : Z := 0x00.
Definition header_embed_character : Z := 0x40.
Definition header_embed_row : Z := 0x80.
Definition header_embed_array : Z := 0xa0.
Definition header_embed_negative_int : Z := 0xc0.
Definition header_embed_octet : Z := 0xd0.
Definition header_embed_bit : Z := 0xe0.
Definition header_unknown : Z := 0xe8.
Definition header_int : Z := 0xe9.
Definition header_float4 : Z := 0xea.
Definition header_float8 : Z := 0xeb.
Definition header_decimal_compact : Z := 0xec.
Definition header_decimal : Z := 0xed.
Definition header_time_of_day_with_offset : Z := 0xee.
Definition header_time_point_with_offset : Z := 0xef.
Definition header_character : Z := 0xf0.
Definition header_octet : Z := 0xf1.
Definition header_bit : Z := 0xf2.
Definition header_date : Z := 0xf3.
Definition header_time_of_day : Z := 0xf4.
Definition header_time_point : Z := 0xf5.
Definition header_datetime_interval : Z := 0xf6.
Definition header_row : Z := 0xf8.
Definition header_array : Z := 0xf9.
Definition header_clob : Z := 0xfa.
Definition header_blob : Z := 0xfb.
Definition header_end_of_contents : Z := 0xfe.

Definition mask_embed_positive_int : Z := 0x3f.
Definition mask_embed_character : Z := 0x3f.
Definition mask_embed_row : Z := 0x1f.
Definition mask_embed_array : Z := 0x1f.
Definition mask_embed_negative_int : Z := 0x0f.
Definition mask_embed_octet : Z := 0x0f.
Definition mask_embed_bit : Z := 0x07.

Definition min_embed_positive_int_value : Z := 0x00.
Definition max_embed_positive_int_value : Z := mask_embed_positive_int + min_embed_positive_int_value.
Definition max_embed_negative_int_value : Z := -1.
Definition min_embed_negative_int_value : Z := max_embed_negative_int_value - mask_embed_negative_int.
Definition min_embed_character_size : Z := 0x01.
Definition max_embed_character_size : Z := mask_embed_character + min_embed_character_size.
Definition min_embed_octet_size : Z := 0x01.
Definition max_embed_octet_size : Z := mask_embed_octet + min_embed_octet_size.
Definition min_embed_bit_size : Z := 0x01.
Definition max_embed_bit_size : Z := mask_embed_bit + min_embed_bit_size.
Definition min_embed_row_size : Z := 0x01.
Definition max_embed_row_size : Z := mask_embed_row + min_embed_row_size.
Definition min_embed_array_size : Z := 0x01.
Definition max_embed_array_size : Z := mask_embed_array + min_embed_array_size.

(** [static_cast<std::uint32_t>(std::numeric_limits<std::int32_t>::max()) + 1UL] *)
Definition limit_size : Z := (2 ^ 31 - 1) + 1.
Definition max_decimal_coefficient_size : Z := 8 * 2 + 1.

Create HintDb value_consts.
#[global] Hint Unfold header_embed_positive_int header_embed_character header_embed_row header_embed_array header_embed_negative_int
  header_embed_octet header_embed_bit header_unknown header_int header_float4
  header_float8 header_decimal_compact header_decimal header_time_of_day_with_offset header_time_point_with_offset
  header_character header_octet header_bit header_date header_time_of_day
  header_time_point header_datetime_interval header_row header_array header_clob
  header_blob header_end_of_contents mask_embed_positive_int mask_embed_character mask_embed_row
  mask_embed_array mask_embed_negative_int mask_embed_octet mask_embed_bit min_embed_positive_int_value
  max_embed_positive_int_value max_embed_negative_int_value min_embed_negative_int_value min_embed_character_size max_embed_character_size
  min_embed_octet_size max_embed_octet_size min_embed_bit_size max_embed_bit_size min_embed_row_size
  max_embed_row_size min_embed_array_size max_embed_array_size limit_size max_decimal_coefficient_size : value_consts.

(** * entry_type.h *)

Inductive entry_type : Type :=
| end_of_contents
| null
| int_
| float4
| float8
| decimal
| character
| octet
| bit
| date
| time_of_day
| time_of_day_with_offset
| time_point
| time_point_with_offset
| datetime_interval
| row
| array
| clob
| blob.
#[global] Instance entry_type_eq_dec : EqDecision entry_type.
Proof. solve_decision. Defined.

Definition to_string_view (value : entry_type) : string :=
  match value with
  | end_of_contents => "end_of_contents"
  | null => "null"
  | int_ => "int_"
  | float4 => "float4"
  | float8 => "float8"
  | decimal => "decimal"
  | character => "character"
  | octet => "octet"
  | bit => "bit"
  | date => "date"
  | time_of_day => "time_of_day"
  | time_of_day_with_offset => "time_of_day_with_offset"
  | time_point => "time_point"
  | time_point_with_offset => "time_point_with_offset"
  | datetime_interval => "datetime_interval"
  | row => "row"
  | array => "array"
  | clob => "clob"
  | blob => "blob"
  end.

(** * value_input_exception: an exception that carries its reason (message omitted) *)

Inductive reason_code : Type :=
| buffer_underflow
| unrecognized_entry_type
| unsupported_entry_type
| value_out_of_range.

Definition reason_name (r : reason_code) : string :=
  match r with
  | buffer_underflow => "buffer_underflow"
  | unrecognized_entry_type => "unrecognized_entry_type"
  | unsupported_entry_type => "unsupported_entry_type"
  | value_out_of_range => "value_out_of_range"
  end.
Definition value_input_exception (r : reason_code) : exn := other_exception (reason_name r).

Definition throw_buffer_underflow {A} : res A := Throw (value_input_exception buffer_underflow).
Definition throw_unrecognized_entry {A} (header : Z) : res A := Throw (value_input_exception unrecognized_entry_type).
Definition throw_int32_value_out_of_range {A} (value : Z) : res A := Throw (value_input_exception value_out_of_range).
Definition throw_decimal_coefficient_out_of_range {A} (nbytes : Z) : res A := Throw (value_input_exception value_out_of_range).
Definition throw_size_out_of_range {A} (size limit : Z) : res A := Throw (value_input_exception value_out_of_range).

(** [BOOST_ASSERT]: a failed one aborts the process *)
Definition assert_that (b : bool) : res unit := if b then Ok tt else Undefined.

(** * The takatori value classes *)

Class Takatori : Type := {
  Triple : Type;
  sign : Triple -> Z;
  coefficient_high : Triple -> Z;
  coefficient_low : Triple -> Z;
  exponent : Triple -> Z;
  triple_of_int : Z -> Z -> Triple;
  triple_of : Z -> Z -> Z -> Z -> Triple;
  Date : Type;
  days_since_epoch : Date -> Z;
  date_of : Z -> Date;
  TimeOfDay : Type;
  time_since_epoch : TimeOfDay -> Z;
  time_of_day_of : Z -> TimeOfDay;
  TimePoint : Type;
  seconds_since_epoch : TimePoint -> Z;
  subsecond : TimePoint -> Z;
  time_point_of : Z -> Z -> TimePoint;
  Interval : Type;
  year : Interval -> Z;
  month : Interval -> Z;
  day : Interval -> Z;
  time_offset : Interval -> Z;
  interval_of : Z -> Z -> Z -> Z -> Interval;
  Bitset : Type;
  bit_size : Bitset -> Z;
  block_data : Bitset -> list byte;
  last_block : Bitset -> byte;
  bitset_of : list byte -> Z -> Bitset;
}.

Definition int64 (x : Z) : Prop := - 2 ^ 63 <= x < 2 ^ 63.
Definition int32 (x : Z) : Prop := - 2 ^ 31 <= x < 2 ^ 31.

Class TakatoriOk (T : Takatori) : Prop := {
  (** decimal::triple: sign, 128-bit coefficient and exponent; the sign is 0 exactly for 0 *)
  triple_sign v : sign v = -1 \/ sign v = 0 \/ sign v = 1;
  triple_zero v : sign v = 0 <-> coefficient_high v = 0 /\ coefficient_low v = 0;
  triple_high v : in_range 64 (coefficient_high v);
  triple_low v : in_range 64 (coefficient_low v);
  triple_exponent v : int32 (exponent v);
  triple_eta v : triple_of (sign v) (coefficient_high v) (coefficient_low v) (exponent v) = v;
  triple_int c e : int64 c -> int32 e -> triple_of_int c e = triple_of (Z.sgn c) 0 (Z.abs c) e;
  date_width v : int64 (days_since_epoch v);
  date_eta v : date_of (days_since_epoch v) = v;
  time_of_day_width v : in_range 64 (time_since_epoch v);
  time_of_day_eta v : time_of_day_of (time_since_epoch v) = v;
  time_point_width v : int64 (seconds_since_epoch v) /\ in_range 64 (subsecond v);
  time_point_eta v : time_point_of (seconds_since_epoch v) (subsecond v) = v;
  interval_width v : int32 (year v) /\ int32 (month v) /\ int32 (day v) /\ int64 (time_offset v);
  interval_eta v : interval_of (year v) (month v) (day v) (time_offset v) = v;
  (** bitset_view: a size in bits over the blocks that hold them *)
  bitset_width b : in_range 64 (bit_size b);
  bitset_blocks b : zlen (block_data b) = (bit_size b + 7) / 8;
  bitset_bytes b : Forall is_byte (block_data b);
  bitset_last b : block_data b <> [] -> last (block_data b) = Some (last_block b);
  bitset_of_size l n : in_range 64 n -> (n + 7) / 8 <= zlen l -> Forall is_byte l -> bit_size (bitset_of l n) = n;
  bitset_of_blocks l n : in_range 64 n -> (n + 7) / 8 <= zlen l -> Forall is_byte l ->
    block_data (bitset_of l n) = take (Z.to_nat ((n + 7) / 8)) l;
}.

Definition block_size `{Takatori} (b : Bitset) : Z := zlen (block_data b).
