(* ===== verification/ValueFormat.v ===== *)
(** The serialization format as a mathematical specification: the entries, the
    bytes each is encoded as, and the lemmas on base-128 groups and two's
    complement octets that the writers and the readers share.

    A decimal is specified by its signed coefficient: the shortest two's
    complement octet string that holds it, of at least 9 octets. *)
From S2P Require Import Prelude Base128 ValueIo.
Import Base128.

(** * Base-128 fields *)

Definition ubytes (v : Z) : list byte := default [] (write_unsigned v 9).
Definition sbytes (v : Z) : list byte := ubytes (encode_signed v).

Lemma write_groups_more_room n v r r' l :
  write_groups n v r = Some l -> 0 <= r <= r' -> write_groups n v r' = Some l.
Proof.
  revert v r r' l. induction n as [|n IH]; intros v r r' l Hw Hr; cbn [write_groups] in *;
    (destruct (Z.eqb_spec r 0) as [|Hr0]; [done|]); replace (r' =? 0) with false by lia; [done|].
  destruct (Z.shiftr v 7 =? 0); [done|]. apply fmap_Some in Hw as (l' & Hw & ->).
  by rewrite (IH _ _ (r' - 1) _ Hw) by lia.
Qed.

Lemma write_unsigned_ubytes v r :
  in_range 64 v -> size_unsigned v <= r -> write_unsigned v r = Some (ubytes v).
Proof.
  intros [Hv _] Hr. pose proof (size_unsigned_range v) as Hs. unfold ubytes.
  pose proof (write_unsigned_size v (size_unsigned v) Hv ltac:(lia)) as H.
  destruct (write_unsigned v (size_unsigned v)) as [l|] eqn:E; [|lia]. unfold write_unsigned in *.
  rewrite (write_groups_more_room _ _ _ 9 _ E) by lia. by rewrite (write_groups_more_room _ _ _ r _ E) by lia.
Qed.
Lemma zlen_ubytes v : in_range 64 v -> zlen (ubytes v) = size_unsigned v.
Proof.
  intros Hv. pose proof (write_unsigned_ubytes v 9 Hv ltac:(pose proof (size_unsigned_range v); lia)) as E.
  pose proof (write_unsigned_size v 9 ltac:(destruct Hv; lia) ltac:(lia)) as H. rewrite E in H. lia.
Qed.
Lemma read_ubytes v rest : in_range 64 v -> read_unsigned (ubytes v ++ rest) = Some (v, rest).
Proof.
  intros Hv. apply (read_write_unsigned v 9); [done|].
  apply write_unsigned_ubytes; [done|]. pose proof (size_unsigned_range v). lia.
Qed.
Lemma zlen_sbytes v : int64 v -> zlen (sbytes v) = size_signed v.
Proof. intros Hv. unfold sbytes. rewrite zlen_ubytes by (by apply encode_signed_range). done. Qed.
Lemma read_sbytes v rest : int64 v -> read_signed (sbytes v ++ rest) = Some (v, rest).
Proof.
  intros Hv. unfold read_signed, sbytes. rewrite read_ubytes by (by apply encode_signed_range).
  cbn. by rewrite decode_encode_signed.
Qed.

Lemma int32_int64 x : int32 x -> int64 x.
Proof. unfold int32, int64. lia. Qed.

(** * Big-endian octets *)

Definition be_bytes (n : nat) (x : Z) : list byte := reverse (le_bytes n x).

Lemma length_be_bytes n x : length (be_bytes n x) = n.
Proof. unfold be_bytes. by rewrite length_reverse, length_le_bytes. Qed.
Lemma zlen_be_bytes n x : zlen (be_bytes n x) = Z.of_nat n.
Proof. unfold zlen. by rewrite length_be_bytes. Qed.

Lemma le_bytes_app n m x : le_bytes (n + m) x = le_bytes n x ++ le_bytes m (x / 256 ^ Z.of_nat n).
Proof.
  revert x. induction n as [|n IH]; intros x.
  - change (256 ^ Z.of_nat 0) with 1. by rewrite Z.div_1_r.
  - cbn [Nat.add le_bytes app]. rewrite IH. do 2 f_equal. rewrite Z.div_div by lia. f_equal.
    rewrite Nat2Z.inj_succ, Z.pow_succ_r by lia. done.
Qed.
Lemma le_bytes_mod n x : le_bytes n (x mod 256 ^ Z.of_nat n) = le_bytes n x.
Proof.
  rewrite <- (le_Z_bytes n x). rewrite <- (length_le_bytes n x) at 1. apply le_bytes_Z, le_bytes_is_byte.
Qed.
Lemma be_bytes_S n x : be_bytes (S n) x = (x / 256 ^ Z.of_nat n) mod 256 :: be_bytes n x.
Proof.
  unfold be_bytes. replace (S n) with (n + 1)%nat by lia. rewrite le_bytes_app. by rewrite reverse_app.
Qed.

Lemma le_bytes_cong n x y : x mod 256 ^ Z.of_nat n = y mod 256 ^ Z.of_nat n -> le_bytes n x = le_bytes n y.
Proof. intros E. by rewrite <- (le_bytes_mod n x), E, le_bytes_mod. Qed.

(** the octets of a 128-bit value given by its two halves *)
Lemma be_bytes_halves k c hi lo m :
  (k <= 8)%nat -> 0 <= lo < 2 ^ 64 -> c = hi * 2 ^ 64 + lo + m * 2 ^ 128 -> be_bytes (8 + k) c = be_bytes k hi ++ be_bytes 8 lo.
Proof.
  intros Hk Hlo Hc. unfold be_bytes. rewrite le_bytes_app, reverse_app. change (256 ^ Z.of_nat 8) with (2 ^ 64).
  assert (c / 2 ^ 64 = hi + m * 2 ^ 64) as Hd.
  { rewrite Hc. replace (hi * 2 ^ 64 + lo + m * 2 ^ 128) with (lo + (hi + m * 2 ^ 64) * 2 ^ 64) by lia.
    rewrite Z.div_add, Z.div_small by lia. lia. }
  f_equal; f_equal; apply le_bytes_cong.
  - rewrite Hd. assert (2 ^ 64 = 256 ^ (8 - Z.of_nat k) * 256 ^ Z.of_nat k) as ->.
    { rewrite <- Z.pow_add_r by lia. by replace (8 - Z.of_nat k + Z.of_nat k) with 8 by lia. }
    by rewrite Z.mul_assoc, Z_mod_plus_full.
  - change (256 ^ Z.of_nat 8) with (2 ^ 64). rewrite Hc.
    replace (hi * 2 ^ 64 + lo + m * 2 ^ 128) with (lo + (hi + m * 2 ^ 64) * 2 ^ 64) by lia. by rewrite Z_mod_plus_full.
Qed.

(** * Signed coefficients *)

Definition fits (n c : Z) : bool := (- 2 ^ (8 * n - 1) <=? c) && (c <? 2 ^ (8 * n - 1)).
Fixpoint octets_from (k : nat) (n c : Z) : Z :=
  match k with
  | O => n
  | S k => if fits n c then n else octets_from k (n + 1) c
  end.
(** the shortest two's complement string of 9 to 17 octets *)
Definition octets_needed (c : Z) : Z := octets_from 8 9 c.

Lemma fits_mono n m c : 1 <= n <= m -> fits n c = true -> fits m c = true.
Proof.
  unfold fits. rewrite !andb_true_iff, !Z.leb_le, !Z.ltb_lt. intros Hn Hf.
  assert (2 ^ (8 * n - 1) <= 2 ^ (8 * m - 1)) by (apply Z.pow_le_mono_r; lia). lia.
Qed.
Lemma octets_from_unique k n m c :
  n <= m -> 1 <= n -> m <= n + Z.of_nat k -> fits m c = true -> (m = n \/ fits (m - 1) c = false) ->
  octets_from k n c = m.
Proof.
  revert n. induction k as [|k IH]; intros n Hn H1 Hm Hf Hl; cbn [octets_from]; [lia|].
  destruct (fits n c) eqn:E.
  - destruct (decide (m = n)) as [|]; [done|]. destruct Hl as [|Hl]; [done|].
    by rewrite (fits_mono n (m - 1) c ltac:(lia) E) in Hl.
  - assert (m <> n) by congruence. apply IH; [lia|lia|lia|done|]. destruct Hl as [|Hl]; [done|]. by right.
Qed.
Lemma octets_needed_opp c : octets_needed (- 1 - c) = octets_needed c.
Proof.
  unfold octets_needed. generalize 9. generalize 8%nat. intros k. induction k as [|k IH]; intros n; cbn [octets_from]; [done|].
  rewrite IH. replace (fits n (-1 - c)) with (fits n c); [done|]. unfold fits. lia.
Qed.
Lemma octets_needed_range c : Z.abs c < 2 ^ 128 -> 9 <= octets_needed c <= 17 /\ fits (octets_needed c) c = true.
Proof.
  intros Hc. unfold octets_needed.
  assert (forall k n, n + Z.of_nat k = 17 -> n <= octets_from k n c <= 17 /\ fits (octets_from k n c) c = true) as H.
  { induction k as [|k IH]; intros n Hn; cbn [octets_from].
    - assert (n = 17) as -> by lia. split; [lia|]. unfold fits. change (2 ^ (8 * 17 - 1)) with (128 * 2 ^ 128). lia.
    - destruct (fits n c) eqn:E; [split; [lia|done]|]. destruct (IH (n + 1) ltac:(lia)). split; [lia|done]. }
  apply H. lia.
Qed.

(** * Entries *)

Section Entries.
Context `{T : Takatori}.

Inductive entry : Type :=
| E_end
| E_null
| E_int (v : Z)
| E_float4 (bits : Z)
| E_float8 (bits : Z)
| E_decimal (v : Triple)
| E_character (v : list byte)
| E_octet (v : list byte)
| E_bit (v : Bitset)
| E_bit_blocks (blocks : list byte) (number_of_bits : Z)
| E_date (v : Date)
| E_time_of_day (v : TimeOfDay)
| E_time_of_day_with_offset (v : TimeOfDay) (timezone_offset : Z)
| E_time_point (v : TimePoint)
| E_time_point_with_offset (v : TimePoint) (timezone_offset : Z)
| E_datetime_interval (v : Interval)
| E_array (size : Z)
| E_row (size : Z)
| E_blob (provider object_id : Z)
| E_clob (provider object_id : Z).

Definition coefficient (v : Triple) : Z :=
  let m := coefficient_high v * 2 ^ 64 + coefficient_low v in if sign v <? 0 then - m else m.

Definition enc_int (v : Z) : list byte :=
  if (0 <=? v) && (v <=? 63) then [v]
  else if (-16 <=? v) && (v <=? -1) then [192 + (v + 16)]
  else header_int :: sbytes v.

Definition enc_decimal (v : Triple) : list byte :=
  let c := coefficient v in
  if (- 2 ^ 63 <=? c) && (c <? 2 ^ 63) then
    if exponent v =? 0 then enc_int c
    else header_decimal_compact :: sbytes (exponent v) ++ sbytes c
  else
    let n := octets_needed c in
    header_decimal :: sbytes (exponent v) ++ ubytes n ++ be_bytes (Z.to_nat n) c.

(** a size in the header byte when it is in [1, max], in a field of its own otherwise *)
Definition enc_size (embed header max size : Z) : list byte :=
  if (1 <=? size) && (size <=? max) then [embed + (size - 1)] else header :: ubytes size.

(** the blocks of [size] bits with the padding bits of the last block cleared *)
Definition clear_padding (size : Z) (blocks : list byte) : list byte :=
  let n := Z.to_nat ((size + 7) / 8) in
  if size mod 8 =? 0 then take n blocks
  else take (n - 1) blocks ++ [default 0 (blocks !! (n - 1)%nat) mod 2 ^ (size mod 8)].

Definition enc_bit (size : Z) (blocks : list byte) : list byte :=
  enc_size header_embed_bit header_bit 8 size ++ clear_padding size blocks.

Definition encode (e : entry) : list byte :=
  match e with
  | E_end => [header_end_of_contents]
  | E_null => [header_unknown]
  | E_int v => enc_int v
  | E_float4 bits => header_float4 :: be_bytes 4 bits
  | E_float8 bits => header_float8 :: be_bytes 8 bits
  | E_decimal v => enc_decimal v
  | E_character v => enc_size header_embed_character header_character 64 (zlen v) ++ v
  | E_octet v => enc_size header_embed_octet header_octet 16 (zlen v) ++ v
  | E_bit v => enc_bit (bit_size v) (block_data v)
  | E_bit_blocks blocks n => enc_bit n blocks
  | E_date v => header_date :: sbytes (days_since_epoch v)
  | E_time_of_day v => header_time_of_day :: ubytes (time_since_epoch v)
  | E_time_of_day_with_offset v z => header_time_of_day_with_offset :: ubytes (time_since_epoch v) ++ sbytes z
  | E_time_point v => header_time_point :: sbytes (seconds_since_epoch v) ++ ubytes (subsecond v)
  | E_time_point_with_offset v z =>
      header_time_point_with_offset :: sbytes (seconds_since_epoch v) ++ ubytes (subsecond v) ++ sbytes z
  | E_datetime_interval v =>
      header_datetime_interval :: sbytes (year v) ++ sbytes (month v) ++ sbytes (day v) ++ sbytes (time_offset v)
  | E_array size => enc_size header_embed_array header_array 32 size
  | E_row size => enc_size header_embed_row header_row 32 size
  | E_blob provider object_id => header_blob :: be_bytes 8 provider ++ be_bytes 8 object_id
  | E_clob provider object_id => header_clob :: be_bytes 8 provider ++ be_bytes 8 object_id
  end.

(** arguments in the range of their C++ type; sizes below the documented limit *)
Definition entry_wf (e : entry) : Prop :=
  match e with
  | E_int v => int64 v
  | E_float4 bits => in_range 32 bits
  | E_float8 bits => in_range 64 bits
  | E_character v | E_octet v => zlen v < limit_size
  | E_bit v => bit_size v < limit_size
  | E_bit_blocks blocks n => Forall is_byte blocks /\ 0 <= n < limit_size /\ n <= zlen blocks * 8 < 2 ^ 64
  | E_time_of_day_with_offset _ z | E_time_point_with_offset _ z => int32 z
  | E_array size | E_row size => 0 <= size < limit_size
  | E_blob p i | E_clob p i => in_range 64 p /\ in_range 64 i
  | _ => True
  end.

Lemma enc_size_length embed header max size :
  in_range 64 size ->
  zlen (enc_size embed header max size) = if (1 <=? size) && (size <=? max) then 1 else 1 + size_unsigned size.
Proof. intros Hs. unfold enc_size. destruct (_ && _); [done|]. by rewrite zlen_cons, zlen_ubytes. Qed.

Lemma clear_padding_length size blocks :
  0 <= size -> (size + 7) / 8 <= zlen blocks -> zlen (clear_padding size blocks) = (size + 7) / 8.
Proof.
  intros Hs Hl. unfold clear_padding. unfold zlen in *. pose proof (Z.div_pos (size + 7) 8 ltac:(lia) ltac:(lia)).
  destruct (Z.eqb_spec (size mod 8) 0) as [E|E]; [rewrite length_take; lia|].
  destruct (decide (size = 0)) as [->|]; [done|].
  assert (1 <= (size + 7) / 8) by (apply Z.div_le_lower_bound; lia).
  rewrite length_app, length_take. cbn. lia.
Qed.

Context {TO : TakatoriOk T}.

Lemma coefficient_range v : Z.abs (coefficient v) < 2 ^ 128.
Proof using TO.
  pose proof (triple_high v). pose proof (triple_low v). unfold in_range, coefficient in *.
  destruct (sign v <? 0); lia.
Qed.

Lemma coefficient_parts v :
  Z.abs (coefficient v) / 2 ^ 64 = coefficient_high v /\ Z.abs (coefficient v) mod 2 ^ 64 = coefficient_low v /\
  Z.sgn (coefficient v) = sign v.
Proof using TO.
  pose proof (triple_high v) as Hh. pose proof (triple_low v) as Hl. unfold in_range in *.
  assert (Z.abs (coefficient v) = coefficient_low v + coefficient_high v * 2 ^ 64) as ->
    by (unfold coefficient; destruct (sign v <? 0); lia).
  rewrite Z.div_add, Z_mod_plus_full, Z.div_small, Z.mod_small by lia. split_and!; [lia|done|].
  pose proof (triple_zero v) as Hz. unfold coefficient.
  assert (sign v <> 0 -> 0 < coefficient_high v * 2 ^ 64 + coefficient_low v) as Hp.
  { intros Hs. destruct (decide (coefficient_high v = 0 /\ coefficient_low v = 0)) as [H0|H0]; [|lia]. by apply Hz in H0. }
  destruct (triple_sign v) as [E|[E|E]]; rewrite E in *; cbn -[Z.mul Z.add].
  - apply Z.sgn_neg. lia.
  - destruct (proj1 Hz eq_refl) as [-> ->]. done.
  - apply Z.sgn_pos. lia.
Qed.

End Entries.
