(* ===== verification/ValueOutput.v ===== *)
(** The value writers of mock/jogasaki/serializer/value_output.cpp.

    Each takes the output position and the end of the buffer: [out] holds the bytes
    written so far and the room left.  [Ok (false, o)] is a return of false with the
    position unchanged; an assertion that would fail is [Undefined]. *)
From S2P Require Import Prelude Base128 ValueIo ValueFormat.

Module ValueOutput.
Import Base128.

Record out : Type := Out { written : list byte; room : Z }.

Definition push (o : out) (l : list byte) : out := Out (written o ++ l) (room o - zlen l).

Definition buffer_remaining (o : out) : Z := if room o <? 0 then 0 else room o.

Definition write_fixed8 (value : Z) (o : out) : res out :=
  if room o <=? 0 then Undefined else Ok (push o [u8 value]).

(** for (i = 1; i <= sizeof(T); ++i) write_fixed8(value >> ((sizeof(T) - i) * 8)) *)
Fixpoint write_fixed_loop (n : nat) (i size value : Z) (o : out) : res out :=
  match n with
  | O => Ok o
  | S n => o ← write_fixed8 (Z.shiftr value ((size - i) * 8)) o; write_fixed_loop n (i + 1) size value o
  end.
Definition write_fixed (size : nat) (value : Z) (o : out) : res out :=
  write_fixed_loop size 1 (Z.of_nat size) value o.

Definition write_bytes (data : list byte) (count : Z) (o : out) : res out :=
  if room o <? count then Undefined else Ok (push o (take (Z.to_nat count) data)).

(** calls of the base-128 writers, whose result is not looked at *)
Definition put_unsigned (value : Z) (o : out) : out :=
  match write_unsigned value (room o) with Some l => push o l | None => o end.
Definition put_signed (value : Z) (o : out) : out :=
  match write_signed value (room o) with Some l => push o l | None => o end.

Definition write_end_of_contents (o : out) : res (bool * out) :=
  if buffer_remaining o <? 1 then Ok (false, o)
  else o ← write_fixed8 header_end_of_contents o; Ok (true, o).

Definition write_null (o : out) : res (bool * out) :=
  if buffer_remaining o <? 1 then Ok (false, o)
  else o ← write_fixed8 header_unknown o; Ok (true, o).

Definition write_int (value : Z) (o : out) : res (bool * out) :=
  if (min_embed_positive_int_value <=? value) && (value <=? max_embed_positive_int_value) then
    if buffer_remaining o <? 1 then Ok (false, o)
    else o ← write_fixed8 (header_embed_positive_int + value - min_embed_positive_int_value) o; Ok (true, o)
  else if (min_embed_negative_int_value <=? value) && (value <=? max_embed_negative_int_value) then
    if buffer_remaining o <? 1 then Ok (false, o)
    else o ← write_fixed8 (header_embed_negative_int + value - min_embed_negative_int_value) o; Ok (true, o)
  else
    if buffer_remaining o <? 1 + size_signed value then Ok (false, o)
    else o ← write_fixed8 header_int o; Ok (true, put_signed value o).

(** a float or double is the pattern of its bits *)
Definition write_float4 (bits : Z) (o : out) : res (bool * out) :=
  if buffer_remaining o <? 1 + 4 then Ok (false, o)
  else o ← write_fixed8 header_float4 o; o ← write_fixed 4 bits o; Ok (true, o).

Definition write_float8 (bits : Z) (o : out) : res (bool * out) :=
  if buffer_remaining o <? 1 + 8 then Ok (false, o)
  else o ← write_fixed8 header_float8 o; o ← write_fixed 8 bits o; Ok (true, o).

Section Decimal.
Context `{Takatori}.

Definition has_small_coefficient (value : Triple) : bool :=
  if negb (coefficient_high value =? 0) then false
  else if coefficient_low value <=? 2 ^ 63 - 1 then true
  else (coefficient_low value =? 2 ^ 63) && (sign value <? 0).

Definition octet_at (c offset : Z) : Z := Z.land (Z.shiftr c ((8 - offset - 1) * 8)) 255.

(** the first octet of [c_hi], from the top, other than [skip] *)
Fixpoint find_octet (n : nat) (offset skip c_hi : Z) : option (Z * Z) :=
  match n with
  | O => None
  | S n =>
      let oct := octet_at c_hi offset in
      if negb (oct =? skip) then Some (offset, oct) else find_octet n (offset + 1) skip c_hi
  end.

Definition make_signed_coefficient_full (value : Triple) : Z * Z * Z :=
  let c_hi := coefficient_high value in
  let c_lo := coefficient_low value in
  if 0 <=? sign value then
    match find_octet 8 0 0 c_hi with
    | Some (offset, oct) =>
        let size := 8 * 2 - offset in
        (c_hi, c_lo, if negb (Z.land oct 128 =? 0) then size + 1 else size)
    | None => (c_hi, c_lo, 8 + 1)
    end
  else
    let c_lo := u64 (not64 c_lo + 1) in
    let c_hi := not64 c_hi in
    let c_hi := if c_lo =? 0 then u64 (c_hi + 1) else c_hi in
    match find_octet 8 0 255 c_hi with
    | Some (offset, oct) =>
        let size := 8 * 2 - offset in
        (c_hi, c_lo, if Z.land oct 128 =? 0 then size + 1 else size)
    | None => (c_hi, c_lo, 8 + 1)
    end.

(** the loops that fill the octets of [c] backwards in front of [acc] *)
Fixpoint put_octets (n : nat) (offset c : Z) (acc : list byte) : list byte :=
  match n with
  | O => acc
  | S n => put_octets n (offset + 1) c (u8 (Z.shiftr c (offset * 8)) :: acc)
  end.

(** [-coefficient] of the most negative [int64_t] is taken to wrap around *)
Definition negate64 (c : Z) : Z := as_int64 (u64 (- c)).

Definition write_decimal (value : Triple) (o : out) : res (bool * out) :=
  if has_small_coefficient value then
    let coefficient := as_int64 (coefficient_low value) in
    let coefficient := if sign value <? 0 then negate64 coefficient else coefficient in
    if exponent value =? 0 then write_int coefficient o
    else if buffer_remaining o <? 1 + size_signed (exponent value) + size_signed coefficient then Ok (false, o)
    else
      o ← write_fixed8 header_decimal_compact o;
      Ok (true, put_signed coefficient (put_signed (exponent value) o))
  else
    let '(c_hi, c_lo, c_size) := make_signed_coefficient_full value in
    _ ← assert_that (8 <? c_size);
    _ ← assert_that (c_size <=? 8 * 2 + 1);
    if buffer_remaining o <? 1 + size_signed (exponent value) + size_unsigned c_size + c_size then Ok (false, o)
    else
      o ← write_fixed8 header_decimal o;
      let o := put_unsigned c_size (put_signed (exponent value) o) in
      o ← (if 8 * 2 <? c_size then write_fixed8 (if 0 <=? sign value then 0 else 255) o else Ok o);
      let c_size := if 8 * 2 <? c_size then c_size - 1 else c_size in
      Ok (true, push o (put_octets (Z.to_nat (c_size - 8)) 0 c_hi (put_octets 8 0 c_lo []))).

End Decimal.

Definition write_character (value : list byte) (o : out) : res (bool * out) :=
  let size := zlen value in
  if (min_embed_character_size <=? size) && (size <=? max_embed_character_size) then
    if buffer_remaining o <? 1 + size then Ok (false, o)
    else
      o ← write_fixed8 (header_embed_character + size - min_embed_character_size) o;
      o ← write_bytes value size o; Ok (true, o)
  else
    if buffer_remaining o <? 1 + size_unsigned size + size then Ok (false, o)
    else
      o ← write_fixed8 header_character o;
      o ← write_bytes value size (put_unsigned size o); Ok (true, o).

Definition write_octet (value : list byte) (o : out) : res (bool * out) :=
  let size := zlen value in
  if (min_embed_octet_size <=? size) && (size <=? max_embed_octet_size) then
    if buffer_remaining o <? 1 + size then Ok (false, o)
    else
      o ← write_fixed8 (header_embed_octet + size - min_embed_octet_size) o;
      o ← write_bytes value size o; Ok (true, o)
  else
    if buffer_remaining o <? 1 + size_unsigned size + size then Ok (false, o)
    else
      o ← write_fixed8 header_octet o;
      o ← write_bytes value size (put_unsigned size o); Ok (true, o).

Section Values.
Context `{Takatori}.

(** the blocks, with the unused bits of the last one cleared *)
Definition write_blocks (value : Bitset) (o : out) : res (bool * out) :=
  let rest_bits := bit_size value mod 8 in
  if rest_bits =? 0 then o ← write_bytes (block_data value) (block_size value) o; Ok (true, o)
  else
    o ← write_bytes (block_data value) (block_size value - 1) o;
    o ← write_fixed8 (Z.land (last_block value) (2 ^ 32 - 1 - u32 (Z.shiftl 255 rest_bits))) o; Ok (true, o).

Definition write_bit (value : Bitset) (o : out) : res (bool * out) :=
  let byte_size := block_size value in
  let size := bit_size value in
  if (min_embed_bit_size <=? size) && (size <=? max_embed_bit_size) then
    if buffer_remaining o <? 1 + byte_size then Ok (false, o)
    else
      o ← write_fixed8 (header_embed_bit + size - min_embed_bit_size) o;
      write_blocks value o
  else
    if buffer_remaining o <? 1 + size_unsigned size + byte_size then Ok (false, o)
    else
      o ← write_fixed8 header_bit o;
      write_blocks value (put_unsigned size o).

(** the overload on raw blocks *)
Definition write_bit_blocks (blocks : list byte) (number_of_bits : Z) (o : out) : res (bool * out) :=
  if u64 (zlen blocks * 8) <? number_of_bits then Throw out_of_range
  else
    let bits := bitset_of blocks number_of_bits in
    _ ← assert_that (block_size bits <=? zlen blocks);
    write_bit bits o.

Definition write_date (value : Date) (o : out) : res (bool * out) :=
  if buffer_remaining o <? 1 + size_signed (days_since_epoch value) then Ok (false, o)
  else o ← write_fixed8 header_date o; Ok (true, put_signed (days_since_epoch value) o).

Definition write_time_of_day (value : TimeOfDay) (o : out) : res (bool * out) :=
  if buffer_remaining o <? 1 + size_unsigned (time_since_epoch value) then Ok (false, o)
  else o ← write_fixed8 header_time_of_day o; Ok (true, put_unsigned (time_since_epoch value) o).

Definition write_time_of_day_with_offset (value : TimeOfDay) (timezone_offset : Z) (o : out) : res (bool * out) :=
  if buffer_remaining o <? 1 + size_unsigned (time_since_epoch value) + size_signed timezone_offset then Ok (false, o)
  else
    o ← write_fixed8 header_time_of_day_with_offset o;
    Ok (true, put_signed timezone_offset (put_unsigned (time_since_epoch value) o)).

Definition write_time_point (value : TimePoint) (o : out) : res (bool * out) :=
  if buffer_remaining o <? 1 + size_signed (seconds_since_epoch value) + size_unsigned (subsecond value) then Ok (false, o)
  else
    o ← write_fixed8 header_time_point o;
    Ok (true, put_unsigned (subsecond value) (put_signed (seconds_since_epoch value) o)).

Definition write_time_point_with_offset (value : TimePoint) (timezone_offset : Z) (o : out) : res (bool * out) :=
  if buffer_remaining o <? 1 + size_signed (seconds_since_epoch value) + size_unsigned (subsecond value)
       + size_signed timezone_offset then Ok (false, o)
  else
    o ← write_fixed8 header_time_point_with_offset o;
    Ok (true, put_signed timezone_offset (put_unsigned (subsecond value) (put_signed (seconds_since_epoch value) o))).

Definition write_datetime_interval (value : Interval) (o : out) : res (bool * out) :=
  if buffer_remaining o <? 1 + size_signed (year value) + size_signed (month value) + size_signed (day value)
       + size_signed (time_offset value) then Ok (false, o)
  else
    o ← write_fixed8 header_datetime_interval o;
    Ok (true, put_signed (time_offset value) (put_signed (day value) (put_signed (month value) (put_signed (year value) o)))).

End Values.

Definition write_array_begin (size : Z) (o : out) : res (bool * out) :=
  if (min_embed_array_size <=? size) && (size <=? max_embed_array_size) then
    if buffer_remaining o <? 1 then Ok (false, o)
    else o ← write_fixed8 (header_embed_array + size - min_embed_array_size) o; Ok (true, o)
  else
    if buffer_remaining o <? 1 + size_unsigned size then Ok (false, o)
    else o ← write_fixed8 header_array o; Ok (true, put_unsigned size o).

Definition write_row_begin (size : Z) (o : out) : res (bool * out) :=
  if (min_embed_row_size <=? size) && (size <=? max_embed_row_size) then
    if buffer_remaining o <? 1 then Ok (false, o)
    else o ← write_fixed8 (header_embed_row + size - min_embed_row_size) o; Ok (true, o)
  else
    if buffer_remaining o <? 1 + size_unsigned size then Ok (false, o)
    else o ← write_fixed8 header_row o; Ok (true, put_unsigned size o).

Definition write_blob (provider object_id : Z) (o : out) : res (bool * out) :=
  if buffer_remaining o <? 1 + 8 + 8 then Ok (false, o)
  else
    o ← write_fixed8 header_blob o;
    o ← write_fixed 8 provider o;
    o ← write_fixed 8 object_id o; Ok (true, o).

Definition write_clob (provider object_id : Z) (o : out) : res (bool * out) :=
  if buffer_remaining o <? 1 + 8 + 8 then Ok (false, o)
  else
    o ← write_fixed8 header_clob o;
    o ← write_fixed 8 provider o;
    o ← write_fixed 8 object_id o; Ok (true, o).

(** * The writers implement the format *)

(** what a writer of the bytes [l] does: nothing when they do not fit *)
Definition emit (l : list byte) (o : out) : res (bool * out) :=
  if room o <? zlen l then Ok (false, o) else Ok (true, push o l).

Lemma push_push o a b : push (push o a) b = push o (a ++ b).
Proof. unfold push. cbn [written room]. rewrite zlen_app, app_assoc. f_equal. lia. Qed.
Lemma room_push o l : room (push o l) = room o - zlen l.
Proof. done. Qed.
Lemma remaining_room o : 0 <= room o -> buffer_remaining o = room o.
Proof. unfold buffer_remaining. intros. by replace (room o <? 0) with false by lia. Qed.

Lemma fixed8_ok v o : 1 <= room o -> write_fixed8 v o = Ok (push o [u8 v]).
Proof. intros. unfold write_fixed8. by replace (room o <=? 0) with false by lia. Qed.
Lemma put_unsigned_ok v o : in_range 64 v -> zlen (ubytes v) <= room o -> put_unsigned v o = push o (ubytes v).
Proof.
  intros Hv Hr. rewrite zlen_ubytes in Hr by done. unfold put_unsigned. by rewrite write_unsigned_ubytes.
Qed.
Lemma put_signed_ok v o : int64 v -> zlen (sbytes v) <= room o -> put_signed v o = push o (sbytes v).
Proof. intros Hv Hr. apply put_unsigned_ok; [by apply encode_signed_range|done]. Qed.
Lemma write_bytes_ok l o : zlen l <= room o -> write_bytes l (zlen l) o = Ok (push o l).
Proof.
  intros. unfold write_bytes. replace (room o <? zlen l) with false by lia. by rewrite take_ge by (unfold zlen; lia).
Qed.

Lemma u8_div v k : 0 <= k -> u8 (Z.shiftr v (k * 8)) = (v / 256 ^ k) mod 256.
Proof.
  intros. rewrite Z.shiftr_div_pow2 by lia. unfold wrap. change 256 with (2 ^ 8). rewrite <- Z.pow_mul_r by lia.
  do 2 f_equal. f_equal. lia.
Qed.
Lemma write_fixed_loop_ok n i size v o :
  size - i = Z.of_nat n - 1 -> Z.of_nat n <= room o -> write_fixed_loop n i size v o = Ok (push o (be_bytes n v)).
Proof.
  revert i o. induction n as [|n IH]; intros i o Hi Hr; cbn [write_fixed_loop].
  - unfold push. cbn. rewrite app_nil_r. do 2 f_equal. destruct o; cbn. f_equal. change (zlen []) with 0. lia.
  - rewrite fixed8_ok by lia. cbn [mbind res_bind]. rewrite IH; [|lia|rewrite room_push; change (zlen [_]) with 1; lia].
    rewrite push_push, be_bytes_S, u8_div by lia. cbn [app]. replace (size - i) with (Z.of_nat n) by lia. done.
Qed.
Lemma write_fixed_ok n v o : Z.of_nat n <= room o -> write_fixed n v o = Ok (push o (be_bytes n v)).
Proof. intros. apply write_fixed_loop_ok; lia. Qed.

(** runs a writer body whose room is known to be enough *)
Ltac zlens :=
  repeat first [ rewrite !room_push in * | rewrite !zlen_app in * | rewrite !zlen_cons in *
               | rewrite !zlen_nil in * | rewrite !zlen_be_bytes in * ].
Ltac run_out :=
  repeat first
    [ progress cbn [mbind res_bind]
    | rewrite fixed8_ok by (zlens; lia)
    | match goal with
      | |- context [put_unsigned ?v (push ?o ?l)] => rewrite (put_unsigned_ok v (push o l)) by (try done; zlens; lia)
      | |- context [put_signed ?v (push ?o ?l)] => rewrite (put_signed_ok v (push o l)) by (try done; zlens; lia)
      end
    | rewrite write_fixed_ok by (zlens; lia)
    | rewrite write_bytes_ok by (zlens; lia)
    | rewrite push_push ].

Ltac lengths_nonneg :=
  repeat match goal with
    | H : context [zlen ?l] |- _ =>
        lazymatch goal with _ : 0 <= zlen l |- _ => fail | _ => pose proof (zlen_nonneg l) end
    end.
(** a guard on the room, then the body *)
Ltac by_room :=
  unfold emit; rewrite remaining_room by done;
  rewrite <- ?zlen_sbytes, <- ?zlen_ubytes by done;
  match goal with |- context [if room ?o <? ?g then _ else _] => destruct (Z.ltb_spec (room o) g) end;
  match goal with |- context [if room ?o <? ?g then _ else _] => destruct (Z.ltb_spec (room o) g) end;
  zlens; lengths_nonneg; try done; try lia; run_out.

Lemma u8_small v : 0 <= v < 256 -> u8 v = v.
Proof. intros. by apply wrap_small. Qed.

Lemma write_int_spec v o : int64 v -> 0 <= room o -> write_int v o = emit (enc_int v) o.
Proof.
  intros Hv Hr. unfold write_int, enc_int. change min_embed_positive_int_value with 0.
  change max_embed_positive_int_value with 63. change min_embed_negative_int_value with (-16).
  change max_embed_negative_int_value with (-1). change header_embed_positive_int with 0.
  change header_embed_negative_int with 192.
  destruct ((0 <=? v) && (v <=? 63)) eqn:Ep; [|destruct ((-16 <=? v) && (v <=? -1)) eqn:En].
  - by_room. rewrite u8_small by lia. repeat f_equal. lia.
  - by_room. rewrite u8_small by lia. repeat f_equal. lia.
  - by_room. done.
Qed.

Section Specs.
Context {T : Takatori} {TO : TakatoriOk T}.

(** the header byte of a size and its field, then [body] *)
Lemma size_spec embed header max size blen (body : out -> res (bool * out)) l o :
  in_range 64 size -> 0 <= room o -> 0 <= embed -> embed + max <= 256 -> in_range 8 header -> zlen l = blen ->
  (forall o', zlen l <= room o' -> body o' = Ok (true, push o' l)) ->
  (if (1 <=? size) && (size <=? max) then
     if buffer_remaining o <? 1 + blen then Ok (false, o)
     else o ← write_fixed8 (embed + size - 1) o; body o
   else
     if buffer_remaining o <? 1 + size_unsigned size + blen then Ok (false, o)
     else o ← write_fixed8 header o; body (put_unsigned size o))
  = emit (enc_size embed header max size ++ l) o.
Proof.
  intros Hs Hr He Hm Hh <- Hb. unfold enc_size. destruct ((1 <=? size) && (size <=? max)) eqn:Ec.
  - by_room. rewrite Hb by (zlens; lia). run_out. cbn [app]. rewrite u8_small by lia. repeat f_equal. lia.
  - cbn [app]. by_room. rewrite Hb by (zlens; lia). run_out. cbn [app]. by rewrite u8_small.
Qed.

Lemma bytes_body v o' : zlen v <= room o' -> (o ← write_bytes v (zlen v) o'; Ok (true, o)) = Ok (true, push o' v).
Proof. intros. by rewrite write_bytes_ok. Qed.

Lemma write_character_spec v o :
  in_range 64 (zlen v) -> 0 <= room o -> write_character v o = emit (encode (E_character v)) o.
Proof.
  intros Hv Hr. apply (size_spec header_embed_character header_character 64 (zlen v) (zlen v)
    (fun o => o ← write_bytes v (zlen v) o; Ok (true, o))); try done. intros. by apply bytes_body.
Qed.
Lemma write_octet_spec v o :
  in_range 64 (zlen v) -> 0 <= room o -> write_octet v o = emit (encode (E_octet v)) o.
Proof.
  intros Hv Hr. apply (size_spec header_embed_octet header_octet 16 (zlen v) (zlen v)
    (fun o => o ← write_bytes v (zlen v) o; Ok (true, o))); try done. intros. by apply bytes_body.
Qed.

Lemma write_array_begin_spec size o :
  in_range 64 size -> 0 <= room o -> write_array_begin size o = emit (encode (E_array size)) o.
Proof.
  intros Hs Hr. cbn [encode]. rewrite <- (app_nil_r (enc_size _ _ _ _)).
  rewrite <- (size_spec _ _ _ _ 0 (fun o => Ok (true, o))); try done.
  { unfold write_array_begin. change min_embed_array_size with 1. change max_embed_array_size with 32. by rewrite !Z.add_0_r. }
  intros o' _. unfold push. rewrite app_nil_r. change (zlen []) with 0. rewrite Z.sub_0_r. by destruct o'.
Qed.
Lemma write_row_begin_spec size o :
  in_range 64 size -> 0 <= room o -> write_row_begin size o = emit (encode (E_row size)) o.
Proof.
  intros Hs Hr. cbn [encode]. rewrite <- (app_nil_r (enc_size _ _ _ _)).
  rewrite <- (size_spec _ _ _ _ 0 (fun o => Ok (true, o))); try done.
  { unfold write_row_begin. change min_embed_row_size with 1. change max_embed_row_size with 32. by rewrite !Z.add_0_r. }
  intros o' _. unfold push. rewrite app_nil_r. change (zlen []) with 0. rewrite Z.sub_0_r. by destruct o'.
Qed.

(** ** The fixed-layout entries *)

Lemma write_fixed_specs o :
  0 <= room o ->
  write_end_of_contents o = emit (encode E_end) o /\ write_null o = emit (encode E_null) o /\
  (forall b, write_float4 b o = emit (encode (E_float4 b)) o) /\
  (forall b, write_float8 b o = emit (encode (E_float8 b)) o) /\
  (forall p i, write_blob p i o = emit (encode (E_blob p i)) o) /\
  (forall p i, write_clob p i o = emit (encode (E_clob p i)) o).
Proof.
  intros Hr. split_and!; intros; cbn [encode];
    [unfold write_end_of_contents|unfold write_null|unfold write_float4|unfold write_float8
    |unfold write_blob|unfold write_clob]; by_room; done.
Qed.

Lemma write_temporal_specs o z :
  0 <= room o -> int32 z ->
  (forall v, write_date v o = emit (encode (E_date v)) o) /\
  (forall v, write_time_of_day v o = emit (encode (E_time_of_day v)) o) /\
  (forall v, write_time_of_day_with_offset v z o = emit (encode (E_time_of_day_with_offset v z)) o) /\
  (forall v, write_time_point v o = emit (encode (E_time_point v)) o) /\
  (forall v, write_time_point_with_offset v z o = emit (encode (E_time_point_with_offset v z)) o) /\
  (forall v, write_datetime_interval v o = emit (encode (E_datetime_interval v)) o).
Proof.
  intros Hr Hz%int32_int64. split_and!; intros v; cbn [encode].
  - unfold write_date. pose proof (date_width v). by_room. done.
  - unfold write_time_of_day. pose proof (time_of_day_width v). by_room. done.
  - unfold write_time_of_day_with_offset. pose proof (time_of_day_width v). by_room. done.
  - unfold write_time_point. destruct (time_point_width v). by_room. by rewrite <- ?app_assoc.
  - unfold write_time_point_with_offset. destruct (time_point_width v). by_room. by rewrite <- ?app_assoc.
  - unfold write_datetime_interval. destruct (interval_width v) as (?%int32_int64 & ?%int32_int64 & ?%int32_int64 & ?).
    by_room. by rewrite <- ?app_assoc.
Qed.

(** ** Bit strings *)

Lemma mask_padding b r :
  is_byte b -> 0 <= r < 8 -> u8 (Z.land b (2 ^ 32 - 1 - u32 (Z.shiftl 255 r))) = b mod 2 ^ r.
Proof.
  intros Hb Hr.
  assert (forallb (fun r => forallb (fun b => u8 (Z.land b (2 ^ 32 - 1 - u32 (Z.shiftl 255 r))) =? b mod 2 ^ r)
    (seqZ 0 256)) (seqZ 0 8) = true) as H by (vm_compute; reflexivity).
  rewrite forallb_forall in H. specialize (H r). rewrite forallb_forall in H.
  apply Z.eqb_eq, H; apply list_elem_of_In, elem_of_seqZ; [lia|]. unfold is_byte, in_range in Hb. lia.
Qed.

Lemma write_blocks_ok v o :
  zlen (clear_padding (bit_size v) (block_data v)) <= room o ->
  write_blocks v o = Ok (true, push o (clear_padding (bit_size v) (block_data v))).
Proof using TO.
  pose proof (bitset_width v) as Hw. pose proof (bitset_blocks v) as Hn. unfold in_range in Hw.
  rewrite clear_padding_length by lia. intros Hr. unfold write_blocks, clear_padding, block_size. rewrite <- Hn in *.
  unfold zlen in Hn. destruct (Z.eqb_spec (bit_size v mod 8) 0) as [E|E].
  - rewrite write_bytes_ok by done. by rewrite take_ge by (unfold zlen; lia).
  - destruct (block_data v) as [|b l] eqn:Eb.
    { cbn in Hn. assert (bit_size v = 0) as Hz; [|by rewrite Hz in E].
      pose proof (Z.div_mod (bit_size v + 7) 8). pose proof (Z.mod_pos_bound (bit_size v + 7) 8). lia. }
    pose proof (bitset_last v ltac:(rewrite Eb; done)) as Hl. pose proof (bitset_bytes v) as Hby. rewrite Eb in Hl, Hby.
    rewrite last_lookup in Hl. unfold write_bytes. rewrite zlen_cons in *. pose proof (zlen_nonneg l).
    replace (room o <? _) with false by lia. cbn [mbind res_bind].
    replace (Z.to_nat (1 + zlen l - 1)) with (length l) by (unfold zlen; lia).
    replace (Z.to_nat (1 + zlen l) - 1)%nat with (length l) by (unfold zlen; lia).
    replace (pred (length (b :: l))) with (length l) in Hl by (cbn; lia). rewrite Hl.
    assert (zlen (take (length l) (b :: l)) = zlen l) as Ht by (unfold zlen; rewrite length_take; cbn; lia).
    rewrite fixed8_ok by (rewrite room_push, Ht; lia). cbn [mbind res_bind]. rewrite push_push. do 3 f_equal. cbn [default].
    rewrite mask_padding; [done| |apply Z.mod_pos_bound; lia].
    by eapply Forall_lookup_1.
Qed.

Lemma write_bit_spec v o : 0 <= room o -> write_bit v o = emit (encode (E_bit v)) o.
Proof using TO.
  intros Hr. pose proof (bitset_width v) as Hw. pose proof (bitset_blocks v) as Hn.
  apply (size_spec header_embed_bit header_bit 8 (bit_size v) (block_size v) (write_blocks v)); try done.
  - unfold in_range in Hw. rewrite clear_padding_length by lia. done.
  - apply write_blocks_ok.
Qed.

Lemma clear_padding_take size l :
  0 <= size -> clear_padding size (take (Z.to_nat ((size + 7) / 8)) l) = clear_padding size l.
Proof.
  intros Hs. unfold clear_padding. destruct (Z.eqb_spec (size mod 8) 0) as [E|E]; [rewrite take_take; f_equal; lia|].
  destruct (decide (size = 0)) as [->|]; [done|].
  assert (1 <= (size + 7) / 8) by (apply Z.div_le_lower_bound; lia).
  rewrite take_take, lookup_take_lt by lia. do 2 f_equal. lia.
Qed.

Lemma blocks_of_bits n (l : list byte) : 0 <= n <= zlen l * 8 -> (n + 7) / 8 <= zlen l.
Proof. intros. assert ((n + 7) / 8 < zlen l + 1); [|lia]. apply Z.div_lt_upper_bound; lia. Qed.

Lemma write_bit_blocks_spec l n o :
  entry_wf (E_bit_blocks l n) -> 0 <= room o -> write_bit_blocks l n o = emit (encode (E_bit_blocks l n)) o.
Proof using TO.
  intros (Hl & Hn & Hb) Hr. unfold write_bit_blocks. pose proof (zlen_nonneg l).
  assert (in_range 64 n) as Hn64 by (unfold in_range, limit_size in *; lia).
  pose proof (blocks_of_bits n l ltac:(lia)) as Hbl.
  rewrite wrap_small by (unfold in_range; lia). replace (zlen l * 8 <? n) with false by lia.
  rewrite write_bit_spec by done. cbn [encode]. rewrite bitset_of_size, bitset_of_blocks by done.
  unfold block_size. rewrite bitset_of_blocks, zlen_take by (done || (split; [apply Z.div_pos; lia|lia])).
  replace (_ <=? _) with true by lia. cbn [assert_that mbind res_bind]. unfold enc_bit. by rewrite clear_padding_take by lia.
Qed.

(** asking for more bits than the blocks hold is an error *)
Lemma write_bit_blocks_error l n o :
  zlen l * 8 < n -> zlen l * 8 < 2 ^ 64 -> write_bit_blocks l n o = Throw out_of_range.
Proof.
  intros Hn Hl. unfold write_bit_blocks. pose proof (zlen_nonneg l). rewrite wrap_small by (unfold in_range; lia).
  by replace (zlen l * 8 <? n) with true by lia.
Qed.

(** ** Decimals *)

Lemma octet_at_div c off : 0 <= off < 8 -> octet_at c off = (c / 256 ^ (7 - off)) mod 256.
Proof.
  intros. unfold octet_at. rewrite land_255, Z.shiftr_div_pow2 by lia. do 2 f_equal.
  change 256 with (2 ^ 8). rewrite <- Z.pow_mul_r by lia. f_equal. lia.
Qed.

(** the first non-zero octet tells how many octets a value takes *)
Lemma find_octet_spec n h :
  (n <= 8)%nat -> 0 <= h < 256 ^ Z.of_nat n ->
  match find_octet n (8 - Z.of_nat n) 0 h with
  | Some (off, oct) => 0 <= off < 8 /\ 8 - off <= Z.of_nat n /\ 1 <= oct < 256 /\
      oct * 256 ^ (7 - off) <= h < (oct + 1) * 256 ^ (7 - off)
  | None => h = 0
  end.
Proof.
  induction n as [|n IH]; intros Hn Hh; cbn [find_octet]; [cbn in Hh; lia|].
  rewrite octet_at_div by lia. replace (7 - (8 - Z.of_nat (S n))) with (Z.of_nat n) by lia.
  assert (0 < 256 ^ Z.of_nat n) as Hp by (apply Z.pow_pos_nonneg; lia).
  rewrite Nat2Z.inj_succ, Z.pow_succ_r in Hh by lia.
  pose proof (Z.div_mod h (256 ^ Z.of_nat n) ltac:(lia)) as Hd. pose proof (Z.mod_pos_bound h (256 ^ Z.of_nat n) Hp).
  assert (0 <= h / 256 ^ Z.of_nat n < 256) as Hq by (split; [apply Z.div_pos; lia|apply Z.div_lt_upper_bound; lia]).
  rewrite Z.mod_small by done. destruct (Z.eqb_spec (h / 256 ^ Z.of_nat n) 0) as [E|E]; cbn [negb].
  - replace (8 - Z.of_nat (S n) + 1) with (8 - Z.of_nat n) by lia.
    assert (h < 256 ^ Z.of_nat n) as Hlt by (rewrite E in Hd; lia).
    specialize (IH ltac:(lia) ltac:(lia)). destruct (find_octet _ _ _ _) as [[off oct]|]; [|done].
    destruct IH as (? & ? & ? & ?). split_and!; lia.
  - replace (7 - (8 - Z.of_nat (S n))) with (Z.of_nat n) by lia. split_and!; try lia; nia.
Qed.

(** replaces closed powers by their value *)
Ltac eval_pow :=
  repeat match goal with
    | |- context [?b ^ ?e] => let v := eval vm_compute in (b ^ e) in
        lazymatch v with Z0 => idtac | Zpos _ => idtac end; change (b ^ e) with v
    | H : context [?b ^ ?e] |- _ => let v := eval vm_compute in (b ^ e) in
        lazymatch v with Z0 => idtac | Zpos _ => idtac end; change (b ^ e) with v in H
    end.
Ltac octet_cases off :=
  assert (off = 0 \/ off = 1 \/ off = 2 \/ off = 3 \/ off = 4 \/ off = 5 \/ off = 6 \/ off = 7)
    as Hoff by lia; destruct Hoff as [->|[->|[->|[->|[->|[->|[->| ->]]]]]]].

Definition octet_size (found : option (Z * Z)) : Z :=
  match found with
  | Some (off, oct) => if 128 <=? oct then 17 - off else 16 - off
  | None => 9
  end.

Lemma octet_size_needed h lo :
  in_range 64 h -> in_range 64 lo -> octet_size (find_octet 8 0 0 h) = octets_needed (h * 2 ^ 64 + lo).
Proof.
  unfold in_range. intros Hh Hl. pose proof (find_octet_spec 8 h ltac:(lia) Hh) as H.
  change (8 - Z.of_nat 8) with 0 in H. symmetry. unfold octets_needed.
  destruct (find_octet 8 0 0 h) as [[off oct]|]; cbn [octet_size].
  - destruct H as (Ho & _ & Hoct & Hb). destruct (Z.leb_spec 128 oct); octet_cases off;
      (apply octets_from_unique; [lia|lia|lia|unfold fits; eval_pow; lia|unfold fits; eval_pow; lia]).
  - subst h. apply octets_from_unique; [lia|lia|lia|unfold fits; eval_pow; lia|by left].
Qed.

Lemma octet_at_not64 x off : in_range 64 x -> 0 <= off < 8 -> octet_at (not64 x) off = 255 - octet_at x off.
Proof.
  unfold in_range, not64. intros Hx Ho. rewrite !octet_at_div by done. octet_cases off; eval_pow;
    Z.div_mod_to_equations; lia.
Qed.

Lemma find_octet_not64 n off x :
  in_range 64 x -> 0 <= off -> off + Z.of_nat n <= 8 ->
  find_octet n off 255 x = (fun r => (fst r, 255 - snd r)) <$> find_octet n off 0 (not64 x).
Proof.
  intros Hx. revert off. induction n as [|n IH]; intros off Ho Hn; cbn [find_octet]; [done|].
  rewrite octet_at_not64 by (done || lia). rewrite IH by lia.
  destruct (Z.eqb_spec (octet_at x off) 255) as [->|E]; [done|]. cbn [negb].
  replace (255 - octet_at x off =? 0) with false by lia. cbn. do 2 f_equal. lia.
Qed.

Lemma has_small_spec v :
  has_small_coefficient v = (- 2 ^ 63 <=? coefficient v) && (coefficient v <? 2 ^ 63).
Proof using TO.
  pose proof (triple_high v) as Hh. pose proof (triple_low v) as Hl. unfold in_range in *.
  unfold has_small_coefficient, coefficient. destruct (Z.eqb_spec (coefficient_high v) 0) as [->|E]; cbn [negb];
    destruct (Z.ltb_spec (sign v) 0); try lia.
  - destruct (Z.leb_spec (coefficient_low v) (2 ^ 63 - 1)); lia.
  - destruct (Z.leb_spec (coefficient_low v) (2 ^ 63 - 1)); lia.
Qed.

Lemma small_coefficient v :
  has_small_coefficient v = true ->
  int64 (coefficient v) /\
  (if sign v <? 0 then negate64 (as_int64 (coefficient_low v)) else as_int64 (coefficient_low v)) = coefficient v.
Proof using TO.
  intros Hs. pose proof Hs as Hc. rewrite has_small_spec in Hc. split; [unfold int64; lia|].
  pose proof (triple_low v) as Hl. unfold in_range, has_small_coefficient, coefficient, negate64, as_int64, wrap in *.
  destruct (Z.eqb_spec (coefficient_high v) 0) as [->|E]; cbn [negb] in Hs; [|done].
  destruct (Z.leb_spec (coefficient_low v) (2 ^ 63 - 1)), (Z.ltb_spec (sign v) 0); try lia.
  1,3: assert (coefficient_low v = 0 \/ 1 <= coefficient_low v <= 2 ^ 63) as [E|E] by lia; [by rewrite E|];
    destruct (Z.ltb_spec (coefficient_low v) (2 ^ 63)) as [Hlt|Hge]; try lia.
  - assert ((- coefficient_low v) mod 2 ^ 64 = 2 ^ 64 - coefficient_low v) as ->
        by (rewrite <- (Z_mod_plus_full _ 1), Z.mod_small; lia).
    replace (_ <? _) with false by lia. lia.
  - by assert (coefficient_low v = 2 ^ 63) as -> by lia.
  - replace (_ <? _) with true by lia. lia.
Qed.

Lemma make_signed_spec v :
  has_small_coefficient v = false ->
  exists hi lo m, make_signed_coefficient_full v = (hi, lo, octets_needed (coefficient v)) /\
    in_range 64 hi /\ in_range 64 lo /\ coefficient v = hi * 2 ^ 64 + lo + m * 2 ^ 128 /\
    (if sign v <? 0 then m = -1 else m = 0).
Proof using TO.
  intros Hs. rewrite has_small_spec in Hs. pose proof (triple_high v) as Hh. pose proof (triple_low v) as Hl.
  unfold make_signed_coefficient_full, coefficient in *. destruct (Z.ltb_spec (sign v) 0) as [Hn|Hp].
  - replace (0 <=? sign v) with false by lia. set (hi := coefficient_high v) in *. set (lo := coefficient_low v) in *.
    set (lo' := u64 (not64 lo + 1)). set (hi' := if lo' =? 0 then u64 (not64 hi + 1) else not64 hi).
    assert (in_range 64 hi' /\ in_range 64 lo' /\ - (hi * 2 ^ 64 + lo) = hi' * 2 ^ 64 + lo' + -1 * 2 ^ 128) as (H1 & H2 & H3).
    { unfold hi', lo', not64, wrap, in_range in *. destruct (decide (lo = 0)) as [E|E].
      - rewrite E. change ((2 ^ 64 - 1 - 0 + 1) mod 2 ^ 64) with 0. cbn [Z.eqb]. rewrite Z.mod_small by lia. lia.
      - rewrite (Z.mod_small (2 ^ 64 - 1 - lo + 1)) by lia. replace (_ =? 0) with false by lia. lia. }
    exists hi', lo', (-1). split_and!; try done. rewrite find_octet_not64 by (done || lia).
    assert (octets_needed (- (hi * 2 ^ 64 + lo)) = octet_size (find_octet 8 0 0 (not64 hi'))) as ->.
    { rewrite <- octets_needed_opp. unfold in_range in *. rewrite (octet_size_needed _ (not64 lo')) by (unfold in_range, not64; lia).
      f_equal. unfold not64. lia. }
    pose proof (find_octet_spec 8 (not64 hi') ltac:(lia) ltac:(unfold not64, in_range in *; cbn; lia)) as Hf.
    change (8 - Z.of_nat 8) with 0 in Hf. destruct (find_octet 8 0 0 (not64 hi')) as [[off oct]|]; [|done]. cbn.
    destruct Hf as (_ & _ & Ho & _). f_equal. pose proof (top_bit (255 - oct) ltac:(unfold is_byte, in_range; lia)).
    destruct (Z.land (255 - oct) 128 =? 0); destruct (Z.leb_spec 128 oct); cbn in *; lia.
  - replace (0 <=? sign v) with true by lia. exists (coefficient_high v), (coefficient_low v), 0. split_and!; try done; [|lia].
    rewrite <- octet_size_needed by done. unfold in_range in Hh.
    pose proof (find_octet_spec 8 (coefficient_high v) ltac:(lia) Hh) as Hf. change (8 - Z.of_nat 8) with 0 in Hf.
    destruct (find_octet 8 0 0 (coefficient_high v)) as [[off oct]|]; [|done]. cbn.
    destruct Hf as (_ & _ & Ho & _). rewrite top_bit by (unfold is_byte, in_range; lia). destruct (128 <=? oct); f_equal; lia.
Qed.

Lemma put_octets_be n off c acc : 0 <= off -> put_octets n off c acc = be_bytes n (c / 256 ^ off) ++ acc.
Proof.
  revert off acc. induction n as [|n IH]; intros off acc Ho; cbn [put_octets]; [done|].
  rewrite IH, u8_div by lia. unfold be_bytes. cbn [le_bytes]. rewrite reverse_cons, <- app_assoc. cbn [app].
  do 3 f_equal. rewrite Z.pow_add_r, Z.div_div by lia. done.
Qed.

(** the sign octet of the longest form and the octets of the coefficient *)
Lemma full_octets v hi lo m n :
  n = octets_needed (coefficient v) -> in_range 64 hi -> in_range 64 lo -> coefficient v = hi * 2 ^ 64 + lo + m * 2 ^ 128 ->
  (if sign v <? 0 then m = -1 else m = 0) ->
  be_bytes (Z.to_nat n) (coefficient v) =
  if 8 * 2 <? n then u8 (if 0 <=? sign v then 0 else 255) :: put_octets (Z.to_nat (n - 1 - 8)) 0 hi (put_octets 8 0 lo [])
  else put_octets (Z.to_nat (n - 8)) 0 hi (put_octets 8 0 lo []).
Proof using TO.
  intros En Hhi Hlo Hc Hm. destruct (octets_needed_range _ (coefficient_range v)) as [Hn _]. rewrite <- En in Hn.
  rewrite !put_octets_be, !Z.div_1_r, app_nil_r by lia. unfold in_range in Hhi, Hlo.
  destruct (Z.ltb_spec (8 * 2) n) as [Hl|Hl].
  - assert (n = 17) as -> by lia. change (Z.to_nat (17 - 1 - 8)) with 8%nat. change (Z.to_nat 17) with 17%nat.
    rewrite (be_bytes_S 16). pose proof (be_bytes_halves 8 (coefficient v) hi lo m ltac:(lia) Hlo Hc) as Hb.
    cbn [Nat.add] in Hb. rewrite Hb. f_equal. pose proof (coefficient_range v).
    change (256 ^ Z.of_nat 16) with (2 ^ 128).
    unfold coefficient in *. pose proof (triple_high v). pose proof (triple_low v). unfold in_range in *.
    destruct (Z.ltb_spec (sign v) 0); [replace (0 <=? sign v) with false by lia|replace (0 <=? sign v) with true by lia].
    + assert (_ / 2 ^ 128 = -1) as ->; [|done]. symmetry. apply (Z.div_unique _ _ _ (hi * 2 ^ 64 + lo)); lia.
    + rewrite Z.div_small by lia. done.
  - replace (Z.to_nat n) with (8 + Z.to_nat (n - 8))%nat by lia.
    by rewrite (be_bytes_halves _ _ hi lo m) by (done || lia).
Qed.

Lemma write_decimal_spec v o : 0 <= room o -> write_decimal v o = emit (enc_decimal v) o.
Proof using TO.
  intros Hr. unfold write_decimal, enc_decimal. rewrite <- has_small_spec. pose proof (triple_exponent v) as He%int32_int64.
  destruct (has_small_coefficient v) eqn:Hs.
  - destruct (small_coefficient v Hs) as [Hc ->]. destruct (exponent v =? 0); [by apply write_int_spec|].
    by_room. by rewrite <- ?app_assoc.
  - destruct (make_signed_spec v Hs) as (hi & lo & m & -> & Hhi & Hlo & Hc & Hm).
    destruct (octets_needed_range _ (coefficient_range v)) as [Hn _].
    set (n := octets_needed (coefficient v)) in *. assert (in_range 64 n) as Hn64 by (unfold in_range; lia).
    replace (8 <? n) with true by lia. replace (n <=? 8 * 2 + 1) with true by lia. cbn [assert_that mbind res_bind].
    pose proof (full_octets v hi lo m n eq_refl Hhi Hlo Hc Hm) as Hf.
    destruct (Z.ltb_spec (8 * 2) n); by_room; rewrite Hf, <- ?app_assoc; done.
Qed.

(** every writer, by the entry it writes *)
Definition write_entry (e : entry) (o : out) : res (bool * out) :=
  match e with
  | E_end => write_end_of_contents o
  | E_null => write_null o
  | E_int v => write_int v o
  | E_float4 bits => write_float4 bits o
  | E_float8 bits => write_float8 bits o
  | E_decimal v => write_decimal v o
  | E_character v => write_character v o
  | E_octet v => write_octet v o
  | E_bit v => write_bit v o
  | E_bit_blocks blocks n => write_bit_blocks blocks n o
  | E_date v => write_date v o
  | E_time_of_day v => write_time_of_day v o
  | E_time_of_day_with_offset v z => write_time_of_day_with_offset v z o
  | E_time_point v => write_time_point v o
  | E_time_point_with_offset v z => write_time_point_with_offset v z o
  | E_datetime_interval v => write_datetime_interval v o
  | E_array size => write_array_begin size o
  | E_row size => write_row_begin size o
  | E_blob p i => write_blob p i o
  | E_clob p i => write_clob p i o
  end.

Lemma write_entry_emit e o : entry_wf e -> 0 <= room o -> write_entry e o = emit (encode e) o.
Proof using TO.
  intros Hwf Hr. destruct (write_fixed_specs o Hr) as (H1 & H2 & H3 & H4 & H5 & H6).
  assert (int32 0) as H0 by (unfold int32; lia).
  destruct (write_temporal_specs o 0 Hr H0) as (T1 & T2 & _ & T4 & _ & T6).
  destruct e; cbn [entry_wf write_entry] in *; try done; unfold limit_size in *.
  - by apply write_int_spec.
  - by apply write_decimal_spec.
  - apply write_character_spec; [|done]. pose proof (zlen_nonneg v). unfold in_range. lia.
  - apply write_octet_spec; [|done]. pose proof (zlen_nonneg v). unfold in_range. lia.
  - by apply write_bit_spec.
  - by apply write_bit_blocks_spec.
  - by apply (write_temporal_specs o timezone_offset).
  - by apply (write_temporal_specs o timezone_offset).
  - apply write_array_begin_spec; [unfold in_range; lia|done].
  - apply write_row_begin_spec; [unfold in_range; lia|done].
Qed.

(** C30: the output functions implement the format.  Each either writes exactly the
    bytes the format gives the entry, or returns false with the position unchanged
    when they do not fit; no assertion fails.  For a decimal the format is the shortest
    two's complement octet string of its signed coefficient. *)
Theorem value_output_format e o :
  entry_wf e -> 0 <= room o ->
  write_entry e o = if room o <? zlen (encode e) then Ok (false, o) else Ok (true, push o (encode e)).
Proof using TO. apply write_entry_emit. Qed.

End Specs.
End ValueOutput.
