(* ===== verification/ValueInput.v ===== *)
(** The value readers of mock/jogasaki/serializer/value_input.cpp.

    The input is the list of bytes between the position and the end; a reader
    returns its value and the bytes after it.  An exception leaves the position
    where it was. *)
From S2P Require Import Prelude Base128 ValueIo ValueFormat.

Module ValueInput.
Import Base128.

Definition peek_type (bs : list byte) : res entry_type :=
  match bs with
  | [] => throw_buffer_underflow
  | head :: _ =>
      if head <=? header_embed_positive_int + mask_embed_positive_int then Ok int_
      else if head <=? header_embed_character + mask_embed_character then Ok character
      else if head <=? header_embed_row + mask_embed_row then Ok row
      else if head <=? header_embed_array + mask_embed_array then Ok array
      else if head <=? header_embed_negative_int + mask_embed_negative_int then Ok int_
      else if head <=? header_embed_octet + mask_embed_octet then Ok octet
      else if head <=? header_embed_bit + mask_embed_bit then Ok bit
      else if head =? header_int then Ok int_
      else if head =? header_float4 then Ok float4
      else if head =? header_float8 then Ok float8
      else if head =? header_decimal_compact then Ok decimal
      else if head =? header_decimal then Ok decimal
      else if head =? header_character then Ok character
      else if head =? header_octet then Ok octet
      else if head =? header_bit then Ok bit
      else if head =? header_date then Ok date
      else if head =? header_time_of_day then Ok time_of_day
      else if head =? header_time_of_day_with_offset then Ok time_of_day_with_offset
      else if head =? header_time_point then Ok time_point
      else if head =? header_time_point_with_offset then Ok time_point_with_offset
      else if head =? header_datetime_interval then Ok datetime_interval
      else if head =? header_row then Ok row
      else if head =? header_array then Ok array
      else if head =? header_clob then Ok clob
      else if head =? header_blob then Ok blob
      else if head =? header_end_of_contents then Ok end_of_contents
      else if head =? header_unknown then Ok null
      else throw_unrecognized_entry head
  end.

Definition requires_entry (expect : entry_type) (bs : list byte) : res unit :=
  ret ← peek_type bs;
  if bool_decide (ret = expect) then Ok tt
  else Throw (runtime_error ("inconsistent entry type: retrieved '" ++ to_string_view ret
                              ++ "', but expected is '" ++ to_string_view expect ++ "'")%string).

(** [*position] and the iterator after it: dereferencing the end is undefined *)
Definition next (bs : list byte) : res (byte * list byte) :=
  match bs with [] => Undefined | b :: bs => Ok (b, bs) end.

Definition extract (first header mask min_value : Z) : option Z :=
  if (header <=? first) && (first <=? header + mask) then Some (first - header + min_value) else None.

Definition read_sint (bs : list byte) : res (Z * list byte) :=
  match read_signed bs with Some r => Ok r | None => throw_buffer_underflow end.

Definition read_uint (bs : list byte) : res (Z * list byte) :=
  match read_unsigned bs with Some r => Ok r | None => throw_buffer_underflow end.

Definition read_sint32 (bs : list byte) : res (Z * list byte) :=
  '(value, bs) ← read_sint bs;
  if (value <? - 2 ^ 31) || (2 ^ 31 - 1 <? value) then throw_int32_value_out_of_range value else Ok (value, bs).

Definition read_size (bs : list byte) : res (Z * list byte) :=
  '(size, bs) ← read_uint bs;
  if limit_size <=? size then throw_size_out_of_range size limit_size else Ok (u32 size, bs).

Definition read_bytes (size : Z) (bs : list byte) : res (list byte * list byte) :=
  if zlen bs <? size then throw_buffer_underflow
  else Ok (take (Z.to_nat size) bs, drop (Z.to_nat size) bs).

Fixpoint read_fixed_loop (n : nat) (i size result : Z) (bs : list byte) : res (Z * list byte) :=
  match n with
  | O => Ok (result, bs)
  | S n => '(value, bs) ← next bs; read_fixed_loop n (i + 1) size (Z.lor result (Z.shiftl value ((size - i) * 8))) bs
  end.
Definition read_fixed (size : nat) (bs : list byte) : res (Z * list byte) :=
  if zlen bs <? Z.of_nat size then throw_buffer_underflow else read_fixed_loop size 1 (Z.of_nat size) 0 bs.

Definition read_end_of_contents (bs : list byte) : res (unit * list byte) :=
  _ ← requires_entry end_of_contents bs;
  '(_, bs) ← next bs; Ok (tt, bs).

Definition read_null (bs : list byte) : res (unit * list byte) :=
  _ ← requires_entry null bs;
  '(_, bs) ← next bs; Ok (tt, bs).

Definition read_int (bs : list byte) : res (Z * list byte) :=
  _ ← requires_entry int_ bs;
  '(first, iter) ← next bs;
  match extract first header_embed_positive_int mask_embed_positive_int min_embed_positive_int_value with
  | Some value => Ok (value, iter)
  | None =>
      match extract first header_embed_negative_int mask_embed_negative_int min_embed_negative_int_value with
      | Some value => Ok (value, iter)
      | None => _ ← assert_that (first =? header_int); read_sint iter
      end
  end.

Definition read_float4 (bs : list byte) : res (Z * list byte) :=
  _ ← requires_entry float4 bs;
  '(_, iter) ← next bs;
  read_fixed 4 iter.

Definition read_float8 (bs : list byte) : res (Z * list byte) :=
  _ ← requires_entry float8 bs;
  '(_, iter) ← next bs;
  read_fixed 8 iter.

Definition read_decimal_coefficient (bs : list byte) : res (list byte * list byte) :=
  '(size, bs) ← read_uint bs;
  if (size =? 0) || (max_decimal_coefficient_size <? size) then throw_decimal_coefficient_out_of_range size
  else
    '(bytes, bs) ← read_bytes size bs;
    if negb (size =? max_decimal_coefficient_size) then Ok (bytes, bs)
    else
      '(first, rest) ← next bytes;
      if first =? 0 then Ok (bytes, bs)
      else if (first =? 255) && existsb (fun c => negb (c =? 0)) rest then Ok (bytes, bs)
      else throw_decimal_coefficient_out_of_range size.

(** [c |= octet << shift; shift += 8] over octets, least significant first *)
Fixpoint get_octets (l : list byte) (shift c : Z) : Z :=
  match l with
  | [] => c
  | oct :: l => get_octets l (shift + 8) (Z.lor c (u64 (Z.shiftl oct shift)))
  end.

(** the 128-bit coefficient of the two's complement octets, and its sign *)
Definition decode_coefficient (coefficient : list byte) : res (bool * Z * Z) :=
  let size := zlen coefficient in
  let c_lo := get_octets (take 8 (reverse coefficient)) 0 0 in
  let c_hi := get_octets (take 8 (drop 8 (reverse coefficient))) 0 0 in
  '(first, _) ← next coefficient;
  let negative := negb (Z.land first 128 =? 0) in
  if negative then
    _ ← assert_that (negb (size <? 8 * 2) || (8 <=? size));
    let c_hi := if size <? 8 * 2 then Z.lor c_hi (u64 (Z.shiftl (2 ^ 64 - 1) ((size - 8) * 8))) else c_hi in
    let c_lo := u64 (not64 c_lo + 1) in
    let c_hi := not64 c_hi in
    let c_hi := if c_lo =? 0 then u64 (c_hi + 1) else c_hi in
    _ ← assert_that (negb (c_lo =? 0) || negb (c_hi =? 0));
    Ok (true, c_hi, c_lo)
  else Ok (false, c_hi, c_lo).

Section Values.
Context `{Takatori}.

Definition read_decimal (bs : list byte) : res (Triple * list byte) :=
  ty ← peek_type bs;
  if bool_decide (ty = int_) then '(value, bs) ← read_int bs; Ok (triple_of_int value 0, bs)
  else
    _ ← requires_entry decimal bs;
    '(first, iter) ← next bs;
    if first =? header_decimal_compact then
      '(exponent, iter) ← read_sint32 iter;
      '(coefficient, iter) ← read_sint iter;
      Ok (triple_of_int coefficient exponent, iter)
    else
      _ ← assert_that (first =? header_decimal);
      '(exponent, iter) ← read_sint32 iter;
      '(coefficient, iter) ← read_decimal_coefficient iter;
      '(negative, c_hi, c_lo) ← decode_coefficient coefficient;
      Ok (triple_of (if (negative : bool) then -1 else 1) c_hi c_lo exponent, iter).

End Values.

Definition read_character (bs : list byte) : res (list byte * list byte) :=
  _ ← requires_entry character bs;
  '(first, iter) ← next bs;
  '(size, iter) ←
    match extract first header_embed_character mask_embed_character min_embed_character_size with
    | Some value => Ok (value, iter)
    | None => _ ← assert_that (first =? header_character); read_size iter
    end;
  read_bytes size iter.

Definition read_octet (bs : list byte) : res (list byte * list byte) :=
  _ ← requires_entry octet bs;
  '(first, iter) ← next bs;
  '(size, iter) ←
    match extract first header_embed_octet mask_embed_octet min_embed_octet_size with
    | Some value => Ok (value, iter)
    | None => _ ← assert_that (first =? header_octet); read_size iter
    end;
  read_bytes size iter.

Section Values'.
Context `{Takatori}.

Definition read_bit (bs : list byte) : res (Bitset * list byte) :=
  _ ← requires_entry bit bs;
  '(first, iter) ← next bs;
  '(size, iter) ←
    match extract first header_embed_bit mask_embed_bit min_embed_bit_size with
    | Some value => Ok (value, iter)
    | None => _ ← assert_that (first =? header_bit); read_size iter
    end;
  '(result, iter) ← read_bytes ((size + 7) / 8) iter;
  Ok (bitset_of result size, iter).

Definition read_date (bs : list byte) : res (Date * list byte) :=
  _ ← requires_entry date bs;
  '(_, iter) ← next bs;
  '(offset, iter) ← read_sint iter;
  Ok (date_of offset, iter).

Definition read_time_of_day (bs : list byte) : res (TimeOfDay * list byte) :=
  _ ← requires_entry time_of_day bs;
  '(_, iter) ← next bs;
  '(offset, iter) ← read_uint iter;
  Ok (time_of_day_of offset, iter).

Definition read_time_of_day_with_offset (bs : list byte) : res ((TimeOfDay * Z) * list byte) :=
  _ ← requires_entry time_of_day_with_offset bs;
  '(_, iter) ← next bs;
  '(offset, iter) ← read_uint iter;
  '(timezone_offset, iter) ← read_sint32 iter;
  Ok ((time_of_day_of offset, timezone_offset), iter).

Definition read_time_point (bs : list byte) : res (TimePoint * list byte) :=
  _ ← requires_entry time_point bs;
  '(_, iter) ← next bs;
  '(offset, iter) ← read_sint iter;
  '(adjustment, iter) ← read_uint iter;
  Ok (time_point_of offset adjustment, iter).

Definition read_time_point_with_offset (bs : list byte) : res ((TimePoint * Z) * list byte) :=
  _ ← requires_entry time_point_with_offset bs;
  '(_, iter) ← next bs;
  '(offset, iter) ← read_sint iter;
  '(adjustment, iter) ← read_uint iter;
  '(timezone_offset, iter) ← read_sint32 iter;
  Ok ((time_point_of offset adjustment, timezone_offset), iter).

Definition read_datetime_interval (bs : list byte) : res (Interval * list byte) :=
  _ ← requires_entry datetime_interval bs;
  '(_, iter) ← next bs;
  '(year, iter) ← read_sint32 iter;
  '(month, iter) ← read_sint32 iter;
  '(day, iter) ← read_sint32 iter;
  '(time, iter) ← read_sint iter;
  Ok (interval_of year month day time, iter).

End Values'.

Definition read_array_begin (bs : list byte) : res (Z * list byte) :=
  _ ← requires_entry array bs;
  '(first, iter) ← next bs;
  match extract first header_embed_array mask_embed_array min_embed_array_size with
  | Some size => Ok (size, iter)
  | None => _ ← assert_that (first =? header_array); read_size iter
  end.

Definition read_row_begin (bs : list byte) : res (Z * list byte) :=
  _ ← requires_entry row bs;
  '(first, iter) ← next bs;
  match extract first header_embed_row mask_embed_row min_embed_row_size with
  | Some size => Ok (size, iter)
  | None => _ ← assert_that (first =? header_row); read_size iter
  end.

(** * The readers invert the format *)

Lemma requires_ok ty h bs : peek_type [h] = Ok ty -> requires_entry ty (h :: bs) = Ok tt.
Proof.
  intros Hp. unfold requires_entry. change (peek_type (h :: bs)) with (peek_type [h]). rewrite Hp.
  cbn [mbind res_bind]. by rewrite bool_decide_true.
Qed.

Lemma read_sint_ok v rest : int64 v -> read_sint (sbytes v ++ rest) = Ok (v, rest).
Proof. intros. unfold read_sint. by rewrite read_sbytes. Qed.
Lemma read_uint_ok v rest : in_range 64 v -> read_uint (ubytes v ++ rest) = Ok (v, rest).
Proof. intros. unfold read_uint. by rewrite read_ubytes. Qed.
Lemma read_sint32_ok v rest : int32 v -> read_sint32 (sbytes v ++ rest) = Ok (v, rest).
Proof.
  intros Hv. unfold read_sint32. rewrite read_sint_ok by (by apply int32_int64). cbn [mbind res_bind].
  unfold int32 in Hv. by replace ((v <? - 2 ^ 31) || (2 ^ 31 - 1 <? v)) with false by lia.
Qed.
Lemma read_size_ok v rest : 0 <= v < limit_size -> read_size (ubytes v ++ rest) = Ok (v, rest).
Proof.
  unfold limit_size. intros Hv. unfold read_size, limit_size. rewrite read_uint_ok by (unfold in_range; lia).
  cbn [mbind res_bind]. replace (_ <=? v) with false by lia. by rewrite wrap_small by (unfold in_range; lia).
Qed.
Lemma read_bytes_ok l n rest : zlen l = n -> read_bytes n (l ++ rest) = Ok (l, rest).
Proof.
  intros <-. unfold read_bytes. rewrite zlen_app. pose proof (zlen_nonneg rest).
  replace (_ <? zlen l) with false by lia. unfold zlen. rewrite Nat2Z.id. by rewrite take_app_length, drop_app_length.
Qed.

Lemma read_fixed_loop_ok n i size r v rest :
  0 <= r -> size - i = Z.of_nat n - 1 ->
  read_fixed_loop n i size (r * 256 ^ Z.of_nat n) (be_bytes n v ++ rest) = Ok (r * 256 ^ Z.of_nat n + v mod 256 ^ Z.of_nat n, rest).
Proof.
  revert i r. induction n as [|n IH]; intros i r Hr Hi.
  - cbn. rewrite Z.mod_1_r. by rewrite Z.add_0_r.
  - rewrite be_bytes_S. cbn [app read_fixed_loop next mbind res_bind].
    assert (0 < 256 ^ Z.of_nat n) as Hp by (apply Z.pow_pos_nonneg; lia).
    pose proof (Z.mod_pos_bound (v / 256 ^ Z.of_nat n) 256 ltac:(lia)) as Hb. set (b := (v / 256 ^ Z.of_nat n) mod 256) in *.
    assert (256 ^ Z.of_nat (S n) = 2 ^ (8 * Z.of_nat (S n))) as E1 by (change 256 with (2 ^ 8); by rewrite <- Z.pow_mul_r by lia).
    assert (256 ^ Z.of_nat n = 2 ^ (8 * Z.of_nat n)) as E2 by (change 256 with (2 ^ 8); by rewrite <- Z.pow_mul_r by lia).
    assert (256 ^ Z.of_nat (S n) = 256 * 256 ^ Z.of_nat n) as E3 by (rewrite Nat2Z.inj_succ, Z.pow_succ_r by lia; done).
    replace (Z.lor (r * 256 ^ Z.of_nat (S n)) (Z.shiftl b ((size - i) * 8))) with ((r * 256 + b) * 256 ^ Z.of_nat n).
    2:{ rewrite Z.lor_comm, E1, <- Z.shiftl_mul_pow2 by lia. replace ((size - i) * 8) with (8 * Z.of_nat n) by lia.
        rewrite (Z.shiftl_mul_pow2 b) by lia. rewrite lor_add by (try lia; rewrite <- E1, <- E2, E3; nia).
        rewrite <- E1, <- E2, E3. lia. }
    rewrite IH by lia. do 2 f_equal. rewrite E3, (Z.mul_comm 256), Z.rem_mul_r by lia. fold b. lia.
Qed.
Lemma read_fixed_ok n v rest : 0 <= v < 256 ^ Z.of_nat n -> read_fixed n (be_bytes n v ++ rest) = Ok (v, rest).
Proof.
  intros Hv. unfold read_fixed. rewrite zlen_app, zlen_be_bytes. pose proof (zlen_nonneg rest).
  replace (_ <? _) with false by lia. rewrite <- (Z.mul_0_l (256 ^ Z.of_nat n)).
  rewrite (read_fixed_loop_ok n 1 (Z.of_nat n) 0 v rest) by lia. by rewrite Z.mod_small.
Qed.

Ltac run_in :=
  repeat first
    [ progress cbn [mbind res_bind next app assert_that]
    | rewrite <- app_assoc
    | rewrite requires_ok by done
    | rewrite read_sint_ok by done
    | rewrite read_uint_ok by done
    | rewrite read_sint32_ok by done
    | rewrite read_size_ok by done
    | rewrite read_bytes_ok by done
    | rewrite read_fixed_ok by done ].

(** splits the ladder of header ranges *)
Ltac head_cases :=
  unfold peek_type, extract; autounfold with value_consts;
  repeat match goal with
    | |- context [?a <=? ?b] => destruct (Z.leb_spec a b); try lia
    end.

Lemma read_int_ok v rest : int64 v -> read_int (enc_int v ++ rest) = Ok (v, rest).
Proof.
  intros Hv. unfold enc_int. destruct ((0 <=? v) && (v <=? 63)) eqn:Ep; [|destruct ((-16 <=? v) && (v <=? -1)) eqn:En].
  - unfold read_int. cbn [app]. rewrite requires_ok by (head_cases; done). run_in.
    head_cases. cbn [andb]. do 2 f_equal. lia.
  - unfold read_int. cbn [app]. rewrite requires_ok by (head_cases; done). run_in.
    head_cases. cbn [andb]. do 2 f_equal. lia.
  - unfold read_int. run_in. done.
Qed.

Section Specs.
Context {T : Takatori} {TO : TakatoriOk T}.

(** the size of an entry, from the header byte or from its field *)
Ltac read_sized :=
  unfold enc_size;
  match goal with |- context [(1 <=? ?s) && (?s <=? ?m)] => destruct ((1 <=? s) && (s <=? m)) eqn:? end; cbn [app];
  [ rewrite requires_ok by (head_cases; done); run_in; head_cases; cbn [andb]; run_in
  | rewrite requires_ok by (head_cases; done); run_in;
    match goal with |- context [extract ?a ?b ?c ?d] => change (extract a b c d) with (@None Z) end;
    rewrite Z.eqb_refl; run_in ].

Lemma embedded_size h s : h + (s - 1) - h + 1 = s.
Proof. lia. Qed.

Lemma read_character_ok v rest :
  zlen v < limit_size -> read_character (encode (E_character v) ++ rest) = Ok (v, rest).
Proof.
  intros Hv. assert (0 <= zlen v < limit_size) by (pose proof (zlen_nonneg v); lia).
  unfold read_character. cbn [encode]. rewrite <- app_assoc. read_sized; [|done].
  rewrite read_bytes_ok by lia. done.
Qed.
Lemma read_octet_ok v rest :
  zlen v < limit_size -> read_octet (encode (E_octet v) ++ rest) = Ok (v, rest).
Proof.
  intros Hv. assert (0 <= zlen v < limit_size) by (pose proof (zlen_nonneg v); lia).
  unfold read_octet. cbn [encode]. rewrite <- app_assoc. read_sized; [|done].
  rewrite read_bytes_ok by lia. done.
Qed.
Lemma read_array_begin_ok n rest :
  0 <= n < limit_size -> read_array_begin (encode (E_array n) ++ rest) = Ok (n, rest).
Proof. intros Hn. unfold read_array_begin. cbn [encode]. read_sized; [|done]. do 2 f_equal. lia. Qed.
Lemma read_row_begin_ok n rest :
  0 <= n < limit_size -> read_row_begin (encode (E_row n) ++ rest) = Ok (n, rest).
Proof. intros Hn. unfold read_row_begin. cbn [encode]. read_sized; [|done]. do 2 f_equal. lia. Qed.

Lemma read_bit_ok n l rest :
  0 <= n < limit_size -> (n + 7) / 8 <= zlen l ->
  read_bit (enc_bit n l ++ rest) = Ok (bitset_of (clear_padding n l) n, rest).
Proof.
  intros Hn Hl. pose proof (clear_padding_length n l ltac:(lia) Hl) as Hc.
  unfold read_bit, enc_bit. rewrite <- app_assoc. read_sized.
  - rewrite embedded_size, read_bytes_ok by done. done.
  - done.
Qed.

Lemma read_fixed_specs rest :
  read_end_of_contents (encode E_end ++ rest) = Ok (tt, rest) /\ read_null (encode E_null ++ rest) = Ok (tt, rest) /\
  (forall b, in_range 32 b -> read_float4 (encode (E_float4 b) ++ rest) = Ok (b, rest)) /\
  (forall b, in_range 64 b -> read_float8 (encode (E_float8 b) ++ rest) = Ok (b, rest)).
Proof.
  split_and!; [done|done| |]; intros b Hb; cbn [encode app]; [unfold read_float4|unfold read_float8]; by run_in.
Qed.

Lemma read_temporal_specs rest z :
  int32 z ->
  (forall v, read_date (encode (E_date v) ++ rest) = Ok (v, rest)) /\
  (forall v, read_time_of_day (encode (E_time_of_day v) ++ rest) = Ok (v, rest)) /\
  (forall v, read_time_of_day_with_offset (encode (E_time_of_day_with_offset v z) ++ rest) = Ok ((v, z), rest)) /\
  (forall v, read_time_point (encode (E_time_point v) ++ rest) = Ok (v, rest)) /\
  (forall v, read_time_point_with_offset (encode (E_time_point_with_offset v z) ++ rest) = Ok ((v, z), rest)) /\
  (forall v, read_datetime_interval (encode (E_datetime_interval v) ++ rest) = Ok (v, rest)).
Proof using TO.
  intros Hz. split_and!; intros v; cbn [encode].
  - unfold read_date. pose proof (date_width v). run_in. by rewrite date_eta.
  - unfold read_time_of_day. pose proof (time_of_day_width v). run_in. by rewrite time_of_day_eta.
  - unfold read_time_of_day_with_offset. pose proof (time_of_day_width v). run_in. by rewrite time_of_day_eta.
  - unfold read_time_point. destruct (time_point_width v). run_in. by rewrite time_point_eta.
  - unfold read_time_point_with_offset. destruct (time_point_width v). run_in. by rewrite time_point_eta.
  - unfold read_datetime_interval. destruct (interval_width v) as (? & ? & ? & ?). run_in. by rewrite interval_eta.
Qed.

(** ** Decimals *)

Lemma get_octets_ok l shift c :
  Forall is_byte l -> 0 <= c < 2 ^ shift -> 0 <= shift -> shift + 8 * zlen l <= 64 ->
  get_octets l shift c = c + le_Z l * 2 ^ shift.
Proof.
  intros Hl. revert shift c. induction Hl as [|b l Hb _ IH]; intros shift c Hc Hs Hn; cbn [get_octets le_Z]; [lia|].
  unfold is_byte, in_range in Hb. rewrite zlen_cons in Hn. pose proof (zlen_nonneg l).
  assert (2 ^ (shift + 8) = 2 ^ shift * 256) as E by (by rewrite Z.pow_add_r by lia).
  assert (2 ^ shift * 256 <= 2 ^ 64) as Hp by (rewrite <- E; apply Z.pow_le_mono_r; lia).
  rewrite wrap_small by (rewrite Z.shiftl_mul_pow2 by lia; unfold in_range; nia).
  rewrite lor_add by lia. rewrite IH by (rewrite ?E; nia). rewrite E. lia.
Qed.

Lemma get_le_bytes n x : (n <= 8)%nat -> get_octets (le_bytes n x) 0 0 = x mod 256 ^ Z.of_nat n.
Proof.
  intros Hn. rewrite get_octets_ok; [|apply le_bytes_is_byte|cbn; lia|lia|unfold zlen; rewrite length_le_bytes; lia].
  rewrite le_Z_bytes. change (2 ^ 0) with 1. lia.
Qed.

(** the two halves read from the octets, and their first octet *)
Lemma halves_read k c :
  take 8 (reverse (be_bytes (8 + k) c)) = le_bytes 8 c /\
  take 8 (drop 8 (reverse (be_bytes (8 + k) c))) = le_bytes (8 `min` k) (c / 2 ^ 64).
Proof.
  unfold be_bytes. rewrite reverse_involutive, le_bytes_app. change (256 ^ Z.of_nat 8) with (2 ^ 64). split.
  - by rewrite take_app_length' by (by rewrite length_le_bytes).
  - rewrite drop_app_length' by (by rewrite length_le_bytes). destruct (decide (k <= 8)%nat) as [Hk|Hk].
    + rewrite Nat.min_r, take_ge by (try rewrite length_le_bytes; lia). done.
    + rewrite Nat.min_l by lia. replace k with (8 + (k - 8))%nat by lia. rewrite le_bytes_app.
      by rewrite take_app_length' by (by rewrite length_le_bytes).
Qed.

Lemma sign_octet n c :
  fits (Z.of_nat (S n)) c = true -> negb (Z.land ((c / 256 ^ Z.of_nat n) mod 256) 128 =? 0) = (c <? 0).
Proof.
  unfold fits. intros Hf. rewrite top_bit by (unfold is_byte, in_range; apply Z.mod_pos_bound; lia).
  assert (0 < 256 ^ Z.of_nat n) as Hp by (apply Z.pow_pos_nonneg; lia).
  assert (2 ^ (8 * Z.of_nat (S n) - 1) = 128 * 256 ^ Z.of_nat n) as E.
  { change 256 with (2 ^ 8). change 128 with (2 ^ 7). rewrite <- Z.pow_mul_r, <- Z.pow_add_r by lia. f_equal. lia. }
  rewrite E in Hf. pose proof (Z.div_mod c (256 ^ Z.of_nat n) ltac:(lia)). pose proof (Z.mod_pos_bound c (256 ^ Z.of_nat n) Hp).
  set (q := c / 256 ^ Z.of_nat n) in *. destruct (Z.ltb_spec c 0).
  - assert (-128 <= q < 0) by nia. rewrite <- (Z_mod_plus_full q 1), Z.mod_small by lia. lia.
  - assert (0 <= q < 128) by nia. rewrite Z.mod_small by lia. lia.
Qed.

(** sign extension of the upper half *)
Lemma extend_high k q :
  0 <= k <= 7 -> - 2 ^ (8 * k) <= 2 * q < 0 ->
  Z.lor (q mod 256 ^ k) (u64 (Z.shiftl (2 ^ 64 - 1) (k * 8))) = q + 2 ^ 64.
Proof.
  intros Hk Hq. assert (256 ^ k = 2 ^ (8 * k)) as E by (change 256 with (2 ^ 8); by rewrite <- Z.pow_mul_r by lia).
  assert (0 < 2 ^ (8 * k)) as Hp by (apply Z.pow_pos_nonneg; lia).
  assert (2 ^ 64 = 2 ^ (64 - 8 * k) * 2 ^ (8 * k)) as E64 by (rewrite <- Z.pow_add_r by lia; f_equal; lia).
  assert (1 <= 2 ^ (64 - 8 * k)) by (pose proof (Z.pow_pos_nonneg 2 (64 - 8 * k)); lia).
  assert (u64 (Z.shiftl (2 ^ 64 - 1) (k * 8)) = Z.shiftl (2 ^ (64 - 8 * k) - 1) (8 * k)) as ->.
  { rewrite !Z.shiftl_mul_pow2 by lia. unfold wrap. replace (k * 8) with (8 * k) by lia.
    replace ((2 ^ 64 - 1) * 2 ^ (8 * k)) with ((2 ^ (64 - 8 * k) - 1) * 2 ^ (8 * k) + (2 ^ (8 * k) - 1) * 2 ^ 64) by nia.
    rewrite Z_mod_plus_full, Z.mod_small by nia. done. }
  rewrite E, lor_add by (try apply Z.mod_pos_bound; lia).
  rewrite <- (Z_mod_plus_full q 1), (Z.mod_small (q + _)) by lia. nia.
Qed.

(** the upper half of a negative coefficient of [8 + k] octets, sign extended *)
Lemma negative_high k c :
  (1 <= k <= 9)%nat -> fits (Z.of_nat (8 + k)) c = true -> - 2 ^ 128 < c < 0 ->
  let hi := (c / 2 ^ 64) mod 256 ^ Z.of_nat (8 `min` k) in
  (if Z.of_nat (8 + k) <? 8 * 2 then Z.lor hi (u64 (Z.shiftl (2 ^ 64 - 1) ((Z.of_nat (8 + k) - 8) * 8))) else hi)
  = c / 2 ^ 64 + 2 ^ 64.
Proof.
  intros Hk Hf Hc hi. pose proof (Z.div_mod c (2 ^ 64) ltac:(lia)). pose proof (Z.mod_pos_bound c (2 ^ 64) ltac:(lia)).
  set (q := c / 2 ^ 64) in *. destruct (Z.ltb_spec (Z.of_nat (8 + k)) (8 * 2)) as [Hlt|Hge].
  - replace (Z.of_nat (8 + k) - 8) with (Z.of_nat k) by lia. unfold hi. rewrite Nat.min_r by lia.
    apply extend_high; [lia|]. unfold fits in Hf.
    assert (2 ^ (8 * Z.of_nat (8 + k) - 1) = 2 ^ 64 * 2 ^ (8 * Z.of_nat k - 1)) as E
      by (rewrite <- Z.pow_add_r by lia; f_equal; lia).
    assert (2 ^ (8 * Z.of_nat k) = 2 * 2 ^ (8 * Z.of_nat k - 1)) as E'
      by (rewrite <- Z.pow_succ_r by lia; f_equal; lia).
    rewrite E in Hf. lia.
  - unfold hi. rewrite Nat.min_l by lia. change (256 ^ Z.of_nat 8) with (2 ^ 64).
    assert (- 2 ^ 64 <= q < 0) by lia. rewrite <- (Z_mod_plus_full q 1), Z.mod_small by lia. lia.
Qed.

Lemma decode_coefficient_ok k c :
  (1 <= k <= 9)%nat -> fits (Z.of_nat (8 + k)) c = true -> Z.abs c < 2 ^ 128 ->
  decode_coefficient (be_bytes (8 + k) c) = Ok (c <? 0, Z.abs c / 2 ^ 64, Z.abs c mod 2 ^ 64).
Proof.
  intros Hk Hf Hc. unfold decode_coefficient. destruct (halves_read k c) as [-> ->].
  rewrite !get_le_bytes by lia. change (256 ^ Z.of_nat 8) with (2 ^ 64).
  pose proof (be_bytes_S (7 + k) c) as Hb. change (S (7 + k)) with (8 + k)%nat in Hb.
  rewrite zlen_be_bytes, Hb. cbn [next mbind res_bind]. rewrite sign_octet by done.
  pose proof (Z.div_mod c (2 ^ 64) ltac:(lia)) as Hd. pose proof (Z.mod_pos_bound c (2 ^ 64) ltac:(lia)) as Hm.
  destruct (Z.ltb_spec c 0) as [Hn|Hp].
  - replace (8 <=? Z.of_nat (8 + k)) with true by (symmetry; apply Z.leb_le; lia). rewrite orb_true_r. cbn [assert_that mbind res_bind].
    rewrite negative_high by (done || lia). unfold wrap, not64. set (q := c / 2 ^ 64) in *. set (r := c mod 2 ^ 64) in *.
    clearbody q r. rewrite Z.abs_neq by lia. destruct (decide (r = 0)) as [E|E].
    + rewrite E. change ((2 ^ 64 - 1 - 0 + 1) mod 2 ^ 64) with 0. cbn [Z.eqb negb orb].
      replace (2 ^ 64 - 1 - (q + 2 ^ 64) + 1) with (- q) by lia.
      assert (c = q * 2 ^ 64) as -> by lia. rewrite <- Z.mul_opp_l, Z.div_mul, Z_mod_mult by lia.
      destruct (Z.eqb_spec (- q mod 2 ^ 64) 0) as [Eq|Eq]; cbn.
      * exfalso. apply Z.mod_divide in Eq as [m Hm']; [|lia]. assert (0 < m < 1) by nia. lia.
      * rewrite Z.mod_small in * by lia. done.
    + rewrite (Z.mod_small (2 ^ 64 - 1 - r + 1)) by lia. replace (2 ^ 64 - 1 - r + 1 =? 0) with false by lia. cbn.
      do 3 f_equal; [f_equal|]; [apply (Z.div_unique _ _ _ (2 ^ 64 - r))|apply (Z.mod_unique _ _ (- q - 1))]; lia.
  - rewrite Z.abs_eq by lia. do 3 f_equal. f_equal. rewrite Z.mod_small; [done|].
    split; [apply Z.div_pos; lia|]. apply Z.div_lt_upper_bound; [lia|].
    destruct (decide (k <= 8)%nat).
    + rewrite Nat.min_r by lia. apply andb_true_iff in Hf as [_ Hf%Z.ltb_lt]. eapply Z.lt_le_trans; [exact Hf|].
      change 256 with (2 ^ 8). rewrite <- Z.pow_mul_r, <- Z.pow_add_r by lia. apply Z.pow_le_mono_r; lia.
    + rewrite Nat.min_l by lia. change (2 ^ 64 * 256 ^ Z.of_nat 8) with (2 ^ 128). lia.
Qed.

Lemma peek_enc_int v rest : peek_type (enc_int v ++ rest) = Ok int_.
Proof.
  unfold enc_int. destruct ((0 <=? v) && (v <=? 63)) eqn:Ep; [|destruct ((-16 <=? v) && (v <=? -1)) eqn:En];
    [| |done]; cbn [app]; head_cases; done.
Qed.

Lemma triple_of_small v e :
  int64 (coefficient v) -> exponent v = e -> triple_of_int (coefficient v) e = v.
Proof using TO.
  intros Hc <-. rewrite triple_int by (done || apply triple_exponent). destruct (coefficient_parts v) as (Hh & Hl & Hs).
  unfold int64 in Hc. rewrite Z.div_small, Z.mod_small in * by lia. rewrite Hs, Hl.
  rewrite Hh at 1. apply triple_eta.
Qed.

(** a negative coefficient of the full width has a non-zero octet below its sign octet *)
Lemma below_sign_octet c :
  - 2 ^ 128 < c < 0 -> existsb (fun x => negb (x =? 0)) (be_bytes 16 c) = true.
Proof.
  intros Hc. destruct (existsb _ _) eqn:E; [done|exfalso]. unfold be_bytes in E.
  assert (Forall (fun x => x = 0) (le_bytes 16 c)) as H0.
  { apply Forall_forall. intros x Hx. destruct (Z.eqb_spec x 0) as [|Hn]; [done|].
    assert (existsb (fun x => negb (x =? 0)) (reverse (le_bytes 16 c)) = true) as E'; [|congruence].
    apply existsb_exists. exists x. split; [by apply list_elem_of_In, elem_of_reverse|lia]. }
  assert (le_Z (le_bytes 16 c) = 0) as Hz.
  { clear E. induction H0 as [|x l -> _ IH]; cbn [le_Z]; [done|]. rewrite IH. done. }
  rewrite le_Z_bytes in Hz. change (256 ^ Z.of_nat 16) with (2 ^ 128) in Hz.
  rewrite <- (Z_mod_plus_full c 1), Z.mod_small in Hz by lia. lia.
Qed.

Lemma read_decimal_coefficient_ok n c rest :
  9 <= n <= 17 -> fits n c = true -> Z.abs c < 2 ^ 128 ->
  read_decimal_coefficient (ubytes n ++ be_bytes (Z.to_nat n) c ++ rest) = Ok (be_bytes (Z.to_nat n) c, rest).
Proof.
  intros Hn Hf Hc. unfold read_decimal_coefficient. rewrite read_uint_ok by (unfold in_range; lia). cbn [mbind res_bind].
  change max_decimal_coefficient_size with 17. replace ((n =? 0) || (17 <? n)) with false by lia.
  rewrite read_bytes_ok by (rewrite zlen_be_bytes; lia). cbn [mbind res_bind].
  destruct (Z.eqb_spec n 17) as [->|]; [|done]. cbn [negb]. change (Z.to_nat 17) with 17%nat.
  rewrite (be_bytes_S 16). cbn [next mbind res_bind]. change (256 ^ Z.of_nat 16) with (2 ^ 128).
  destruct (decide (c < 0)).
  - assert (c / 2 ^ 128 = -1) as -> by (symmetry; apply (Z.div_unique _ _ _ (c + 2 ^ 128)); lia).
    change (-1 mod 256) with 255. cbn [Z.eqb Pos.eqb andb]. by rewrite below_sign_octet by lia.
  - by rewrite Z.div_small by lia.
Qed.

Lemma read_decimal_ok v rest : read_decimal (enc_decimal v ++ rest) = Ok (v, rest).
Proof using TO.
  pose proof (triple_exponent v) as He. unfold enc_decimal, read_decimal.
  destruct ((- 2 ^ 63 <=? coefficient v) && (coefficient v <? 2 ^ 63)) eqn:Hs.
  - assert (int64 (coefficient v)) as Hc by (unfold int64; lia). destruct (Z.eqb_spec (exponent v) 0) as [E|E].
    + rewrite peek_enc_int. cbn [mbind res_bind]. rewrite bool_decide_true by done.
      rewrite read_int_ok by done. cbn [mbind res_bind]. by rewrite triple_of_small.
    + cbn [app]. change (peek_type (header_decimal_compact :: _)) with (Ok decimal). cbn [mbind res_bind].
      rewrite bool_decide_false by done. run_in. rewrite Z.eqb_refl. run_in. by rewrite triple_of_small.
  - destruct (octets_needed_range _ (coefficient_range v)) as [Hn Hf]. set (n := octets_needed (coefficient v)) in *.
    cbn [app]. change (peek_type (header_decimal :: _)) with (Ok decimal). cbn [mbind res_bind].
    rewrite bool_decide_false by done. run_in. change (header_decimal =? header_decimal_compact) with false.
    rewrite Z.eqb_refl. run_in. rewrite read_decimal_coefficient_ok by (done || apply coefficient_range). run_in.
    pose proof (decode_coefficient_ok (Z.to_nat (n - 8)) (coefficient v)) as Hd.
    replace (8 + Z.to_nat (n - 8))%nat with (Z.to_nat n) in Hd by lia. rewrite Z2Nat.id in Hd by lia.
    rewrite Hd by (done || lia || apply coefficient_range). run_in. destruct (coefficient_parts v) as (-> & -> & Hsg).
    replace (if coefficient v <? 0 then -1 else 1) with (sign v)
      by (rewrite <- Hsg; destruct (Z.ltb_spec (coefficient v) 0); lia). by rewrite triple_eta.
Qed.

(** A decimal whose coefficient is negative and shorter than 8 octets is not
    rejected: reading it reaches the sign extension whose assertion requires at least
    8 octets (with assertions off the shift amount underflows).  The size check of the
    reader only excludes 0 and more than 17 octets, so such input comes through. *)
Theorem short_negative_decimal e first l rest :
  int32 e -> 128 <= first < 256 -> zlen l < 7 ->
  read_decimal (header_decimal :: sbytes e ++ ubytes (1 + zlen l) ++ (first :: l) ++ rest) = Undefined.
Proof using T.
  intros He Hf Hl. pose proof (zlen_nonneg l). unfold read_decimal.
  change (peek_type (header_decimal :: _)) with (Ok decimal). cbn [mbind res_bind].
  rewrite bool_decide_false by done. run_in. change (header_decimal =? header_decimal_compact) with false.
  rewrite Z.eqb_refl. run_in. unfold read_decimal_coefficient.
  rewrite read_uint_ok by (unfold in_range; lia). cbn [mbind res_bind].
  change max_decimal_coefficient_size with 17. replace ((1 + zlen l =? 0) || (17 <? 1 + zlen l)) with false by lia.
  pose proof (read_bytes_ok (first :: l) (1 + zlen l) rest (zlen_cons first l)) as Hr. cbn [app] in Hr.
  rewrite Hr. cbn [mbind res_bind]. replace (1 + zlen l =? 17) with false by lia. cbn [negb mbind res_bind].
  unfold decode_coefficient. cbn [next mbind res_bind].
  rewrite top_bit by (unfold is_byte, in_range; lia). replace (128 <=? first) with true by lia.
  rewrite zlen_cons. replace (negb (1 + zlen l <? 8 * 2) || (8 <=? 1 + zlen l)) with false by lia. done.
Qed.

End Specs.
End ValueInput.
