(* ===== verification/ValueWriter.v ===== *)
(** The value writer of mock/jogasaki/serializer/value_writer.h over the functions of
    value_output.cpp, and the round trip of a sequence of entries.

    The writer owns a buffer it only grows; every operation serializes one entry at
    its beginning and hands the bytes to the backing writer, which is the list of the
    [write] calls it received. *)
From S2P Require Import Prelude Base128 ValueIo ValueFormat ValueOutput ValueInput.

Module ValueWriter.
Import ValueOutput.

Section Writer.
Context {T : Takatori}.

Record value_writer : Type := VW { buffer_ : list byte; writes : list (list byte) }.

(** [buffer_.resize(reserve)] fills with zeros *)
Definition buffer (reserve : Z) (w : value_writer) : list byte :=
  if zlen (buffer_ w) <? reserve
  then buffer_ w ++ replicate (Z.to_nat (reserve - zlen (buffer_ w))) 0 else buffer_ w.

(** one operation: get the buffer, serialize at its beginning, check the result, and
    pass [static_cast<size_type>(std::distance(..))] bytes on ([size_type] is 32 bits) *)
Definition write_with (reserve : Z) (ser : out -> res (bool * out)) (w : value_writer) : res value_writer :=
  let buf := buffer reserve w in
  '(ret, iter) ← ser (Out [] (zlen buf));
  _ ← assert_that ret;
  buf ← store buf 0 (written iter);
  let write_size := u32 (zlen (written iter)) in
  Ok (VW buf (writes w ++ [take (Z.to_nat write_size) buf])).

Definition default_reserve : Z := 1024.

Definition write_end_of_contents : value_writer -> res value_writer :=
  write_with default_reserve ValueOutput.write_end_of_contents.
Definition write_null : value_writer -> res value_writer := write_with default_reserve ValueOutput.write_null.
Definition write_int (value : Z) : value_writer -> res value_writer :=
  write_with default_reserve (ValueOutput.write_int value).
Definition write_float4 (bits : Z) : value_writer -> res value_writer :=
  write_with default_reserve (ValueOutput.write_float4 bits).
Definition write_float8 (bits : Z) : value_writer -> res value_writer :=
  write_with default_reserve (ValueOutput.write_float8 bits).
Definition write_decimal (value : Triple) : value_writer -> res value_writer :=
  write_with default_reserve (ValueOutput.write_decimal value).
Definition write_character (value : list byte) : value_writer -> res value_writer :=
  write_with (zlen value + 10) (ValueOutput.write_character value).
Definition write_octet (value : list byte) : value_writer -> res value_writer :=
  write_with (zlen value + 10) (ValueOutput.write_octet value).
Definition write_bit (value : Bitset) : value_writer -> res value_writer :=
  write_with (block_size value + 10) (ValueOutput.write_bit value).
Definition write_bit_blocks (blocks : list byte) (number_of_bits : Z) : value_writer -> res value_writer :=
  write_with (zlen blocks + 16) (ValueOutput.write_bit_blocks blocks number_of_bits).
Definition write_date (value : Date) : value_writer -> res value_writer :=
  write_with default_reserve (ValueOutput.write_date value).
Definition write_time_of_day (value : TimeOfDay) : value_writer -> res value_writer :=
  write_with default_reserve (ValueOutput.write_time_of_day value).
Definition write_time_of_day_with_offset (value : TimeOfDay) (timezone_offset : Z) : value_writer -> res value_writer :=
  write_with default_reserve (ValueOutput.write_time_of_day_with_offset value timezone_offset).
Definition write_time_point (value : TimePoint) : value_writer -> res value_writer :=
  write_with default_reserve (ValueOutput.write_time_point value).
Definition write_time_point_with_offset (value : TimePoint) (timezone_offset : Z) : value_writer -> res value_writer :=
  write_with default_reserve (ValueOutput.write_time_point_with_offset value timezone_offset).
Definition write_datetime_interval (value : Interval) : value_writer -> res value_writer :=
  write_with default_reserve (ValueOutput.write_datetime_interval value).
Definition write_array_begin (size : Z) : value_writer -> res value_writer :=
  write_with default_reserve (ValueOutput.write_array_begin size).
Definition write_row_begin (size : Z) : value_writer -> res value_writer :=
  write_with default_reserve (ValueOutput.write_row_begin size).
Definition write_blob (provider object_id : Z) : value_writer -> res value_writer :=
  write_with default_reserve (ValueOutput.write_blob provider object_id).
Definition write_clob (provider object_id : Z) : value_writer -> res value_writer :=
  write_with default_reserve (ValueOutput.write_clob provider object_id).

(** every operation, by the entry it writes *)
Definition put (e : entry) : value_writer -> res value_writer :=
  match e with
  | E_end => write_end_of_contents
  | E_null => write_null
  | E_int v => write_int v
  | E_float4 bits => write_float4 bits
  | E_float8 bits => write_float8 bits
  | E_decimal v => write_decimal v
  | E_character v => write_character v
  | E_octet v => write_octet v
  | E_bit v => write_bit v
  | E_bit_blocks blocks n => write_bit_blocks blocks n
  | E_date v => write_date v
  | E_time_of_day v => write_time_of_day v
  | E_time_of_day_with_offset v z => write_time_of_day_with_offset v z
  | E_time_point v => write_time_point v
  | E_time_point_with_offset v z => write_time_point_with_offset v z
  | E_datetime_interval v => write_datetime_interval v
  | E_array size => write_array_begin size
  | E_row size => write_row_begin size
  | E_blob p i => write_blob p i
  | E_clob p i => write_clob p i
  end.

Fixpoint put_all (es : list entry) (w : value_writer) : res value_writer :=
  match es with
  | [] => Ok w
  | e :: es => w ← put e w; put_all es w
  end.

(** ** The reader's side: entries read by the types the reader expects *)

Inductive kind : Type :=
| K_end | K_null | K_int | K_float4 | K_float8 | K_decimal | K_character | K_octet | K_bit | K_date
| K_time_of_day | K_time_of_day_with_offset | K_time_point | K_time_point_with_offset | K_datetime_interval
| K_array | K_row.

Definition read_entry (k : kind) (bs : list byte) : res (entry * list byte) :=
  match k with
  | K_end => '(_, bs) ← ValueInput.read_end_of_contents bs; Ok (E_end, bs)
  | K_null => '(_, bs) ← ValueInput.read_null bs; Ok (E_null, bs)
  | K_int => '(v, bs) ← ValueInput.read_int bs; Ok (E_int v, bs)
  | K_float4 => '(v, bs) ← ValueInput.read_float4 bs; Ok (E_float4 v, bs)
  | K_float8 => '(v, bs) ← ValueInput.read_float8 bs; Ok (E_float8 v, bs)
  | K_decimal => '(v, bs) ← ValueInput.read_decimal bs; Ok (E_decimal v, bs)
  | K_character => '(v, bs) ← ValueInput.read_character bs; Ok (E_character v, bs)
  | K_octet => '(v, bs) ← ValueInput.read_octet bs; Ok (E_octet v, bs)
  | K_bit => '(v, bs) ← ValueInput.read_bit bs; Ok (E_bit v, bs)
  | K_date => '(v, bs) ← ValueInput.read_date bs; Ok (E_date v, bs)
  | K_time_of_day => '(v, bs) ← ValueInput.read_time_of_day bs; Ok (E_time_of_day v, bs)
  | K_time_of_day_with_offset =>
      '((v, z), bs) ← ValueInput.read_time_of_day_with_offset bs; Ok (E_time_of_day_with_offset v z, bs)
  | K_time_point => '(v, bs) ← ValueInput.read_time_point bs; Ok (E_time_point v, bs)
  | K_time_point_with_offset =>
      '((v, z), bs) ← ValueInput.read_time_point_with_offset bs; Ok (E_time_point_with_offset v z, bs)
  | K_datetime_interval => '(v, bs) ← ValueInput.read_datetime_interval bs; Ok (E_datetime_interval v, bs)
  | K_array => '(n, bs) ← ValueInput.read_array_begin bs; Ok (E_array n, bs)
  | K_row => '(n, bs) ← ValueInput.read_row_begin bs; Ok (E_row n, bs)
  end.

Fixpoint read_entries (ks : list kind) (bs : list byte) : res (list entry * list byte) :=
  match ks with
  | [] => Ok ([], bs)
  | k :: ks => '(e, bs) ← read_entry k bs; '(es, bs) ← read_entries ks bs; Ok (e :: es, bs)
  end.

(** the kind to read an entry with: large objects have no reader *)
Definition kind_of (e : entry) : option kind :=
  match e with
  | E_end => Some K_end | E_null => Some K_null | E_int _ => Some K_int
  | E_float4 _ => Some K_float4 | E_float8 _ => Some K_float8 | E_decimal _ => Some K_decimal
  | E_character _ => Some K_character | E_octet _ => Some K_octet
  | E_bit _ | E_bit_blocks _ _ => Some K_bit
  | E_date _ => Some K_date | E_time_of_day _ => Some K_time_of_day
  | E_time_of_day_with_offset _ _ => Some K_time_of_day_with_offset
  | E_time_point _ => Some K_time_point | E_time_point_with_offset _ _ => Some K_time_point_with_offset
  | E_datetime_interval _ => Some K_datetime_interval
  | E_array _ => Some K_array | E_row _ => Some K_row
  | E_blob _ _ | E_clob _ _ => None
  end.

(** what is read back: bit strings lose the padding bits of their last block *)
Definition normalize (e : entry) : entry :=
  match e with
  | E_bit v => E_bit (bitset_of (clear_padding (bit_size v) (block_data v)) (bit_size v))
  | E_bit_blocks l n => E_bit (bitset_of (clear_padding n l) n)
  | e => e
  end.

End Writer.

Section Correct.
Context {T : Takatori} {TO : TakatoriOk T}.

Lemma read_entry_ok e k rest :
  entry_wf e -> kind_of e = Some k -> read_entry k (encode e ++ rest) = Ok (normalize e, rest).
Proof using TO.
  intros Hwf Hk. destruct (ValueInput.read_fixed_specs rest) as (F1 & F2 & F3 & F4).
  assert (int32 0) as H0 by (unfold int32; lia).
  destruct (ValueInput.read_temporal_specs rest 0 H0) as (T1 & T2 & _ & T4 & _ & T6).
  destruct e; cbn [kind_of] in Hk; simplify_eq; cbn [entry_wf read_entry normalize] in *.
  - by rewrite F1.
  - by rewrite F2.
  - change (encode (E_int v)) with (enc_int v). by rewrite ValueInput.read_int_ok.
  - by rewrite F3.
  - by rewrite F4.
  - change (encode (E_decimal v)) with (enc_decimal v). by rewrite ValueInput.read_decimal_ok.
  - by rewrite ValueInput.read_character_ok.
  - by rewrite ValueInput.read_octet_ok.
  - change (encode (E_bit v)) with (enc_bit (bit_size v) (block_data v)).
    pose proof (bitset_width v) as [? _]. pose proof (bitset_blocks v). by rewrite ValueInput.read_bit_ok by lia.
  - change (encode (E_bit_blocks blocks number_of_bits)) with (enc_bit number_of_bits blocks).
    destruct Hwf as (_ & ? & ?). by rewrite ValueInput.read_bit_ok by (done || apply blocks_of_bits; lia).
  - by rewrite T1.
  - by rewrite T2.
  - destruct (ValueInput.read_temporal_specs rest timezone_offset Hwf) as (_ & _ & H & _). by rewrite H.
  - by rewrite T4.
  - destruct (ValueInput.read_temporal_specs rest timezone_offset Hwf) as (_ & _ & _ & _ & H & _). by rewrite H.
  - by rewrite T6.
  - by rewrite ValueInput.read_array_begin_ok.
  - by rewrite ValueInput.read_row_begin_ok.
Qed.

Lemma read_entries_ok es ks rest :
  Forall entry_wf es -> mapM kind_of es = Some ks ->
  read_entries ks (concat (map encode es) ++ rest) = Ok (map normalize es, rest).
Proof using TO.
  intros Hwf Hk. apply mapM_Some in Hk. revert Hwf. induction Hk as [|e k es ks Hk _ IH]; intros Hwf; [done|].
  apply Forall_cons in Hwf as [He Hwf]. cbn [map concat read_entries]. rewrite <- app_assoc.
  rewrite (read_entry_ok e k) by done. cbn [mbind res_bind]. by rewrite IH.
Qed.

(** ** The buffer is always large enough *)

Definition reserve_of (e : entry) : Z :=
  match e with
  | E_character v | E_octet v => zlen v + 10
  | E_bit v => block_size v + 10
  | E_bit_blocks l _ => zlen l + 16
  | _ => default_reserve
  end.

Lemma put_write_with e : put e = write_with (reserve_of e) (write_entry e).
Proof. by destruct e. Qed.

Lemma ubytes_short v : in_range 64 v -> 1 <= zlen (ubytes v) <= 9.
Proof. intros. rewrite zlen_ubytes by done. apply Base128.size_unsigned_range. Qed.
Lemma sbytes_short v : int64 v -> 1 <= zlen (sbytes v) <= 9.
Proof. intros. apply ubytes_short. by apply Base128.encode_signed_range. Qed.
Lemma enc_size_short embed header max size : in_range 64 size -> 1 <= zlen (enc_size embed header max size) <= 10.
Proof.
  intros Hs. unfold enc_size. destruct (_ && _); rewrite zlen_cons; [change (zlen []) with 0; lia|]. pose proof (ubytes_short size Hs). lia.
Qed.
Lemma enc_int_short v : int64 v -> 1 <= zlen (enc_int v) <= 10.
Proof.
  intros Hv. unfold enc_int. repeat case_match; rewrite zlen_cons; [change (zlen []) with 0; lia..|]. pose proof (sbytes_short v Hv). lia.
Qed.
Lemma enc_decimal_short v : 1 <= zlen (enc_decimal v) <= 36.
Proof using TO.
  unfold enc_decimal. pose proof (sbytes_short (exponent v) (int32_int64 _ (triple_exponent v))).
  destruct ((- 2 ^ 63 <=? coefficient v) && (coefficient v <? 2 ^ 63)) eqn:E.
  - assert (int64 (coefficient v)) as Hc by (unfold int64; lia). pose proof (sbytes_short _ Hc).
    destruct (exponent v =? 0); [pose proof (enc_int_short _ Hc); lia|]. rewrite zlen_cons, zlen_app. lia.
  - destruct (octets_needed_range _ (coefficient_range v)) as [Hn _]. rewrite zlen_cons, !zlen_app, zlen_be_bytes.
    pose proof (ubytes_short (octets_needed (coefficient v)) ltac:(unfold in_range; lia)). lia.
Qed.
Lemma enc_bit_short n l :
  in_range 64 n -> (n + 7) / 8 <= zlen l -> 1 <= zlen (enc_bit n l) <= (n + 7) / 8 + 10.
Proof.
  intros Hn Hl. unfold enc_bit. pose proof (enc_size_short header_embed_bit header_bit 8 n Hn).
  assert (0 <= n) by (destruct Hn; lia). pose proof (Z.div_pos (n + 7) 8).
  rewrite zlen_app, clear_padding_length by done. lia.
Qed.

Ltac field_lengths :=
  try match goal with
    | v : Date |- _ => pose proof (date_width v)
    | v : TimeOfDay |- _ => pose proof (time_of_day_width v)
    | v : TimePoint |- _ => pose proof (time_point_width v)
    | v : Interval |- _ => pose proof (interval_width v)
    end; destruct_and?;
  repeat match goal with
    | H : int32 ?x |- _ => apply int32_int64, sbytes_short in H
    | H : int64 ?x |- _ => apply sbytes_short in H
    | H : in_range 64 ?x |- _ => apply ubytes_short in H
    end; rewrite ?zlen_cons, ?zlen_app, ?zlen_be_bytes, ?zlen_nil; unfold default_reserve; lia.

Lemma encode_length e : entry_wf e -> zlen (encode e) <= reserve_of e /\ zlen (encode e) < 2 ^ 32.
Proof using TO.
  intros Hwf. destruct e; cbn [entry_wf encode reserve_of] in *; unfold limit_size in *;
    try field_lengths.
  - pose proof (enc_int_short v Hwf). unfold default_reserve. lia.
  - pose proof (enc_decimal_short v). unfold default_reserve. lia.
  - rewrite zlen_app. pose proof (zlen_nonneg v).
    pose proof (enc_size_short header_embed_character header_character 64 (zlen v) ltac:(unfold in_range; lia)). lia.
  - rewrite zlen_app. pose proof (zlen_nonneg v).
    pose proof (enc_size_short header_embed_octet header_octet 16 (zlen v) ltac:(unfold in_range; lia)). lia.
  - pose proof (bitset_width v) as Hw. pose proof (bitset_blocks v) as Hb. unfold block_size.
    pose proof (enc_bit_short (bit_size v) (block_data v) Hw ltac:(lia)).
    assert ((bit_size v + 7) / 8 < 2 ^ 31); [|lia]. apply Z.div_lt_upper_bound; lia.
  - destruct Hwf as (_ & Hn & Hb). pose proof (blocks_of_bits number_of_bits blocks ltac:(lia)).
    pose proof (enc_bit_short number_of_bits blocks ltac:(unfold in_range; lia) ltac:(lia)).
    assert ((number_of_bits + 7) / 8 < 2 ^ 31); [|lia]. apply Z.div_lt_upper_bound; lia.
  - pose proof (enc_size_short header_embed_array header_array 32 size ltac:(unfold in_range; lia)).
    unfold default_reserve. lia.
  - pose proof (enc_size_short header_embed_row header_row 32 size ltac:(unfold in_range; lia)).
    unfold default_reserve. lia.
Qed.

Lemma buffer_length reserve w : reserve <= zlen (buffer reserve w) /\ 0 <= zlen (buffer reserve w).
Proof.
  split; [|apply zlen_nonneg]. unfold buffer. destruct (Z.ltb_spec (zlen (buffer_ w)) reserve); [|lia].
  rewrite zlen_app. unfold zlen at 2. rewrite length_replicate. lia.
Qed.

(** one operation passes exactly the encoding on *)
Lemma put_ok e w : entry_wf e -> exists buf, put e w = Ok (VW buf (writes w ++ [encode e])).
Proof using TO.
  intros Hwf. destruct (encode_length e Hwf) as [Hl H32]. rewrite put_write_with. unfold write_with.
  destruct (buffer_length (reserve_of e) w) as [Hb Hb0]. set (buf := buffer (reserve_of e) w) in *.
  rewrite write_entry_emit by done. unfold emit. cbn [room]. replace (zlen buf <? zlen (encode e)) with false by lia.
  cbn [mbind res_bind assert_that push written app]. destruct (store_is_Ok buf 0 (encode e) ltac:(lia) ltac:(lia)) as [buf' Hs].
  rewrite Hs. cbn [mbind res_bind]. exists buf'. rewrite wrap_small by (split; [apply zlen_nonneg|done]).
  rewrite store_Ok in Hs by lia. injection Hs as <-. do 4 f_equal. cbn [take app].
  unfold zlen. rewrite Nat2Z.id. by rewrite take_app_length.
Qed.

Lemma put_all_ok es w :
  Forall entry_wf es -> exists w', put_all es w = Ok w' /\ writes w' = writes w ++ map encode es.
Proof using TO.
  intros Hwf. revert w. induction Hwf as [|e es He _ IH]; intros w; cbn [put_all map].
  - exists w. by rewrite app_nil_r.
  - destruct (put_ok e w He) as [buf ->]. cbn [mbind res_bind].
    destruct (IH (VW buf (writes w ++ [encode e]))) as (w' & -> & Hw). exists w'. split; [done|]. rewrite Hw. cbn [writes]. by rewrite <- app_assoc.
Qed.

(** C29: every entry written through the value writer is read back.  Writing any
    sequence of values of their C++ types succeeds with no assertion failing and no
    size truncated, whatever was written before; the bytes handed to the backing
    writer are the encodings in order; and reading that stream by the kinds of the
    entries gives the same entries back and leaves what follows (bit strings come back
    with the padding bits of their last block cleared; large objects have no reader). *)
Theorem value_stream_roundtrip es w ks rest :
  Forall entry_wf es -> mapM kind_of es = Some ks ->
  exists w', put_all es w = Ok w' /\ writes w' = writes w ++ map encode es /\
    read_entries ks (concat (map encode es) ++ rest) = Ok (map normalize es, rest).
Proof using TO.
  intros Hwf Hk. destruct (put_all_ok es w Hwf) as (w' & Hp & Hw). exists w'. split_and!; try done.
  by apply read_entries_ok.
Qed.

End Correct.

(** ** A concrete instance of the value classes *)

Module Demo.

Definition refined {A} (p : A -> bool) : Type := { a : A | Is_true (p a) }.
Definition refine_to {A} (p : A -> bool) (d : refined p) (a : A) : refined p :=
  match decide (Is_true (p a)) with left H => exist _ a H | right _ => d end.
Lemma refine_eta {A} (p : A -> bool) d x : refine_to p d (proj1_sig x) = x.
Proof.
  unfold refine_to. destruct x as [a Ha]. cbn. destruct (decide (Is_true (p a))) as [H|H]; [|done].
  f_equal. apply proof_irrel.
Qed.
Lemma refine_val {A} (p : A -> bool) d a : p a = true -> proj1_sig (refine_to p d a) = a.
Proof. intros Hp. unfold refine_to. destruct (decide (Is_true (p a))) as [H|H]; [done|]. by rewrite Hp in H. Qed.

Definition u64b (x : Z) : bool := (0 <=? x) && (x <? 2 ^ 64).
Definition i64b (x : Z) : bool := (- 2 ^ 63 <=? x) && (x <? 2 ^ 63).
Definition i32b (x : Z) : bool := (- 2 ^ 31 <=? x) && (x <? 2 ^ 31).
Definition tripleb (t : Z * Z * Z * Z) : bool :=
  let '(s, h, l, e) := t in
  ((s =? -1) || (s =? 0) || (s =? 1)) && eqb (s =? 0) ((h =? 0) && (l =? 0)) && u64b h && u64b l && i32b e.
Definition pointb (t : Z * Z) : bool := i64b (fst t) && u64b (snd t).
Definition intervalb (t : Z * Z * Z * Z) : bool := let '(y, m, d, o) := t in i32b y && i32b m && i32b d && i64b o.
Definition bitsetb (t : list byte * Z) : bool :=
  u64b (snd t) && (zlen (fst t) =? (snd t + 7) / 8) && forallb (fun b => (0 <=? b) && (b <? 256)) (fst t).

#[local] Instance demo : Takatori := {|
  Triple := refined tripleb;
  sign v := let '(s, _, _, _) := proj1_sig v in s;
  coefficient_high v := let '(_, h, _, _) := proj1_sig v in h;
  coefficient_low v := let '(_, _, l, _) := proj1_sig v in l;
  exponent v := let '(_, _, _, e) := proj1_sig v in e;
  triple_of_int c e := refine_to tripleb (exist _ (0, 0, 0, 0) I) (Z.sgn c, 0, Z.abs c, e);
  triple_of s h l e := refine_to tripleb (exist _ (0, 0, 0, 0) I) (s, h, l, e);
  Date := refined i64b; days_since_epoch := @proj1_sig _ _; date_of := refine_to i64b (exist _ 0 I);
  TimeOfDay := refined u64b; time_since_epoch := @proj1_sig _ _; time_of_day_of := refine_to u64b (exist _ 0 I);
  TimePoint := refined pointb; seconds_since_epoch v := fst (proj1_sig v); subsecond v := snd (proj1_sig v);
  time_point_of s n := refine_to pointb (exist _ (0, 0) I) (s, n);
  Interval := refined intervalb;
  year v := let '(y, _, _, _) := proj1_sig v in y;
  month v := let '(_, m, _, _) := proj1_sig v in m;
  day v := let '(_, _, d, _) := proj1_sig v in d;
  time_offset v := let '(_, _, _, o) := proj1_sig v in o;
  interval_of y m d o := refine_to intervalb (exist _ (0, 0, 0, 0) I) (y, m, d, o);
  Bitset := refined bitsetb; bit_size v := snd (proj1_sig v); block_data v := fst (proj1_sig v);
  last_block v := default 0 (last (fst (proj1_sig v)));
  bitset_of l n := refine_to bitsetb (exist _ ([], 0) I) (take (Z.to_nat ((n + 7) / 8)) l, n);
|}.

Ltac unpack v :=
  let H := fresh in pose proof (Is_true_eq_true _ (proj2_sig v)) as H; revert H;
  generalize (proj1_sig v); let w := fresh in intros w H; cbn in *; repeat destruct w as [w ?]; cbn in *.
Ltac eta v :=
  match goal with |- refine_to ?p ?d _ = _ =>
    transitivity (refine_to p d (proj1_sig v)); [f_equal; by unpack v|apply refine_eta] end.
Ltac ranges := unfold u64b, i64b, i32b, in_range, int64, int32 in *; lia.

Lemma bitsetb_take l n :
  in_range 64 n -> (n + 7) / 8 <= zlen l -> Forall is_byte l -> bitsetb (take (Z.to_nat ((n + 7) / 8)) l, n) = true.
Proof.
  intros Hn Hl Hb. unfold bitsetb. cbn [fst snd]. assert (0 <= (n + 7) / 8) by (destruct Hn; apply Z.div_pos; lia).
  rewrite zlen_take by lia. rewrite Z.eqb_refl, andb_true_r. apply andb_true_iff. split; [unfold u64b, in_range in *; lia|].
  apply forallb_forall. intros b Hin%list_elem_of_In. rewrite Forall_forall in Hb. apply elem_of_take in Hin as (i & Hi & _).
  specialize (Hb b ltac:(by eapply list_elem_of_lookup_2)). unfold is_byte, in_range in Hb. lia.
Qed.

#[local] Instance demo_ok : TakatoriOk demo.
Proof.
  split; cbn.
  1-5: intros v; unpack v; ranges.
  - intros v. eta v.
  - done.
  - intros v. unpack v. ranges.
  - intros v. eta v.
  - intros v. unpack v. ranges.
  - intros v. eta v.
  - intros v. unpack v. unfold pointb in *. cbn in *. ranges.
  - intros v. eta v.
  - intros v. unpack v. ranges.
  - intros v. eta v.
  - intros v. unpack v. unfold bitsetb in *. cbn in *. ranges.
  - intros v. unpack v. unfold bitsetb in *. cbn in *. lia.
  - intros v. unpack v. unfold bitsetb in *. cbn in *. apply Forall_forall. intros b Hb.
    apply andb_true_iff in H as [_ H]. rewrite forallb_forall in H. specialize (H b ltac:(by apply list_elem_of_In)).
    unfold is_byte, in_range. lia.
  - intros v Hv. destruct (last (fst (proj1_sig v))) eqn:E; [done|]. by apply last_None in E.
  - intros l n Hn Hl Hb. by rewrite refine_val by (by apply bitsetb_take).
  - intros l n Hn Hl Hb. by rewrite refine_val by (by apply bitsetb_take).
Qed.

Definition demo_entries : list (@entry demo) :=
  [E_int (-17); E_decimal (triple_of (-1) 1 0 (-3)); E_character [104; 105]; E_bit_blocks [255; 255] 11; E_end].
Definition demo_kinds : list kind := [K_int; K_decimal; K_character; K_bit; K_end].

Lemma value_stream_roundtrip_witness :
  exists w', put_all demo_entries (VW [] []) = Ok w' /\ writes w' = [] ++ map encode demo_entries /\
    read_entries demo_kinds (concat (map encode demo_entries) ++ [7]) = Ok (map normalize demo_entries, [7]).
Proof.
  apply (value_stream_roundtrip demo_entries (VW [] []) demo_kinds [7]); [|reflexivity].
  repeat constructor; vm_compute; try done; intros [=].
Defined.

Lemma value_output_format_witness :
  write_entry (@E_decimal demo (triple_of (-1) 1 0 (-3))) (Out [] 3) = Ok (false, Out [] 3) /\
  write_entry (@E_decimal demo (triple_of (-1) 1 0 (-3))) (Out [] 13) =
    Ok (true, Out [237; 5; 9; 255; 0; 0; 0; 0; 0; 0; 0; 0] 1).
Proof.
  split.
  - exact (value_output_format (@E_decimal demo (triple_of (-1) 1 0 (-3))) (Out [] 3) I ltac:(cbn; lia)).
  - exact (value_output_format (@E_decimal demo (triple_of (-1) 1 0 (-3))) (Out [] 13) I ltac:(cbn; lia)).
Defined.

Lemma short_negative_decimal_witness :
  @ValueInput.read_decimal demo [237; 0; 1; 128] = Undefined.
Proof. exact (ValueInput.short_negative_decimal (T := demo) 0 128 [] [] ltac:(unfold int32; lia) ltac:(lia) eq_refl). Defined.

End Demo.
End ValueWriter.
